(** * COCO-Dataclass: the in-memory dataset engine of [structures/]

    A shallow embedding of [structures/coco.py] and of the record classes
    it works on ([license.py], [image.py], [info.py], [category.py],
    [annotation.py], [types.py]).

    Python objects are mutable and shared: a [License] stored in a dataset
    is the same object the caller holds.  The embedding therefore keeps the
    records in a heap, one array per family of classes, and a dataset holds
    references (indices into the arrays).  Integers are [Z] (Python integers
    are unbounded), strings are [string], lists are [list].  The numeric
    payloads the engine never looks into (areas, boxes, polygons, masks) are
    integers here; floating point values are outside the embedding. *)

From stdpp Require Import base list sorting strings.
From Stdlib Require Import ZArith QArith Qround Lia.

#[local] Open Scope Z_scope.

(** ** Exceptions and results *)

Inductive exn :=
| ValueError | TypeError | StopIteration | AttributeError | KeyError
| NotImplementedError
| IllTyped.
(** [IllTyped] is not a Python exception: a constructor from a dictionary
    builds the record from whatever values the dictionary holds, and the
    embedding, whose records are typed as the dataclass fields are declared,
    stops there when a value is not of the declared type. *)

Inductive result (A : Type) :=
| Ok (a : A)
| Raise (e : exn).
Arguments Ok {A} a.
Arguments Raise {A} e.

Definition rbind {A B} (r : result A) (k : A → result B) : result B :=
  match r with Ok a => k a | Raise e => Raise e end.

Notation "'let*' x := r 'in' k" := (rbind r (λ x, k))
  (at level 10, x name, r at level 100, k at level 200, only parsing).

(** A list comprehension whose element expression may raise. *)
Fixpoint rmap {A B} (f : A → result B) (l : list A) : result (list B) :=
  match l with
  | [] => Ok []
  | x :: l' => let* y := f x in let* ys := rmap f l' in Ok (y :: ys)
  end.

(** A list comprehension whose condition may raise. *)
Fixpoint rfilter {A} (p : A → result bool) (l : list A) : result (list A) :=
  match l with
  | [] => Ok []
  | x :: l' =>
      let* b := p x in
      let* ys := rfilter p l' in
      Ok (if b then x :: ys else ys)
  end.

(** ** Built-ins *)

(** [max(xs)]: [ValueError] on an empty sequence. *)
Definition py_max (xs : list Z) : result Z :=
  match xs with
  | [] => Raise ValueError
  | x :: xs' => Ok (foldl Z.max x xs')
  end.

(** [x in xs] for integers and for strings. *)
Definition int_in (x : Z) (xs : list Z) : bool := bool_decide (x ∈ xs).
Definition str_in (x : string) (xs : list string) : bool := bool_decide (x ∈ xs).

(** [next(x for x in xs if p(x))]: [StopIteration] when nothing matches. *)
Definition py_next {A} (p : A → bool) (xs : list A) : result A :=
  match List.find p xs with
  | Some x => Ok x
  | None => Raise StopIteration
  end.

(** [list(range(n))] *)
Definition py_range (n : nat) : list Z := Z.of_nat <$> seq 0 n.

(** [zip(xs, ys)] stops at the shorter argument. *)
Fixpoint py_zip {A B} (xs : list A) (ys : list B) : list (A * B) :=
  match xs, ys with
  | x :: xs', y :: ys' => (x, y) :: py_zip xs' ys'
  | _, _ => []
  end.

(** ** Record classes *)

Definition loc := nat.

Module Info.
Record t := mk {
  year : Z; version : string; description : string;
  contributor : string; url : string; date_created : string }.
End Info.

Module License.
Record t := mk { id : Z; name : string; url : string }.
Definition set_id (v : Z) (x : t) : t := mk v (name x) (url x).
End License.

Module Image.
Record t := mk {
  id : Z; width : Z; height : Z; file_name : string; license : Z;
  flickr_url : string; coco_url : string; date_captured : string }.
Definition set_id (v : Z) (x : t) : t :=
  mk v (width x) (height x) (file_name x) (license x)
     (flickr_url x) (coco_url x) (date_captured x).
Definition set_license (v : Z) (x : t) : t :=
  mk (id x) (width x) (height x) (file_name x) v
     (flickr_url x) (coco_url x) (date_captured x).
End Image.

(** The three category classes of [category.py]; each follows the
    [Category] protocol (it has [id], [name] and [supercategory]). *)
Inductive Category :=
| ObjectDetectionCategory (id : Z) (name supercategory : string)
| KeypointDetectionCategory (id : Z) (name supercategory : string)
    (keypoints : list string) (skeleton : list Z)
| PanopticSegmentationCategory (id : Z) (name supercategory : string)
    (isthing : Z) (color : list string).

Module Cat.
Definition id (c : Category) : Z :=
  match c with
  | ObjectDetectionCategory i _ _ | KeypointDetectionCategory i _ _ _ _
  | PanopticSegmentationCategory i _ _ _ _ => i
  end.
Definition name (c : Category) : string :=
  match c with
  | ObjectDetectionCategory _ n _ | KeypointDetectionCategory _ n _ _ _
  | PanopticSegmentationCategory _ n _ _ _ => n
  end.
Definition supercategory (c : Category) : string :=
  match c with
  | ObjectDetectionCategory _ _ s | KeypointDetectionCategory _ _ s _ _
  | PanopticSegmentationCategory _ _ s _ _ => s
  end.
Definition set_id (v : Z) (c : Category) : Category :=
  match c with
  | ObjectDetectionCategory _ n s => ObjectDetectionCategory v n s
  | KeypointDetectionCategory _ n s k sk => KeypointDetectionCategory v n s k sk
  | PanopticSegmentationCategory _ n s t co => PanopticSegmentationCategory v n s t co
  end.
End Cat.

Record RLE := mkRLE { counts : list Z; size : list Z }.

Module SegmentInfo.
Record t := mk {
  id : Z; category_id : Z; area : Z; bbox : list Z; iscrowd : Z }.
Definition set_category_id (v : Z) (x : t) : t :=
  mk (id x) v (area x) (bbox x) (iscrowd x).
End SegmentInfo.

(** [segmentation: Union[List[List[float]], RLE]] *)
Inductive Segmentation :=
| Polygons (ps : list (list Z))
| Mask (rle : RLE).

(** The six annotation classes of [annotation.py].  All follow the
    [Annotation] protocol (they have [image_id]); all but the panoptic one
    have [id] ([Indexed]); the object-detection, keypoint, stuff and
    dense-pose ones have [category_id] ([Categorized]). *)
Inductive Annotation :=
| ObjectDetectionAnnotation (id image_id category_id : Z)
    (segmentation : Segmentation) (area : Z) (bbox : list Z) (iscrowd : Z)
| KeypointDetectionAnnotation (id image_id category_id : Z)
    (segmentation : Segmentation) (area : Z) (bbox : list Z) (iscrowd : Z)
    (keypoints : list Z) (num_keypoints : Z)
| StuffSegmentationAnnotation (id image_id category_id : Z)
    (segmentation : Segmentation) (area : Z) (bbox : list Z) (iscrowd : Z)
| PanopticSegmentationAnnotation (image_id : Z) (file_name : string)
    (segments_info : list SegmentInfo.t)
| ImageCaptioningAnnotation (id image_id : Z) (caption : string)
| DensePoseAnnotation (id image_id category_id is_crowd area : Z)
    (bbox dp_I dp_U dp_V dp_x dp_y : list Z) (dp_masks : list RLE).

Module Ann.
(** [annotation.id], when the object has the attribute. *)
Definition id (a : Annotation) : option Z :=
  match a with
  | ObjectDetectionAnnotation i _ _ _ _ _ _
  | KeypointDetectionAnnotation i _ _ _ _ _ _ _ _
  | StuffSegmentationAnnotation i _ _ _ _ _ _
  | ImageCaptioningAnnotation i _ _
  | DensePoseAnnotation i _ _ _ _ _ _ _ _ _ _ _ => Some i
  | PanopticSegmentationAnnotation _ _ _ => None
  end.
Definition image_id (a : Annotation) : Z :=
  match a with
  | ObjectDetectionAnnotation _ i _ _ _ _ _
  | KeypointDetectionAnnotation _ i _ _ _ _ _ _ _
  | StuffSegmentationAnnotation _ i _ _ _ _ _
  | ImageCaptioningAnnotation _ i _
  | DensePoseAnnotation _ i _ _ _ _ _ _ _ _ _ _
  | PanopticSegmentationAnnotation i _ _ => i
  end.
(** [annotation.category_id], when the object has the attribute. *)
Definition category_id (a : Annotation) : option Z :=
  match a with
  | ObjectDetectionAnnotation _ _ c _ _ _ _
  | KeypointDetectionAnnotation _ _ c _ _ _ _ _ _
  | StuffSegmentationAnnotation _ _ c _ _ _ _
  | DensePoseAnnotation _ _ c _ _ _ _ _ _ _ _ _ => Some c
  | PanopticSegmentationAnnotation _ _ _
  | ImageCaptioningAnnotation _ _ _ => None
  end.
Definition set_id (v : Z) (a : Annotation) : Annotation :=
  match a with
  | ObjectDetectionAnnotation _ i c s ar b cr =>
      ObjectDetectionAnnotation v i c s ar b cr
  | KeypointDetectionAnnotation _ i c s ar b cr k n =>
      KeypointDetectionAnnotation v i c s ar b cr k n
  | StuffSegmentationAnnotation _ i c s ar b cr =>
      StuffSegmentationAnnotation v i c s ar b cr
  | ImageCaptioningAnnotation _ i c => ImageCaptioningAnnotation v i c
  | DensePoseAnnotation _ i c cr ar b dI dU dV dx dy m =>
      DensePoseAnnotation v i c cr ar b dI dU dV dx dy m
  | PanopticSegmentationAnnotation _ _ _ => a
  end.
Definition set_image_id (v : Z) (a : Annotation) : Annotation :=
  match a with
  | ObjectDetectionAnnotation x _ c s ar b cr =>
      ObjectDetectionAnnotation x v c s ar b cr
  | KeypointDetectionAnnotation x _ c s ar b cr k n =>
      KeypointDetectionAnnotation x v c s ar b cr k n
  | StuffSegmentationAnnotation x _ c s ar b cr =>
      StuffSegmentationAnnotation x v c s ar b cr
  | ImageCaptioningAnnotation x _ c => ImageCaptioningAnnotation x v c
  | DensePoseAnnotation x _ c cr ar b dI dU dV dx dy m =>
      DensePoseAnnotation x v c cr ar b dI dU dV dx dy m
  | PanopticSegmentationAnnotation _ f s => PanopticSegmentationAnnotation v f s
  end.
Definition set_category_id (v : Z) (a : Annotation) : Annotation :=
  match a with
  | ObjectDetectionAnnotation x i _ s ar b cr =>
      ObjectDetectionAnnotation x i v s ar b cr
  | KeypointDetectionAnnotation x i _ s ar b cr k n =>
      KeypointDetectionAnnotation x i v s ar b cr k n
  | StuffSegmentationAnnotation x i _ s ar b cr =>
      StuffSegmentationAnnotation x i v s ar b cr
  | DensePoseAnnotation x i _ cr ar b dI dU dV dx dy m =>
      DensePoseAnnotation x i v cr ar b dI dU dV dx dy m
  | ImageCaptioningAnnotation _ _ _ | PanopticSegmentationAnnotation _ _ _ => a
  end.
End Ann.

(** Dataclass [__eq__]: same class and equal fields, which on these types is
    equality of the values. *)
#[global] Instance Info_eq_dec : EqDecision Info.t.
Proof. solve_decision. Defined.
#[global] Instance License_eq_dec : EqDecision License.t.
Proof. solve_decision. Defined.
#[global] Instance Image_eq_dec : EqDecision Image.t.
Proof. solve_decision. Defined.
#[global] Instance Category_eq_dec : EqDecision Category.
Proof. solve_decision. Defined.
#[global] Instance RLE_eq_dec : EqDecision RLE.
Proof. solve_decision. Defined.
#[global] Instance SegmentInfo_eq_dec : EqDecision SegmentInfo.t.
Proof. solve_decision. Defined.
#[global] Instance Segmentation_eq_dec : EqDecision Segmentation.
Proof. solve_decision. Defined.
#[global] Instance Annotation_eq_dec : EqDecision Annotation.
Proof. solve_decision. Defined.

#[global] Instance License_inhabited : Inhabited License.t :=
  populate (License.mk 0 "" "").
#[global] Instance Image_inhabited : Inhabited Image.t :=
  populate (Image.mk 0 0 0 "" 0 "" "" "").
#[global] Instance Category_inhabited : Inhabited Category :=
  populate (ObjectDetectionCategory 0 "" "").
#[global] Instance Annotation_inhabited : Inhabited Annotation :=
  populate (PanopticSegmentationAnnotation 0 "" []).

(** ** The heap and the dataset object *)

Record Heap := mkHeap {
  h_licenses : list License.t;
  h_images : list Image.t;
  h_categories : list Category;
  h_annotations : list Annotation }.

(** The dataclass [COCO]: its five fields, and the four lists of reserved
    ids that [__post_init__] adds. [categories] is [Optional]. *)
Record COCO := mkCOCO {
  info : Info.t;
  licenses : list loc;
  categories : option (list loc);
  images : list loc;
  annotations : list loc;
  _cached_license_ids : list Z;
  _cached_image_ids : list Z;
  _cached_category_ids : list Z;
  _cached_annotation_ids : list Z }.

Record State := mkState { heap : Heap; self : COCO }.

(** Reading an object through a reference.  A reference always points into
    the heap in Python; the accessors are total and read a default record
    where the heap has none, and the statements that depend on a reference
    being live assume [heap_ok] below. *)
Definition lic (st : State) (l : loc) : License.t := h_licenses (heap st) !!! l.
Definition img (st : State) (l : loc) : Image.t := h_images (heap st) !!! l.
Definition cat (st : State) (l : loc) : Category := h_categories (heap st) !!! l.
Definition ann (st : State) (l : loc) : Annotation := h_annotations (heap st) !!! l.

Definition set_heap (h : Heap) (st : State) : State := mkState h (self st).
Definition set_self (c : COCO) (st : State) : State := mkState (heap st) c.

(** Attribute assignment on a stored object: [obj.attr = v]. *)
Definition update_license (l : loc) (f : License.t → License.t) (st : State) : State :=
  let h := heap st in
  set_heap (mkHeap (<[l := f (lic st l)]> (h_licenses h)) (h_images h)
                   (h_categories h) (h_annotations h)) st.
Definition update_image (l : loc) (f : Image.t → Image.t) (st : State) : State :=
  let h := heap st in
  set_heap (mkHeap (h_licenses h) (<[l := f (img st l)]> (h_images h))
                   (h_categories h) (h_annotations h)) st.
Definition update_category (l : loc) (f : Category → Category) (st : State) : State :=
  let h := heap st in
  set_heap (mkHeap (h_licenses h) (h_images h)
                   (<[l := f (cat st l)]> (h_categories h)) (h_annotations h)) st.
Definition update_annotation (l : loc) (f : Annotation → Annotation) (st : State) : State :=
  let h := heap st in
  set_heap (mkHeap (h_licenses h) (h_images h) (h_categories h)
                   (<[l := f (ann st l)]> (h_annotations h))) st.

(** Assignment to a field of [self]. *)
Definition set_licenses (v : list loc) (st : State) : State :=
  let c := self st in
  set_self (mkCOCO (info c) v (categories c) (images c) (annotations c)
    (_cached_license_ids c) (_cached_image_ids c)
    (_cached_category_ids c) (_cached_annotation_ids c)) st.
Definition set_categories (v : option (list loc)) (st : State) : State :=
  let c := self st in
  set_self (mkCOCO (info c) (licenses c) v (images c) (annotations c)
    (_cached_license_ids c) (_cached_image_ids c)
    (_cached_category_ids c) (_cached_annotation_ids c)) st.
Definition set_images (v : list loc) (st : State) : State :=
  let c := self st in
  set_self (mkCOCO (info c) (licenses c) (categories c) v (annotations c)
    (_cached_license_ids c) (_cached_image_ids c)
    (_cached_category_ids c) (_cached_annotation_ids c)) st.
Definition set_annotations (v : list loc) (st : State) : State :=
  let c := self st in
  set_self (mkCOCO (info c) (licenses c) (categories c) (images c) v
    (_cached_license_ids c) (_cached_image_ids c)
    (_cached_category_ids c) (_cached_annotation_ids c)) st.
Definition set_cached_license_ids (v : list Z) (st : State) : State :=
  let c := self st in
  set_self (mkCOCO (info c) (licenses c) (categories c) (images c) (annotations c)
    v (_cached_image_ids c) (_cached_category_ids c) (_cached_annotation_ids c)) st.
Definition set_cached_image_ids (v : list Z) (st : State) : State :=
  let c := self st in
  set_self (mkCOCO (info c) (licenses c) (categories c) (images c) (annotations c)
    (_cached_license_ids c) v (_cached_category_ids c) (_cached_annotation_ids c)) st.
Definition set_cached_category_ids (v : list Z) (st : State) : State :=
  let c := self st in
  set_self (mkCOCO (info c) (licenses c) (categories c) (images c) (annotations c)
    (_cached_license_ids c) (_cached_image_ids c) v (_cached_annotation_ids c)) st.
Definition set_cached_annotation_ids (v : list Z) (st : State) : State :=
  let c := self st in
  set_self (mkCOCO (info c) (licenses c) (categories c) (images c) (annotations c)
    (_cached_license_ids c) (_cached_image_ids c) (_cached_category_ids c) v) st.

(** Every reference a dataset holds points into the heap. *)
Definition refs_ok {A} (h : list A) (ls : list loc) : Prop :=
  Forall (λ l, (l < length h)%nat) ls.

Definition heap_ok (st : State) : Prop :=
  refs_ok (h_licenses (heap st)) (licenses (self st))
  ∧ refs_ok (h_categories (heap st)) (default [] (categories (self st)))
  ∧ refs_ok (h_images (heap st)) (images (self st))
  ∧ refs_ok (h_annotations (heap st)) (annotations (self st)).

(** ** Methods that change the dataset: state and exceptions

    A method that raises leaves the dataset as it was at that point, so a
    computation returns the state together with its result. *)

Definition M (A : Type) := State → result A * State.

Definition st_ret {A} (a : A) : M A := λ st, (Ok a, st).
Definition st_bind {A B} (m : M A) (k : A → M B) : M B :=
  λ st, match m st with
        | (Ok a, st') => k a st'
        | (Raise e, st') => (Raise e, st')
        end.
Definition raise {A} (e : exn) : M A := λ st, (Raise e, st).
Definition query {A} (f : State → result A) : M A := λ st, (f st, st).
Definition read {A} (f : State → A) : M A := λ st, (Ok (f st), st).
Definition modify (f : State → State) : M unit := λ st, (Ok tt, f st).

Notation "'let!' x := m 'in' k" := (st_bind m (λ x, k))
  (at level 10, x name, m at level 100, k at level 200, only parsing).

(** [for x in xs: body(x)], also the comprehensions run for their effect. *)
Fixpoint for_each {A} (xs : list A) (body : A → M unit) : M unit :=
  match xs with
  | [] => st_ret tt
  | x :: xs' => let! _ := body x in for_each xs' body
  end.

(** The state a method leaves, whether it returned or raised. *)
Definition exec {A} (m : M A) (st : State) : State := snd (m st).

(** ** Properties of [COCO] *)

Definition license_ids (st : State) : list Z :=
  (λ l, License.id (lic st l)) <$> licenses (self st).
Definition license_names (st : State) : list string :=
  (λ l, License.name (lic st l)) <$> licenses (self st).
Definition image_ids (st : State) : list Z :=
  (λ l, Image.id (img st l)) <$> images (self st).
Definition image_file_names (st : State) : list string :=
  (λ l, Image.file_name (img st l)) <$> images (self st).

(** [if self.categories:] holds for a list that is neither [None] nor
    empty. *)
Definition categories_present (st : State) : option (list loc) :=
  match categories (self st) with
  | Some (c :: cs) => Some (c :: cs)
  | _ => None
  end.

Definition category_ids (st : State) : list Z :=
  match categories_present st with
  | Some cs => (λ l, Cat.id (cat st l)) <$> cs
  | None => []
  end.
Definition category_names (st : State) : list string :=
  match categories_present st with
  | Some cs => (λ l, Cat.name (cat st l)) <$> cs
  | None => []
  end.

(** Only the annotations that are [Indexed] contribute. *)
Definition annotation_ids (st : State) : list Z :=
  omap (λ l, Ann.id (ann st l)) (annotations (self st)).

(** ** Reserved ids *)

Definition not_in (present : list Z) (cached_id : Z) : bool :=
  negb (int_in cached_id present).

Definition trim_cached_license_ids : M unit :=
  modify (λ st, set_cached_license_ids
    (List.filter (not_in (license_ids st)) (_cached_license_ids (self st))) st).
Definition trim_cached_image_ids : M unit :=
  modify (λ st, set_cached_image_ids
    (List.filter (not_in (image_ids st)) (_cached_image_ids (self st))) st).
Definition trim_cached_category_ids : M unit :=
  modify (λ st, set_cached_category_ids
    (List.filter (not_in (category_ids st)) (_cached_category_ids (self st))) st).
Definition trim_cached_annotation_ids : M unit :=
  modify (λ st, set_cached_annotation_ids
    (List.filter (not_in (annotation_ids st)) (_cached_annotation_ids (self st))) st).

(** [__generate_new_id]: [cached_ids] is the list object of [self], so the
    [append] is seen by the dataset; the new list is returned with the id. *)
Definition generate_new_id (present_ids cached_ids : list Z) : result (Z * list Z) :=
  let* m := py_max (present_ids ++ cached_ids) in
  let new_id := m + 1 in
  Ok (new_id, cached_ids ++ [new_id]).

Definition get_new_id (present : State → list Z) (cached : State → list Z)
    (set_cached : list Z → State → State) : M Z :=
  λ st, match generate_new_id (present st) (cached st) with
        | Ok (new_id, cached') => (Ok new_id, set_cached cached' st)
        | Raise e => (Raise e, st)
        end.

Definition get_new_license_id : M Z :=
  get_new_id license_ids (λ st, _cached_license_ids (self st)) set_cached_license_ids.
Definition get_new_category_id : M Z :=
  get_new_id category_ids (λ st, _cached_category_ids (self st)) set_cached_category_ids.
Definition get_new_image_id : M Z :=
  get_new_id image_ids (λ st, _cached_image_ids (self st)) set_cached_image_ids.
Definition get_new_annotation_id : M Z :=
  get_new_id annotation_ids (λ st, _cached_annotation_ids (self st)) set_cached_annotation_ids.

Definition clear_cached_ids : M unit :=
  modify (λ st, set_cached_annotation_ids [] (set_cached_category_ids []
    (set_cached_image_ids [] (set_cached_license_ids [] st)))).

(** ** Python values

    The query methods take one argument and branch on its run-time type.
    [value] is what a caller can pass: an integer, a string, a list, a
    dictionary (with string keys, in insertion order), [None], or a
    reference to a record. *)

Inductive ref :=
| RLicense (l : loc) | RImage (l : loc) | RCategory (l : loc) | RAnnotation (l : loc).

#[local] Set Warnings "-register-all".
Inductive value :=
| VNone
| VInt (z : Z)
| VStr (s : string)
| VList (xs : list value)
| VDict (d : list (string * value))
| VObj (r : ref).

(** [isinstance(x, Image)], [isinstance(x, License)], and the run-time
    checkable protocols of [types.py], which test for attributes:
    [Category] for [id], [name] and [supercategory]; [Annotation] for
    [image_id]; [Categorized] for [category_id]. *)
Definition as_Image (v : value) : option loc :=
  match v with VObj (RImage l) => Some l | _ => None end.
Definition as_License (v : value) : option loc :=
  match v with VObj (RLicense l) => Some l | _ => None end.
Definition as_Category (v : value) : option loc :=
  match v with VObj (RCategory l) => Some l | _ => None end.
Definition as_Annotation (v : value) : option loc :=
  match v with VObj (RAnnotation l) => Some l | _ => None end.

Definition is_Categorized (a : Annotation) : bool :=
  match Ann.category_id a with Some _ => true | None => false end.
Definition is_Panoptic (a : Annotation) : bool :=
  match a with PanopticSegmentationAnnotation _ _ _ => true | _ => false end.
Definition is_Indexed (a : Annotation) : bool :=
  match Ann.id a with Some _ => true | None => false end.

(** [isinstance(x, (Categorized, PanopticSegmentationAnnotation))] *)
Definition as_Categorized_or_Panoptic (st : State) (v : value) : option loc :=
  match v with
  | VObj (RAnnotation l) =>
      if is_Categorized (ann st l) || is_Panoptic (ann st l) then Some l else None
  | _ => None
  end.

(** [isinstances(xs, C)]: the references when every element is a [C]. *)
Definition all_as {A} (as_C : value → option A) (xs : list value) : option (list A) :=
  mapM as_C xs.

(** [x in xs] and [xs.remove(x)] on a list of objects: an element matches
    when it is [x] itself or compares equal to it. *)
Definition same {A} `{EqDecision A} (h : loc → A) (x e : loc) : bool :=
  bool_decide (e = x) || bool_decide (h e = h x).
Definition py_in {A} `{EqDecision A} (h : loc → A) (x : loc) (xs : list loc) : bool :=
  existsb (same h x) xs.
Fixpoint py_remove {A} `{EqDecision A} (h : loc → A) (x : loc) (xs : list loc) : list loc :=
  match xs with
  | [] => []
  | e :: xs' => if same h x e then xs' else e :: py_remove h x xs'
  end.

(** [obj.attr] on the result of a lookup that may have returned [None]. *)
Definition attr {A B} (o : option A) (f : A → B) : result B :=
  match o with Some x => Ok (f x) | None => Raise AttributeError end.

(** A lookup that returns the object it found. *)
Definition found {A} (r : result A) : result (option A) :=
  let* x := r in Ok (Some x).

(** ** Queries *)

Definition annotation_category_ids (a : Annotation) : list Z :=
  match Ann.category_id a with
  | Some c => [c]
  | None =>
      match a with
      | PanopticSegmentationAnnotation _ _ segments_info =>
          SegmentInfo.category_id <$> segments_info
      | _ => [-1]
      end
  end.

Definition annotations_category_ids (st : State) (annotations : list loc) : list Z :=
  concat ((λ l, annotation_category_ids (ann st l)) <$> annotations).

Definition get_license (st : State) (input : value) : result (option loc) :=
  match input with
  | VInt i =>
      if negb (int_in i (license_ids st)) then Ok None
      else found (py_next (λ l, bool_decide (License.id (lic st l) = i)) (licenses (self st)))
  | VStr s =>
      if negb (str_in s (license_names st)) then Ok None
      else found (py_next (λ l, bool_decide (License.name (lic st l) = s)) (licenses (self st)))
  | VObj (RImage x) =>
      if negb (py_in (img st) x (images (self st))) then Ok None
      else found (py_next (λ l, bool_decide (License.id (lic st l) = Image.license (img st x)))
                       (licenses (self st)))
  | _ => Raise TypeError
  end.

Definition get_image (st : State) (input : value) : result (option loc) :=
  match input with
  | VInt i =>
      if negb (int_in i (image_ids st)) then Ok None
      else found (py_next (λ l, bool_decide (Image.id (img st l) = i)) (images (self st)))
  | VStr s =>
      if negb (str_in s (image_file_names st)) then Ok None
      else found (py_next (λ l, bool_decide (Image.file_name (img st l) = s)) (images (self st)))
  | VObj (RAnnotation x) =>
      if negb (py_in (ann st) x (annotations (self st))) then Ok None
      else found (py_next (λ l, bool_decide (Image.id (img st l) = Ann.image_id (ann st x)))
                    (images (self st)))
  | _ => Raise TypeError
  end.

Definition get_annotation (st : State) (id : value) : result loc :=
  match id with
  | VInt i =>
      if int_in i (annotation_ids st) then
        py_next (λ l, bool_decide (Ann.id (ann st l) = Some i)) (annotations (self st))
      else Raise TypeError
  | _ => Raise TypeError
  end.

Definition get_annotations (st : State) (input : value) : result (list loc) :=
  match input with
  | VInt i =>
      Ok (List.filter (λ a, bool_decide (Ann.image_id (ann st a) = i)) (annotations (self st)))
  | VStr s =>
      rfilter (λ a,
          let* image := get_image st (VInt (Ann.image_id (ann st a))) in
          let* file_name := attr image (λ l, Image.file_name (img st l)) in
          Ok (bool_decide (file_name = s)))
        (annotations (self st))
  | VObj (RImage x) =>
      Ok (List.filter (λ a, bool_decide (Ann.image_id (ann st a) = Image.id (img st x)))
            (annotations (self st)))
  | VList xs =>
      match all_as as_Image xs with
      | Some images =>
          Ok (List.filter
                (λ a, int_in (Ann.image_id (ann st a)) ((λ l, Image.id (img st l)) <$> images))
                (annotations (self st)))
      | None => Raise TypeError
      end
  | _ => Raise TypeError
  end.

Definition get_category (st : State) (input : value) : result (option loc) :=
  match categories_present st with
  | None => Ok None
  | Some cs =>
      match input with
      | VInt i =>
          if negb (int_in i (category_ids st)) then Ok None
          else found (py_next (λ l, bool_decide (Cat.id (cat st l) = i)) cs)
      | VStr s =>
          if negb (str_in s (category_names st)) then Ok None
          else found (py_next (λ l, bool_decide (Cat.name (cat st l) = s)) cs)
      | _ =>
          match as_Categorized_or_Panoptic st input with
          | Some x =>
              if negb (py_in (ann st) x (annotations (self st))) then Ok None
              else found (py_next
                     (λ l, int_in (Cat.id (cat st l)) (annotation_category_ids (ann st x))) cs)
          | None => Raise TypeError
          end
      end
  end.

(** The categories whose id is among the category ids of the annotations
    that [annotations_of] yields; the condition is evaluated for every
    category, as in the comprehension. *)
Definition categories_of (st : State) (cs : list loc)
    (annotations_of : result (list loc)) : result (list loc) :=
  rfilter (λ c,
      let* annotations := annotations_of in
      Ok (int_in (Cat.id (cat st c)) (annotations_category_ids st annotations)))
    cs.

Definition get_categories (st : State) (input : value) : result (list loc) :=
  match categories_present st with
  | None => Ok []
  | Some cs =>
      match input with
      | VStr s =>
          Ok (List.filter (λ c, bool_decide (Cat.supercategory (cat st c) = s)) cs)
      | VObj (RImage _) => categories_of st cs (get_annotations st input)
      | VList xs =>
          match all_as as_Image xs with
          | Some _ => categories_of st cs (get_annotations st input)
          | None =>
              match all_as (as_Categorized_or_Panoptic st) xs with
              | Some annotations => categories_of st cs (Ok annotations)
              | None => Raise TypeError
              end
          end
      | _ => Raise TypeError
      end
  end.

(** The [Category] branch of [get_images], which the branch for a list of
    categories calls once per element. *)
Definition get_images_of_category (st : State) (x : loc) : result (list loc) :=
  rfilter (λ image,
      let* cs := get_categories st (VObj (RImage image)) in
      Ok (int_in (Cat.id (cat st x)) ((λ c, Cat.id (cat st c)) <$> cs)))
    (images (self st)).

Definition get_images (st : State) (input : value) : result (list loc) :=
  match input with
  | VInt i =>
      Ok (List.filter (λ image, bool_decide (Image.license (img st image) = i))
            (images (self st)))
  | VStr s =>
      rfilter (λ image,
          let* license := get_license st input in
          let* id := attr license (λ l, License.id (lic st l)) in
          Ok (bool_decide (Image.license (img st image) = id)))
        (images (self st))
  | VObj (RLicense x) =>
      Ok (List.filter
            (λ image, bool_decide (Image.license (img st image) = License.id (lic st x)))
            (images (self st)))
  | VObj (RCategory x) =>
      match categories_present st with
      | Some _ => get_images_of_category st x
      | None => Raise TypeError
      end
  | VList xs =>
      match all_as as_Annotation xs with
      | Some annotations =>
          Ok (List.filter
                (λ image, int_in (Image.id (img st image))
                            ((λ a, Ann.image_id (ann st a)) <$> annotations))
                (images (self st)))
      | None =>
          match all_as as_Category xs, categories_present st with
          | Some cs, Some _ =>
              let* per_category := rmap (get_images_of_category st) cs in
              Ok (concat per_category)
          | _, _ => Raise TypeError
          end
      end
  | _ => Raise TypeError
  end.

(** [isinstances(self.annotations, (Categorized, PanopticSegmentationAnnotation))] *)
Definition annotations_categorized_or_panoptic (st : State) : bool :=
  forallb (λ a, is_Categorized (ann st a) || is_Panoptic (ann st a)) (annotations (self st)).

(** [set(xs).intersection(ys)] is non-empty. *)
Definition intersects (xs ys : list Z) : bool := existsb (λ x, int_in x ys) xs.

Definition get_annotations_by_category (st : State) (input : value) : result (list loc) :=
  match categories_present st with
  | None => Ok []
  | Some _ =>
      if negb (annotations_categorized_or_panoptic st) then Ok []
      else
        match input with
        | VInt i =>
            rfilter (λ a,
                let* category_id := attr (Ann.category_id (ann st a)) (λ c, c) in
                Ok (bool_decide (category_id = i)))
              (annotations (self st))
        | VStr s =>
            rfilter (λ a,
                let* category_id := attr (Ann.category_id (ann st a)) (λ c, c) in
                let* category := get_category st (VInt category_id) in
                let* name := attr category (λ l, Cat.name (cat st l)) in
                Ok (bool_decide (name = s)))
              (annotations (self st))
        | VObj (RCategory x) =>
            Ok (List.filter
                  (λ a, int_in (Cat.id (cat st x)) (annotation_category_ids (ann st a)))
                  (annotations (self st)))
        | VList xs =>
            match all_as as_Category xs with
            | Some cs =>
                Ok (List.filter
                      (λ a, intersects ((λ c, Cat.id (cat st c)) <$> cs)
                              (annotation_category_ids (ann st a)))
                      (annotations (self st)))
            | None => Raise TypeError
            end
        | _ => Raise TypeError
        end
  end.

Definition get_annotations_by_supercategory (st : State) (supercategory : string)
    : result (list loc) :=
  match categories_present st with
  | None => Ok []
  | Some _ =>
      if negb (annotations_categorized_or_panoptic st) then Ok []
      else
        rfilter (λ a,
            if is_Categorized (ann st a) || is_Panoptic (ann st a) then
              let* cs := get_categories st (VStr supercategory) in
              Ok (intersects (annotation_category_ids (ann st a))
                    ((λ c, Cat.id (cat st c)) <$> cs))
            else Ok false)
          (annotations (self st))
  end.

(** ** Appending *)

Definition when (b : bool) (m : M unit) : M unit := if b then m else st_ret tt.

Definition append_license (license : value) : M unit :=
  match as_License license with
  | None => raise TypeError
  | Some l =>
      let! ids := read license_ids in
      let! id := read (λ st, License.id (lic st l)) in
      if int_in id ids then raise ValueError
      else
        let! _ := modify (λ st, set_licenses (licenses (self st) ++ [l]) st) in
        trim_cached_license_ids
  end.

Definition append_category (category : value) : M unit :=
  let! present := read categories_present in
  let! _ := when (negb (bool_decide (is_Some present))) (modify (set_categories (Some []))) in
  match as_Category category with
  | None => raise TypeError
  | Some l =>
      let! ids := read category_ids in
      let! id := read (λ st, Cat.id (cat st l)) in
      if int_in id ids then raise ValueError
      else
        let! _ := modify (λ st,
          set_categories (Some (default [] (categories (self st)) ++ [l])) st) in
        trim_cached_category_ids
  end.

Definition append_image (image : value) : M unit :=
  match as_Image image with
  | None => raise TypeError
  | Some l =>
      let! ids := read image_ids in
      let! id := read (λ st, Image.id (img st l)) in
      if int_in id ids then raise ValueError
      else
        let! _ := modify (λ st, set_images (images (self st) ++ [l]) st) in
        trim_cached_image_ids
  end.

Definition append_annotation (annotation : value) : M unit :=
  match as_Annotation annotation with
  | None => raise TypeError
  | Some l =>
      let! ids := read annotation_ids in
      let! id := read (λ st, Ann.id (ann st l)) in
      let! _ := match id with
                | Some i => if int_in i ids then raise ValueError else st_ret tt
                | None => st_ret tt
                end in
      let! _ := modify (λ st, set_annotations (annotations (self st) ++ [l]) st) in
      trim_cached_annotation_ids
  end.

(** ** Removing *)

Definition remove_annotation (annotation : loc) : M unit :=
  let! present := read (λ st, py_in (ann st) annotation (annotations (self st))) in
  if negb present then st_ret tt
  else modify (λ st, set_annotations (py_remove (ann st) annotation (annotations (self st))) st).

Definition remove_annotaitons (annotations : list loc) : M unit :=
  for_each annotations remove_annotation.

Definition remove_image (image : loc) (remove_annotations : bool) : M unit :=
  let! present := read (λ st, py_in (img st) image (images (self st))) in
  if negb present then st_ret tt
  else
    let! _ := modify (λ st, set_images (py_remove (img st) image (images (self st))) st) in
    when remove_annotations
      (let! annotations := query (λ st, get_annotations st (VObj (RImage image))) in
       remove_annotaitons annotations).

Definition remove_images (images : list loc) (remove_annotations : bool) : M unit :=
  for_each images (λ image, remove_image image remove_annotations).

Definition remove_license (license : loc) (remove_images_ remove_annotations : bool) : M unit :=
  let! present := read (λ st, py_in (lic st) license (licenses (self st))) in
  if negb present then st_ret tt
  else
    let! _ := modify (λ st, set_licenses (py_remove (lic st) license (licenses (self st))) st) in
    when remove_images_
      (let! images := query (λ st, get_images st (VObj (RLicense license))) in
       remove_images images remove_annotations).

Definition remove_category (category : loc) (remove_annotations : bool) : M unit :=
  let! present := read categories_present in
  match present with
  | None => st_ret tt
  | Some cs =>
      let! is_in := read (λ st, py_in (cat st) category cs) in
      if negb is_in then st_ret tt
      else
        let! _ := modify (λ st, set_categories (Some (py_remove (cat st) category cs)) st) in
        when remove_annotations
          (let! annotations :=
             query (λ st, get_annotations_by_category st (VObj (RCategory category))) in
           remove_annotaitons annotations)
  end.

(** ** Trimming *)

Definition trim_licenses : M unit :=
  modify (λ st, set_licenses
    (List.filter
       (λ license, int_in (License.id (lic st license))
                     ((λ image, Image.license (img st image)) <$> images (self st)))
       (licenses (self st))) st).

(** [isinstances(self.annotations, Categorized)] *)
Definition annotations_categorized (st : State) : bool :=
  forallb (λ a, is_Categorized (ann st a)) (annotations (self st)).

(** The comprehension runs only when every annotation has a [category_id]. *)
Definition annotation_category_id_list (st : State) : list Z :=
  omap (λ a, Ann.category_id (ann st a)) (annotations (self st)).

Definition trim_categories : M unit :=
  modify (λ st,
    match categories_present st with
    | Some cs =>
        if annotations_categorized st then
          set_categories (Some
            (List.filter
               (λ category, int_in (Cat.id (cat st category)) (annotation_category_id_list st))
               cs)) st
        else st
    | None => st
    end).

Definition trim_images : M unit :=
  modify (λ st, set_images
    (List.filter
       (λ image,
          int_in (Image.id (img st image))
            ((λ a, Ann.image_id (ann st a)) <$> annotations (self st))
          && int_in (Image.license (img st image)) (license_ids st))
       (images (self st))) st).

Definition trim_annotations : M unit :=
  modify (λ st, set_annotations
    (List.filter (λ a, int_in (Ann.image_id (ann st a)) (image_ids st))
       (annotations (self st))) st).

Definition trim_dataset : M unit :=
  let! _ := trim_annotations in
  let! _ := trim_images in
  let! _ := trim_categories in
  trim_licenses.

(** ** Reindexing *)

(** [new_ids] when given and not empty, else [list(range(n))]. *)
Definition ids_or_range (new_ids : option (list Z)) (n : nat) : list Z :=
  match new_ids with
  | Some (i :: is_) => i :: is_
  | _ => py_range n
  end.

Definition reindex_license (license : loc) (new_id : option Z) : M unit :=
  let! new_id := match new_id with
                 | None => get_new_license_id
                 | Some v => st_ret v
                 end in
  let! images := query (λ st, get_images st (VObj (RLicense license))) in
  let! _ := for_each images (λ image, modify (update_image image (Image.set_license new_id))) in
  modify (update_license license (License.set_id new_id)).

(** [reindex_license(None, _)] fails in [get_images], after the new id was
    drawn. *)
Definition reindex_licenses (new_ids : option (list Z)) : M unit :=
  let! licenses_ := read (λ st, licenses (self st)) in
  let new_ids := ids_or_range new_ids (length licenses_) in
  if negb (bool_decide (length new_ids = length licenses_)) then raise ValueError
  else
    let! _ := for_each new_ids (λ new_id,
      let! ids := read license_ids in
      when (int_in new_id ids)
        (let! duplicated_license := query (λ st, get_license st (VInt new_id)) in
         let! fresh := get_new_license_id in
         match duplicated_license with
         | Some d => reindex_license d (Some fresh)
         | None => raise TypeError
         end)) in
    for_each (py_zip new_ids licenses_) (λ '(new_id, license),
      reindex_license license (Some new_id)).

(** [segment_info.category_id = new_id] for the segments of the category. *)
Definition retarget_segments (old_id new_id : Z) (a : Annotation) : Annotation :=
  match a with
  | PanopticSegmentationAnnotation i f segments_info =>
      PanopticSegmentationAnnotation i f
        ((λ s, if bool_decide (SegmentInfo.category_id s = old_id)
               then SegmentInfo.set_category_id new_id s else s) <$> segments_info)
  | _ => a
  end.

Definition reindex_category (category : loc) (new_id : option Z) : M unit :=
  let! present := read categories_present in
  match present with
  | None => st_ret tt
  | Some _ =>
      let! new_id := match new_id with
                     | None => get_new_category_id
                     | Some v => st_ret v
                     end in
      let! annotations :=
        query (λ st, get_annotations_by_category st (VObj (RCategory category))) in
      let! _ := for_each annotations (λ a,
        modify (λ st,
          if is_Categorized (ann st a) then
            update_annotation a (Ann.set_category_id new_id) st
          else if is_Panoptic (ann st a) then
            update_annotation a (retarget_segments (Cat.id (cat st category)) new_id) st
          else st)) in
      modify (update_category category (Cat.set_id new_id))
  end.

Definition reindex_categories (new_ids : option (list Z)) : M unit :=
  let! present := read categories_present in
  match present with
  | None => st_ret tt
  | Some cs =>
      let new_ids := ids_or_range new_ids (length cs) in
      if negb (bool_decide (length new_ids = length cs)) then raise ValueError
      else
        for_each (py_zip new_ids cs) (λ '(new_id, category),
          let! ids := read category_ids in
          let! _ := when (int_in new_id ids)
            (let! duplicated_category := query (λ st, get_category st (VInt new_id)) in
             match duplicated_category with
             | Some d =>
                 let! fresh := get_new_category_id in
                 reindex_category d (Some fresh)
             | None => st_ret tt
             end) in
          reindex_category category (Some new_id))
  end.

Definition reindex_image (image : loc) (new_id : option Z) : M unit :=
  let! new_id := match new_id with
                 | None => get_new_image_id
                 | Some v => st_ret v
                 end in
  let! annotations := query (λ st, get_annotations st (VObj (RImage image))) in
  let! _ := for_each annotations (λ a, modify (update_annotation a (Ann.set_image_id new_id))) in
  modify (update_image image (Image.set_id new_id)).

(** [reindex_image(None, _)] fails in [get_annotations], after the new id
    was drawn. *)
Definition reindex_images (new_ids : option (list Z)) : M unit :=
  let! images_ := read (λ st, images (self st)) in
  let new_ids := ids_or_range new_ids (length images_) in
  if negb (bool_decide (length new_ids = length images_)) then raise ValueError
  else
    for_each (py_zip new_ids images_) (λ '(new_id, image),
      let! ids := read image_ids in
      let! _ := when (int_in new_id ids)
        (let! duplicated_image := query (λ st, get_image st (VInt new_id)) in
         let! fresh := get_new_image_id in
         match duplicated_image with
         | Some d => reindex_image d (Some fresh)
         | None => raise TypeError
         end) in
      reindex_image image (Some new_id)).

Definition reindex_annotation (annotation : loc) (new_id : option Z) : M unit :=
  let! new_id := match new_id with
                 | None => get_new_annotation_id
                 | Some v => st_ret v
                 end in
  modify (λ st,
    if is_Indexed (ann st annotation) then
      update_annotation annotation (Ann.set_id new_id) st
    else st).

Definition reindex_annotations (new_ids : option (list Z)) : M unit :=
  let! annotations_ := read (λ st, annotations (self st)) in
  let new_ids := ids_or_range new_ids (length annotations_) in
  if negb (bool_decide (length new_ids = length annotations_)) then raise ValueError
  else
    for_each (py_zip new_ids annotations_) (λ '(new_id, annotation),
      let! ids := read annotation_ids in
      let! _ := when (int_in new_id ids)
        (let! duplicated_annotation := query (λ st, get_annotation st (VInt new_id)) in
         let! fresh := get_new_annotation_id in
         reindex_annotation duplicated_annotation (Some fresh)) in
      reindex_annotation annotation (Some new_id)).

(** ** Copies *)

(** [deepcopy] of a list of records: every object is copied once, an object
    that occurs twice in the list is the same copy twice (the memo), and the
    copies are new objects of the heap. *)
Definition memo_lookup (memo : list (loc * loc)) (l : loc) : option loc :=
  snd <$> List.find (λ p, bool_decide (p.1 = l)) memo.

Fixpoint deepcopy_from {A} `{Inhabited A} (memo : list (loc * loc)) (h : list A)
    (ls : list loc) : list A * list loc :=
  match ls with
  | [] => (h, [])
  | l :: ls' =>
      match memo_lookup memo l with
      | Some l' =>
          let '(h', copies) := deepcopy_from memo h ls' in (h', l' :: copies)
      | None =>
          let l' := length h in
          let '(h', copies) := deepcopy_from ((l, l') :: memo) (h ++ [h !!! l]) ls' in
          (h', l' :: copies)
      end
  end.

Definition deepcopy_licenses (ls : list loc) : M (list loc) :=
  λ st, let h := heap st in
        let '(h', copies) := deepcopy_from [] (h_licenses h) ls in
        (Ok copies, set_heap (mkHeap h' (h_images h) (h_categories h) (h_annotations h)) st).
Definition deepcopy_images (ls : list loc) : M (list loc) :=
  λ st, let h := heap st in
        let '(h', copies) := deepcopy_from [] (h_images h) ls in
        (Ok copies, set_heap (mkHeap (h_licenses h) h' (h_categories h) (h_annotations h)) st).
Definition deepcopy_categories (ls : list loc) : M (list loc) :=
  λ st, let h := heap st in
        let '(h', copies) := deepcopy_from [] (h_categories h) ls in
        (Ok copies, set_heap (mkHeap (h_licenses h) (h_images h) h' (h_annotations h)) st).
Definition deepcopy_annotations (ls : list loc) : M (list loc) :=
  λ st, let h := heap st in
        let '(h', copies) := deepcopy_from [] (h_annotations h) ls in
        (Ok copies, set_heap (mkHeap (h_licenses h) (h_images h) (h_categories h) h') st).

(** ** Splitting

    Two things here are the interpreter's and the library's, not the
    repository's: the order in which a [set] of integers is iterated, and the
    permutation [random.shuffle] applies for a seed.  Both are parameters. *)

Section Split.
Variable set_iter : list Z → list Z.
Variable shuffle : Z → list loc → list loc.

Definition get_licenses (st : State) (images : list value) : result (list (option loc)) :=
  match all_as as_Image images with
  | None => Raise TypeError
  | Some _ =>
      let* license_ids :=
        rmap (λ image,
            let* license := get_license st image in
            attr license (λ l, License.id (lic st l)))
          images in
      rmap (λ id, get_license st (VInt id)) (set_iter license_ids)
  end.

(** The elements of a list that goes into a field declared [List[License]]. *)
Definition objects (xs : list (option loc)) : result (list loc) :=
  rmap (λ x, match x with Some l => Ok l | None => Raise IllTyped end) xs.

Definition image_values (ls : list loc) : list value := (λ l, VObj (RImage l)) <$> ls.

(** [COCO(info=..., licenses=..., images=subimages, annotations=...,
    categories=...)]: the arguments are evaluated in that order. *)
Definition split_part (subimages : list loc) : M COCO :=
  let! info_ := read (λ st, info (self st)) in
  let! licenses_ := query (λ st,
    let* found_licenses := get_licenses st (image_values subimages) in
    objects found_licenses) in
  let! licenses_ := deepcopy_licenses licenses_ in
  let! annotations_ := query (λ st, get_annotations st (VList (image_values subimages))) in
  let! annotations_ := deepcopy_annotations annotations_ in
  let! categories_ := query (λ st, get_categories st (VList (image_values subimages))) in
  let! categories_ := deepcopy_categories categories_ in
  st_ret (mkCOCO info_ licenses_ (Some categories_) subimages annotations_ [] [] [] []).

(** [int(len(self.images) * percentage)], with the product taken in the
    rationals. *)
Definition split_point (n : nat) (percentage : Q) : nat :=
  Z.to_nat (Qfloor (inject_Z (Z.of_nat n) * percentage)).

Definition split (percentage : Q) (seed : Z) : M (COCO * COCO) :=
  if Qle_bool percentage 1 && Qle_bool 0 percentage then
    let! images_ := read (λ st, images (self st)) in
    let! copies := deepcopy_images images_ in
    let shuffled := shuffle seed copies in
    let point := split_point (length images_) percentage in
    let! first := split_part (take point shuffled) in
    let! second := split_part (drop point shuffled) in
    st_ret (first, second)
  else raise ValueError.
End Split.

(** ** Dictionaries at the boundary *)

Definition dict := list (string * value).

Definition keys (d : dict) : list string := fst <$> d.

(** [d[k]] *)
Definition item (d : dict) (k : string) : result value :=
  match List.find (λ p, bool_decide (p.1 = k)) d with
  | Some p => Ok p.2
  | None => Raise KeyError
  end.

(** [set(ks).issubset(d.keys())] *)
Definition issubset (ks : list string) (d : dict) : bool :=
  forallb (λ k, str_in k (keys d)) ks.

(** [for x in v]: a list yields its elements, a string its characters, a
    dictionary its keys; the other values are not iterable. *)
Fixpoint characters (s : string) : list value :=
  match s with
  | EmptyString => []
  | String c s' => VStr (String c EmptyString) :: characters s'
  end.

Definition iterate (v : value) : result (list value) :=
  match v with
  | VList xs => Ok xs
  | VStr s => Ok (characters s)
  | VDict d => Ok (VStr <$> keys d)
  | _ => Raise TypeError
  end.

(** [compare_dict_structure] of [types.py]; [fields] are the names of the
    dataclass fields.  A value without [keys()] raises [AttributeError]. *)
Definition compare_dict_structure (dictionatry : value) (fields : list string)
    (ignore_extra_keys : bool) : result dict :=
  match dictionatry with
  | VDict d =>
      let missed_keys := List.filter (λ f, negb (str_in f (keys d))) fields in
      let extra_keys := List.filter (λ k, negb (str_in k fields)) (keys d) in
      match missed_keys, extra_keys with
      | _ :: _, _ => Raise ValueError
      | [], _ :: _ => if negb ignore_extra_keys then Raise ValueError else Ok d
      | [], [] => Ok d
      end
  | _ => Raise AttributeError
  end.

(** The class called with the dictionary unpacked into keyword arguments:
    a key that is not a field is an unexpected keyword argument. *)
Definition keyword_arguments (d : dict) (fields : list string) : result unit :=
  if forallb (λ k, str_in k fields) (keys d) then Ok tt else Raise TypeError.

(** The values a typed record can hold. *)
Definition as_int (v : value) : result Z :=
  match v with VInt z => Ok z | _ => Raise IllTyped end.
Definition as_str (v : value) : result string :=
  match v with VStr s => Ok s | _ => Raise IllTyped end.
Definition as_list {A} (f : value → result A) (v : value) : result (list A) :=
  match v with VList xs => rmap f xs | _ => Raise IllTyped end.

Definition int_field (d : dict) (k : string) : result Z :=
  let* v := item d k in as_int v.
Definition str_field (d : dict) (k : string) : result string :=
  let* v := item d k in as_str v.
Definition ints_field (d : dict) (k : string) : result (list Z) :=
  let* v := item d k in as_list as_int v.
Definition strs_field (d : dict) (k : string) : result (list string) :=
  let* v := item d k in as_list as_str v.

Definition Info_fields : list string :=
  ["year"; "version"; "description"; "contributor"; "url"; "date_created"].
Definition License_fields : list string := ["id"; "name"; "url"].
Definition Image_fields : list string :=
  ["id"; "width"; "height"; "file_name"; "license"; "flickr_url"; "coco_url";
   "date_captured"].
Definition ObjectDetectionCategory_fields : list string :=
  ["id"; "name"; "supercategory"].
Definition KeypointDetectionCategory_fields : list string :=
  ["id"; "name"; "supercategory"; "keypoints"; "skeleton"].
Definition PanopticSegmentationCategory_fields : list string :=
  ["id"; "name"; "supercategory"; "isthing"; "color"].
Definition RLE_fields : list string := ["counts"; "size"].
Definition SegmentInfo_fields : list string :=
  ["id"; "category_id"; "area"; "bbox"; "iscrowd"].
Definition ObjectDetectionAnnotation_fields : list string :=
  ["id"; "image_id"; "category_id"; "segmentation"; "area"; "bbox"; "iscrowd"].
Definition KeypointDetectionAnnotation_fields : list string :=
  ObjectDetectionAnnotation_fields ++ ["keypoints"; "num_keypoints"].
Definition PanopticSegmentationAnnotation_fields : list string :=
  ["image_id"; "file_name"; "segments_info"].
Definition ImageCaptioningAnnotation_fields : list string :=
  ["id"; "image_id"; "caption"].
Definition DensePoseAnnotation_fields : list string :=
  ["id"; "image_id"; "category_id"; "is_crowd"; "area"; "bbox"; "dp_I"; "dp_U";
   "dp_V"; "dp_x"; "dp_y"; "dp_masks"].
Definition COCO_fields : list string :=
  ["info"; "licenses"; "categories"; "images"; "annotations"].

Definition Info_from_dict (info_dict : value) (ignore_extra_keys : bool) : result Info.t :=
  let* d := compare_dict_structure info_dict Info_fields ignore_extra_keys in
  let* _ := keyword_arguments d Info_fields in
  let* year := int_field d "year" in
  let* version := str_field d "version" in
  let* description := str_field d "description" in
  let* contributor := str_field d "contributor" in
  let* url := str_field d "url" in
  let* date_created := str_field d "date_created" in
  Ok (Info.mk year version description contributor url date_created).

Definition License_from_dict (license_dict : value) (ignore_extra_keys : bool)
    : result License.t :=
  let* d := compare_dict_structure license_dict License_fields ignore_extra_keys in
  let* _ := keyword_arguments d License_fields in
  let* id := int_field d "id" in
  let* name := str_field d "name" in
  let* url := str_field d "url" in
  Ok (License.mk id name url).

Definition Image_from_dict (image_dict : value) (ignore_extra_keys : bool)
    : result Image.t :=
  let* d := compare_dict_structure image_dict Image_fields ignore_extra_keys in
  let* _ := keyword_arguments d Image_fields in
  let* id := int_field d "id" in
  let* width := int_field d "width" in
  let* height := int_field d "height" in
  let* file_name := str_field d "file_name" in
  let* license := int_field d "license" in
  let* flickr_url := str_field d "flickr_url" in
  let* coco_url := str_field d "coco_url" in
  let* date_captured := str_field d "date_captured" in
  Ok (Image.mk id width height file_name license flickr_url coco_url date_captured).

Definition ObjectDetectionCategory_from_dict (category_dict : value)
    (ignore_extra_keys : bool) : result Category :=
  let* d := compare_dict_structure category_dict ObjectDetectionCategory_fields
              ignore_extra_keys in
  let* _ := keyword_arguments d ObjectDetectionCategory_fields in
  let* id := int_field d "id" in
  let* name := str_field d "name" in
  let* supercategory := str_field d "supercategory" in
  Ok (ObjectDetectionCategory id name supercategory).

Definition KeypointDetectionCategory_from_dict (category_dict : value)
    (ignore_extra_keys : bool) : result Category :=
  let* d := compare_dict_structure category_dict KeypointDetectionCategory_fields
              ignore_extra_keys in
  let* _ := keyword_arguments d KeypointDetectionCategory_fields in
  let* id := int_field d "id" in
  let* name := str_field d "name" in
  let* supercategory := str_field d "supercategory" in
  let* keypoints := strs_field d "keypoints" in
  let* skeleton := ints_field d "skeleton" in
  Ok (KeypointDetectionCategory id name supercategory keypoints skeleton).

Definition PanopticSegmentationCategory_from_dict (category_dict : value)
    (ignore_extra_keys : bool) : result Category :=
  let* d := compare_dict_structure category_dict PanopticSegmentationCategory_fields
              ignore_extra_keys in
  let* _ := keyword_arguments d PanopticSegmentationCategory_fields in
  let* id := int_field d "id" in
  let* name := str_field d "name" in
  let* supercategory := str_field d "supercategory" in
  let* isthing := int_field d "isthing" in
  let* color := strs_field d "color" in
  Ok (PanopticSegmentationCategory id name supercategory isthing color).

(** [DICT_TO_CATEGORY_MAP] *)
Definition DICT_TO_CATEGORY_MAP (variant : string) : list string :=
  if bool_decide (variant = "object_detection") then ["id"; "name"; "supercategory"]
  else if bool_decide (variant = "keypoint_detection") then
    ["id"; "name"; "supercategory"; "keypoints"; "skeleton"]
  else if bool_decide (variant = "panoptic_segmentation") then
    ["id"; "name"; "supercategory"; "isthing"; "color"]
  else [].

(** [category_dict.keys()] of a value that is not a dictionary. *)
Definition the_dict (v : value) : result dict :=
  match v with VDict d => Ok d | _ => Raise AttributeError end.

Definition dict_to_category (category_dict : value) (ignore_extra_keys : bool)
    : result Category :=
  let* d := the_dict category_dict in
  if issubset (DICT_TO_CATEGORY_MAP "object_detection") d then
    ObjectDetectionCategory_from_dict category_dict ignore_extra_keys
  else if issubset (DICT_TO_CATEGORY_MAP "keypoint_detection") d then
    KeypointDetectionCategory_from_dict category_dict ignore_extra_keys
  else if issubset (DICT_TO_CATEGORY_MAP "panoptic_segmentation") d then
    PanopticSegmentationCategory_from_dict category_dict ignore_extra_keys
  else Raise ValueError.

Definition RLE_from_dict (rle_dict : value) (ignore_index : bool) : result RLE :=
  let* d := compare_dict_structure rle_dict RLE_fields ignore_index in
  let* _ := keyword_arguments d RLE_fields in
  let* counts := ints_field d "counts" in
  let* size := ints_field d "size" in
  Ok (mkRLE counts size).

Definition SegmentInfo_from_dict (segment_info_dict : value) (ignore_index : bool)
    : result SegmentInfo.t :=
  let* d := compare_dict_structure segment_info_dict SegmentInfo_fields ignore_index in
  let* _ := keyword_arguments d SegmentInfo_fields in
  let* id := int_field d "id" in
  let* category_id := int_field d "category_id" in
  let* area := int_field d "area" in
  let* bbox := ints_field d "bbox" in
  let* iscrowd := int_field d "iscrowd" in
  Ok (SegmentInfo.mk id category_id area bbox iscrowd).

(** [annotation_dict['segmentation']], made an [RLE] when it is a
    dictionary. *)
Definition segmentation_field (d : dict) (ignore_index : bool) : result Segmentation :=
  let* v := item d "segmentation" in
  match v with
  | VDict _ => let* rle := RLE_from_dict v ignore_index in Ok (Mask rle)
  | _ => let* ps := as_list (as_list as_int) v in Ok (Polygons ps)
  end.

Definition ObjectDetectionAnnotation_from_dict (annotation_dict : value)
    (ignore_index : bool) : result Annotation :=
  let* d := compare_dict_structure annotation_dict ObjectDetectionAnnotation_fields
              ignore_index in
  let* segmentation := segmentation_field d ignore_index in
  let* id := int_field d "id" in
  let* image_id := int_field d "image_id" in
  let* category_id := int_field d "category_id" in
  let* area := int_field d "area" in
  let* bbox := ints_field d "bbox" in
  let* iscrowd := int_field d "iscrowd" in
  Ok (ObjectDetectionAnnotation id image_id category_id segmentation area bbox iscrowd).

Definition KeypointDetectionAnnotation_from_dict (annotation_dict : value)
    (ignore_index : bool) : result Annotation :=
  let* d := compare_dict_structure annotation_dict KeypointDetectionAnnotation_fields
              ignore_index in
  let* segmentation := segmentation_field d ignore_index in
  let* id := int_field d "id" in
  let* image_id := int_field d "image_id" in
  let* category_id := int_field d "category_id" in
  let* keypoints := ints_field d "keypoints" in
  let* num_keypoints := int_field d "num_keypoints" in
  let* area := int_field d "area" in
  let* bbox := ints_field d "bbox" in
  let* iscrowd := int_field d "iscrowd" in
  Ok (KeypointDetectionAnnotation id image_id category_id segmentation area bbox iscrowd
        keypoints num_keypoints).

(** [segments_info] is given to [SegmentInfo.from_dict] as it is: a list
    has no [keys()], and a dictionary makes one [SegmentInfo] where the
    field is declared a list of them. *)
Definition PanopticSegmentationAnnotation_from_dict (annotation_dict : value)
    (ignore_index : bool) : result Annotation :=
  let* d := compare_dict_structure annotation_dict PanopticSegmentationAnnotation_fields
              ignore_index in
  let* segments_info := item d "segments_info" in
  let* _ := SegmentInfo_from_dict segments_info ignore_index in
  Raise IllTyped.

Definition ImageCaptioningAnnotation_from_dict (annotation_dict : value)
    (ignore_index : bool) : result Annotation :=
  let* d := compare_dict_structure annotation_dict ImageCaptioningAnnotation_fields
              ignore_index in
  let* _ := keyword_arguments d ImageCaptioningAnnotation_fields in
  let* id := int_field d "id" in
  let* image_id := int_field d "image_id" in
  let* caption := str_field d "caption" in
  Ok (ImageCaptioningAnnotation id image_id caption).

Definition DensePoseAnnotation_from_dict (annotation_dict : value)
    (ignore_index : bool) : result Annotation :=
  let* d := compare_dict_structure annotation_dict DensePoseAnnotation_fields
              ignore_index in
  let* masks := item d "dp_masks" in
  let* masks := iterate masks in
  let* dp_masks := rmap (λ mask, RLE_from_dict mask ignore_index) masks in
  let* id := int_field d "id" in
  let* image_id := int_field d "image_id" in
  let* category_id := int_field d "category_id" in
  let* is_crowd := int_field d "is_crowd" in
  let* area := int_field d "area" in
  let* bbox := ints_field d "bbox" in
  let* dp_I := ints_field d "dp_I" in
  let* dp_U := ints_field d "dp_U" in
  let* dp_V := ints_field d "dp_V" in
  let* dp_x := ints_field d "dp_x" in
  let* dp_y := ints_field d "dp_y" in
  Ok (DensePoseAnnotation id image_id category_id is_crowd area bbox
        dp_I dp_U dp_V dp_x dp_y dp_masks).

(** [DICT_TO_ANNOTATION_MAP] *)
Definition DICT_TO_ANNOTATION_MAP (variant : string) : list string :=
  if bool_decide (variant = "object_detection") then
    ["id"; "image_id"; "category_id"; "segmentation"; "area"; "bbox"; "iscrowd"]
  else if bool_decide (variant = "keypoint_detection") then
    ["id"; "image_id"; "category_id"; "segmentation"; "area"; "bbox"; "iscrowd";
     "keypoints"; "skeleton"]
  else if bool_decide (variant = "panoptic_segmentation") then
    ["image_id"; "file_name"; "segments_info"]
  else if bool_decide (variant = "image_captioning") then ["id"; "image_id"; "caption"]
  else if bool_decide (variant = "dense_pose") then
    ["id"; "image_id"; "category_id"; "is_crowd"; "area"; "bbox"; "dp_I"; "dp_U";
     "dp_V"; "dp_x"; "dp_y"; "dp_masks"]
  else [].

Definition dict_to_annotation (annotation_dict : value) (ignore_extra_keys : bool)
    : result Annotation :=
  let* d := the_dict annotation_dict in
  if issubset (DICT_TO_ANNOTATION_MAP "object_detection") d then
    ObjectDetectionAnnotation_from_dict annotation_dict ignore_extra_keys
  else if issubset (DICT_TO_ANNOTATION_MAP "keypoint_detection") d then
    KeypointDetectionAnnotation_from_dict annotation_dict ignore_extra_keys
  else if issubset (DICT_TO_ANNOTATION_MAP "panoptic_segmentation") d then
    PanopticSegmentationAnnotation_from_dict annotation_dict ignore_extra_keys
  else if issubset (DICT_TO_ANNOTATION_MAP "image_captioning") d then
    ImageCaptioningAnnotation_from_dict annotation_dict ignore_extra_keys
  else if issubset (DICT_TO_ANNOTATION_MAP "dense_pose") d then
    DensePoseAnnotation_from_dict annotation_dict ignore_extra_keys
  else Raise ValueError.

(** ** [asdict], [to_dict] and [from_dict] *)

Definition ints (xs : list Z) : value := VList (VInt <$> xs).
Definition strs (xs : list string) : value := VList (VStr <$> xs).

Definition Info_asdict (x : Info.t) : value :=
  VDict [("year", VInt (Info.year x)); ("version", VStr (Info.version x));
         ("description", VStr (Info.description x));
         ("contributor", VStr (Info.contributor x)); ("url", VStr (Info.url x));
         ("date_created", VStr (Info.date_created x))].

Definition License_asdict (x : License.t) : value :=
  VDict [("id", VInt (License.id x)); ("name", VStr (License.name x));
         ("url", VStr (License.url x))].

Definition Image_asdict (x : Image.t) : value :=
  VDict [("id", VInt (Image.id x)); ("width", VInt (Image.width x));
         ("height", VInt (Image.height x)); ("file_name", VStr (Image.file_name x));
         ("license", VInt (Image.license x)); ("flickr_url", VStr (Image.flickr_url x));
         ("coco_url", VStr (Image.coco_url x));
         ("date_captured", VStr (Image.date_captured x))].

Definition Category_asdict (c : Category) : value :=
  match c with
  | ObjectDetectionCategory i n s =>
      VDict [("id", VInt i); ("name", VStr n); ("supercategory", VStr s)]
  | KeypointDetectionCategory i n s k sk =>
      VDict [("id", VInt i); ("name", VStr n); ("supercategory", VStr s);
             ("keypoints", strs k); ("skeleton", ints sk)]
  | PanopticSegmentationCategory i n s t co =>
      VDict [("id", VInt i); ("name", VStr n); ("supercategory", VStr s);
             ("isthing", VInt t); ("color", strs co)]
  end.

Definition RLE_asdict (r : RLE) : value :=
  VDict [("counts", ints (counts r)); ("size", ints (size r))].

Definition SegmentInfo_asdict (x : SegmentInfo.t) : value :=
  VDict [("id", VInt (SegmentInfo.id x)); ("category_id", VInt (SegmentInfo.category_id x));
         ("area", VInt (SegmentInfo.area x)); ("bbox", ints (SegmentInfo.bbox x));
         ("iscrowd", VInt (SegmentInfo.iscrowd x))].

Definition Segmentation_asdict (s : Segmentation) : value :=
  match s with
  | Polygons ps => VList (ints <$> ps)
  | Mask rle => RLE_asdict rle
  end.

Definition Annotation_asdict (a : Annotation) : value :=
  match a with
  | ObjectDetectionAnnotation i im c s ar b cr
  | StuffSegmentationAnnotation i im c s ar b cr =>
      VDict [("id", VInt i); ("image_id", VInt im); ("category_id", VInt c);
             ("segmentation", Segmentation_asdict s); ("area", VInt ar);
             ("bbox", ints b); ("iscrowd", VInt cr)]
  | KeypointDetectionAnnotation i im c s ar b cr k n =>
      VDict [("id", VInt i); ("image_id", VInt im); ("category_id", VInt c);
             ("segmentation", Segmentation_asdict s); ("area", VInt ar);
             ("bbox", ints b); ("iscrowd", VInt cr); ("keypoints", ints k);
             ("num_keypoints", VInt n)]
  | PanopticSegmentationAnnotation im f segs =>
      VDict [("image_id", VInt im); ("file_name", VStr f);
             ("segments_info", VList (SegmentInfo_asdict <$> segs))]
  | ImageCaptioningAnnotation i im c =>
      VDict [("id", VInt i); ("image_id", VInt im); ("caption", VStr c)]
  | DensePoseAnnotation i im c cr ar b dI dU dV dx dy m =>
      VDict [("id", VInt i); ("image_id", VInt im); ("category_id", VInt c);
             ("is_crowd", VInt cr); ("area", VInt ar); ("bbox", ints b);
             ("dp_I", ints dI); ("dp_U", ints dU); ("dp_V", ints dV);
             ("dp_x", ints dx); ("dp_y", ints dy);
             ("dp_masks", VList (RLE_asdict <$> m))]
  end.

(** [asdict(self)]: the five dataclass fields, in the order they are
    declared. *)
Definition asdict (st : State) : dict :=
  let c := self st in
  [("info", Info_asdict (info c));
   ("licenses", VList ((λ l, License_asdict (lic st l)) <$> licenses c));
   ("categories", match categories c with
                  | Some cs => VList ((λ l, Category_asdict (cat st l)) <$> cs)
                  | None => VNone
                  end);
   ("images", VList ((λ l, Image_asdict (img st l)) <$> images c));
   ("annotations", VList ((λ l, Annotation_asdict (ann st l)) <$> annotations c))].

(** [key, value = x] for the [x] a loop over a dictionary yields, which is
    a key: a string unpacks into two targets when it has two characters. *)
Definition unpack_pair (x : string) : result (string * value) :=
  match x with
  | String a (String b EmptyString) =>
      Ok (String a EmptyString, VStr (String b EmptyString))
  | _ => Raise ValueError
  end.

Definition is_not_None (v : value) : bool :=
  match v with VNone => false | _ => true end.

(** [{key: value for key, value in asdict(self) if value is not None}]:
    the loop runs over [asdict(self)] itself, not over its [items()]. *)
Definition to_dict (st : State) : result value :=
  let* pairs := rmap unpack_pair (keys (asdict st)) in
  Ok (VDict (List.filter (λ p, is_not_None p.2) pairs)).

(** New objects are put at the end of the heap. *)
Definition new_objects {A} (h : list A) (xs : list A) : list A * list loc :=
  (h ++ xs, seq (length h) (length xs)).

(** [COCO.from_dict]: a class method, so it makes a dataset from a heap. *)
Definition from_dict (coco_dict : value) (ignore_extra_keys : bool) (h : Heap)
    : result State :=
  let* d := compare_dict_structure coco_dict COCO_fields true in
  let* info_ := item d "info" in
  let* info_ := Info_from_dict info_ ignore_extra_keys in
  let* licenses_ := item d "licenses" in
  let* licenses_ := iterate licenses_ in
  let* licenses_ := rmap (λ license, License_from_dict license ignore_extra_keys) licenses_ in
  let* images_ := item d "images" in
  let* images_ := iterate images_ in
  let* images_ := rmap (λ image, Image_from_dict image ignore_extra_keys) images_ in
  let* annotations_ := item d "annotations" in
  let* annotations_ := iterate annotations_ in
  let* annotations_ := rmap (λ annotation, dict_to_annotation annotation true) annotations_ in
  let* categories_ :=
    if str_in "categories" (keys d) then
      let* categories_ := item d "categories" in
      let* categories_ := iterate categories_ in
      let* categories_ :=
        rmap (λ category, dict_to_category category ignore_extra_keys) categories_ in
      Ok (Some categories_)
    else Ok None in
  let '(hl, licenses_) := new_objects (h_licenses h) licenses_ in
  let '(hi, images_) := new_objects (h_images h) images_ in
  let '(ha, annotations_) := new_objects (h_annotations h) annotations_ in
  let '(hc, categories_) :=
    match categories_ with
    | Some cs => let '(hc, ls) := new_objects (h_categories h) cs in (hc, Some ls)
    | None => (h_categories h, None)
    end in
  Ok (mkState (mkHeap hl hi hc ha)
        (mkCOCO info_ licenses_ categories_ images_ annotations_ [] [] [] [])).

(** [COCO.from_dict(d.to_dict())] *)
Definition round_trip (st : State) : result State :=
  let* coco_dict := to_dict st in
  from_dict coco_dict true (heap st).

(** What the dataclass [__eq__] of [COCO] compares: the five fields, the
    records by their values. *)
Definition contents (st : State)
    : Info.t * list License.t * option (list Category) * list Image.t * list Annotation :=
  (info (self st),
   lic st <$> licenses (self st),
   (λ cs : list loc, cat st <$> cs) <$> categories (self st),
   img st <$> images (self st),
   ann st <$> annotations (self st)).

(** ** Sequences of mutations *)

Inductive operation :=
| Append_license (license : value)
| Append_category (category : value)
| Append_image (image : value)
| Append_annotation (annotation : value)
| Remove_license (license : loc) (remove_images remove_annotations : bool)
| Remove_category (category : loc) (remove_annotations : bool)
| Remove_image (image : loc) (remove_annotations : bool)
| Remove_annotation (annotation : loc)
| Reindex_license (license : loc) (new_id : option Z)
| Reindex_category (category : loc) (new_id : option Z)
| Reindex_image (image : loc) (new_id : option Z)
| Reindex_annotation (annotation : loc) (new_id : option Z)
| Reindex_licenses (new_ids : option (list Z))
| Reindex_categories (new_ids : option (list Z))
| Reindex_images (new_ids : option (list Z))
| Reindex_annotations (new_ids : option (list Z)).

Definition run (op : operation) : M unit :=
  match op with
  | Append_license x => append_license x
  | Append_category x => append_category x
  | Append_image x => append_image x
  | Append_annotation x => append_annotation x
  | Remove_license l ri ra => remove_license l ri ra
  | Remove_category l ra => remove_category l ra
  | Remove_image l ra => remove_image l ra
  | Remove_annotation l => remove_annotation l
  | Reindex_license l v => reindex_license l v
  | Reindex_category l v => reindex_category l v
  | Reindex_image l v => reindex_image l v
  | Reindex_annotation l v => reindex_annotation l v
  | Reindex_licenses vs => reindex_licenses vs
  | Reindex_categories vs => reindex_categories vs
  | Reindex_images vs => reindex_images vs
  | Reindex_annotations vs => reindex_annotations vs
  end.

(** The caller goes on with the dataset whether the call returned or
    raised. *)
Definition run_all (ops : list operation) (st : State) : State :=
  foldl (λ st op, exec (run op) st) st ops.

Definition unique_ids (st : State) : Prop :=
  NoDup (license_ids st) ∧ NoDup (category_ids st)
  ∧ NoDup (image_ids st) ∧ NoDup (annotation_ids st).

(** The record an operation appends is an object of the heap. *)
Definition live (st : State) (op : operation) : Prop :=
  match op with
  | Append_license (VObj (RLicense l)) => (l < length (h_licenses (heap st)))%nat
  | Append_category (VObj (RCategory l)) => (l < length (h_categories (heap st)))%nat
  | Append_image (VObj (RImage l)) => (l < length (h_images (heap st)))%nat
  | Append_annotation (VObj (RAnnotation l)) => (l < length (h_annotations (heap st)))%nat
  | _ => True
  end.

(** A singular reindex to an id that another record of the collection
    holds, and a plural reindex of the licenses to ids that repeat. *)
Definition clashes (st : State) (op : operation) : Prop :=
  match op with
  | Reindex_license l (Some v) =>
      ∃ l', l' ∈ licenses (self st) ∧ l' ≠ l ∧ License.id (lic st l') = v
  | Reindex_category l (Some v) =>
      ∃ l', l' ∈ default [] (categories (self st)) ∧ l' ≠ l ∧ Cat.id (cat st l') = v
  | Reindex_image l (Some v) =>
      ∃ l', l' ∈ images (self st) ∧ l' ≠ l ∧ Image.id (img st l') = v
  | Reindex_annotation l (Some v) =>
      ∃ l', l' ∈ annotations (self st) ∧ l' ≠ l ∧ Ann.id (ann st l') = Some v
  | Reindex_licenses (Some vs) => ¬ NoDup vs
  | _ => False
  end.

Fixpoint all_along (P : State → operation → Prop) (st : State) (ops : list operation)
    : Prop :=
  match ops with
  | [] => True
  | op :: ops' => P st op ∧ all_along P (exec (run op) st) ops'
  end.

(** ** The four collections and their allocators *)

Inductive collection := Licenses | Categories | Images | Annotations.

Definition committed_ids (c : collection) (st : State) : list Z :=
  match c with
  | Licenses => license_ids st
  | Categories => category_ids st
  | Images => image_ids st
  | Annotations => annotation_ids st
  end.

Definition reserved_ids (c : collection) (st : State) : list Z :=
  match c with
  | Licenses => _cached_license_ids (self st)
  | Categories => _cached_category_ids (self st)
  | Images => _cached_image_ids (self st)
  | Annotations => _cached_annotation_ids (self st)
  end.

Definition next_id (c : collection) : M Z :=
  match c with
  | Licenses => get_new_license_id
  | Categories => get_new_category_id
  | Images => get_new_image_id
  | Annotations => get_new_annotation_id
  end.

(** [n] calls in a row, nothing else in between. *)
Fixpoint call_times {A} (m : M A) (n : nat) : M (list A) :=
  match n with
  | O => st_ret []
  | S n' =>
      let! x := m in
      let! xs := call_times m n' in
      st_ret (x :: xs)
  end.

(** The records of a collection, the size of the heap array they live in,
    and the id of an object of the collection's family, when it has one. *)
Definition members (c : collection) (st : State) : list loc :=
  match c with
  | Licenses => licenses (self st)
  | Categories => default [] (categories (self st))
  | Images => images (self st)
  | Annotations => annotations (self st)
  end.

Definition heap_size (c : collection) (st : State) : nat :=
  match c with
  | Licenses => length (h_licenses (heap st))
  | Categories => length (h_categories (heap st))
  | Images => length (h_images (heap st))
  | Annotations => length (h_annotations (heap st))
  end.

Definition id_at (c : collection) (st : State) (e : loc) : option Z :=
  match c with
  | Licenses => Some (License.id (lic st e))
  | Categories => Some (Cat.id (cat st e))
  | Images => Some (Image.id (img st e))
  | Annotations => Ann.id (ann st e)
  end.



(** ** Which class a dispatcher built *)

Definition is_KeypointDetectionAnnotation (a : Annotation) : bool :=
  match a with KeypointDetectionAnnotation _ _ _ _ _ _ _ _ _ => true | _ => false end.

Definition is_ObjectDetectionCategory (c : Category) : bool :=
  match c with ObjectDetectionCategory _ _ _ => true | _ => false end.

(** ** Datasets and dictionaries used as examples *)

Definition no_info : Info.t := Info.mk 0 "" "" "" "" "".

(** [COCO(info=Info())] *)
Definition empty_dataset : State :=
  mkState (mkHeap [] [] [] []) (mkCOCO no_info [] None [] [] [] [] [] []).

(** One image with id 5, nothing else. *)
Definition one_image_dataset : State :=
  mkState (mkHeap [] [Image.mk 5 640 480 "a.jpg" 0 "" "" ""] [] [])
          (mkCOCO no_info [] None [0%nat] [] [] [] [] []).

(** A captioning dataset: [categories] is [None]; the heap also holds a
    category object that the caller made, [ObjectDetectionCategory(id=1,
    name="person")]. *)
Definition caption_dataset : State :=
  mkState (mkHeap [License.mk 1 "cc" ""] [Image.mk 1 640 480 "a.jpg" 1 "" "" ""]
                  [ObjectDetectionCategory 1 "person" ""]
                  [ImageCaptioningAnnotation 1 1 "a cat"])
          (mkCOCO no_info [0%nat] None [0%nat] [0%nat] [] [] [] []).

(** Two licenses with ids 0 and 1, an image under each, an annotation on
    each image, one category; the heap also holds a third license, a third
    image and a second category that are in no collection. *)
Definition small_dataset : State :=
  mkState
    (mkHeap [License.mk 0 "a" ""; License.mk 1 "b" ""; License.mk 7 "c" ""]
            [Image.mk 0 640 480 "a.jpg" 0 "" "" ""; Image.mk 1 640 480 "b.jpg" 1 "" "" "";
             Image.mk 9 640 480 "c.jpg" 0 "" "" ""]
            [ObjectDetectionCategory 0 "person" ""; ObjectDetectionCategory 4 "dog" ""]
            [ObjectDetectionAnnotation 0 0 0 (Polygons []) 0 [] 0;
             ImageCaptioningAnnotation 1 1 "a dog"])
    (mkCOCO no_info [0%nat; 1%nat] (Some [0%nat]) [0%nat; 1%nat] [0%nat; 1%nat]
            [] [] [] []).

Definition small_dataset_operations : list operation :=
  [Reindex_image 0%nat (Some 5); Append_license (VObj (RLicense 2%nat));
   Reindex_licenses None; Reindex_images (Some [1; 0]);
   Reindex_annotations (Some [1; 1]); Reindex_category 0%nat None;
   Reindex_categories (Some [3]); Remove_license 0%nat true true;
   Append_image (VObj (RImage 2%nat))].

(** A dataset with one license, one category, one image and one annotation
    (the objects 0); the heap also holds a second object of each family (the
    objects 1), made by the caller with the same field values, and a third
    annotation with another caption (object 2). *)
Definition twin_dataset : State :=
  mkState
    (mkHeap [License.mk 1 "cc" ""; License.mk 1 "cc" ""]
            [Image.mk 1 640 480 "a.jpg" 1 "" "" ""; Image.mk 1 640 480 "a.jpg" 1 "" "" ""]
            [ObjectDetectionCategory 1 "cat" ""; ObjectDetectionCategory 1 "cat" ""]
            [ImageCaptioningAnnotation 1 1 "a cat"; ImageCaptioningAnnotation 1 1 "a cat";
             ImageCaptioningAnnotation 2 1 "a dog"])
    (mkCOCO no_info [0%nat] (Some [0%nat]) [0%nat] [0%nat] [] [] [] []).

(** An image whose license no license of the dataset has (the default,
    0), and a caption on the image. *)
Definition unlicensed_dataset : State :=
  mkState
    (mkHeap [] [Image.mk 1 640 480 "a.jpg" 0 "" "" ""] []
            [ImageCaptioningAnnotation 1 1 "a cat"])
    (mkCOCO no_info [] None [0%nat] [0%nat] [] [] [] []).

(** Ten images with ids 0 to 9 under one license, a category, an
    annotation on the images 0, 3 and 7, and a caption whose [image_id], 99,
    is the id of no image. *)
Definition ten_images_dataset : State :=
  mkState
    (mkHeap [License.mk 1 "cc" ""]
            ((λ k, Image.mk k 640 480 "" 1 "" "" "") <$> py_range 10)
            [ObjectDetectionCategory 1 "cat" ""]
            [ObjectDetectionAnnotation 0 0 1 (Polygons []) 0 [] 0;
             ObjectDetectionAnnotation 1 3 1 (Polygons []) 0 [] 0;
             ObjectDetectionAnnotation 2 7 1 (Polygons []) 0 [] 0;
             ImageCaptioningAnnotation 3 99 "nowhere"])
    (mkCOCO no_info [0%nat] (Some [0%nat]) (seq 0 10) (seq 0 4) [] [] [] []).

(** A keypoint-detection annotation as the COCO format writes it, and a
    keypoint-detection category. *)
Definition keypoint_annotation_dict : value :=
  VDict [("id", VInt 1); ("image_id", VInt 2); ("category_id", VInt 3);
         ("segmentation", VList []); ("area", VInt 0); ("bbox", VList []);
         ("iscrowd", VInt 0); ("keypoints", ints [10; 20; 2]);
         ("num_keypoints", VInt 1); ("skeleton", VList [])].

Definition keypoint_category_dict : value :=
  VDict [("id", VInt 1); ("name", VStr "person"); ("supercategory", VStr "person");
         ("keypoints", strs ["nose"]); ("skeleton", ints [1; 2])].

(** ** Relations between the states of a method call *)

(** [always R m]: the state [m] leaves is related to the state it found,
    whether it returned or raised. *)
Definition always (R : relation State) {A} (m : M A) : Prop :=
  ∀ st, R st (exec m st).

#[global] Instance collection_eq_dec : EqDecision collection.
Proof. solve_decision. Defined.

(** The collections, the heap sizes and the ids are what they were. *)
Definition ids_frame (st st' : State) : Prop :=
  ∀ c, members c st' = members c st
       ∧ heap_size c st' = heap_size c st
       ∧ ∀ e, id_at c st' e = id_at c st e.

(** The object [l] of the family of [c], when it is in the heap and has an
    id, now has id [v]; nothing else is different in the collections, the
    heap sizes and the ids. *)
Definition sets_id (c : collection) (l : loc) (v : Z) (st st' : State) : Prop :=
  ∀ c', members c' st' = members c' st
        ∧ heap_size c' st' = heap_size c' st
        ∧ ∀ e, id_at c' st' e =
               if decide (c' = c ∧ e = l ∧ (l < heap_size c st)%nat ∧ is_Some (id_at c st l))
               then Some v else id_at c' st e.

Definition Inv (st : State) : Prop := heap_ok st ∧ unique_ids st.

(** [l] was added at the end of [c]. *)
Definition appends (c : collection) (l : loc) (st st' : State) : Prop :=
  ∀ c', members c' st' = (if decide (c' = c) then members c st ++ [l] else members c' st)
        ∧ heap_size c' st' = heap_size c' st
        ∧ ∀ e, id_at c' st' e = id_at c' st e.

(** Records were taken out of collections, nothing else. *)
Definition shrinks (st st' : State) : Prop :=
  ∀ c, members c st' `sublist_of` members c st
       ∧ heap_size c st' = heap_size c st
       ∧ ∀ e, id_at c st' e = id_at c st e.

(** [keeps I]: a state in which [I] holds is followed by one in which it
    holds. *)
Definition keeps (I : State → Prop) : relation State := λ s s', I s → I s'.

(** The collections outside [cs] are what they were. *)
Definition only_changes (cs : list collection) : relation State :=
  λ s s', ∀ c, c ∉ cs → members c s' = members c s.

(** The heap grew at the end, the dataset is what it was. *)
Definition extends (s s' : State) : Prop :=
  self s' = self s
  ∧ h_licenses (heap s) `prefix_of` h_licenses (heap s')
  ∧ h_images (heap s) `prefix_of` h_images (heap s')
  ∧ h_categories (heap s) `prefix_of` h_categories (heap s')
  ∧ h_annotations (heap s) `prefix_of` h_annotations (heap s').


(** ** Annotations and dictionaries of the asdict round trip *)

(** The annotations that [dict_to_annotation] builds again, as they were,
    from the dictionary [asdict] makes of them. *)
Definition survives_asdict (a : Annotation) : bool :=
  match a with
  | ObjectDetectionAnnotation _ _ _ _ _ _ _
  | ImageCaptioningAnnotation _ _ _
  | DensePoseAnnotation _ _ _ _ _ _ _ _ _ _ _ _ => true
  | _ => false
  end.



(** ** The plural and the composite methods *)

(** [[self.append_license(license) for license in licenses]] *)
Definition extend_licenses (licenses : value) : M unit :=
  let! licenses := query (λ _, iterate licenses) in
  for_each licenses append_license.

Definition extend_categories (categories : value) : M unit :=
  let! categories := query (λ _, iterate categories) in
  for_each categories append_category.

Definition extend_images (images : value) : M unit :=
  let! images := query (λ _, iterate images) in
  for_each images append_image.

Definition extend_annotations (annotations : value) : M unit :=
  let! annotations := query (λ _, iterate annotations) in
  for_each annotations append_annotation.

Definition remove_licenses (licenses : list loc) (remove_images_ remove_annotations : bool)
    : M unit :=
  for_each licenses (λ license, remove_license license remove_images_ remove_annotations).

Definition remove_categories (categories : list loc) (remove_annotations : bool) : M unit :=
  for_each categories (λ category, remove_category category remove_annotations).

Definition reindex_dataset : M unit :=
  let! _ := reindex_annotations None in
  let! _ := reindex_images None in
  let! _ := reindex_categories None in
  let! _ := reindex_licenses None in
  clear_cached_ids.

Definition clean_dataset : M unit :=
  let! _ := trim_dataset in
  reindex_dataset.

(** ** The four collections: appending and looking up *)

(** A record of the family of a collection, as an argument. *)
Definition object_of (c : collection) (l : loc) : value :=
  VObj match c with
       | Licenses => RLicense l
       | Categories => RCategory l
       | Images => RImage l
       | Annotations => RAnnotation l
       end.

Definition append (c : collection) : value → M unit :=
  match c with
  | Licenses => append_license
  | Categories => append_category
  | Images => append_image
  | Annotations => append_annotation
  end.

Definition extend (c : collection) : value → M unit :=
  match c with
  | Licenses => extend_licenses
  | Categories => extend_categories
  | Images => extend_images
  | Annotations => extend_annotations
  end.

(** The lookup of a record by its id; [get_annotation] returns the
    annotation or raises. *)
Definition lookup_id (c : collection) (st : State) (i : Z) : result (option loc) :=
  match c with
  | Licenses => get_license st (VInt i)
  | Categories => get_category st (VInt i)
  | Images => get_image st (VInt i)
  | Annotations => found (get_annotation st (VInt i))
  end.

(** ** Removing with what refers to the record *)

(** The annotations that are left when the images [removed] have gone
    with theirs. *)
Definition annotations_left (st : State) (removed : list loc) : list loc :=
  List.filter
    (λ a, negb (int_in (Ann.image_id (ann st a)) ((λ i, Image.id (img st i)) <$> removed)))
    (annotations (self st)).

(** ** Splitting: the copies a part is made of *)

(** The images [sub] are objects of the heap with the field values of
    images of the dataset (they are copies of them). *)
Definition copies_of_images (s : State) (sub : list loc) : Prop :=
  heap_ok s
  ∧ Forall (λ c, (c < length (h_images (heap s)))%nat
                 ∧ ∃ l, l ∈ images (self s) ∧ img s l = img s c) sub.

(** ** Plural reindexing *)

Definition reindex_plural (c : collection) : option (list Z) → M unit :=
  match c with
  | Licenses => reindex_licenses
  | Categories => reindex_categories
  | Images => reindex_images
  | Annotations => reindex_annotations
  end.

(** Between two states nothing but ids of the collection [c] may differ,
    as far as collections, heap sizes and ids go; and a record of [c] has an
    id after if and only if it had one before. *)
Definition reindexes (c : collection) (s s' : State) : Prop :=
  (∀ c', members c' s' = members c' s ∧ heap_size c' s' = heap_size c' s)
  ∧ (∀ c' e, c' ≠ c → id_at c' s' e = id_at c' s e)
  ∧ (∀ e, is_Some (id_at c s' e) ↔ is_Some (id_at c s e)).

(** One turn of the loop of a plural reindexing: make room for [new_id],
    then give it to [x]. *)
Definition take_id (c : collection) (reindex : loc → option Z → M unit)
    (displace : Z → M unit) (new_id : Z) (x : loc) : M unit :=
  st_bind (read (committed_ids c)) (λ ids,
  st_bind (when (int_in new_id ids) (displace new_id)) (λ _,
  reindex x (Some new_id))).

Definition reindex_one (c : collection) : loc → option Z → M unit :=
  match c with
  | Licenses => reindex_license
  | Categories => reindex_category
  | Images => reindex_image
  | Annotations => reindex_annotation
  end.

(** Two categories, an image, and an annotation of each category. *)
Definition two_categories_dataset : State :=
  mkState
    (mkHeap [License.mk 1 "cc" ""] [Image.mk 1 640 480 "a.jpg" 1 "" "" ""]
            [ObjectDetectionCategory 1 "cat" "animal"; ObjectDetectionCategory 2 "dog" "animal"]
            [ObjectDetectionAnnotation 1 1 1 (Polygons []) 0 [] 0;
             ObjectDetectionAnnotation 2 1 2 (Polygons []) 0 [] 0])
    (mkCOCO no_info [0%nat] (Some [0%nat; 1%nat]) [0%nat] [0%nat; 1%nat] [] [] [] []).

(** ** References between records *)

(** The annotation [a] is an annotation of the image [x]; the image [i] has
    the license [l]. *)
Definition on_image (st : State) (a x : loc) : Prop :=
  Ann.image_id (ann st a) = Image.id (img st x).

Definition under_license (st : State) (i l : loc) : Prop :=
  Image.license (img st i) = License.id (lic st l).

(** The collections of [s] are those of [s0], and a record of the
    collection [child] that referred to a record of the collection [parent]
    in [s0] refers to it in [s]. *)
Definition refers_as_in (link : State → loc → loc → Prop) (child parent : collection)
    (s0 s : State) : Prop :=
  (∀ c, members c s = members c s0)
  ∧ ∀ a x, a ∈ members child s0 → x ∈ members parent s0 → link s0 a x → link s a x.

(** The annotation [a] has the id of the category [x] as [category_id] or
    in a segment. *)
Definition in_category (st : State) (a x : loc) : Prop :=
  Cat.id (cat st x) ∈ annotation_category_ids (ann st a).

(** What the loop of [reindex_category] does to one annotation of the
    category. *)
Definition recategorize (old_id new_id : Z) (a : Annotation) : Annotation :=
  if is_Categorized a then Ann.set_category_id new_id a
  else if is_Panoptic a then retarget_segments old_id new_id a
  else a.

(** The references of the annotations to the categories are those of
    [s0], and every annotation has a category or segments. *)
Definition categories_as_in (s0 s : State) : Prop :=
  refers_as_in in_category Annotations Categories s0 s
  ∧ annotations_categorized_or_panoptic s = true.

(** The annotations are the records they were in [s0]. *)
Definition annotations_as_in (s0 s : State) : Prop :=
  (∀ c, members c s = members c s0)
  ∧ h_annotations (heap s) = h_annotations (heap s0).

(** The fields through which records refer to the records of the collection
    [k], and the ids they refer to, read the same in [s'] as in [s]. *)
Definition same_references (k : collection) (s s' : State) : Prop :=
  match k with
  | Images =>
      (∀ a, Ann.image_id (ann s' a) = Ann.image_id (ann s a))
      ∧ (∀ x, Image.id (img s' x) = Image.id (img s x))
  | Licenses =>
      (∀ i, Image.license (img s' i) = Image.license (img s i))
      ∧ (∀ l, License.id (lic s' l) = License.id (lic s l))
  | Categories =>
      (∀ a, annotation_category_ids (ann s' a) = annotation_category_ids (ann s a)
            ∧ is_Categorized (ann s' a) = is_Categorized (ann s a)
            ∧ is_Panoptic (ann s' a) = is_Panoptic (ann s a))
      ∧ (∀ x, Cat.id (cat s' x) = Cat.id (cat s x))
  | Annotations => True
  end.

(** The collections are the same, and so are the references to the records
    of every collection but [c]. *)
Definition other_references (c : collection) : relation State :=
  λ s s', (∀ c', members c' s' = members c' s) ∧ ∀ k, k ≠ c → same_references k s s'.

(** Between [s] and [s'] the collections are the same, no annotation has
    changed its class, every annotation of the dataset that was an
    annotation of an image of the dataset is an annotation of that image,
    every image that had a license of the dataset has that license, and,
    when every annotation has a category or segments, every annotation that
    had the id of a category of the dataset has the id of that category. *)
Definition references_kept (s s' : State) : Prop :=
  (∀ c, members c s' = members c s)
  ∧ annotations_categorized_or_panoptic s' = annotations_categorized_or_panoptic s
  ∧ (∀ a x, a ∈ annotations (self s) → x ∈ images (self s) →
            on_image s a x → on_image s' a x)
  ∧ (∀ i l, i ∈ images (self s) → l ∈ licenses (self s) →
            under_license s i l → under_license s' i l)
  ∧ (annotations_categorized_or_panoptic s = true →
     ∀ a x, a ∈ annotations (self s) → x ∈ members Categories s →
            in_category s a x → in_category s' a x).

(** The category ids that the annotations carry are what they were. *)
Definition category_ids_untouched (s s' : State) : Prop :=
  ∀ a, annotation_category_ids (ann s' a) = annotation_category_ids (ann s a).

(** ** Combining

    [combine] works on a deep copy of its argument.  The copy is a local
    object of the call: a method that runs on it runs with the copy in the
    place of [self], over the same heap, and returns the copy as it has
    become. *)

Definition on_other {A} (d : COCO) (m : M A) : M (A * COCO) :=
  λ st, match m (set_self d st) with
        | (Ok a, st') => (Ok (a, self st'), set_self (self st) st')
        | (Raise e, st') => (Raise e, set_self (self st) st')
        end.

(** A loop that appends what each turn yields to a list. *)
Fixpoint for_list {A B} (xs : list A) (f : A → M B) : M (list B) :=
  match xs with
  | [] => st_ret []
  | x :: xs' =>
      let! y := f x in
      let! ys := for_list xs' f in
      st_ret (y :: ys)
  end.

(** [deepcopy(new_coco)]: the records are copied, family by family, the
    lists of reserved ids go with the object. *)
Definition deepcopy_coco (d : COCO) : M COCO :=
  let! licenses_ := deepcopy_licenses (licenses d) in
  let! categories_ := match categories d with
                      | Some cs =>
                          let! copies := deepcopy_categories cs in
                          st_ret (Some copies)
                      | None => st_ret None
                      end in
  let! images_ := deepcopy_images (images d) in
  let! annotations_ := deepcopy_annotations (annotations d) in
  st_ret (mkCOCO (info d) licenses_ categories_ images_ annotations_
            (_cached_license_ids d) (_cached_image_ids d)
            (_cached_category_ids d) (_cached_annotation_ids d)).

Definition combine_licenses (new_coco : COCO) (ignore_duplicates : bool) : M COCO :=
  let! new_license_ids := for_list (licenses new_coco) (λ license,
    let! name := read (λ st, License.name (lic st license)) in
    let! names := read license_names in
    if negb ignore_duplicates && str_in name names then
      query (λ st,
        let* current_license := get_license st (VStr name) in
        attr current_license (λ l, License.id (lic st l)))
    else get_new_license_id) in
  let! reindexed := on_other new_coco (reindex_licenses (Some new_license_ids)) in
  let new_coco := reindexed.2 in
  let! _ := for_each (licenses new_coco) (λ license,
    let! id := read (λ st, License.id (lic st license)) in
    let! ids := read license_ids in
    when (negb (int_in id ids)) (append_license (VObj (RLicense license)))) in
  st_ret new_coco.

(** [category.name == self_category.name and category.supercategory ==
    self_category.supercategory] *)
Definition same_category (st : State) (category self_category : loc) : bool :=
  bool_decide (Cat.name (cat st category) = Cat.name (cat st self_category))
  && bool_decide (Cat.supercategory (cat st category)
                  = Cat.supercategory (cat st self_category)).

Definition combine_categories (new_coco : COCO) (ignore_duplicates : bool) : M COCO :=
  match categories new_coco with
  | Some (c :: cs) =>
      let! new_category_ids := for_list (c :: cs) (λ category,
        let! present := read categories_present in
        let! duplicated := read (λ st,
          match present with
          | Some self_categories =>
              negb ignore_duplicates
              && existsb (same_category st category) self_categories
          | None => false
          end) in
        if duplicated then
          let! current_category :=
            query (λ st, get_category st (VStr (Cat.name (cat st category)))) in
          match current_category with
          | Some current => read (λ st, Cat.id (cat st current))
          | None => get_new_category_id
          end
        else get_new_category_id) in
      let! reindexed := on_other new_coco (reindex_categories (Some new_category_ids)) in
      let new_coco := reindexed.2 in
      let! _ := for_each (default [] (categories new_coco)) (λ category,
        let! id := read (λ st, Cat.id (cat st category)) in
        let! ids := read category_ids in
        when (negb (int_in id ids)) (append_category (VObj (RCategory category)))) in
      st_ret new_coco
  | _ => st_ret new_coco
  end.

Definition combine_images (new_coco : COCO) (ignore_duplicates : bool) : M COCO :=
  let! new_image_ids := for_list (images new_coco) (λ image,
    let! file_name := read (λ st, Image.file_name (img st image)) in
    let! file_names := read image_file_names in
    if negb ignore_duplicates && str_in file_name file_names then
      query (λ st,
        let* current_image := get_image st (VStr file_name) in
        attr current_image (λ l, Image.id (img st l)))
    else get_new_image_id) in
  let! reindexed := on_other new_coco (reindex_images (Some new_image_ids)) in
  let new_coco := reindexed.2 in
  let! _ := for_each (images new_coco) (λ image,
    let! id := read (λ st, Image.id (img st image)) in
    let! ids := read image_ids in
    when (negb (int_in id ids)) (append_image (VObj (RImage image)))) in
  st_ret new_coco.

Definition combine (new_coco : COCO) (ignore_duplicates : bool) : M unit :=
  let! new_coco := deepcopy_coco new_coco in
  let! new_coco := combine_licenses new_coco ignore_duplicates in
  let! new_coco := combine_categories new_coco ignore_duplicates in
  let! new_coco := combine_images new_coco ignore_duplicates in
  let! new_annotation_ids :=
    for_list (annotations new_coco) (λ _, get_new_annotation_id) in
  let! reindexed := on_other new_coco (reindex_annotations (Some new_annotation_ids)) in
  let new_coco := reindexed.2 in
  let! _ := extend_annotations
              (VList ((λ l, VObj (RAnnotation l)) <$> annotations new_coco)) in
  clear_cached_ids.











(* ================================================================== *)
(** * Properties *)

(** A closed decidable proposition, by evaluation. *)
Ltac decide_closed := apply (bool_decide_unpack _); vm_compute; exact I.

(** ** The id allocator *)

Lemma foldl_max_upper (l : list Z) (b x : Z) :
  x ≤ b ∨ x ∈ l → x ≤ foldl Z.max b l.
Proof.
  revert b. induction l as [|c l IH]; simpl; intros b [Hb|Hx].
  - done.
  - inversion Hx.
  - apply IH. left. lia.
  - apply elem_of_cons in Hx as [->|Hx]; apply IH; [left; lia | by right].
Qed.

Lemma py_max_upper (xs : list Z) (m : Z) :
  py_max xs = Ok m → ∀ x, x ∈ xs → x ≤ m.
Proof.
  destruct xs as [|a xs]; [discriminate|]. simpl. intros [= <-] x Hx.
  apply foldl_max_upper. apply elem_of_cons in Hx as [->|Hx]; [left; lia | by right].
Qed.

Lemma py_max_elem (xs : list Z) (m : Z) : py_max xs = Ok m → m ∈ xs.
Proof.
  destruct xs as [|a xs]; [discriminate|]. simpl. intros [= <-].
  revert a. induction xs as [|c xs IH]; simpl; intros a.
  - left.
  - destruct (Z.max_spec a c) as [[_ ->]|[_ ->]].
    + right. apply IH.
    + specialize (IH a). apply elem_of_cons in IH as [->|IH].
      * left.
      * right. by right.
Qed.

Lemma py_max_nonempty (xs : list Z) : xs ≠ [] → ∃ m, py_max xs = Ok m.
Proof. destruct xs; [done|]. simpl. eauto. Qed.

Lemma py_max_snoc (xs : list Z) (m : Z) :
  py_max xs = Ok m → py_max (xs ++ [m + 1]) = Ok (m + 1).
Proof.
  destruct xs as [|a xs]; [discriminate|]. simpl. intros [= <-].
  rewrite foldl_app. simpl. f_equal. lia.
Qed.

(** A call of an allocator touches the reserved ids of its collection
    only. *)
Lemma next_id_step (c : collection) (st : State) (m : Z) :
  py_max (committed_ids c st ++ reserved_ids c st) = Ok m →
  ∃ st', next_id c st = (Ok (m + 1), st')
    ∧ reserved_ids c st' = reserved_ids c st ++ [m + 1]
    ∧ committed_ids c st' = committed_ids c st
    ∧ heap st' = heap st
    ∧ licenses (self st') = licenses (self st)
    ∧ categories (self st') = categories (self st)
    ∧ images (self st') = images (self st)
    ∧ annotations (self st') = annotations (self st).
Proof.
  intros Hm.
  destruct c; simpl in *;
    unfold get_new_license_id, get_new_category_id, get_new_image_id,
      get_new_annotation_id, get_new_id, generate_new_id;
    rewrite Hm; simpl; eexists; (split; [reflexivity|]); done.
Qed.

Lemma call_times_next_id (c : collection) (n : nat) (st : State) (m : Z) :
  py_max (committed_ids c st ++ reserved_ids c st) = Ok m →
  ∃ st', call_times (next_id c) n st
           = (Ok ((λ k, m + 1 + Z.of_nat k) <$> seq 0 n), st')
    ∧ committed_ids c st' = committed_ids c st.
Proof.
  revert st m. induction n as [|n IH]; intros st m Hm; simpl.
  - by eexists.
  - destruct (next_id_step c st m Hm) as (st1 & Hcall & Hres & Hcom & _).
    destruct (IH st1 (m + 1)) as (st2 & Hrest & Hcom2).
    { rewrite Hres, Hcom, app_assoc. by apply py_max_snoc. }
    exists st2. split; [|congruence].
    unfold st_bind at 1. rewrite Hcall. unfold st_bind at 1. rewrite Hrest.
    unfold st_ret. do 2 f_equal. rewrite Z.add_0_r. f_equal.
    rewrite <- fmap_S_seq, <- list_fmap_compose. apply list_fmap_ext.
    intros _ k _. simpl. lia.
Qed.

(** C8.  When the committed and the reserved ids of a collection are not
    both empty, the allocator of the collection returns one more than the
    largest of them and appends it to the reserved ids, leaving the
    collection as it is; any number of calls in a row, three of
    [get_new_image_id] among them, return pairwise distinct ids. *)
Theorem allocator_returns_distinct_ids (c : collection) (st : State) (n : nat) :
  committed_ids c st ++ reserved_ids c st ≠ [] →
  ∃ m st1 ids stn,
    m ∈ committed_ids c st ++ reserved_ids c st
    ∧ (∀ x, x ∈ committed_ids c st ++ reserved_ids c st → x ≤ m)
    ∧ next_id c st = (Ok (m + 1), st1)
    ∧ reserved_ids c st1 = reserved_ids c st ++ [m + 1]
    ∧ committed_ids c st1 = committed_ids c st
    ∧ call_times (next_id c) n st = (Ok ids, stn)
    ∧ length ids = n
    ∧ NoDup ids
    ∧ committed_ids c stn = committed_ids c st.
Proof.
  intros Hne. destruct (py_max_nonempty _ Hne) as [m Hm].
  destruct (next_id_step c st m Hm) as (st1 & Hcall & Hres & Hcom & _).
  destruct (call_times_next_id c n st m Hm) as (stn & Hcalls & Hcomn).
  exists m, st1, ((λ k, m + 1 + Z.of_nat k) <$> seq 0 n), stn.
  repeat split; try done.
  - by apply py_max_elem.
  - by apply py_max_upper.
  - by rewrite length_fmap, length_seq.
  - apply NoDup_fmap_2; [|apply NoDup_seq]. intros j k ?. lia.
Qed.

Lemma allocator_returns_distinct_ids_witness :
  committed_ids Images one_image_dataset ++ reserved_ids Images one_image_dataset ≠ []
  ∧ ∃ m st1 ids stn,
      m ∈ committed_ids Images one_image_dataset ++ reserved_ids Images one_image_dataset
      ∧ (∀ x, x ∈ committed_ids Images one_image_dataset
                    ++ reserved_ids Images one_image_dataset → x ≤ m)
      ∧ next_id Images one_image_dataset = (Ok (m + 1), st1)
      ∧ reserved_ids Images st1 = reserved_ids Images one_image_dataset ++ [m + 1]
      ∧ committed_ids Images st1 = committed_ids Images one_image_dataset
      ∧ call_times (next_id Images) 3 one_image_dataset = (Ok ids, stn)
      ∧ length ids = 3%nat
      ∧ NoDup ids
      ∧ committed_ids Images stn = committed_ids Images one_image_dataset.
Proof.
  split; [done|].
  apply (allocator_returns_distinct_ids Images one_image_dataset 3). done.
Defined.

Example three_new_image_ids :
  fst (call_times get_new_image_id 3 one_image_dataset) = Ok [6; 7; 8].
Proof. reflexivity. Qed.

Lemma next_id_raises (c : collection) (st : State) :
  committed_ids c st ++ reserved_ids c st = [] →
  next_id c st = (Raise ValueError, st).
Proof.
  intros He.
  destruct c; simpl in *;
    unfold get_new_license_id, get_new_category_id, get_new_image_id,
      get_new_annotation_id, get_new_id, generate_new_id;
    rewrite He; reflexivity.
Qed.

(** C10.  With no record in a collection and no reserved id for it, the
    allocator of the collection raises [ValueError], the maximum of an empty
    list being taken; the four allocators are public methods. *)
Theorem allocator_raises_on_empty (c : collection) (st : State) :
  committed_ids c st = [] → reserved_ids c st = [] →
  next_id c st = (Raise ValueError, st).
Proof. intros Hc Hr. apply next_id_raises. by rewrite Hc, Hr. Qed.

Lemma allocator_raises_on_empty_witness :
  committed_ids Licenses empty_dataset = []
  ∧ reserved_ids Licenses empty_dataset = []
  ∧ get_new_license_id empty_dataset = (Raise ValueError, empty_dataset).
Proof.
  split; [reflexivity|]. split; [reflexivity|].
  apply (allocator_raises_on_empty Licenses empty_dataset); reflexivity.
Defined.

(** ** Singular lookups *)

Lemma int_in_false (x : Z) (xs : list Z) : x ∉ xs → int_in x xs = false.
Proof. intros. unfold int_in. by apply bool_decide_eq_false. Qed.

Lemma str_in_false (x : string) (xs : list string) : x ∉ xs → str_in x xs = false.
Proof. intros. unfold str_in. by apply bool_decide_eq_false. Qed.

(** C7.  [get_license], [get_category] and [get_image] return [None] for an
    id or a name that the dataset does not hold; [get_annotation] raises
    [TypeError] for an id that no annotation holds. *)
Theorem lookups_of_absent_keys (st : State) :
  (∀ i, i ∉ license_ids st → get_license st (VInt i) = Ok None)
  ∧ (∀ s, s ∉ license_names st → get_license st (VStr s) = Ok None)
  ∧ (∀ i, i ∉ category_ids st → get_category st (VInt i) = Ok None)
  ∧ (∀ s, s ∉ category_names st → get_category st (VStr s) = Ok None)
  ∧ (∀ i, i ∉ image_ids st → get_image st (VInt i) = Ok None)
  ∧ (∀ s, s ∉ image_file_names st → get_image st (VStr s) = Ok None)
  ∧ (∀ i, i ∉ annotation_ids st → get_annotation st (VInt i) = Raise TypeError).
Proof.
  repeat split; intros k Hk; simpl; unfold get_category;
    try (destruct (categories_present st); [|reflexivity]);
    rewrite ?(int_in_false _ _ Hk), ?(str_in_false _ _ Hk); reflexivity.
Qed.

Lemma lookups_of_absent_keys_witness :
  ((7 ∉ license_ids caption_dataset) ∧ get_license caption_dataset (VInt 7) = Ok None)
  ∧ (("mit" ∉ license_names caption_dataset)
     ∧ get_license caption_dataset (VStr "mit") = Ok None)
  ∧ ((7 ∉ category_ids caption_dataset) ∧ get_category caption_dataset (VInt 7) = Ok None)
  ∧ (("dog" ∉ category_names caption_dataset)
     ∧ get_category caption_dataset (VStr "dog") = Ok None)
  ∧ ((7 ∉ image_ids caption_dataset) ∧ get_image caption_dataset (VInt 7) = Ok None)
  ∧ (("b.jpg" ∉ image_file_names caption_dataset)
     ∧ get_image caption_dataset (VStr "b.jpg") = Ok None)
  ∧ ((7 ∉ annotation_ids caption_dataset)
     ∧ get_annotation caption_dataset (VInt 7) = Raise TypeError).
Proof.
  pose proof (lookups_of_absent_keys caption_dataset)
    as (H1 & H2 & H3 & H4 & H5 & H6 & H7).
  assert (Hl : 7 ∉ license_ids caption_dataset) by decide_closed.
  assert (Hn : "mit" ∉ license_names caption_dataset) by decide_closed.
  assert (Hc : 7 ∉ category_ids caption_dataset) by decide_closed.
  assert (Hcn : "dog" ∉ category_names caption_dataset) by decide_closed.
  assert (Hi : 7 ∉ image_ids caption_dataset) by decide_closed.
  assert (Hf : "b.jpg" ∉ image_file_names caption_dataset) by decide_closed.
  assert (Ha : 7 ∉ annotation_ids caption_dataset) by decide_closed.
  repeat split; auto.
Defined.

(** ** Datasets without categories *)

Lemma no_categories_present (st : State) :
  categories (self st) = None → categories_present st = None.
Proof. unfold categories_present. by intros ->. Qed.

Lemma all_as_Category_not_Annotation (x : value) (xs : list value) (cs : list loc) :
  all_as as_Category (x :: xs) = Some cs → all_as as_Annotation (x :: xs) = None.
Proof.
  unfold all_as. simpl. destruct x as [| | | | |[]]; simpl; try discriminate. done.
Qed.

(** C4.  In a dataset whose [categories] is [None], [get_categories],
    [get_category], [get_annotations_by_category] and
    [get_annotations_by_supercategory] return the empty list or [None] for
    every input, and removing, reindexing and trimming categories leave the
    dataset as it is; but [get_images] raises [TypeError] when it is given a
    category, and when it is given a non-empty list of categories. *)
Theorem category_operations_without_categories (st : State) :
  categories (self st) = None →
  (∀ v, get_categories st v = Ok [])
  ∧ (∀ v, get_category st v = Ok None)
  ∧ (∀ v, get_annotations_by_category st v = Ok [])
  ∧ (∀ s, get_annotations_by_supercategory st s = Ok [])
  ∧ (∀ c ra, remove_category c ra st = (Ok tt, st))
  ∧ (∀ c v, reindex_category c v st = (Ok tt, st))
  ∧ (∀ vs, reindex_categories vs st = (Ok tt, st))
  ∧ trim_categories st = (Ok tt, st)
  ∧ (∀ c, get_images st (VObj (RCategory c)) = Raise TypeError)
  ∧ (∀ x xs cs, all_as as_Category (x :: xs) = Some cs →
       get_images st (VList (x :: xs)) = Raise TypeError).
Proof.
  intros Hnone. pose proof (no_categories_present st Hnone) as Hp.
  repeat split; intros;
    unfold get_categories, get_category, get_annotations_by_category,
      get_annotations_by_supercategory, remove_category, reindex_category,
      reindex_categories, trim_categories, get_images, st_bind, read, modify;
    rewrite ?Hp; try reflexivity.
  erewrite all_as_Category_not_Annotation by eassumption.
  by destruct (all_as as_Category (x :: xs)).
Qed.

Lemma category_operations_without_categories_witness :
  categories (self caption_dataset) = None
  ∧ get_categories caption_dataset (VStr "person") = Ok []
  ∧ get_images caption_dataset (VObj (RCategory 0%nat)) = Raise TypeError
  ∧ get_images caption_dataset (VList [VObj (RCategory 0%nat)]) = Raise TypeError.
Proof.
  split; [reflexivity|].
  destruct (category_operations_without_categories caption_dataset eq_refl)
    as (H1 & _ & _ & _ & _ & _ & _ & _ & H9 & H10).
  split; [apply H1|]. split; [apply H9|].
  by apply (H10 _ _ [0%nat]).
Defined.

(** ** The boundary *)

(** C1.  [to_dict] raises [ValueError] on every dataset: its loop runs over
    the keys of [asdict(self)] and unpacks each into a pair, and the first
    key has four characters.  So [COCO.from_dict(d.to_dict())] raises for
    every [d]. *)
Theorem to_dict_raises (st : State) :
  to_dict st = Raise ValueError ∧ round_trip st = Raise ValueError.
Proof. split; reflexivity. Qed.

(** [from_dict] asks for every field of the dataclass, [categories] too. *)
Lemma from_dict_requires_categories (d : dict) (ignore_extra_keys : bool) (h : Heap) :
  "categories" ∉ keys d → from_dict (VDict d) ignore_extra_keys h = Raise ValueError.
Proof.
  intros Hk. unfold from_dict, compare_dict_structure.
  assert (Hm : "categories" ∈ List.filter (λ f, negb (str_in f (keys d))) COCO_fields).
  { apply list_elem_of_In, filter_In. split.
    - apply list_elem_of_In. decide_closed.
    - by rewrite str_in_false. }
  destruct (List.filter _ COCO_fields); [inversion Hm | reflexivity].
Qed.

(** ** The dispatchers *)

Lemma issubset_app (ks ks' : list string) (d : dict) :
  issubset (ks ++ ks') d = true → issubset ks d = true.
Proof. unfold issubset. rewrite forallb_app. by intros [-> _]%andb_true_iff. Qed.

Lemma keypoint_annotation_keys_object_detection (d : dict) :
  issubset (DICT_TO_ANNOTATION_MAP "keypoint_detection") d = true →
  issubset (DICT_TO_ANNOTATION_MAP "object_detection") d = true.
Proof.
  intros H.
  apply (issubset_app (DICT_TO_ANNOTATION_MAP "object_detection") ["keypoints"; "skeleton"]).
  exact H.
Qed.

Lemma keypoint_category_keys_object_detection (d : dict) :
  issubset (DICT_TO_CATEGORY_MAP "keypoint_detection") d = true →
  issubset (DICT_TO_CATEGORY_MAP "object_detection") d = true.
Proof.
  intros H.
  apply (issubset_app (DICT_TO_CATEGORY_MAP "object_detection") ["keypoints"; "skeleton"]).
  exact H.
Qed.

Lemma panoptic_category_keys_object_detection (d : dict) :
  issubset (DICT_TO_CATEGORY_MAP "panoptic_segmentation") d = true →
  issubset (DICT_TO_CATEGORY_MAP "object_detection") d = true.
Proof.
  intros H.
  apply (issubset_app (DICT_TO_CATEGORY_MAP "object_detection") ["isthing"; "color"]).
  exact H.
Qed.

(** Going back through a chain of steps that ended in [Ok]. *)
Ltac unwind H :=
  repeat match type of H with
    | rbind ?r _ = Ok _ => destruct r eqn:?; simpl in H; [|discriminate H]
    | Raise _ = Ok _ => discriminate H
    | Ok _ = Ok _ => injection H as <-
    end.

(** C3.  [dict_to_annotation] and [dict_to_category] test the
    object-detection keys first.  A mapping that carries the
    keypoint-detection keys carries the object-detection keys, so it is
    handed to the object-detection class: the annotation is built without
    its keypoints, no call of [dict_to_annotation] returns a
    [KeypointDetectionAnnotation], and [dict_to_category] returns an
    [ObjectDetectionCategory] or raises ([TypeError] from the constructor
    for the keypoint category, as the extra keys are passed on).  A mapping
    with the keys of no variant raises [ValueError]. *)
Theorem dispatchers_test_object_detection_first :
  (∀ d ign, issubset (DICT_TO_ANNOTATION_MAP "keypoint_detection") d = true →
     dict_to_annotation (VDict d) ign = ObjectDetectionAnnotation_from_dict (VDict d) ign)
  ∧ (∀ v ign a, dict_to_annotation v ign = Ok a → is_KeypointDetectionAnnotation a = false)
  ∧ dict_to_annotation keypoint_annotation_dict true
    = Ok (ObjectDetectionAnnotation 1 2 3 (Polygons []) 0 [] 0)
  ∧ dict_to_annotation keypoint_annotation_dict false = Raise ValueError
  ∧ (∀ d ign, issubset (DICT_TO_CATEGORY_MAP "keypoint_detection") d = true →
       dict_to_category (VDict d) ign = ObjectDetectionCategory_from_dict (VDict d) ign)
  ∧ (∀ v ign c, dict_to_category v ign = Ok c → is_ObjectDetectionCategory c = true)
  ∧ dict_to_category keypoint_category_dict true = Raise TypeError
  ∧ dict_to_category keypoint_category_dict false = Raise ValueError
  ∧ (∀ d ign,
       issubset (DICT_TO_ANNOTATION_MAP "object_detection") d = false →
       issubset (DICT_TO_ANNOTATION_MAP "panoptic_segmentation") d = false →
       issubset (DICT_TO_ANNOTATION_MAP "image_captioning") d = false →
       issubset (DICT_TO_ANNOTATION_MAP "dense_pose") d = false →
       dict_to_annotation (VDict d) ign = Raise ValueError)
  ∧ (∀ d ign,
       issubset (DICT_TO_CATEGORY_MAP "object_detection") d = false →
       dict_to_category (VDict d) ign = Raise ValueError).
Proof.
  repeat apply conj.
  - intros d ign Hk. unfold dict_to_annotation. cbn [the_dict rbind].
    by rewrite (keypoint_annotation_keys_object_detection d Hk).
  - intros v ign a H. unfold dict_to_annotation in H.
    destruct v; try discriminate H. cbn [the_dict rbind] in H.
    destruct (issubset (DICT_TO_ANNOTATION_MAP "object_detection") d) eqn:Hod.
    { unfold ObjectDetectionAnnotation_from_dict in H. by unwind H. }
    destruct (issubset (DICT_TO_ANNOTATION_MAP "keypoint_detection") d) eqn:Hkp.
    { apply keypoint_annotation_keys_object_detection in Hkp. congruence. }
    destruct (issubset (DICT_TO_ANNOTATION_MAP "panoptic_segmentation") d).
    { unfold PanopticSegmentationAnnotation_from_dict in H. by unwind H. }
    destruct (issubset (DICT_TO_ANNOTATION_MAP "image_captioning") d).
    { unfold ImageCaptioningAnnotation_from_dict in H. by unwind H. }
    destruct (issubset (DICT_TO_ANNOTATION_MAP "dense_pose") d); [|discriminate H].
    unfold DensePoseAnnotation_from_dict in H. by unwind H.
  - reflexivity.
  - reflexivity.
  - intros d ign Hk. unfold dict_to_category. cbn [the_dict rbind].
    by rewrite (keypoint_category_keys_object_detection d Hk).
  - intros v ign c H. unfold dict_to_category in H.
    destruct v; try discriminate H. cbn [the_dict rbind] in H.
    destruct (issubset (DICT_TO_CATEGORY_MAP "object_detection") d) eqn:Hod.
    { unfold ObjectDetectionCategory_from_dict in H. by unwind H. }
    destruct (issubset (DICT_TO_CATEGORY_MAP "keypoint_detection") d) eqn:Hkp.
    { apply keypoint_category_keys_object_detection in Hkp. congruence. }
    destruct (issubset (DICT_TO_CATEGORY_MAP "panoptic_segmentation") d) eqn:Hps.
    { apply panoptic_category_keys_object_detection in Hps. congruence. }
    discriminate H.
  - reflexivity.
  - reflexivity.
  - intros d ign Hod Hps Hic Hdp. unfold dict_to_annotation. cbn [the_dict rbind].
    rewrite Hod, Hps, Hic, Hdp.
    destruct (issubset (DICT_TO_ANNOTATION_MAP "keypoint_detection") d) eqn:Hkp; [|done].
    apply keypoint_annotation_keys_object_detection in Hkp. congruence.
  - intros d ign Hod. unfold dict_to_category. cbn [the_dict rbind]. rewrite Hod.
    destruct (issubset (DICT_TO_CATEGORY_MAP "keypoint_detection") d) eqn:Hkp.
    { apply keypoint_category_keys_object_detection in Hkp. congruence. }
    destruct (issubset (DICT_TO_CATEGORY_MAP "panoptic_segmentation") d) eqn:Hps; [|done].
    apply panoptic_category_keys_object_detection in Hps. congruence.
Qed.

(* ------------------------------------------------------------------ *)
(** ** Reasoning about methods *)

Lemma exec_bind {A B} (m : M A) (k : A → M B) (st : State) :
  exec (st_bind m k) st
  = match m st with
    | (Ok a, st') => exec (k a) st'
    | (Raise _, st') => st'
    end.
Proof. unfold exec, st_bind. by destruct (m st) as [[a|e] st']. Qed.

Section Always.
Context (R : relation State) `{!PreOrder R}.

Lemma always_ret {A} (a : A) : always R (st_ret a).
Proof. intros st. reflexivity. Qed.

Lemma always_raise {A} (e : exn) : always R (raise (A := A) e).
Proof. intros st. reflexivity. Qed.

Lemma always_read {A} (f : State → A) : always R (read f).
Proof. intros st. reflexivity. Qed.

Lemma always_query {A} (f : State → result A) : always R (query f).
Proof. intros st. reflexivity. Qed.

Lemma always_modify (f : State → State) : (∀ st, R st (f st)) → always R (modify f).
Proof. intros H st. apply H. Qed.

Lemma always_bind {A B} (m : M A) (k : A → M B) :
  always R m → (∀ a, always R (k a)) → always R (st_bind m k).
Proof.
  intros Hm Hk st. rewrite exec_bind. specialize (Hm st). unfold exec in Hm.
  destruct (m st) as [[a|e] st']; simpl in Hm; [|done].
  etransitivity; [exact Hm | apply Hk].
Qed.

Lemma always_when (b : bool) (m : M unit) : always R m → always R (when b m).
Proof. destruct b; [done | intros _; apply always_ret]. Qed.

Lemma always_for_each {A} (xs : list A) (body : A → M unit) :
  (∀ x, always R (body x)) → always R (for_each xs body).
Proof.
  intros Hb. induction xs as [|x xs IH]; simpl.
  - apply always_ret.
  - apply always_bind; [apply Hb | done].
Qed.
End Always.

(** A loop whose body only assigns. *)
Lemma for_each_modify {A} (xs : list A) (f : A → State → State) (st : State) :
  for_each xs (λ x, modify (f x)) st = (Ok tt, foldl (λ s x, f x s) st xs).
Proof.
  revert st. induction xs as [|x xs IH]; intros st; simpl; [done|].
  unfold st_bind, modify at 1. apply IH.
Qed.

(** ** Ids through the heap *)

Lemma committed_ids_members (c : collection) (st : State) :
  committed_ids c st = omap (id_at c st) (members c st).
Proof.
  assert (Hf : ∀ (f : loc → Z) (ls : list loc), f <$> ls = omap (λ e, Some (f e)) ls).
  { intros f ls. induction ls as [|e ls IH]; [done|]. csimpl. by f_equal. }
  destruct c; simpl; unfold license_ids, category_ids, image_ids, annotation_ids;
    try apply Hf; try done.
  unfold categories_present. by destruct (categories (self st)) as [[|]|].
Qed.

Lemma unique_ids_members (st : State) :
  unique_ids st ↔ ∀ c, NoDup (omap (id_at c st) (members c st)).
Proof.
  unfold unique_ids. split.
  - intros (H1 & H2 & H3 & H4) c. rewrite <- committed_ids_members. by destruct c.
  - intros H. repeat split.
    + apply (λ H, eq_ind_r NoDup H (committed_ids_members Licenses st)), H.
    + apply (λ H, eq_ind_r NoDup H (committed_ids_members Categories st)), H.
    + apply (λ H, eq_ind_r NoDup H (committed_ids_members Images st)), H.
    + apply (λ H, eq_ind_r NoDup H (committed_ids_members Annotations st)), H.
Qed.

Lemma heap_ok_members (st : State) :
  heap_ok st ↔ ∀ c, Forall (λ l, (l < heap_size c st)%nat) (members c st).
Proof.
  unfold heap_ok, refs_ok. split.
  - intros (H1 & H2 & H3 & H4) c. by destruct c.
  - intros H. repeat split; [apply (H Licenses) | apply (H Categories)
                             | apply (H Images) | apply (H Annotations)].
Qed.

Lemma omap_ext_in {A B} (f g : A → option B) (ls : list A) :
  (∀ e, e ∈ ls → f e = g e) → omap f ls = omap g ls.
Proof.
  induction ls as [|a ls IH]; intros H; [done|]. csimpl.
  rewrite (H a) by left. rewrite IH; [done|]. intros e He. apply H. by right.
Qed.

#[global] Instance ids_frame_preorder : PreOrder ids_frame.
Proof.
  split.
  - by intros st c.
  - intros st1 st2 st3 H12 H23 c.
    destruct (H12 c) as (Hm & Hs & Hi), (H23 c) as (Hm' & Hs' & Hi').
    repeat split; [congruence | congruence |]. intros e. by rewrite Hi', Hi.
Qed.

Lemma ids_frame_Inv (st st' : State) : ids_frame st st' → Inv st → Inv st'.
Proof.
  intros Hf [Hh Hu]. split.
  - apply heap_ok_members. intros c. destruct (Hf c) as (-> & -> & _).
    by apply heap_ok_members.
  - apply unique_ids_members. intros c. destruct (Hf c) as (-> & _ & Hi).
    rewrite (omap_ext_in _ (id_at c st)); [by apply unique_ids_members|].
    intros e _. apply Hi.
Qed.

Lemma ids_frame_committed (c : collection) (st st' : State) :
  ids_frame st st' → committed_ids c st' = committed_ids c st.
Proof.
  intros Hf. rewrite !committed_ids_members. destruct (Hf c) as (-> & _ & Hi).
  apply omap_ext_in. intros e _. apply Hi.
Qed.

Lemma NoDup_omap_update (f : loc → option Z) (l : loc) (v : Z) (ls : list loc) :
  NoDup (omap f ls) → is_Some (f l) →
  (∀ e, e ∈ ls → e ≠ l → f e ≠ Some v) →
  NoDup (omap (λ e, if decide (e = l) then Some v else f e) ls).
Proof.
  intros Hnd [w Hw] Hfree.
  assert (Hin : ∀ (ks : list loc) x, x ∈ omap (λ e, if decide (e = l) then Some v else f e) ks →
                        x = v ∨ x ∈ omap f ks).
  { intros ks x (e & He & Hx)%list_elem_of_omap. case_decide.
    - left. congruence.
    - right. apply list_elem_of_omap. eauto. }
  induction ls as [|a ls IH]; csimpl in *; [constructor|].
  case_decide as Ha.
  - subst a. rewrite Hw in Hnd. csimpl in *. apply NoDup_cons in Hnd as [Hnotin Hnd].
    assert (Hl : l ∉ ls).
    { intros Hl. apply Hnotin, list_elem_of_omap. eauto. }
    rewrite (omap_ext_in _ f).
    + apply NoDup_cons. split; [|done]. intros (e & He & Hv)%list_elem_of_omap.
      apply (Hfree e); [by right | congruence | done].
    + intros e He. case_decide; [|done]. by subst e.
  - assert (Hfree' : ∀ e, e ∈ ls → e ≠ l → f e ≠ Some v).
    { intros e He. apply Hfree. by right. }
    destruct (f a) as [x|] eqn:Hfa; csimpl in *.
    + apply NoDup_cons in Hnd as [Hnotin Hnd]. apply NoDup_cons. split; [|by apply IH].
      intros [->|Hx]%Hin; [|done].
      apply (Hfree a); [left | done | done].
    + by apply IH.
Qed.

Lemma sets_id_Inv (c : collection) (l : loc) (v : Z) (st st' : State) :
  sets_id c l v st st' →
  (∀ e, e ∈ members c st → e ≠ l → id_at c st e ≠ Some v) →
  Inv st → Inv st'.
Proof.
  intros Hs Hfree [Hh Hu]. split.
  - apply heap_ok_members. intros c'. destruct (Hs c') as (-> & -> & _).
    by apply heap_ok_members.
  - apply unique_ids_members. intros c'. destruct (Hs c') as (-> & _ & Hi).
    pose proof (proj1 (unique_ids_members st) Hu c') as Hnd.
    destruct (decide (c' = c ∧ (l < heap_size c st)%nat ∧ is_Some (id_at c st l)))
      as [(-> & Hlt & Hsome)|Hno].
    + rewrite (omap_ext_in _ (λ e, if decide (e = l) then Some v else id_at c st e)).
      * by apply NoDup_omap_update.
      * intros e _. rewrite Hi. destruct (decide (e = l)) as [->|Hne].
        -- by rewrite decide_True.
        -- rewrite decide_False; [done|]. by intros (_ & ? & _).
    + rewrite (omap_ext_in _ (id_at c' st)); [done|].
      intros e _. rewrite Hi. rewrite decide_False; [done|].
      intros (? & _ & ? & ?). by apply Hno.
Qed.

(** *** What the assignments do to the ids *)

Lemma Cat_id_set_id (v : Z) (c : Category) : Cat.id (Cat.set_id v c) = v.
Proof. by destruct c. Qed.

Lemma Ann_id_set_id (v : Z) (a : Annotation) :
  is_Some (Ann.id a) → Ann.id (Ann.set_id v a) = Some v.
Proof. by destruct a; simpl; intros [? ?]. Qed.


Lemma ids_frame_set_cached_license_ids (v : list Z) (st : State) :
  ids_frame st (set_cached_license_ids v st).
Proof. intros []; done. Qed.
Lemma ids_frame_set_cached_image_ids (v : list Z) (st : State) :
  ids_frame st (set_cached_image_ids v st).
Proof. intros []; done. Qed.
Lemma ids_frame_set_cached_category_ids (v : list Z) (st : State) :
  ids_frame st (set_cached_category_ids v st).
Proof. intros []; done. Qed.
Lemma ids_frame_set_cached_annotation_ids (v : list Z) (st : State) :
  ids_frame st (set_cached_annotation_ids v st).
Proof. intros []; done. Qed.

Lemma ids_frame_update_image (l : loc) (f : Image.t → Image.t) (st : State) :
  (∀ x, Image.id (f x) = Image.id x) → ids_frame st (update_image l f st).
Proof.
  intros Hf []; repeat split; simpl; try done.
  - apply length_insert.
  - intros e. unfold img. simpl. rewrite list_lookup_total_insert.
    case_decide as H; [|done]. destruct H as [<- _]. by rewrite Hf.
Qed.

Lemma ids_frame_update_annotation (l : loc) (f : Annotation → Annotation) (st : State) :
  (∀ x, Ann.id (f x) = Ann.id x) → ids_frame st (update_annotation l f st).
Proof.
  intros Hf []; repeat split; simpl; try done.
  - apply length_insert.
  - intros e. unfold ann. simpl. rewrite list_lookup_total_insert.
    case_decide as H; [|done]. destruct H as [<- _]. by rewrite Hf.
Qed.

Lemma sets_id_update_license (l : loc) (v : Z) (st : State) :
  sets_id Licenses l v st (update_license l (License.set_id v) st).
Proof.
  intros []; repeat split; simpl; try done.
  - apply length_insert.
  - intros e. unfold lic. simpl. rewrite list_lookup_total_insert.
    case_decide as H.
    + destruct H as [<- ?]. rewrite decide_True; [done|]. eauto.
    + rewrite decide_False; [done|]. intros (_ & -> & ? & _). by apply H.
Qed.

Lemma sets_id_update_category (l : loc) (v : Z) (st : State) :
  sets_id Categories l v st (update_category l (Cat.set_id v) st).
Proof.
  intros []; repeat split; simpl; try done.
  - apply length_insert.
  - intros e. unfold cat. simpl. rewrite list_lookup_total_insert.
    case_decide as H.
    + destruct H as [<- ?]. rewrite decide_True; [by rewrite Cat_id_set_id|]. eauto.
    + rewrite decide_False; [done|]. intros (_ & -> & ? & _). by apply H.
Qed.

Lemma sets_id_update_image (l : loc) (v : Z) (st : State) :
  sets_id Images l v st (update_image l (Image.set_id v) st).
Proof.
  intros []; repeat split; simpl; try done.
  - apply length_insert.
  - intros e. unfold img. simpl. rewrite list_lookup_total_insert.
    case_decide as H.
    + destruct H as [<- ?]. rewrite decide_True; [done|]. eauto.
    + rewrite decide_False; [done|]. intros (_ & -> & ? & _). by apply H.
Qed.

Lemma sets_id_update_annotation (l : loc) (v : Z) (st : State) :
  sets_id Annotations l v st
    (if is_Indexed (ann st l) then update_annotation l (Ann.set_id v) st else st).
Proof.
  unfold is_Indexed. destruct (Ann.id (ann st l)) as [i|] eqn:Hid.
  - intros []; repeat split; simpl; try done.
    + apply length_insert.
    + intros e. rewrite Hid. unfold ann at 1. simpl. rewrite list_lookup_total_insert.
      case_decide as H.
      * destruct H as [<- ?]. rewrite decide_True; [|by eauto].
        apply Ann_id_set_id. rewrite Hid. eauto.
      * rewrite decide_False; [done|]. intros (_ & -> & ? & _). by apply H.
  - intros c'. repeat split. intros e. rewrite decide_False; [done|].
    intros (-> & _ & _ & Hs). simpl in Hs. rewrite Hid in Hs. by destruct Hs.
Qed.

Lemma sets_id_after_frame (c : collection) (l : loc) (v : Z) (st st1 st' : State) :
  ids_frame st st1 → sets_id c l v st1 st' → sets_id c l v st st'.
Proof.
  intros Hf Hs c'. destruct (Hs c') as (Hm & Hz & Hi), (Hf c') as (Hm' & Hz' & Hi').
  destruct (Hf c) as (_ & Hzc & Hic).
  repeat split; [congruence | congruence |].
  intros e. rewrite Hi, Hi', Hzc, Hic. done.
Qed.

Lemma ids_frame_foldl {A} (f : A → State → State) (xs : list A) (st : State) :
  (∀ x s, ids_frame s (f x s)) → ids_frame st (foldl (λ s x, f x s) st xs).
Proof.
  intros Hf. revert st. induction xs as [|x xs IH]; intros st; simpl; [reflexivity|].
  etransitivity; [apply Hf | apply IH].
Qed.

Lemma ids_frame_same_heap (st st' : State) :
  heap st' = heap st →
  licenses (self st') = licenses (self st) →
  categories (self st') = categories (self st) →
  images (self st') = images (self st) →
  annotations (self st') = annotations (self st) →
  ids_frame st st'.
Proof.
  intros Hh H1 H2 H3 H4 []; simpl; unfold lic, cat, img, ann;
    rewrite Hh, ?H1, ?H2, ?H3, ?H4; done.
Qed.

(** An allocator raises and leaves the dataset as it is, or returns an id
    that no record of its collection has. *)
Lemma next_id_cases (c : collection) (st : State) :
  next_id c st = (Raise ValueError, st)
  ∨ ∃ v st1, next_id c st = (Ok v, st1) ∧ ids_frame st st1
             ∧ ∀ e, e ∈ members c st → id_at c st e ≠ Some v.
Proof.
  destruct (committed_ids c st ++ reserved_ids c st) as [|x xs] eqn:Hall.
  - left. by apply next_id_raises.
  - right. destruct (py_max_nonempty (committed_ids c st ++ reserved_ids c st)) as [m Hm].
    { by rewrite Hall. }
    destruct (next_id_step c st m Hm) as (st1 & Hcall & _ & _ & Hh & H1 & H2 & H3 & H4).
    exists (m + 1), st1. split; [done|]. split; [by apply ids_frame_same_heap|].
    intros e He Hid.
    assert (Hin : m + 1 ∈ committed_ids c st).
    { rewrite committed_ids_members. apply list_elem_of_omap. eauto. }
    pose proof (py_max_upper _ _ Hm (m + 1)) as Hle.
    rewrite elem_of_app in Hle. specialize (Hle (or_introl Hin)). lia.
Qed.

(** *** Singular reindexing *)

Lemma Image_id_set_license (v : Z) (x : Image.t) : Image.id (Image.set_license v x) = Image.id x.
Proof. done. Qed.
Lemma Ann_id_set_image_id (v : Z) (a : Annotation) : Ann.id (Ann.set_image_id v a) = Ann.id a.
Proof. by destruct a. Qed.
Lemma Ann_id_set_category_id (v : Z) (a : Annotation) :
  Ann.id (Ann.set_category_id v a) = Ann.id a.
Proof. by destruct a. Qed.
Lemma Ann_id_retarget_segments (old_id v : Z) (a : Annotation) :
  Ann.id (retarget_segments old_id v a) = Ann.id a.
Proof. by destruct a. Qed.

Lemma reindex_license_sets (l : loc) (v : Z) (st : State) :
  ∃ st', reindex_license l (Some v) st = (Ok tt, st') ∧ sets_id Licenses l v st st'.
Proof.
  unfold reindex_license, st_bind, st_ret, query. simpl.
  rewrite for_each_modify. eexists. split; [reflexivity|].
  eapply sets_id_after_frame; [|apply sets_id_update_license].
  apply ids_frame_foldl. intros x s. by apply ids_frame_update_image.
Qed.

Lemma reindex_image_sets (l : loc) (v : Z) (st : State) :
  ∃ st', reindex_image l (Some v) st = (Ok tt, st') ∧ sets_id Images l v st st'.
Proof.
  unfold reindex_image, st_bind, st_ret, query. simpl.
  rewrite for_each_modify. eexists. split; [reflexivity|].
  eapply sets_id_after_frame; [|apply sets_id_update_image].
  apply ids_frame_foldl. intros x s. apply ids_frame_update_annotation.
  apply Ann_id_set_image_id.
Qed.

Lemma reindex_annotation_sets (l : loc) (v : Z) (st : State) :
  ∃ st', reindex_annotation l (Some v) st = (Ok tt, st') ∧ sets_id Annotations l v st st'.
Proof.
  unfold reindex_annotation, st_bind, st_ret, modify. eexists. split; [reflexivity|].
  apply sets_id_update_annotation.
Qed.

Lemma get_annotations_by_category_Ok (st : State) (c : loc) :
  ∃ annotations, get_annotations_by_category st (VObj (RCategory c)) = Ok annotations.
Proof.
  unfold get_annotations_by_category. destruct (categories_present st); [|by eexists].
  destruct (negb _); by eexists.
Qed.

Lemma reindex_category_sets (l : loc) (v : Z) (st : State) :
  ∃ st', reindex_category l (Some v) st = (Ok tt, st')
         ∧ (st' = st ∧ members Categories st = [] ∨ sets_id Categories l v st st').
Proof.
  unfold reindex_category, st_bind, st_ret, query, read. simpl.
  destruct (categories_present st) as [cs|] eqn:Hp.
  - destruct (get_annotations_by_category_Ok st l) as [annotations ->].
    rewrite for_each_modify. eexists. split; [reflexivity|]. right.
    eapply sets_id_after_frame; [|apply sets_id_update_category].
    apply ids_frame_foldl. intros x s.
    destruct (is_Categorized (ann s x)); [|destruct (is_Panoptic (ann s x))].
    + apply ids_frame_update_annotation, Ann_id_set_category_id.
    + apply ids_frame_update_annotation, Ann_id_retarget_segments.
    + reflexivity.
  - eexists. split; [reflexivity|]. left. split; [done|].
    simpl. unfold categories_present in Hp. by destruct (categories (self st)) as [[|]|].
Qed.

(** With the id left out, an allocator is asked first. *)
Lemma reindex_license_None (l : loc) (st : State) :
  reindex_license l None st
  = match get_new_license_id st with
    | (Ok v, st1) => reindex_license l (Some v) st1
    | (Raise e, st1) => (Raise e, st1)
    end.
Proof. unfold reindex_license, st_bind, st_ret. by destruct (get_new_license_id st) as [[]]. Qed.

Lemma reindex_image_None (l : loc) (st : State) :
  reindex_image l None st
  = match get_new_image_id st with
    | (Ok v, st1) => reindex_image l (Some v) st1
    | (Raise e, st1) => (Raise e, st1)
    end.
Proof. unfold reindex_image, st_bind, st_ret. by destruct (get_new_image_id st) as [[]]. Qed.

Lemma reindex_annotation_None (l : loc) (st : State) :
  reindex_annotation l None st
  = match get_new_annotation_id st with
    | (Ok v, st1) => reindex_annotation l (Some v) st1
    | (Raise e, st1) => (Raise e, st1)
    end.
Proof.
  unfold reindex_annotation, st_bind, st_ret.
  by destruct (get_new_annotation_id st) as [[]].
Qed.

Lemma reindex_category_None (l : loc) (st : State) :
  reindex_category l None st
  = match categories_present st with
    | None => (Ok tt, st)
    | Some _ =>
        match get_new_category_id st with
        | (Ok v, st1) => reindex_category l (Some v) st1
        | (Raise e, st1) => (Raise e, st1)
        end
    end.
Proof.
  unfold reindex_category, st_bind, st_ret, read.
  destruct (categories_present st) as [cs|] eqn:Hp; [|done].
  unfold get_new_category_id, get_new_id.
  destruct (generate_new_id _ _) as [[v cached]|e]; [|done].
  change (categories_present (set_cached_category_ids cached st))
    with (categories_present st). by rewrite Hp.
Qed.

(** A singular reindex keeps the heap in order and the ids distinct when
    the new id is drawn from the allocator, and when it is given and no
    other record of the collection has it. *)
Lemma reindex_with_Inv (c : collection) (l : loc) (op : option Z → M unit)
    (st : State) (new_id : option Z) :
  (∀ v s, ∃ s', op (Some v) s = (Ok tt, s')
                ∧ (s' = s ∧ members c s = [] ∨ sets_id c l v s s')) →
  (∀ s, op None s = (Ok tt, s)
        ∨ op None s = match next_id c s with
                      | (Ok v, s1) => op (Some v) s1
                      | (Raise e, s1) => (Raise e, s1)
                      end) →
  (∀ v, new_id = Some v → ∀ e, e ∈ members c st → e ≠ l → id_at c st e ≠ Some v) →
  Inv st → Inv (exec (op new_id) st).
Proof.
  intros Hsome Hnone Hfree HI. unfold exec. destruct new_id as [v|].
  - destruct (Hsome v st) as (s' & -> & [[-> _]|Hs]); [done|].
    eapply sets_id_Inv; eauto.
  - destruct (Hnone st) as [->| ->]; [done|].
    destruct (next_id_cases c st) as [-> | (v & st1 & -> & Hf & Hfresh)]; [done|].
    destruct (Hsome v st1) as (s' & -> & [[-> _]|Hs]); simpl.
    + by eapply ids_frame_Inv.
    + eapply (sets_id_Inv c l v st); [by eapply sets_id_after_frame| |done].
      intros e He _. by apply Hfresh.
Qed.

(** *** Appending and removing *)

Lemma omap_snoc {A B} (f : A → option B) (ls : list A) (l : A) :
  omap f (ls ++ [l]) = omap f ls ++ match f l with Some i => [i] | None => [] end.
Proof.
  induction ls as [|a ls IH]; csimpl.
  - by destruct (f l).
  - rewrite IH. by destruct (f a).
Qed.

Lemma appends_Inv (c : collection) (l : loc) (st st' : State) :
  appends c l st st' → (l < heap_size c st)%nat →
  (∀ i, id_at c st l = Some i → i ∉ committed_ids c st) →
  Inv st → Inv st'.
Proof.
  intros Ha Hlive Hfresh [Hh Hu]. split.
  - apply heap_ok_members. intros c'. destruct (Ha c') as (-> & -> & _).
    pose proof (proj1 (heap_ok_members st) Hh) as Hall. case_decide as Hc.
    + subst c'. apply Forall_app. split; [apply Hall|]. by apply Forall_singleton.
    + apply Hall.
  - apply unique_ids_members. intros c'. destruct (Ha c') as (-> & _ & Hi).
    pose proof (proj1 (unique_ids_members st) Hu) as Hall.
    rewrite (omap_ext_in _ (id_at c' st)) by (intros e _; apply Hi).
    case_decide as Hc; [subst c'|apply Hall].
    rewrite omap_snoc. destruct (id_at c st l) as [i|] eqn:Hid.
    + apply NoDup_app. split; [apply Hall|]. split; [|apply NoDup_singleton].
      intros x Hx ->%list_elem_of_singleton.
      apply (Hfresh i); [done|]. by rewrite committed_ids_members.
    + rewrite app_nil_r. apply Hall.
Qed.

#[global] Instance shrinks_preorder : PreOrder shrinks.
Proof.
  split.
  - by intros st c.
  - intros st1 st2 st3 H12 H23 c.
    destruct (H12 c) as (Hm & Hs & Hi), (H23 c) as (Hm' & Hs' & Hi').
    repeat split; [by etransitivity | congruence |]. intros e. by rewrite Hi', Hi.
Qed.

Lemma sublist_omap {A B} (f : A → option B) (l1 l2 : list A) :
  l1 `sublist_of` l2 → omap f l1 `sublist_of` omap f l2.
Proof.
  intros H. induction H as [|x k1 k2 _ IH|x k1 k2 _ IH]; csimpl.
  - constructor.
  - destruct (f x); [by constructor | done].
  - destruct (f x); [by constructor | done].
Qed.

Lemma shrinks_Inv (st st' : State) : shrinks st st' → Inv st → Inv st'.
Proof.
  intros Hs [Hh Hu]. split.
  - apply heap_ok_members. intros c. destruct (Hs c) as (Hsub & -> & _).
    pose proof (proj1 (heap_ok_members st) Hh c) as Hall.
    rewrite Forall_forall in *. intros x Hx. apply Hall.
    by eapply sublist_submseteq, elem_of_submseteq in Hsub.
  - apply unique_ids_members. intros c. destruct (Hs c) as (Hsub & _ & Hi).
    rewrite (omap_ext_in _ (id_at c st)) by (intros e _; apply Hi).
    apply (sublist_NoDup _ (omap (id_at c st) (members c st)));
      [by apply unique_ids_members | by apply sublist_omap].
Qed.

Lemma ids_frame_shrinks (st st' : State) : ids_frame st st' → shrinks st st'.
Proof. intros Hf c. destruct (Hf c) as (-> & -> & Hi). done. Qed.

Lemma py_remove_sublist {A} `{EqDecision A} (h : loc → A) (x : loc) (xs : list loc) :
  py_remove h x xs `sublist_of` xs.
Proof.
  induction xs as [|e xs IH]; simpl; [done|].
  destruct (same h x e); [by apply sublist_cons | by apply sublist_skip].
Qed.

Lemma categories_present_members (st : State) (cs : list loc) :
  categories_present st = Some cs → members Categories st = cs.
Proof.
  unfold categories_present. simpl.
  destruct (categories (self st)) as [[|]|]; simpl; congruence.
Qed.

Lemma shrinks_set_licenses (v : list loc) (st : State) :
  v `sublist_of` licenses (self st) → shrinks st (set_licenses v st).
Proof. by intros ? []. Qed.
Lemma shrinks_set_images (v : list loc) (st : State) :
  v `sublist_of` images (self st) → shrinks st (set_images v st).
Proof. by intros ? []. Qed.
Lemma shrinks_set_annotations (v : list loc) (st : State) :
  v `sublist_of` annotations (self st) → shrinks st (set_annotations v st).
Proof. by intros ? []. Qed.
Lemma shrinks_set_categories (v : list loc) (st : State) :
  v `sublist_of` members Categories st → shrinks st (set_categories (Some v) st).
Proof. by intros ? []. Qed.

Lemma remove_annotation_shrinks (a : loc) : always shrinks (remove_annotation a).
Proof.
  unfold remove_annotation. apply always_bind; [tc_solve | apply always_read; tc_solve|].
  intros present. destruct (negb present); [apply always_ret; tc_solve|].
  apply always_modify. intros st. apply shrinks_set_annotations, py_remove_sublist.
Qed.

Lemma remove_annotaitons_shrinks (annotations : list loc) :
  always shrinks (remove_annotaitons annotations).
Proof. apply always_for_each; [tc_solve|]. apply remove_annotation_shrinks. Qed.

Lemma remove_image_shrinks (image : loc) (ra : bool) : always shrinks (remove_image image ra).
Proof.
  unfold remove_image. apply always_bind; [tc_solve | apply always_read; tc_solve|].
  intros present. destruct (negb present); [apply always_ret; tc_solve|].
  apply always_bind; [tc_solve | |].
  - apply always_modify. intros st. apply shrinks_set_images, py_remove_sublist.
  - intros _. apply always_when; [tc_solve|].
    apply always_bind; [tc_solve | apply always_query; tc_solve|].
    intros annotations. apply remove_annotaitons_shrinks.
Qed.

Lemma remove_images_shrinks (images : list loc) (ra : bool) :
  always shrinks (remove_images images ra).
Proof. apply always_for_each; [tc_solve|]. intros x. apply remove_image_shrinks. Qed.

Lemma remove_license_shrinks (license : loc) (ri ra : bool) :
  always shrinks (remove_license license ri ra).
Proof.
  unfold remove_license. apply always_bind; [tc_solve | apply always_read; tc_solve|].
  intros present. destruct (negb present); [apply always_ret; tc_solve|].
  apply always_bind; [tc_solve | |].
  - apply always_modify. intros st. apply shrinks_set_licenses, py_remove_sublist.
  - intros _. apply always_when; [tc_solve|].
    apply always_bind; [tc_solve | apply always_query; tc_solve|].
    intros images. apply remove_images_shrinks.
Qed.

Lemma remove_category_shrinks (category : loc) (ra : bool) :
  always shrinks (remove_category category ra).
Proof.
  intros st. unfold remove_category. rewrite exec_bind. unfold read at 1.
  destruct (categories_present st) as [cs|] eqn:Hp; [|reflexivity].
  rewrite exec_bind. unfold read at 1.
  destruct (negb (py_in (cat st) category cs)); [reflexivity|].
  rewrite exec_bind. unfold modify at 1.
  etransitivity.
  - apply shrinks_set_categories. rewrite (categories_present_members st cs Hp).
    apply (py_remove_sublist (cat st)).
  - apply always_when; [tc_solve|].
    apply always_bind; [tc_solve | apply always_query; tc_solve|].
    intros annotations. apply remove_annotaitons_shrinks.
Qed.

Lemma int_in_false_inv (x : Z) (xs : list Z) : int_in x xs = false → x ∉ xs.
Proof. unfold int_in. apply bool_decide_eq_false. Qed.

Lemma int_in_true_inv (x : Z) (xs : list Z) : int_in x xs = true → x ∈ xs.
Proof. unfold int_in. apply bool_decide_eq_true. Qed.

Lemma appends_set_licenses (l : loc) (st : State) :
  appends Licenses l st (set_licenses (licenses (self st) ++ [l]) st).
Proof. by intros []. Qed.
Lemma appends_set_images (l : loc) (st : State) :
  appends Images l st (set_images (images (self st) ++ [l]) st).
Proof. by intros []. Qed.
Lemma appends_set_annotations (l : loc) (st : State) :
  appends Annotations l st (set_annotations (annotations (self st) ++ [l]) st).
Proof. by intros []. Qed.
Lemma appends_set_categories (l : loc) (st : State) :
  appends Categories l st
    (set_categories (Some (default [] (categories (self st)) ++ [l])) st).
Proof. by intros []. Qed.

Lemma append_license_Inv (x : value) (st : State) :
  live st (Append_license x) → Inv st → Inv (exec (append_license x) st).
Proof.
  intros Hlive HI. unfold append_license.
  destruct x as [| | | | |[l| | |]]; try done. simpl in *.
  unfold exec, st_bind, read. simpl.
  destruct (int_in _ _) eqn:Hin; [done|].
  unfold st_bind, modify, trim_cached_license_ids. simpl.
  eapply ids_frame_Inv; [apply ids_frame_set_cached_license_ids|].
  eapply appends_Inv; [apply appends_set_licenses | done | | done].
  simpl. intros i [= <-]. by apply int_in_false_inv.
Qed.

Lemma append_image_Inv (x : value) (st : State) :
  live st (Append_image x) → Inv st → Inv (exec (append_image x) st).
Proof.
  intros Hlive HI. unfold append_image.
  destruct x as [| | | | |[|l| |]]; try done. simpl in *.
  unfold exec, st_bind, read. simpl.
  destruct (int_in _ _) eqn:Hin; [done|].
  unfold st_bind, modify, trim_cached_image_ids. simpl.
  eapply ids_frame_Inv; [apply ids_frame_set_cached_image_ids|].
  eapply appends_Inv; [apply appends_set_images | done | | done].
  simpl. intros i [= <-]. by apply int_in_false_inv.
Qed.

Lemma append_annotation_Inv (x : value) (st : State) :
  live st (Append_annotation x) → Inv st → Inv (exec (append_annotation x) st).
Proof.
  intros Hlive HI. unfold append_annotation.
  destruct x as [| | | | |[| | |l]]; try done. simpl in *.
  assert (Hstep : (∀ i, Ann.id (ann st l) = Some i → i ∉ annotation_ids st) →
          Inv (exec (st_bind (modify (λ s, set_annotations (annotations (self s) ++ [l]) s))
                       (λ _, trim_cached_annotation_ids)) st)).
  { intros Hfresh. unfold exec, st_bind, modify, trim_cached_annotation_ids. simpl.
    eapply ids_frame_Inv; [apply ids_frame_set_cached_annotation_ids|].
    eapply appends_Inv; [apply appends_set_annotations | done | done | done]. }
  rewrite exec_bind. unfold read at 1. rewrite exec_bind. unfold read at 1.
  rewrite exec_bind.
  destruct (Ann.id (ann st l)) as [i|] eqn:Hid.
  - destruct (int_in i (annotation_ids st)) eqn:Hin; [done|].
    unfold st_ret. apply Hstep. intros ? [= <-]. by apply int_in_false_inv.
  - unfold st_ret. by apply Hstep.
Qed.

Lemma append_category_Inv (x : value) (st : State) :
  live st (Append_category x) → Inv st → Inv (exec (append_category x) st).
Proof.
  intros Hlive HI. unfold append_category. rewrite exec_bind. unfold read at 1.
  rewrite exec_bind.
  assert (Hw : ∃ st1, when (negb (bool_decide (is_Some (categories_present st))))
                        (modify (set_categories (Some []))) st = (Ok tt, st1)
                      ∧ ids_frame st st1).
  { unfold categories_present.
    destruct (categories (self st)) as [[|c cs]|] eqn:Hc; simpl.
    - eexists. split; [reflexivity|]. intros []; try done. simpl. by rewrite Hc.
    - eexists. split; [reflexivity|]. reflexivity.
    - eexists. split; [reflexivity|]. intros []; try done. simpl. by rewrite Hc. }
  destruct Hw as (st1 & -> & Hf).
  pose proof (ids_frame_Inv _ _ Hf HI) as HI1.
  destruct x as [| | | | |[| |l|]]; try done. simpl in *.
  unfold exec, st_bind, read. simpl.
  destruct (int_in _ _) eqn:Hin; [done|].
  unfold st_bind, modify, trim_cached_category_ids. simpl.
  eapply ids_frame_Inv; [apply ids_frame_set_cached_category_ids|].
  eapply appends_Inv; [apply appends_set_categories | | | done].
  - destruct (Hf Categories) as (_ & Hz & _). simpl in Hz. simpl. by rewrite Hz.
  - simpl. intros i [= <-]. by apply int_in_false_inv.
Qed.

(** *** Plural reindexing: making room *)

Lemma py_next_found {A} (p : A → bool) (xs : list A) :
  (∃ x, x ∈ xs ∧ p x = true) → ∃ x, py_next p xs = Ok x ∧ x ∈ xs ∧ p x = true.
Proof.
  intros (x & Hx & Hp). unfold py_next. destruct (List.find p xs) as [y|] eqn:Hf.
  - apply find_some in Hf as [Hy Hpy]. exists y. by rewrite list_elem_of_In.
  - apply list_elem_of_In in Hx. pose proof (find_none _ _ Hf x Hx). congruence.
Qed.

Lemma NoDup_omap_inj {A B} (f : A → option B) (ls : list A) (a b : A) (x : B) :
  NoDup (omap f ls) → a ∈ ls → b ∈ ls → f a = Some x → f b = Some x → a = b.
Proof.
  induction ls as [|e ls IH]; csimpl; intros Hnd Ha Hb Hfa Hfb; [by inversion Ha|].
  assert (Hout : ∀ y, y ∈ ls → f y = Some x → f e = Some x → False).
  { intros y Hy Hfy Hfe. rewrite Hfe in Hnd. apply NoDup_cons in Hnd as [Hnotin _].
    apply Hnotin, list_elem_of_omap. eauto. }
  apply elem_of_cons in Ha as [->|Ha], Hb as [->|Hb]; try done.
  - exfalso. by eapply (Hout b).
  - exfalso. by eapply (Hout a).
  - apply IH; try done. destruct (f e); [by apply NoDup_cons in Hnd as [_ ?] | done].
Qed.

Lemma not_committed_free (c : collection) (v : Z) (st : State) :
  v ∉ committed_ids c st → ∀ e, e ∈ members c st → id_at c st e ≠ Some v.
Proof.
  intros Hv e He Hid. apply Hv. rewrite committed_ids_members.
  apply list_elem_of_omap. eauto.
Qed.

Lemma committed_holder (c : collection) (v : Z) (st : State) :
  v ∈ committed_ids c st → ∃ l, l ∈ members c st ∧ id_at c st l = Some v.
Proof. rewrite committed_ids_members. by intros (l & ? & ?)%list_elem_of_omap; eauto. Qed.

Section Displacement.
Context (c : collection) (reindex : loc → option Z → M unit) (displace : Z → M unit).

Hypothesis reindex_sets :
  ∀ l v s, ∃ s', reindex l (Some v) s = (Ok tt, s')
                 ∧ (s' = s ∧ members c s = [] ∨ sets_id c l v s s').

(** [displace new_id] finds a record that has [new_id], draws an id and
    gives it to the record. *)
Hypothesis displace_eq :
  ∀ new_id st, new_id ∈ committed_ids c st →
    ∃ l, l ∈ members c st ∧ id_at c st l = Some new_id
         ∧ displace new_id st
           = match next_id c st with
             | (Ok v, st1) => reindex l (Some v) st1
             | (Raise e, st1) => (Raise e, st1)
             end.

Lemma displace_spec (new_id : Z) (st : State) :
  Inv st → new_id ∈ committed_ids c st →
  match displace new_id st with
  | (Ok _, st') =>
      Inv st' ∧ members c st' = members c st ∧ new_id ∉ committed_ids c st'
  | (Raise _, st') => Inv st' ∧ members c st' = members c st
  end.
Proof.
  intros HI Hin. destruct (displace_eq new_id st Hin) as (l & Hl & Hid & ->).
  destruct (next_id_cases c st) as [-> | (v & st1 & -> & Hf & Hfresh)]; [done|].
  destruct (reindex_sets l v st1) as (st2 & -> & [[-> Hempty]|Hs]).
  { destruct (Hf c) as (Hm & _). rewrite Hm in Hempty. rewrite Hempty in Hl.
    by inversion Hl. }
  pose proof (sets_id_after_frame _ _ _ _ _ _ Hf Hs) as Hs'. split; [|split].
  - eapply sets_id_Inv; [exact Hs' | | done]. intros e He _. by apply Hfresh.
  - by destruct (Hs' c) as (? & _).
  - rewrite committed_ids_members. intros (e & He & Hide)%list_elem_of_omap.
    destruct (Hs' c) as (Hm & _ & Hi). rewrite Hm in He. rewrite Hi in Hide.
    destruct HI as [Hh Hu].
    pose proof (proj1 (unique_ids_members st) Hu c) as Hnd.
    case_decide as Hd.
    + injection Hide as ->. by apply (Hfresh l).
    + assert (e = l) as -> by (eapply NoDup_omap_inj; eauto).
      apply Hd. repeat split; [|by rewrite Hid; eauto].
      pose proof (proj1 (heap_ok_members st) Hh c) as Hall.
      rewrite Forall_forall in Hall. by apply Hall.
Qed.

Lemma make_room_Inv (new_id : Z) (st : State) :
  Inv st →
  let st' := exec (st_bind (read (committed_ids c))
                     (λ ids, when (int_in new_id ids) (displace new_id))) st in
  Inv st' ∧ members c st' = members c st.
Proof.
  intros HI. simpl. rewrite exec_bind. unfold read.
  destruct (int_in new_id (committed_ids c st)) eqn:Hin; simpl; [|by split].
  pose proof (displace_spec new_id st HI (int_in_true_inv _ _ Hin)) as H.
  unfold exec. destruct (displace new_id st) as [[[]|e] st']; simpl; tauto.
Qed.

Lemma take_id_Inv (new_id : Z) (x : loc) (st : State) :
  Inv st →
  Inv (exec (st_bind (read (committed_ids c)) (λ ids,
             st_bind (when (int_in new_id ids) (displace new_id)) (λ _,
             reindex x (Some new_id)))) st).
Proof.
  intros HI. rewrite exec_bind. unfold read at 1. rewrite exec_bind.
  assert (Hfinal : ∀ s, Inv s → new_id ∉ committed_ids c s →
                        Inv (exec (reindex x (Some new_id)) s)).
  { intros s HIs Hnew. unfold exec.
    destruct (reindex_sets x new_id s) as (s' & -> & [[-> _]|Hs]); [done|].
    eapply sets_id_Inv; [exact Hs | | done].
    intros e He _. by apply not_committed_free. }
  destruct (int_in new_id (committed_ids c st)) eqn:Hin; simpl.
  - pose proof (displace_spec new_id st HI (int_in_true_inv _ _ Hin)) as H.
    destruct (displace new_id st) as [[[]|e] st']; [|tauto].
    destruct H as (HI' & _ & Hnew). by apply Hfinal.
  - apply Hfinal; [done|]. by apply int_in_false_inv.
Qed.
End Displacement.

#[global] Instance keeps_preorder (I : State → Prop) : PreOrder (keeps I).
Proof.
  split.
  - intros s H. exact H.
  - intros s1 s2 s3 H12 H23 H. apply H23, H12, H.
Qed.

Lemma get_image_held (st : State) (new_id : Z) :
  new_id ∈ image_ids st →
  ∃ l, l ∈ images (self st) ∧ Image.id (img st l) = new_id
       ∧ get_image st (VInt new_id) = Ok (Some l).
Proof.
  intros Hin. unfold get_image, int_in. rewrite bool_decide_eq_true_2 by done. simpl.
  destruct (py_next_found (λ l, bool_decide (Image.id (img st l) = new_id))
              (images (self st))) as (l & -> & Hl & Hp).
  - apply list_elem_of_fmap in Hin as (l & -> & Hl). exists l.
    by rewrite bool_decide_eq_true_2.
  - exists l. by apply bool_decide_eq_true in Hp.
Qed.

Lemma get_license_held (st : State) (new_id : Z) :
  new_id ∈ license_ids st →
  ∃ l, l ∈ licenses (self st) ∧ License.id (lic st l) = new_id
       ∧ get_license st (VInt new_id) = Ok (Some l).
Proof.
  intros Hin. unfold get_license, int_in. rewrite bool_decide_eq_true_2 by done. simpl.
  destruct (py_next_found (λ l, bool_decide (License.id (lic st l) = new_id))
              (licenses (self st))) as (l & -> & Hl & Hp).
  - apply list_elem_of_fmap in Hin as (l & -> & Hl). exists l.
    by rewrite bool_decide_eq_true_2.
  - exists l. by apply bool_decide_eq_true in Hp.
Qed.

Lemma get_annotation_held (st : State) (new_id : Z) :
  new_id ∈ annotation_ids st →
  ∃ l, l ∈ annotations (self st) ∧ Ann.id (ann st l) = Some new_id
       ∧ get_annotation st (VInt new_id) = Ok l.
Proof.
  intros Hin. unfold get_annotation, int_in. rewrite bool_decide_eq_true_2 by done.
  destruct (py_next_found (λ l, bool_decide (Ann.id (ann st l) = Some new_id))
              (annotations (self st))) as (l & -> & Hl & Hp).
  - apply list_elem_of_omap in Hin as (l & Hl & Hid). exists l.
    by rewrite bool_decide_eq_true_2.
  - exists l. by apply bool_decide_eq_true in Hp.
Qed.

Lemma get_category_held (st : State) (new_id : Z) :
  new_id ∈ category_ids st →
  ∃ l, l ∈ members Categories st ∧ Cat.id (cat st l) = new_id
       ∧ get_category st (VInt new_id) = Ok (Some l).
Proof.
  intros Hin. unfold get_category, int_in. rewrite bool_decide_eq_true_2 by done.
  unfold category_ids in Hin. destruct (categories_present st) as [cs|] eqn:Hp;
    [|by inversion Hin].
  rewrite (categories_present_members st cs Hp). simpl.
  destruct (py_next_found (λ l, bool_decide (Cat.id (cat st l) = new_id)) cs)
    as (l & -> & Hl & Hq).
  - apply list_elem_of_fmap in Hin as (l & -> & Hl). exists l.
    by rewrite bool_decide_eq_true_2.
  - exists l. by apply bool_decide_eq_true in Hq.
Qed.

Lemma reindex_images_Inv (new_ids : option (list Z)) (st : State) :
  Inv st → Inv (exec (reindex_images new_ids) st).
Proof.
  intros HI. unfold reindex_images. rewrite exec_bind. unfold read at 1.
  destruct (negb _); [done|].
  revert HI. apply (always_for_each (keeps Inv)). intros [new_id image] s HI.
  apply (take_id_Inv Images reindex_image
           (λ new_id,
              st_bind (query (λ st, get_image st (VInt new_id))) (λ duplicated_image,
              st_bind get_new_image_id (λ fresh,
              match duplicated_image with
              | Some d => reindex_image d (Some fresh)
              | None => raise TypeError
              end)))); [| |done].
  - intros l v s0. destruct (reindex_image_sets l v s0) as (s' & ? & ?). eauto.
  - intros i s0 Hin. destruct (get_image_held s0 i Hin) as (l & Hl & Hid & Hget).
    exists l. split; [done|]. split; [by simpl; rewrite Hid|].
    unfold st_bind, query. rewrite Hget. simpl.
    by destruct (get_new_image_id s0) as [[]].
Qed.

Lemma reindex_annotations_Inv (new_ids : option (list Z)) (st : State) :
  Inv st → Inv (exec (reindex_annotations new_ids) st).
Proof.
  intros HI. unfold reindex_annotations. rewrite exec_bind. unfold read at 1.
  destruct (negb _); [done|].
  revert HI. apply (always_for_each (keeps Inv)). intros [new_id annotation] s HI.
  apply (take_id_Inv Annotations reindex_annotation
           (λ new_id,
              st_bind (query (λ st, get_annotation st (VInt new_id)))
                (λ duplicated_annotation,
              st_bind get_new_annotation_id (λ fresh,
              reindex_annotation duplicated_annotation (Some fresh))))); [| |done].
  - intros l v s0. destruct (reindex_annotation_sets l v s0) as (s' & ? & ?). eauto.
  - intros i s0 Hin. destruct (get_annotation_held s0 i Hin) as (l & Hl & Hid & Hget).
    exists l. split; [done|]. split; [done|].
    unfold st_bind, query. rewrite Hget. simpl.
    by destruct (get_new_annotation_id s0) as [[]].
Qed.

Lemma reindex_categories_Inv (new_ids : option (list Z)) (st : State) :
  Inv st → Inv (exec (reindex_categories new_ids) st).
Proof.
  intros HI. unfold reindex_categories. rewrite exec_bind. unfold read at 1.
  destruct (categories_present st) as [cs|]; [|done].
  destruct (negb _); [done|].
  revert HI. apply (always_for_each (keeps Inv)). intros [new_id category] s HI.
  apply (take_id_Inv Categories reindex_category
           (λ new_id,
              st_bind (query (λ st, get_category st (VInt new_id)))
                (λ duplicated_category,
              match duplicated_category with
              | Some d =>
                  st_bind get_new_category_id (λ fresh, reindex_category d (Some fresh))
              | None => st_ret tt
              end))); [| |done].
  - apply reindex_category_sets.
  - intros i s0 Hin. destruct (get_category_held s0 i Hin) as (l & Hl & Hid & Hget).
    exists l. split; [done|]. split; [by simpl; rewrite Hid|].
    unfold st_bind, query. rewrite Hget. simpl.
    by destruct (get_new_category_id s0) as [[]].
Qed.

(** *** Plural reindexing of the licenses: room first, then the ids *)

Lemma assign_license_ids (vs : list Z) (ls : list loc) (st : State) :
  length vs = length ls → NoDup ls →
  Forall (λ l, (l < heap_size Licenses st)%nat) ls →
  ∃ st', for_each (py_zip vs ls) (λ '(v, l), reindex_license l (Some v)) st = (Ok tt, st')
    ∧ (∀ c, members c st' = members c st ∧ heap_size c st' = heap_size c st)
    ∧ (∀ c e, c ≠ Licenses ∨ e ∉ ls → id_at c st' e = id_at c st e)
    ∧ omap (id_at Licenses st') ls = vs.
Proof.
  revert vs st. induction ls as [|l ls IH]; intros [|v vs] st Hlen Hnd Hlive;
    try discriminate Hlen.
  { exists st. by repeat split. }
  apply NoDup_cons in Hnd as [Hl Hnd]. apply Forall_cons in Hlive as [Hlt Hlive].
  destruct (reindex_license_sets l v st) as (s1 & Hcall & Hs).
  destruct (IH vs s1) as (st' & Hloop & Hshape & Hother & Hids).
  { simpl in Hlen. lia. }
  { done. }
  { destruct (Hs Licenses) as (_ & -> & _). done. }
  exists st'. simpl. unfold st_bind at 1. rewrite Hcall. split; [done|].
  split; [|split].
  - intros c. destruct (Hshape c) as (-> & ->), (Hs c) as (-> & -> & _). done.
  - intros c e Hce. rewrite Hother.
    + destruct (Hs c) as (_ & _ & ->). rewrite decide_False; [done|].
      intros (-> & -> & _). destruct Hce as [?|Hce]; [done|]. apply Hce. left.
    + destruct Hce as [?|Hce]; [by left|]. right. intros ?. apply Hce. by right.
  - assert (Hv : id_at Licenses st' l = Some v).
    { rewrite Hother by (by right). destruct (Hs Licenses) as (_ & _ & ->).
      rewrite decide_True; [done|]. repeat split; [done|]. simpl. eauto. }
    simpl in Hv. injection Hv as Hv. csimpl. f_equal; [exact Hv | exact Hids].
Qed.

Lemma NoDup_py_range (n : nat) : NoDup (py_range n).
Proof. unfold py_range. apply NoDup_fmap_2; [|apply NoDup_seq]. intros j k ?. lia. Qed.

Lemma length_py_range (n : nat) : length (py_range n) = n.
Proof. unfold py_range. by rewrite length_fmap, length_seq. Qed.

Lemma reindex_licenses_Inv (new_ids : option (list Z)) (st : State) :
  (∀ vs, new_ids = Some vs → NoDup vs) →
  Inv st → Inv (exec (reindex_licenses new_ids) st).
Proof.
  intros Hvs HI. unfold reindex_licenses. rewrite exec_bind. unfold read at 1.
  set (ids := ids_or_range new_ids (length (licenses (self st)))).
  assert (Hnd : NoDup ids).
  { subst ids. destruct new_ids as [[|i is_]|]; simpl;
      [apply NoDup_py_range | by apply Hvs | apply NoDup_py_range]. }
  destruct (bool_decide (length ids = length (licenses (self st)))) eqn:Hlen; [|done].
  apply bool_decide_eq_true in Hlen. cbn [negb]. rewrite exec_bind.
  pose (room := for_each ids (λ new_id,
    st_bind (read license_ids) (λ ids0,
      when (int_in new_id ids0)
        (st_bind (query (λ st0, get_license st0 (VInt new_id))) (λ duplicated_license,
         st_bind get_new_license_id (λ fresh,
         match duplicated_license with
         | Some d => reindex_license d (Some fresh)
         | None => raise TypeError
         end)))))).
  assert (Hroom : Inv (exec room st)
                  ∧ members Licenses (exec room st) = members Licenses st).
  { set (R := λ s s' : State, Inv s → Inv s' ∧ members Licenses s' = members Licenses s).
    assert (HR : PreOrder R).
    { split; [by intros s | intros s1 s2 s3 H12 H23 H1].
      destruct (H12 H1) as [H2 E2]. destruct (H23 H2) as [H3 E3]. split; congruence. }
    refine (always_for_each R ids _ _ st HI).
    intros new_id s HIs.
    apply (make_room_Inv Licenses reindex_license
       (λ new_id,
          st_bind (query (λ st0, get_license st0 (VInt new_id))) (λ duplicated_license,
          st_bind get_new_license_id (λ fresh,
          match duplicated_license with
          | Some d => reindex_license d (Some fresh)
          | None => raise TypeError
          end)))); [| |done].
    - intros l v s0. destruct (reindex_license_sets l v s0) as (s' & ? & ?). eauto.
    - intros i s0 Hin. destruct (get_license_held s0 i Hin) as (l & Hl & Hid & Hget).
      exists l. split; [done|]. split; [by simpl; rewrite Hid|].
      unfold st_bind, query. rewrite Hget. simpl.
      by destruct (get_new_license_id s0) as [[]]. }
  fold room. unfold exec in Hroom. destruct (room st) as [[[]|e] s1]; simpl in Hroom;
    [|tauto].
  destruct Hroom as [[Hh Hu] Hmem]. unfold exec.
  destruct (assign_license_ids ids (licenses (self st)) s1) as (st' & -> & Hshape & Ho & Hids).
  - done.
  - pose proof (proj1 (unique_ids_members s1) Hu Licenses) as Hn.
    change (members Licenses s1) with (licenses (self s1)) in Hn. rewrite Hmem in Hn.
    assert (Heq : omap (id_at Licenses s1) (licenses (self st))
                  = (λ l, License.id (lic s1 l)) <$> licenses (self st)).
    { clear. induction (licenses (self st)) as [|a l IH]; csimpl; [done|]. by rewrite IH. }
    rewrite Heq in Hn. by apply NoDup_fmap_1 in Hn.
  - pose proof (proj1 (heap_ok_members s1) Hh Licenses) as Hl.
    change (members Licenses s1) with (licenses (self s1)) in Hl. by rewrite Hmem in Hl.
  - simpl. split.
    + apply heap_ok_members. intros c. destruct (Hshape c) as (-> & ->).
      by apply heap_ok_members.
    + apply unique_ids_members. intros c. destruct (Hshape c) as (-> & _).
      destruct (decide (c = Licenses)) as [->|Hc].
      * change (members Licenses s1) with (licenses (self s1)). by rewrite Hmem, Hids.
      * rewrite (omap_ext_in _ (id_at c s1)); [by apply unique_ids_members|].
        intros e _. apply Ho. by left.
Qed.

(** ** Id uniqueness *)

Lemma run_Inv (op : operation) (st : State) :
  live st op → ¬ clashes st op → Inv st → Inv (exec (run op) st).
Proof.
  intros Hlive Hclash HI. destruct op as
    [x|x|x|x|l ri ra|l ra|l ra|l|l v|l v|l v|l v|vs|vs|vs|vs]; simpl.
  - by apply append_license_Inv.
  - by apply append_category_Inv.
  - by apply append_image_Inv.
  - by apply append_annotation_Inv.
  - eapply shrinks_Inv; [apply remove_license_shrinks | done].
  - eapply shrinks_Inv; [apply remove_category_shrinks | done].
  - eapply shrinks_Inv; [apply remove_image_shrinks | done].
  - eapply shrinks_Inv; [apply remove_annotation_shrinks | done].
  - apply (reindex_with_Inv Licenses l (reindex_license l)); [| | |done].
    + intros w s. destruct (reindex_license_sets l w s) as (s' & ? & ?). eauto.
    + intros s. right. apply reindex_license_None.
    + intros w -> e He Hne [= Hid]. apply Hclash. simpl. eauto.
  - apply (reindex_with_Inv Categories l (reindex_category l)); [| | |done].
    + apply reindex_category_sets.
    + intros s. rewrite reindex_category_None.
      destruct (categories_present s); [by right | by left].
    + intros w -> e He Hne [= Hid]. apply Hclash. simpl. eauto.
  - apply (reindex_with_Inv Images l (reindex_image l)); [| | |done].
    + intros w s. destruct (reindex_image_sets l w s) as (s' & ? & ?). eauto.
    + intros s. right. apply reindex_image_None.
    + intros w -> e He Hne [= Hid]. apply Hclash. simpl. eauto.
  - apply (reindex_with_Inv Annotations l (reindex_annotation l)); [| | |done].
    + intros w s. destruct (reindex_annotation_sets l w s) as (s' & ? & ?). eauto.
    + intros s. right. apply reindex_annotation_None.
    + intros w -> e He Hne Hid. apply Hclash. simpl. eauto.
  - apply reindex_licenses_Inv; [|done]. intros ws ->. simpl in Hclash.
    by destruct (decide (NoDup ws)).
  - by apply reindex_categories_Inv.
  - by apply reindex_images_Inv.
  - by apply reindex_annotations_Inv.
Qed.

(** C2, as the code has it.  From a dataset whose records have pairwise
    distinct ids within each collection, the ids stay pairwise distinct
    along every sequence of appends, removals and reindexings in which no
    singular reindex is given an id that another record of the collection
    holds and no [reindex_licenses] is given ids that repeat.  (A singular
    reindex displaces nobody: making room is what the plural reindexings
    do.) *)
Theorem id_uniqueness_preserved (st : State) (ops : list operation) :
  heap_ok st → unique_ids st →
  all_along live st ops →
  all_along (λ s op, ¬ clashes s op) st ops →
  unique_ids (run_all ops st).
Proof.
  intros Hh Hu Hlive Hclash.
  assert (HI : Inv st) by done. clear Hh Hu.
  enough (Inv (run_all ops st)) as [_ ?] by done.
  revert st HI Hlive Hclash. induction ops as [|op ops IH]; intros st HI Hlive Hclash.
  - done.
  - destruct Hlive as [Hl Hlive], Hclash as [Hc Hclash]. simpl.
    apply IH; [by apply run_Inv | done | done].
Qed.

Example small_dataset_run :
  let st := run_all small_dataset_operations small_dataset in
  license_ids st = [1; 2] ∧ image_ids st = [0; 9]
  ∧ category_ids st = [3] ∧ annotation_ids st = [1].
Proof. by vm_compute. Qed.

Lemma id_uniqueness_preserved_witness :
  heap_ok small_dataset ∧ unique_ids small_dataset
  ∧ all_along live small_dataset small_dataset_operations
  ∧ all_along (λ s op, ¬ clashes s op) small_dataset small_dataset_operations
  ∧ unique_ids (run_all small_dataset_operations small_dataset).
Proof.
  assert (Hh : heap_ok small_dataset).
  { unfold heap_ok, refs_ok. simpl. repeat split; repeat constructor. }
  assert (Hu : unique_ids small_dataset).
  { unfold unique_ids. decide_closed. }
  assert (Hl : all_along live small_dataset small_dataset_operations).
  { cbn [all_along small_dataset_operations live]. repeat split; vm_compute; lia. }
  assert (Hc : all_along (λ s op, ¬ clashes s op) small_dataset small_dataset_operations).
  { cbn [all_along small_dataset_operations clashes]. repeat apply conj; try tauto.
    intros (l' & Hin & Hne & Hid). apply list_elem_of_In in Hin. simpl in Hin.
    destruct Hin as [<-|[<-|[]]]; [done | discriminate Hid]. }
  split; [exact Hh|]. split; [exact Hu|]. split; [exact Hl|]. split; [exact Hc|].
  exact (id_uniqueness_preserved small_dataset small_dataset_operations Hh Hu Hl Hc).
Defined.

(** C2, as the specification has it, fails: [reindex_license(license, 1)]
    on a dataset whose other license has id 1 leaves two licenses with id 1,
    nobody is displaced; and [reindex_licenses([5, 5])] leaves two licenses
    with id 5. *)
Lemma reindex_onto_held_id_duplicates :
  heap_ok small_dataset ∧ unique_ids small_dataset
  ∧ all_along live small_dataset [Reindex_license 0%nat (Some 1)]
  ∧ license_ids (run_all [Reindex_license 0%nat (Some 1)] small_dataset) = [1; 1]
  ∧ ¬ unique_ids (run_all [Reindex_license 0%nat (Some 1)] small_dataset)
  ∧ license_ids (run_all [Reindex_licenses (Some [5; 5])] small_dataset) = [5; 5]
  ∧ ¬ unique_ids (run_all [Reindex_licenses (Some [5; 5])] small_dataset).
Proof.
  split; [unfold heap_ok, refs_ok; simpl; repeat split; repeat constructor|].
  split; [unfold unique_ids; decide_closed|].
  split; [done|]. split; [by vm_compute|].
  split; [unfold unique_ids; decide_closed|].
  split; [by vm_compute|]. unfold unique_ids. decide_closed.
Qed.

(** ** Removing a record that is not stored *)

#[global] Instance only_changes_preorder (cs : list collection) :
  PreOrder (only_changes cs).
Proof.
  split.
  - by intros s c _.
  - intros s1 s2 s3 H12 H23 c Hc. by rewrite (H23 c Hc), (H12 c Hc).
Qed.

Lemma only_changes_mono (cs cs' : list collection) (s s' : State) :
  cs ⊆ cs' → only_changes cs s s' → only_changes cs' s s'.
Proof. intros Hsub H c Hc. apply H. intros ?. by apply Hc, Hsub. Qed.

Lemma remove_annotation_only (a : loc) :
  always (only_changes [Annotations]) (remove_annotation a).
Proof.
  unfold remove_annotation. apply always_bind; [tc_solve | apply always_read; tc_solve|].
  intros present. destruct (negb present); [apply always_ret; tc_solve|].
  apply always_modify. intros st [] Hc; try done. exfalso. apply Hc. left.
Qed.

Lemma remove_annotaitons_only (annotations : list loc) :
  always (only_changes [Annotations]) (remove_annotaitons annotations).
Proof. apply always_for_each; [tc_solve|]. apply remove_annotation_only. Qed.

Lemma remove_image_only (image : loc) (ra : bool) :
  always (only_changes [Images; Annotations]) (remove_image image ra).
Proof.
  unfold remove_image. apply always_bind; [tc_solve | apply always_read; tc_solve|].
  intros present. destruct (negb present); [apply always_ret; tc_solve|].
  apply always_bind; [tc_solve | |].
  - apply always_modify. intros st [] Hc; try done. exfalso. apply Hc. left.
  - intros _. apply always_when; [tc_solve|].
    apply always_bind; [tc_solve | apply always_query; tc_solve|].
    intros annotations st.
    eapply only_changes_mono; [|apply remove_annotaitons_only].
    intros c ->%list_elem_of_singleton. right. left.
Qed.

Lemma remove_images_only (images : list loc) (ra : bool) :
  always (only_changes [Images; Annotations]) (remove_images images ra).
Proof. apply always_for_each; [tc_solve|]. intros x. apply remove_image_only. Qed.

Lemma same_false {A} `{EqDecision A} (h : loc → A) (x e : loc) :
  h e ≠ h x → same h x e = false.
Proof.
  intros Hne. unfold same. rewrite (bool_decide_eq_false_2 (h e = h x)) by done.
  rewrite bool_decide_eq_false_2; [done|]. by intros ->.
Qed.

Lemma same_true {A} `{EqDecision A} (h : loc → A) (x e : loc) :
  h e = h x → same h x e = true.
Proof.
  intros Heq. unfold same. rewrite (bool_decide_eq_true_2 (h e = h x)) by done.
  apply orb_true_r.
Qed.

Lemma py_in_unequal {A} `{EqDecision A} (h : loc → A) (x : loc) (xs : list loc) :
  (∀ e, e ∈ xs → h e ≠ h x) → py_in h x xs = false.
Proof.
  intros Hne. unfold py_in. induction xs as [|e xs IH]; simpl; [done|].
  rewrite same_false by (apply Hne; left). apply IH. intros e' He'. apply Hne. by right.
Qed.

Lemma py_in_equal {A} `{EqDecision A} (h : loc → A) (x e : loc) (xs : list loc) :
  e ∈ xs → h e = h x → py_in h x xs = true.
Proof.
  intros He Heq. unfold py_in. apply existsb_exists. exists e.
  split; [by apply list_elem_of_In | by apply same_true].
Qed.

Lemma py_remove_first_equal {A} `{EqDecision A} (h : loc → A) (x e : loc)
    (pre post : list loc) :
  (∀ y, y ∈ pre → h y ≠ h x) → h e = h x →
  py_remove h x (pre ++ e :: post) = pre ++ post.
Proof.
  intros Hpre Heq. induction pre as [|y pre IH]; simpl.
  - by rewrite same_true.
  - rewrite same_false by (apply Hpre; left). f_equal. apply IH.
    intros z Hz. apply Hpre. by right.
Qed.

Lemma remove_annotation_first_equal (st : State) (l e : loc) (pre post : list loc) :
  annotations (self st) = pre ++ e :: post →
  (∀ y, y ∈ pre → ann st y ≠ ann st l) → ann st e = ann st l →
  annotations (self (exec (remove_annotation l) st)) = pre ++ post.
Proof.
  intros Hall Hpre Heq. unfold remove_annotation, exec, st_bind, read.
  rewrite (py_in_equal (ann st) l e) by (by rewrite ?Hall, ?elem_of_app, ?elem_of_cons; auto).
  simpl. rewrite Hall. by apply py_remove_first_equal.
Qed.

Lemma remove_image_first_equal (st : State) (l e : loc) (ra : bool) (pre post : list loc) :
  images (self st) = pre ++ e :: post →
  (∀ y, y ∈ pre → img st y ≠ img st l) → img st e = img st l →
  images (self (exec (remove_image l ra) st)) = pre ++ post.
Proof.
  intros Hall Hpre Heq. unfold remove_image. rewrite exec_bind. unfold read at 1.
  rewrite (py_in_equal (img st) l e) by (by rewrite ?Hall, ?elem_of_app, ?elem_of_cons; auto).
  cbn [negb]. rewrite exec_bind. unfold modify at 1.
  set (s1 := set_images _ st).
  assert (H1 : images (self s1) = pre ++ post).
  { subst s1. simpl. rewrite Hall. by apply py_remove_first_equal. }
  rewrite <- H1.
  assert (Hk : always (only_changes [Annotations])
                 (when ra (st_bind (query (λ st0, get_annotations st0 (VObj (RImage l))))
                             (λ annotations, remove_annotaitons annotations)))).
  { apply always_when; [tc_solve|].
    apply always_bind; [tc_solve | apply always_query; tc_solve|].
    intros annotations. apply remove_annotaitons_only. }
  apply (Hk s1 Images). by intros ?%list_elem_of_singleton.
Qed.

Lemma remove_license_first_equal (st : State) (l e : loc) (ri ra : bool)
    (pre post : list loc) :
  licenses (self st) = pre ++ e :: post →
  (∀ y, y ∈ pre → lic st y ≠ lic st l) → lic st e = lic st l →
  licenses (self (exec (remove_license l ri ra) st)) = pre ++ post.
Proof.
  intros Hall Hpre Heq. unfold remove_license. rewrite exec_bind. unfold read at 1.
  rewrite (py_in_equal (lic st) l e) by (by rewrite ?Hall, ?elem_of_app, ?elem_of_cons; auto).
  cbn [negb]. rewrite exec_bind. unfold modify at 1.
  set (s1 := set_licenses _ st).
  assert (H1 : licenses (self s1) = pre ++ post).
  { subst s1. simpl. rewrite Hall. by apply py_remove_first_equal. }
  rewrite <- H1.
  assert (Hk : always (only_changes [Images; Annotations])
                 (when ri (st_bind (query (λ st0, get_images st0 (VObj (RLicense l))))
                             (λ images, remove_images images ra)))).
  { apply always_when; [tc_solve|].
    apply always_bind; [tc_solve | apply always_query; tc_solve|].
    intros images. apply remove_images_only. }
  apply (Hk s1 Licenses). intros Hin. apply list_elem_of_In in Hin. simpl in Hin.
  by destruct Hin as [|[|[]]].
Qed.

Lemma remove_category_first_equal (st : State) (l e : loc) (ra : bool)
    (pre post : list loc) :
  categories (self st) = Some (pre ++ e :: post) →
  (∀ y, y ∈ pre → cat st y ≠ cat st l) → cat st e = cat st l →
  categories (self (exec (remove_category l ra) st)) = Some (pre ++ post).
Proof.
  intros Hall Hpre Heq. unfold remove_category. rewrite exec_bind. unfold read at 1.
  assert (Hp : categories_present st = Some (pre ++ e :: post)).
  { unfold categories_present. rewrite Hall. by destruct pre. }
  rewrite Hp. rewrite exec_bind. unfold read at 1.
  rewrite (py_in_equal (cat st) l e) by (by rewrite ?elem_of_app, ?elem_of_cons; auto).
  cbn [negb]. rewrite exec_bind. unfold modify at 1.
  set (s1 := set_categories _ st).
  assert (H1 : categories (self s1) = Some (pre ++ post)).
  { subst s1. simpl. f_equal. by apply py_remove_first_equal. }
  rewrite <- H1.
  assert (Hk : always (λ s s', categories (self s') = categories (self s))
                 (when ra (st_bind
                    (query (λ st0, get_annotations_by_category st0 (VObj (RCategory l))))
                    (λ annotations, remove_annotaitons annotations)))).
  { assert (HR : PreOrder (λ s s' : State, categories (self s') = categories (self s))).
    { split; [by intros s | intros s1' s2 s3 H12 H23; congruence]. }
    apply always_when; [done|].
    apply always_bind; [done | by apply always_query|].
    intros annotations. apply always_for_each; [done|]. intros a.
    unfold remove_annotation. apply always_bind; [done | by apply always_read|].
    intros present. destruct (negb present); [by apply always_ret|].
    by apply always_modify. }
  apply (Hk s1).
Qed.

(** C5, as the code has it.  A record is looked for with [in] and taken
    out with [list.remove], which compare with [==]: the same object, or an
    object of the same class with equal fields.  Removing a record that no
    stored record equals leaves the dataset as it is; removing a record
    that some stored record equals takes out the first stored record that
    equals it, whether or not it is the same object. *)
Theorem remove_compares_by_value (st : State) :
  (∀ l ri ra, (∀ e, e ∈ licenses (self st) → lic st e ≠ lic st l) →
     remove_license l ri ra st = (Ok tt, st))
  ∧ (∀ l ra, (∀ e, e ∈ members Categories st → cat st e ≠ cat st l) →
       remove_category l ra st = (Ok tt, st))
  ∧ (∀ l ra, (∀ e, e ∈ images (self st) → img st e ≠ img st l) →
       remove_image l ra st = (Ok tt, st))
  ∧ (∀ l, (∀ e, e ∈ annotations (self st) → ann st e ≠ ann st l) →
       remove_annotation l st = (Ok tt, st))
  ∧ (∀ l e ri ra pre post,
       licenses (self st) = pre ++ e :: post →
       (∀ y, y ∈ pre → lic st y ≠ lic st l) → lic st e = lic st l →
       licenses (self (exec (remove_license l ri ra) st)) = pre ++ post)
  ∧ (∀ l e ra pre post,
       categories (self st) = Some (pre ++ e :: post) →
       (∀ y, y ∈ pre → cat st y ≠ cat st l) → cat st e = cat st l →
       categories (self (exec (remove_category l ra) st)) = Some (pre ++ post))
  ∧ (∀ l e ra pre post,
       images (self st) = pre ++ e :: post →
       (∀ y, y ∈ pre → img st y ≠ img st l) → img st e = img st l →
       images (self (exec (remove_image l ra) st)) = pre ++ post)
  ∧ (∀ l e pre post,
       annotations (self st) = pre ++ e :: post →
       (∀ y, y ∈ pre → ann st y ≠ ann st l) → ann st e = ann st l →
       annotations (self (exec (remove_annotation l) st)) = pre ++ post).
Proof.
  repeat apply conj.
  - intros l ri ra Hne. unfold remove_license, st_bind, read.
    by rewrite py_in_unequal.
  - intros l ra Hne. unfold remove_category, st_bind, read.
    destruct (categories_present st) as [cs|] eqn:Hp; [|done].
    rewrite py_in_unequal; [done|]. by rewrite <- (categories_present_members st cs Hp).
  - intros l ra Hne. unfold remove_image, st_bind, read. by rewrite py_in_unequal.
  - intros l Hne. unfold remove_annotation, st_bind, read. by rewrite py_in_unequal.
  - intros. by eapply remove_license_first_equal.
  - intros. by eapply remove_category_first_equal.
  - intros. by eapply remove_image_first_equal.
  - intros. by eapply remove_annotation_first_equal.
Qed.

Lemma remove_compares_by_value_witness :
  (∀ e, e ∈ annotations (self twin_dataset) → ann twin_dataset e ≠ ann twin_dataset 2%nat)
  ∧ remove_annotation 2%nat twin_dataset = (Ok tt, twin_dataset)
  ∧ annotations (self twin_dataset) = [] ++ 0%nat :: []
  ∧ (∀ y, y ∈ [] → ann twin_dataset y ≠ ann twin_dataset 1%nat)
  ∧ ann twin_dataset 0%nat = ann twin_dataset 1%nat
  ∧ annotations (self (exec (remove_annotation 1%nat) twin_dataset)) = [] ++ [].
Proof.
  destruct (remove_compares_by_value twin_dataset)
    as (_ & _ & _ & Hnoop & _ & _ & _ & Hfirst).
  assert (H2 : ∀ e, e ∈ annotations (self twin_dataset) →
                    ann twin_dataset e ≠ ann twin_dataset 2%nat).
  { intros e He. apply list_elem_of_In in He. simpl in He.
    destruct He as [<-|[]]. discriminate. }
  assert (H0 : ∀ y : loc, y ∈ [] → ann twin_dataset y ≠ ann twin_dataset 1%nat).
  { intros y Hy. inversion Hy. }
  split; [exact H2|]. split; [exact (Hnoop 2%nat H2)|]. split; [reflexivity|].
  split; [exact H0|]. split; [reflexivity|].
  exact (Hfirst 1%nat 0%nat [] [] eq_refl H0 eq_refl).
Defined.

(** C5, as the specification has it, fails: the license, the category, the
    image and the annotation that the caller made (the objects 1) are not in
    the dataset, and removing each takes out the stored record with the
    same field values. *)
Lemma remove_of_value_equal_record_removes :
  ((1%nat ∉ licenses (self twin_dataset))
   ∧ licenses (self (exec (remove_license 1%nat true true) twin_dataset)) = [])
  ∧ ((1%nat ∉ default [] (categories (self twin_dataset)))
     ∧ categories (self (exec (remove_category 1%nat true) twin_dataset)) = Some [])
  ∧ ((1%nat ∉ images (self twin_dataset))
     ∧ images (self (exec (remove_image 1%nat true) twin_dataset)) = [])
  ∧ ((1%nat ∉ annotations (self twin_dataset))
     ∧ annotations (self (exec (remove_annotation 1%nat) twin_dataset)) = [])
  ∧ exec (remove_annotation 1%nat) twin_dataset ≠ twin_dataset.
Proof.
  repeat apply conj; try decide_closed; try (by vm_compute).
Qed.

(** ** Trimming *)

Lemma int_in_iff (x : Z) (xs : list Z) : int_in x xs = true ↔ x ∈ xs.
Proof. unfold int_in. apply bool_decide_eq_true. Qed.

Lemma filter_all {A} (p : A → bool) (xs : list A) :
  (∀ x, x ∈ xs → p x = true) → List.filter p xs = xs.
Proof.
  induction xs as [|a xs IH]; intros H; simpl; [done|].
  rewrite (H a) by left. f_equal. apply IH. intros x Hx. apply H. by right.
Qed.

Lemma elem_of_filter_list {A} (p : A → bool) (xs : list A) (x : A) :
  x ∈ List.filter p xs ↔ x ∈ xs ∧ p x = true.
Proof. rewrite !list_elem_of_In. apply filter_In. Qed.

Lemma filter_twice {A} (p : A → bool) (xs : list A) :
  List.filter p (List.filter p xs) = List.filter p xs.
Proof. apply filter_all. by intros x [_ ?]%elem_of_filter_list. Qed.

Lemma forallb_pointwise {A} (p q : A → bool) (xs : list A) :
  (∀ x, p x = q x) → forallb p xs = forallb q xs.
Proof. intros H. induction xs as [|a xs IH]; simpl; [done|]. by rewrite H, IH. Qed.

Lemma set_annotations_same (st : State) : set_annotations (annotations (self st)) st = st.
Proof. by destruct st as [h []]. Qed.
Lemma set_images_same (st : State) : set_images (images (self st)) st = st.
Proof. by destruct st as [h []]. Qed.
Lemma set_licenses_same (st : State) : set_licenses (licenses (self st)) st = st.
Proof. by destruct st as [h []]. Qed.
Lemma set_categories_same (st : State) : set_categories (categories (self st)) st = st.
Proof. by destruct st as [h []]. Qed.

(** What the four passes of [trim_dataset] keep. *)
Lemma trim_dataset_keeps (st : State) :
  let st' := exec trim_dataset st in
  let kept_annotations :=
    List.filter (λ a, int_in (Ann.image_id (ann st a)) (image_ids st))
      (annotations (self st)) in
  let kept_images :=
    List.filter
      (λ i, int_in (Image.id (img st i)) ((λ a, Ann.image_id (ann st a)) <$> kept_annotations)
            && int_in (Image.license (img st i)) (license_ids st))
      (images (self st)) in
  trim_dataset st = (Ok tt, st')
  ∧ heap st' = heap st
  ∧ annotations (self st') = kept_annotations
  ∧ images (self st') = kept_images
  ∧ licenses (self st')
    = List.filter
        (λ l, int_in (License.id (lic st l)) ((λ i, Image.license (img st i)) <$> kept_images))
        (licenses (self st))
  ∧ categories (self st')
    = match categories_present st with
      | Some cs =>
          if forallb (λ a, is_Categorized (ann st a)) kept_annotations then
            Some (List.filter
                    (λ c, int_in (Cat.id (cat st c))
                            (omap (λ a, Ann.category_id (ann st a)) kept_annotations))
                    cs)
          else categories (self st)
      | None => categories (self st)
      end.
Proof.
  destruct st as [h [inf ls [[|c cs]|] ims ans c1 c2 c3 c4]]; cbv zeta;
    unfold trim_dataset, trim_annotations, trim_images, trim_categories, trim_licenses,
      exec, st_bind, modify, categories_present, annotations_categorized; simpl;
    try (repeat apply conj; reflexivity).
  destruct (forallb _ _); repeat apply conj; reflexivity.
Qed.

(** C6, as the code has it.  [trim_images] also drops the images whose
    license is not a license of the dataset, after [trim_annotations] ran, so
    a second [trim_dataset] can drop the annotations of those images.  When
    every image that an annotation refers to has its license among the
    licenses, [trim_dataset] applied twice leaves what it leaves applied
    once. *)
Theorem trim_dataset_idempotent (st : State) :
  (∀ i a, i ∈ images (self st) → a ∈ annotations (self st) →
          Ann.image_id (ann st a) = Image.id (img st i) →
          Image.license (img st i) ∈ license_ids st) →
  trim_dataset st = (Ok tt, exec trim_dataset st)
  ∧ trim_dataset (exec trim_dataset st) = (Ok tt, exec trim_dataset st).
Proof.
  intros Hlic.
  destruct (trim_dataset_keeps st) as (Hrun & Hh & Ha & Hi & Hl & Hc).
  split; [exact Hrun|].
  set (st' := exec trim_dataset st) in *.
  assert (Hlic' : ∀ l, lic st' l = lic st l) by (intros; unfold lic; by rewrite Hh).
  assert (Himg' : ∀ l, img st' l = img st l) by (intros; unfold img; by rewrite Hh).
  assert (Hcat' : ∀ l, cat st' l = cat st l) by (intros; unfold cat; by rewrite Hh).
  assert (Hann' : ∀ l, ann st' l = ann st l) by (intros; unfold ann; by rewrite Hh).
  (* every kept annotation refers to a kept image *)
  assert (F1 : ∀ a, a ∈ annotations (self st') →
                    Ann.image_id (ann st a) ∈ image_ids st').
  { intros a Ha'. pose proof Ha' as Ha0. rewrite Ha in Ha0.
    apply elem_of_filter_list in Ha0 as [Ha0 Hin%int_in_iff].
    apply list_elem_of_fmap in Hin as (i & Hid & Hi0).
    unfold image_ids. apply list_elem_of_fmap. exists i. rewrite Himg'.
    split; [done|]. rewrite Hi. apply elem_of_filter_list. split; [done|].
    apply andb_true_iff. split; apply int_in_iff.
    - apply list_elem_of_fmap. exists a. split; [by symmetry|]. by rewrite <- Ha.
    - by apply (Hlic i a). }
  (* every kept image has a kept annotation and a kept license *)
  assert (F2 : ∀ i, i ∈ images (self st') →
                    Image.id (img st i) ∈ (λ a, Ann.image_id (ann st a)) <$> annotations (self st')
                    ∧ Image.license (img st i) ∈ license_ids st').
  { intros i Hi'. pose proof Hi' as Hi0. rewrite Hi in Hi0.
    apply elem_of_filter_list in Hi0 as [Hi0 [Hin1%int_in_iff Hin2%int_in_iff]%andb_true_iff].
    split; [by rewrite Ha|].
    apply list_elem_of_fmap in Hin2 as (l & Hid & Hl0).
    unfold license_ids. apply list_elem_of_fmap. exists l. rewrite Hlic'.
    split; [done|]. rewrite Hl. apply elem_of_filter_list. split; [done|].
    apply int_in_iff, list_elem_of_fmap. exists i. split; [by symmetry|]. by rewrite <- Hi. }
  assert (S1 : trim_annotations st' = (Ok tt, st')).
  { unfold trim_annotations, modify. f_equal.
    rewrite filter_all; [apply set_annotations_same|].
    intros a Ha'. apply int_in_iff. rewrite Hann'. by apply F1. }
  assert (S2 : trim_images st' = (Ok tt, st')).
  { unfold trim_images, modify. f_equal.
    rewrite filter_all; [apply set_images_same|].
    intros i Hi'. destruct (F2 i Hi') as [H1 H2]. rewrite Himg'.
    apply andb_true_iff. split; apply int_in_iff; [|done].
    erewrite list_fmap_ext; [exact H1|]. intros _ a _. simpl. by rewrite Hann'. }
  assert (S3 : trim_categories st' = (Ok tt, st')).
  { unfold trim_categories, modify. f_equal.
    assert (Hcatd : annotations_categorized st'
                    = forallb (λ a, is_Categorized (ann st a)) (annotations (self st'))).
    { unfold annotations_categorized. apply forallb_pointwise. intros a. by rewrite Hann'. }
    assert (Hids : annotation_category_id_list st'
                   = omap (λ a, Ann.category_id (ann st a)) (annotations (self st'))).
    { unfold annotation_category_id_list. apply omap_ext_in. intros a _. by rewrite Hann'. }
    destruct (categories_present st') as [cs'|] eqn:Hp'; [|done].
    rewrite Hcatd. destruct (forallb _ (annotations (self st'))) eqn:Hall; [|done].
    rewrite <- Ha in Hc. rewrite Hall in Hc.
    assert (Hcs' : categories (self st') = Some cs').
    { unfold categories_present in Hp'.
      destruct (categories (self st')) as [[|]|]; congruence. }
    destruct (categories_present st) as [cs|] eqn:Hp.
    - rewrite Hcs' in Hc. injection Hc as ->. rewrite Hids.
      erewrite (filter_ext _ (λ c, int_in (Cat.id (cat st c)) _));
        [|intros c; by rewrite Hcat'].
      rewrite filter_twice. rewrite <- Hcs'. apply set_categories_same.
    - unfold categories_present in Hp. rewrite <- Hc, Hcs' in Hp.
      unfold categories_present in Hp'. rewrite Hcs' in Hp'.
      destruct cs'; congruence. }
  assert (S4 : trim_licenses st' = (Ok tt, st')).
  { unfold trim_licenses, modify. f_equal.
    rewrite filter_all; [apply set_licenses_same|].
    intros l Hl'. rewrite Hl in Hl'.
    apply elem_of_filter_list in Hl' as [_ Hin]. rewrite Hlic'.
    erewrite list_fmap_ext; [rewrite Hi; exact Hin|]. intros _ i _. simpl. by rewrite Himg'. }
  unfold trim_dataset, st_bind. by rewrite S1, S2, S3, S4.
Qed.

Lemma trim_dataset_idempotent_witness :
  (∀ i a, i ∈ images (self small_dataset) → a ∈ annotations (self small_dataset) →
          Ann.image_id (ann small_dataset a) = Image.id (img small_dataset i) →
          Image.license (img small_dataset i) ∈ license_ids small_dataset)
  ∧ trim_dataset small_dataset = (Ok tt, exec trim_dataset small_dataset)
  ∧ trim_dataset (exec trim_dataset small_dataset)
    = (Ok tt, exec trim_dataset small_dataset).
Proof.
  assert (H : ∀ i a, i ∈ images (self small_dataset) →
                     a ∈ annotations (self small_dataset) →
                     Ann.image_id (ann small_dataset a) = Image.id (img small_dataset i) →
                     Image.license (img small_dataset i) ∈ license_ids small_dataset).
  { intros i a Hi _ _. apply list_elem_of_In in Hi. simpl in Hi.
    destruct Hi as [<-|[<-|[]]]; decide_closed. }
  split; [exact H|]. exact (trim_dataset_idempotent small_dataset H).
Defined.

(** C6, as the specification has it, fails: the image has a license that
    is not in the dataset; the first [trim_dataset] keeps the caption and
    drops the image, the second drops the caption. *)
Lemma trim_dataset_twice_differs :
  annotations (self (exec trim_dataset unlicensed_dataset)) = [0%nat]
  ∧ images (self (exec trim_dataset unlicensed_dataset)) = []
  ∧ annotations (self (exec trim_dataset (exec trim_dataset unlicensed_dataset))) = []
  ∧ exec trim_dataset (exec trim_dataset unlicensed_dataset)
    ≠ exec trim_dataset unlicensed_dataset.
Proof. repeat apply conj; by vm_compute. Qed.

(* ------------------------------------------------------------------ *)
(** ** Splitting *)

Lemma lookup_total_prefix {A} `{Inhabited A} (h h' : list A) (i : nat) :
  h `prefix_of` h' → (i < length h)%nat → h' !!! i = h !!! i.
Proof. intros [k ->] Hi. by apply lookup_total_app_l. Qed.

Lemma deepcopy_from_prefix {A} `{Inhabited A} (ls : list loc) (memo : list (loc * loc))
    (h : list A) :
  h `prefix_of` (deepcopy_from memo h ls).1.
Proof.
  revert memo h. induction ls as [|l ls IH]; intros memo h; simpl; [done|].
  destruct (memo_lookup memo l) as [l'|].
  - specialize (IH memo h). by destruct (deepcopy_from memo h ls).
  - specialize (IH ((l, length h) :: memo) (h ++ [h !!! l])).
    destruct (deepcopy_from _ (h ++ [h !!! l]) ls) as [h' copies]. simpl in *.
    etransitivity; [|exact IH]. by apply prefix_app_r.
Qed.

(** The copies are objects of the new heap and have the values of the
    originals. *)
Lemma deepcopy_from_values {A} `{Inhabited A} (ls : list loc) (memo : list (loc * loc))
    (h : list A) :
  Forall (λ l, (l < length h)%nat) ls →
  Forall (λ p, (p.1 < length h)%nat ∧ (p.2 < length h)%nat ∧ h !!! p.2 = h !!! p.1) memo →
  Forall2 (λ l c, (c < length (deepcopy_from memo h ls).1)%nat
                  ∧ (deepcopy_from memo h ls).1 !!! c = h !!! l)
    ls (deepcopy_from memo h ls).2.
Proof.
  revert memo h. induction ls as [|l ls IH]; intros memo h Hlive Hmemo; simpl; [done|].
  apply Forall_cons in Hlive as [Hl Hlive].
  destruct (memo_lookup memo l) as [l'|] eqn:Hlook.
  - specialize (IH memo h Hlive Hmemo).
    pose proof (deepcopy_from_prefix ls memo h) as Hpre.
    destruct (deepcopy_from memo h ls) as [h' copies]. simpl in *.
    constructor; [|done].
    unfold memo_lookup in Hlook.
    destruct (List.find _ memo) as [[a b]|] eqn:Hfind; [|done].
    simpl in Hlook. injection Hlook as ->.
    apply find_some in Hfind as [Hin Hab]. apply bool_decide_eq_true in Hab.
    simpl in Hab. subst a.
    rewrite Forall_forall in Hmemo. apply list_elem_of_In in Hin.
    destruct (Hmemo _ Hin) as (_ & Hb & Hv). simpl in *.
    split.
    + apply prefix_length in Hpre. lia.
    + by rewrite (lookup_total_prefix h h' l').
  - assert (Hext : h `prefix_of` h ++ [h !!! l]) by (by apply prefix_app_r).
    assert (Hlen : length (h ++ [h !!! l]) = S (length h)).
    { rewrite length_app. simpl. lia. }
    specialize (IH ((l, length h) :: memo) (h ++ [h !!! l])).
    pose proof (deepcopy_from_prefix ls ((l, length h) :: memo) (h ++ [h !!! l])) as Hpre.
    destruct (deepcopy_from _ (h ++ [h !!! l]) ls) as [h' copies]. simpl in *.
    constructor.
    + split; [apply prefix_length in Hpre; lia|].
      rewrite (lookup_total_prefix (h ++ [h !!! l]) h' (length h)); [|done|lia].
      by rewrite list_lookup_total_middle.
    + assert (HIH : Forall2 (λ x c, (c < length h')%nat ∧ h' !!! c = (h ++ [h !!! l]) !!! x)
                      ls copies).
      { apply IH.
        * eapply Forall_impl; [exact Hlive|]. simpl. intros. lia.
        * constructor.
          -- simpl. rewrite Hlen. split; [lia|]. split; [lia|].
             rewrite list_lookup_total_middle by done.
             by rewrite (lookup_total_app_l h).
          -- eapply Forall_impl; [exact Hmemo|]. simpl. intros [a b] (Ha & Hb & Hv).
             simpl in *. rewrite Hlen. split; [lia|]. split; [lia|].
             by rewrite !(lookup_total_app_l h). }
      apply Forall2_same_length_lookup. split; [by eapply Forall2_length|].
      intros i x c Hx Hc. destruct (Forall2_lookup_lr _ _ _ _ _ _ HIH Hx Hc) as [Hlt Hv].
      split; [done|]. rewrite Hv. apply lookup_total_app_l.
      rewrite Forall_forall in Hlive. apply Hlive. by eapply list_elem_of_lookup_2.
Qed.

#[global] Instance extends_preorder : PreOrder extends.
Proof.
  split.
  - by intros s.
  - intros s1 s2 s3 (E1 & L1 & I1 & C1 & A1) (E2 & L2 & I2 & C2 & A2).
    split; [congruence|]. repeat split; by etransitivity.
Qed.

Lemma extends_heap_ok (s s' : State) : extends s s' → heap_ok s → heap_ok s'.
Proof.
  intros (E & L & I & C & A) (H1 & H2 & H3 & H4). unfold heap_ok, refs_ok. rewrite E.
  apply prefix_length in L, I, C, A.
  repeat split; (eapply Forall_impl; [eassumption|]); simpl; intros; lia.
Qed.

Lemma extends_img (s s' : State) (l : loc) :
  extends s s' → (l < length (h_images (heap s)))%nat → img s' l = img s l.
Proof. intros (_ & _ & I & _) Hl. by apply lookup_total_prefix. Qed.

Lemma extends_ann (s s' : State) (l : loc) :
  extends s s' → (l < length (h_annotations (heap s)))%nat → ann s' l = ann s l.
Proof. intros (_ & _ & _ & _ & A) Hl. by apply lookup_total_prefix. Qed.

Lemma extends_lic (s s' : State) (l : loc) :
  extends s s' → (l < length (h_licenses (heap s)))%nat → lic s' l = lic s l.
Proof. intros (_ & L & _) Hl. by apply lookup_total_prefix. Qed.

Lemma extends_license_ids (s s' : State) :
  extends s s' → heap_ok s → license_ids s' = license_ids s.
Proof.
  intros He (H1 & _). unfold license_ids. destruct He as (E & L & _). rewrite E.
  apply list_fmap_ext. intros i l Hl. simpl. f_equal.
  apply lookup_total_prefix; [done|]. unfold refs_ok in H1. rewrite Forall_forall in H1.
  apply H1. by eapply list_elem_of_lookup_2.
Qed.

Lemma deepcopy_licenses_extends (ls : list loc) (s : State) :
  ∃ copies s', deepcopy_licenses ls s = (Ok copies, s') ∧ extends s s'.
Proof.
  unfold deepcopy_licenses.
  pose proof (deepcopy_from_prefix ls [] (h_licenses (heap s))) as Hp.
  destruct (deepcopy_from [] (h_licenses (heap s)) ls) as [h' copies].
  eexists _, _. split; [reflexivity|]. by repeat split.
Qed.

Lemma deepcopy_categories_extends (ls : list loc) (s : State) :
  ∃ copies s', deepcopy_categories ls s = (Ok copies, s') ∧ extends s s'.
Proof.
  unfold deepcopy_categories.
  pose proof (deepcopy_from_prefix ls [] (h_categories (heap s))) as Hp.
  destruct (deepcopy_from [] (h_categories (heap s)) ls) as [h' copies].
  eexists _, _. split; [reflexivity|]. by repeat split.
Qed.

Lemma deepcopy_images_spec (ls : list loc) (s : State) :
  Forall (λ l, (l < length (h_images (heap s)))%nat) ls →
  ∃ copies s', deepcopy_images ls s = (Ok copies, s') ∧ extends s s'
    ∧ Forall2 (λ l c, (c < length (h_images (heap s')))%nat ∧ img s' c = img s l) ls copies.
Proof.
  intros Hlive. unfold deepcopy_images.
  pose proof (deepcopy_from_prefix ls [] (h_images (heap s))) as Hp.
  pose proof (deepcopy_from_values ls [] (h_images (heap s)) Hlive (Forall_nil_2 _)) as Hv.
  destruct (deepcopy_from [] (h_images (heap s)) ls) as [h' copies].
  eexists _, _. split; [reflexivity|]. split; [by repeat split|]. exact Hv.
Qed.

Lemma deepcopy_annotations_spec (ls : list loc) (s : State) :
  Forall (λ l, (l < length (h_annotations (heap s)))%nat) ls →
  ∃ copies s', deepcopy_annotations ls s = (Ok copies, s') ∧ extends s s'
    ∧ Forall2 (λ l c, (c < length (h_annotations (heap s')))%nat ∧ ann s' c = ann s l)
        ls copies.
Proof.
  intros Hlive. unfold deepcopy_annotations.
  pose proof (deepcopy_from_prefix ls [] (h_annotations (heap s))) as Hp.
  pose proof (deepcopy_from_values ls [] (h_annotations (heap s)) Hlive (Forall_nil_2 _)) as Hv.
  destruct (deepcopy_from [] (h_annotations (heap s)) ls) as [h' copies].
  eexists _, _. split; [reflexivity|]. split; [by repeat split|]. exact Hv.
Qed.

Lemma rmap_Ok {A B} (f : A → result B) (xs : list A) :
  (∀ x, x ∈ xs → ∃ y, f x = Ok y) →
  ∃ ys, rmap f xs = Ok ys ∧ Forall2 (λ x y, f x = Ok y) xs ys.
Proof.
  induction xs as [|x xs IH]; intros H; simpl.
  - by exists [].
  - destruct (H x) as [y Hy]; [left|]. destruct IH as (ys & Hys & HF).
    { intros z Hz. apply H. by right. }
    exists (y :: ys). rewrite Hy, Hys. simpl. split; [done|]. by constructor.
Qed.

Lemma rfilter_Ok {A} (p : A → result bool) (xs : list A) :
  (∀ x, x ∈ xs → ∃ b, p x = Ok b) → ∃ ys, rfilter p xs = Ok ys.
Proof.
  induction xs as [|x xs IH]; intros H; simpl.
  - by exists [].
  - destruct (H x) as [b Hb]; [left|]. destruct IH as (ys & Hys).
    { intros z Hz. apply H. by right. }
    rewrite Hb, Hys. simpl. eauto.
Qed.

Lemma all_as_image_values (ls : list loc) : all_as as_Image (image_values ls) = Some ls.
Proof.
  unfold all_as, image_values. apply mapM_Some, Forall2_fmap_l, Forall_Forall2_diag.
  by apply Forall_true.
Qed.

Lemma get_annotations_of_images (s : State) (sub : list loc) :
  get_annotations s (VList (image_values sub))
  = Ok (List.filter
          (λ a, int_in (Ann.image_id (ann s a)) ((λ l, Image.id (img s l)) <$> sub))
          (annotations (self s))).
Proof. unfold get_annotations. by rewrite all_as_image_values. Qed.

Lemma get_categories_of_images_Ok (s : State) (sub : list loc) :
  ∃ cs, get_categories s (VList (image_values sub)) = Ok cs.
Proof.
  unfold get_categories. destruct (categories_present s) as [cs|]; [|by eexists].
  rewrite all_as_image_values. unfold categories_of. apply rfilter_Ok.
  intros c _. rewrite get_annotations_of_images. simpl. eauto.
Qed.

Lemma rmap_Ok_all {A B} (f : A → result B) (Q : B → Prop) (xs : list A) :
  (∀ x, x ∈ xs → ∃ y, f x = Ok y ∧ Q y) → ∃ ys, rmap f xs = Ok ys ∧ Forall Q ys.
Proof.
  induction xs as [|x xs IH]; intros H; simpl.
  - by exists [].
  - destruct (H x) as (y & Hy & HQ); [left|]. destruct IH as (ys & Hys & HF).
    { intros z Hz. apply H. by right. }
    exists (y :: ys). rewrite Hy, Hys. simpl. split; [done|]. by constructor.
Qed.



Section SplitProperties.
Variable set_iter : list Z → list Z.
Variable shuffle : Z → list loc → list loc.

(** The iteration of a set yields elements of the set, and a shuffle is a
    permutation. *)
Hypothesis set_iter_sound : ∀ xs x, x ∈ set_iter xs → x ∈ xs.
Hypothesis shuffle_permutes : ∀ seed ls, shuffle seed ls ≡ₚ ls.


Lemma st_bind_Ok {A B} (m : M A) (k : A → M B) (s s' : State) (a : A) :
  m s = (Ok a, s') → st_bind m k s = k a s'.
Proof. intros H. unfold st_bind. by rewrite H. Qed.

Lemma Forall2_fmap_eq {A B C} (f : A → C) (g : B → C) (xs : list A) (ys : list B) :
  Forall2 (λ x y, g y = f x) xs ys → g <$> ys = f <$> xs.
Proof. induction 1 as [|x y xs ys H _ IH]; csimpl; [done|]. by rewrite H, IH. Qed.


Lemma fmap_filter_values {A B} (f : A → B) (p : B → bool) (xs : list A) :
  f <$> List.filter (λ x, p (f x)) xs = List.filter p (f <$> xs).
Proof.
  induction xs as [|x xs IH]; simpl; [done|].
  destruct (p (f x)); csimpl; by rewrite IH.
Qed.




End SplitProperties.

Lemma ten_images_dataset_ready :
  heap_ok ten_images_dataset
  ∧ length (images (self ten_images_dataset)) = 10%nat
  ∧ NoDup (image_ids ten_images_dataset)
  ∧ (∀ l, l ∈ images (self ten_images_dataset) →
       Image.license (img ten_images_dataset l) ∈ license_ids ten_images_dataset).
Proof.
  split; [unfold heap_ok, refs_ok; simpl; repeat split; repeat constructor|].
  split; [reflexivity|]. split; [decide_closed|].
  apply Forall_forall. decide_closed.
Qed.



(* ================================================================== *)
(** * Further properties *)

(** ** The structure check and the record constructors *)

Lemma filter_nil_iff {A} (p : A → bool) (l : list A) :
  List.filter p l = [] ↔ ∀ x, x ∈ l → p x = false.
Proof.
  induction l as [|a l IH]; simpl.
  - split; [intros _ x Hx; inversion Hx | done].
  - destruct (p a) eqn:Hp.
    + split; [done|]. intros H. specialize (H a (list_elem_of_here _ _)). congruence.
    + rewrite IH. split.
      * intros H x [->|Hx]%elem_of_cons; auto.
      * intros H x Hx. apply H. by right.
Qed.

Lemma str_in_iff (x : string) (xs : list string) : str_in x xs = true ↔ x ∈ xs.
Proof. unfold str_in. apply bool_decide_eq_true. Qed.

Lemma compare_dict_structure_cases (d : dict) (fields : list string)
    (ignore_extra_keys : bool) :
  (compare_dict_structure (VDict d) fields ignore_extra_keys = Ok d
   ↔ (∀ f, f ∈ fields → f ∈ keys d)
     ∧ (ignore_extra_keys = true ∨ ∀ k, k ∈ keys d → k ∈ fields))
  ∧ (compare_dict_structure (VDict d) fields ignore_extra_keys = Ok d
     ∨ compare_dict_structure (VDict d) fields ignore_extra_keys = Raise ValueError).
Proof.
  unfold compare_dict_structure.
  destruct (List.filter (λ f, negb (str_in f (keys d))) fields) as [|m ms] eqn:Hmiss.
  - assert (Hall : ∀ f, f ∈ fields → f ∈ keys d).
    { intros f Hf. apply str_in_iff.
      pose proof (proj1 (filter_nil_iff _ _) Hmiss f Hf) as H. simpl in H. by destruct (str_in f (keys d)). }
    destruct (List.filter (λ k, negb (str_in k fields)) (keys d)) as [|e es] eqn:Hextra.
    + split; [|by left]. split; [|done]. intros _. split; [done|]. right.
      intros k Hk. apply str_in_iff.
      pose proof (proj1 (filter_nil_iff _ _) Hextra k Hk) as H. simpl in H. by destruct (str_in k fields).
    + destruct ignore_extra_keys; simpl.
      * split; [|by left]. split; [|done]. intros _. split; [done | by left].
      * split; [|by right]. split; [done|]. intros [_ [?|Hno]]; [done|]. exfalso.
        assert (He : e ∈ List.filter (λ k, negb (str_in k fields)) (keys d))
          by (rewrite Hextra; left).
        apply list_elem_of_In, filter_In in He as [He Hp]. apply list_elem_of_In in He.
        apply Hno, str_in_iff in He. by rewrite He in Hp.
  - split; [|by right]. split; [done|]. intros [Hall _]. exfalso.
    assert (Hm : m ∈ List.filter (λ f, negb (str_in f (keys d))) fields)
      by (rewrite Hmiss; left).
    apply list_elem_of_In, filter_In in Hm as [Hm Hp]. apply list_elem_of_In in Hm.
    apply Hall, str_in_iff in Hm. by rewrite Hm in Hp.
Qed.

(** X1.  [compare_dict_structure] accepts a dictionary exactly when it has
    every field of the class and, unless extra keys are ignored, no other
    key; it raises [ValueError] otherwise, a missing field also when extra
    keys are ignored. *)
Theorem compare_dict_structure_accepts (d : dict) (fields : list string)
    (ignore_extra_keys : bool) :
  (compare_dict_structure (VDict d) fields ignore_extra_keys = Ok d
   ↔ (∀ f, f ∈ fields → f ∈ keys d)
     ∧ (ignore_extra_keys = true ∨ ∀ k, k ∈ keys d → k ∈ fields))
  ∧ (compare_dict_structure (VDict d) fields ignore_extra_keys = Ok d
     ∨ compare_dict_structure (VDict d) fields ignore_extra_keys = Raise ValueError).
Proof. apply compare_dict_structure_cases. Qed.

Lemma rmap_as_int (xs : list Z) : rmap as_int (VInt <$> xs) = Ok xs.
Proof. induction xs as [|x xs IH]; [done|]. csimpl. by rewrite IH. Qed.

Lemma rmap_as_str (xs : list string) : rmap as_str (VStr <$> xs) = Ok xs.
Proof. induction xs as [|x xs IH]; [done|]. csimpl. by rewrite IH. Qed.

Lemma rmap_as_ints (ps : list (list Z)) : rmap (as_list as_int) (ints <$> ps) = Ok ps.
Proof.
  induction ps as [|p ps IH]; [done|]. csimpl. rewrite IH.
  unfold ints, as_list. by rewrite rmap_as_int.
Qed.

Lemma RLE_from_dict_asdict (r : RLE) (ignore_index : bool) :
  RLE_from_dict (RLE_asdict r) ignore_index = Ok r.
Proof.
  destruct r as [cs sz]. unfold RLE_from_dict, RLE_asdict, ints_field, ints. simpl.
  by rewrite !rmap_as_int.
Qed.

Lemma rmap_RLE_from_dict (ms : list RLE) (ignore_index : bool) :
  rmap (λ mask, RLE_from_dict mask ignore_index) (RLE_asdict <$> ms) = Ok ms.
Proof.
  induction ms as [|m ms IH]; [done|]. csimpl. by rewrite RLE_from_dict_asdict, IH.
Qed.

Lemma segmentation_field_asdict (d : dict) (s : Segmentation) (ignore_index : bool) :
  item d "segmentation" = Ok (Segmentation_asdict s) →
  segmentation_field d ignore_index = Ok s.
Proof.
  intros Hitem. unfold segmentation_field. rewrite Hitem.
  destruct s as [ps|rle]; cbn [Segmentation_asdict rbind].
  - unfold as_list at 1. by rewrite rmap_as_ints.
  - unfold RLE_asdict at 1. cbn [rbind]. change (VDict _) with (RLE_asdict rle).
    by rewrite RLE_from_dict_asdict.
Qed.

Lemma Info_from_dict_asdict (x : Info.t) (ignore_extra_keys : bool) :
  Info_from_dict (Info_asdict x) ignore_extra_keys = Ok x.
Proof. by destruct x. Qed.

Lemma License_from_dict_asdict (x : License.t) (ignore_extra_keys : bool) :
  License_from_dict (License_asdict x) ignore_extra_keys = Ok x.
Proof. by destruct x. Qed.

Lemma Image_from_dict_asdict (x : Image.t) (ignore_extra_keys : bool) :
  Image_from_dict (Image_asdict x) ignore_extra_keys = Ok x.
Proof. by destruct x. Qed.

Lemma SegmentInfo_from_dict_asdict (x : SegmentInfo.t) (ignore_index : bool) :
  SegmentInfo_from_dict (SegmentInfo_asdict x) ignore_index = Ok x.
Proof.
  destruct x as [i c a bb cr]. unfold SegmentInfo_from_dict, SegmentInfo_asdict, ints_field, ints.
  simpl. by rewrite rmap_as_int.
Qed.

Lemma ObjectDetectionCategory_from_dict_asdict (i : Z) (n s : string) (ignore_extra_keys : bool) :
  ObjectDetectionCategory_from_dict (Category_asdict (ObjectDetectionCategory i n s))
    ignore_extra_keys
  = Ok (ObjectDetectionCategory i n s).
Proof. done. Qed.

Lemma KeypointDetectionCategory_from_dict_asdict (i : Z) (n s : string) (k : list string)
    (sk : list Z) (ignore_extra_keys : bool) :
  KeypointDetectionCategory_from_dict (Category_asdict (KeypointDetectionCategory i n s k sk))
    ignore_extra_keys
  = Ok (KeypointDetectionCategory i n s k sk).
Proof.
  unfold KeypointDetectionCategory_from_dict, strs_field, ints_field, ints, strs. simpl.
  by rewrite rmap_as_str, rmap_as_int.
Qed.

Lemma PanopticSegmentationCategory_from_dict_asdict (i : Z) (n s : string) (t : Z)
    (co : list string) (ignore_extra_keys : bool) :
  PanopticSegmentationCategory_from_dict
    (Category_asdict (PanopticSegmentationCategory i n s t co)) ignore_extra_keys
  = Ok (PanopticSegmentationCategory i n s t co).
Proof.
  unfold PanopticSegmentationCategory_from_dict, strs_field, strs. simpl.
  by rewrite rmap_as_str.
Qed.

(** X2.  Each record class is rebuilt by its [from_dict] from the
    dictionary [asdict] makes of it, whether extra keys are ignored or
    not. *)
Theorem record_from_dict_asdict (ignore_extra_keys : bool) :
  (∀ x, Info_from_dict (Info_asdict x) ignore_extra_keys = Ok x)
  ∧ (∀ x, License_from_dict (License_asdict x) ignore_extra_keys = Ok x)
  ∧ (∀ x, Image_from_dict (Image_asdict x) ignore_extra_keys = Ok x)
  ∧ (∀ x, RLE_from_dict (RLE_asdict x) ignore_extra_keys = Ok x)
  ∧ (∀ x, SegmentInfo_from_dict (SegmentInfo_asdict x) ignore_extra_keys = Ok x)
  ∧ (∀ i n s,
       ObjectDetectionCategory_from_dict
         (Category_asdict (ObjectDetectionCategory i n s)) ignore_extra_keys
       = Ok (ObjectDetectionCategory i n s))
  ∧ (∀ i n s k sk,
       KeypointDetectionCategory_from_dict
         (Category_asdict (KeypointDetectionCategory i n s k sk)) ignore_extra_keys
       = Ok (KeypointDetectionCategory i n s k sk))
  ∧ (∀ i n s t co,
       PanopticSegmentationCategory_from_dict
         (Category_asdict (PanopticSegmentationCategory i n s t co)) ignore_extra_keys
       = Ok (PanopticSegmentationCategory i n s t co)).
Proof.
  repeat apply conj; intros.
  - apply Info_from_dict_asdict.
  - apply License_from_dict_asdict.
  - apply Image_from_dict_asdict.
  - apply RLE_from_dict_asdict.
  - apply SegmentInfo_from_dict_asdict.
  - apply ObjectDetectionCategory_from_dict_asdict.
  - apply KeypointDetectionCategory_from_dict_asdict.
  - apply PanopticSegmentationCategory_from_dict_asdict.
Qed.

(** ** The dispatchers on the dictionaries of [asdict] *)

Lemma dispatchers_asdict_cases :
  (∀ a, dict_to_annotation (Annotation_asdict a) true
        = match a with
          | StuffSegmentationAnnotation i im c s ar bb cr
          | KeypointDetectionAnnotation i im c s ar bb cr _ _ =>
              Ok (ObjectDetectionAnnotation i im c s ar bb cr)
          | PanopticSegmentationAnnotation _ _ _ => Raise AttributeError
          | _ => Ok a
          end)
  ∧ (∀ c ignore_extra_keys,
       dict_to_category (Category_asdict c) ignore_extra_keys
       = if is_ObjectDetectionCategory c then Ok c
         else Raise (if ignore_extra_keys then TypeError else ValueError)).
Proof.
  split.
  - intros [i im c s ar bb cr|i im c s ar bb cr k n|i im c s ar bb cr|im f segs|i im c
           |i im c cr ar bb dI dU dV dx dy m].
    + unfold dict_to_annotation, Annotation_asdict. cbn [the_dict rbind].
      change (issubset (DICT_TO_ANNOTATION_MAP "object_detection") _) with true. cbn match.
      unfold ObjectDetectionAnnotation_from_dict.
      change (compare_dict_structure _ _ _) with
        (Ok [("id", VInt i); ("image_id", VInt im); ("category_id", VInt c);
             ("segmentation", Segmentation_asdict s); ("area", VInt ar);
             ("bbox", ints bb); ("iscrowd", VInt cr)]).
      cbn [rbind]. rewrite (segmentation_field_asdict _ s) by reflexivity.
      unfold ints_field, ints. simpl. by rewrite rmap_as_int.
    + unfold dict_to_annotation, Annotation_asdict. cbn [the_dict rbind].
      change (issubset (DICT_TO_ANNOTATION_MAP "object_detection") _) with true. cbn match.
      unfold ObjectDetectionAnnotation_from_dict.
      change (compare_dict_structure _ _ _) with
        (Ok [("id", VInt i); ("image_id", VInt im); ("category_id", VInt c);
             ("segmentation", Segmentation_asdict s); ("area", VInt ar);
             ("bbox", ints bb); ("iscrowd", VInt cr); ("keypoints", ints k);
             ("num_keypoints", VInt n)]).
      cbn [rbind]. rewrite (segmentation_field_asdict _ s) by reflexivity.
      unfold ints_field, ints. simpl. by rewrite rmap_as_int.
    + unfold dict_to_annotation, Annotation_asdict. cbn [the_dict rbind].
      change (issubset (DICT_TO_ANNOTATION_MAP "object_detection") _) with true. cbn match.
      unfold ObjectDetectionAnnotation_from_dict.
      change (compare_dict_structure _ _ _) with
        (Ok [("id", VInt i); ("image_id", VInt im); ("category_id", VInt c);
             ("segmentation", Segmentation_asdict s); ("area", VInt ar);
             ("bbox", ints bb); ("iscrowd", VInt cr)]).
      cbn [rbind]. rewrite (segmentation_field_asdict _ s) by reflexivity.
      unfold ints_field, ints. simpl. by rewrite rmap_as_int.
    + reflexivity.
    + reflexivity.
    + unfold dict_to_annotation, Annotation_asdict. cbn [the_dict rbind].
      unfold DensePoseAnnotation_from_dict, ints_field, ints. simpl.
      rewrite rmap_RLE_from_dict. simpl. by rewrite !rmap_as_int.
  - by intros [] [].
Qed.




(** ** Loading the dictionary of a dataset *)

Lemma rmap_fmap_Ok {A B C} (f : B → result C) (g : A → B) (k : A → C) (ls : list A) :
  (∀ x, x ∈ ls → f (g x) = Ok (k x)) → rmap f (g <$> ls) = Ok (k <$> ls).
Proof.
  induction ls as [|a ls IH]; intros H; [done|]. csimpl.
  rewrite (H a) by left. cbn [rbind]. rewrite IH; [done|]. intros x Hx. apply H. by right.
Qed.

Lemma lookup_new_objects {A} `{Inhabited A} (h xs : list A) :
  (λ l, (h ++ xs) !!! l) <$> seq (length h) (length xs) = xs.
Proof.
  apply list_eq. intros i. rewrite list_lookup_fmap.
  destruct (decide (i < length xs)%nat) as [Hi|Hi].
  - rewrite lookup_seq_lt by done. simpl.
    rewrite lookup_total_app_r by lia.
    replace (length h + i - length h)%nat with i by lia.
    destruct (lookup_lt_is_Some_2 xs i Hi) as [x Hx]. rewrite Hx. f_equal.
    by apply list_lookup_total_correct.
  - rewrite lookup_seq_ge by lia. simpl. symmetry. apply lookup_ge_None. lia.
Qed.

(** X5.  [COCO.from_dict] rebuilds a dataset from the dictionary [asdict]
    makes of it (the dictionary [to_dict] was meant to return, before the
    entries that are [None] are dropped): when the dataset has a list of
    categories, all of the object-detection class, and its annotations are
    of the classes the dispatcher builds again, the dataset that is loaded
    has the same info and, in the same order, records with the same field
    values. *)
Theorem from_dict_asdict (st : State) (ignore_extra_keys : bool) (h : Heap) :
  is_Some (categories (self st)) →
  (∀ c, c ∈ default [] (categories (self st)) → is_ObjectDetectionCategory (cat st c) = true) →
  (∀ a, a ∈ annotations (self st) → survives_asdict (ann st a) = true) →
  ∃ st', from_dict (VDict (asdict st)) ignore_extra_keys h = Ok st'
         ∧ contents st' = contents st.
Proof.
  intros [cs Hcs] Hcat Hann. rewrite Hcs in Hcat. simpl in Hcat.
  unfold from_dict, asdict. rewrite Hcs.
  change (compare_dict_structure _ _ _) with
    (Ok [("info", Info_asdict (info (self st)));
         ("licenses", VList ((λ l, License_asdict (lic st l)) <$> licenses (self st)));
         ("categories", VList ((λ l, Category_asdict (cat st l)) <$> cs));
         ("images", VList ((λ l, Image_asdict (img st l)) <$> images (self st)));
         ("annotations",
          VList ((λ l, Annotation_asdict (ann st l)) <$> annotations (self st)))]).
  cbn [rbind].
  change (item _ "info") with (Ok (Info_asdict (info (self st)))).
  change (item _ "licenses")
    with (Ok (VList ((λ l, License_asdict (lic st l)) <$> licenses (self st)))).
  change (item _ "images")
    with (Ok (VList ((λ l, Image_asdict (img st l)) <$> images (self st)))).
  change (item _ "annotations")
    with (Ok (VList ((λ l, Annotation_asdict (ann st l)) <$> annotations (self st)))).
  change (item _ "categories")
    with (Ok (VList ((λ l, Category_asdict (cat st l)) <$> cs))).
  change (str_in "categories" _) with true.
  cbn [rbind iterate]. rewrite Info_from_dict_asdict. cbn [rbind].
  rewrite (rmap_fmap_Ok _ _ (lic st)) by (intros; apply License_from_dict_asdict). cbn [rbind].
  rewrite (rmap_fmap_Ok _ _ (img st)) by (intros; apply Image_from_dict_asdict). cbn [rbind].
  rewrite (rmap_fmap_Ok _ _ (ann st)).
  2:{ intros a Ha. specialize (Hann a Ha).
      rewrite (proj1 dispatchers_asdict_cases). by destruct (ann st a). }
  cbn [rbind].
  rewrite (rmap_fmap_Ok _ _ (cat st)).
  2:{ intros c Hc. specialize (Hcat c Hc). rewrite (proj2 dispatchers_asdict_cases). by rewrite Hcat. }
  cbn [rbind]. unfold new_objects. eexists. split; [reflexivity|].
  unfold contents, lic, img, cat, ann. cbn [self heap info licenses categories images
    annotations h_licenses h_images h_categories h_annotations].
  rewrite !length_fmap. cbn [fmap option_fmap option_map].
  change (λ l, h_licenses (heap st) !!! l) with (lic st).
  change (λ l, h_images (heap st) !!! l) with (img st).
  change (λ l, h_categories (heap st) !!! l) with (cat st).
  change (λ l, h_annotations (heap st) !!! l) with (ann st).
  rewrite <- (length_fmap (lic st) (licenses (self st))) at 1.
  rewrite <- (length_fmap (img st) (images (self st))) at 1.
  rewrite <- (length_fmap (cat st) cs) at 1.
  rewrite <- (length_fmap (ann st) (annotations (self st))) at 1.
  by rewrite !lookup_new_objects, Hcs.
Qed.

Lemma from_dict_asdict_witness :
  is_Some (categories (self small_dataset))
  ∧ (∀ c, c ∈ default [] (categories (self small_dataset)) →
       is_ObjectDetectionCategory (cat small_dataset c) = true)
  ∧ (∀ a, a ∈ annotations (self small_dataset) →
       survives_asdict (ann small_dataset a) = true)
  ∧ ∃ st', from_dict (VDict (asdict small_dataset)) true (heap small_dataset) = Ok st'
           ∧ contents st' = contents small_dataset.
Proof.
  assert (H1 : is_Some (categories (self small_dataset))) by (simpl; eauto).
  assert (H2 : ∀ c, c ∈ default [] (categories (self small_dataset)) →
                    is_ObjectDetectionCategory (cat small_dataset c) = true)
    by (apply Forall_forall; decide_closed).
  assert (H3 : ∀ a, a ∈ annotations (self small_dataset) →
                    survives_asdict (ann small_dataset a) = true)
    by (apply Forall_forall; decide_closed).
  split; [exact H1|]. split; [exact H2|]. split; [exact H3|].
  exact (from_dict_asdict small_dataset true (heap small_dataset) H1 H2 H3).
Defined.

(** ** Lookups through a reference *)

Lemma py_next_none {A} (p : A → bool) (xs : list A) :
  (∀ x, x ∈ xs → p x = false) → py_next p xs = Raise StopIteration.
Proof.
  intros H. unfold py_next. destruct (List.find p xs) as [y|] eqn:Hf; [|done].
  apply find_some in Hf as [Hy Hp]. apply list_elem_of_In in Hy.
  rewrite (H y Hy) in Hp. discriminate.
Qed.

Lemma found_next {A} (p : A → bool) (xs : list A) :
  (∃ x, x ∈ xs ∧ p x = true) →
  ∃ x, found (py_next p xs) = Ok (Some x) ∧ x ∈ xs ∧ p x = true.
Proof.
  intros H. destruct (py_next_found p xs H) as (x & Hx & Hin & Hp).
  exists x. unfold found. by rewrite Hx.
Qed.

Lemma get_license_of_image (st : State) (x : loc) :
  (py_in (img st) x (images (self st)) = false →
   get_license st (VObj (RImage x)) = Ok None)
  ∧ (py_in (img st) x (images (self st)) = true →
     Image.license (img st x) ∉ license_ids st →
     get_license st (VObj (RImage x)) = Raise StopIteration)
  ∧ (py_in (img st) x (images (self st)) = true →
     Image.license (img st x) ∈ license_ids st →
     ∃ l, get_license st (VObj (RImage x)) = Ok (Some l)
          ∧ l ∈ licenses (self st)
          ∧ License.id (lic st l) = Image.license (img st x)).
Proof.
  unfold get_license. repeat apply conj; intros Hin; rewrite Hin; simpl; [done| |].
  - intros Hout. rewrite py_next_none; [done|].
    intros l Hl. apply bool_decide_eq_false. intros Hid. apply Hout.
    apply list_elem_of_fmap. eauto.
  - intros (l & Hid & Hl)%list_elem_of_fmap.
    destruct (found_next (λ l, bool_decide (License.id (lic st l) = Image.license (img st x)))
                (licenses (self st))) as (l' & -> & Hl' & Hp).
    { exists l. by rewrite bool_decide_eq_true. }
    exists l'. by apply bool_decide_eq_true in Hp.
Qed.

Lemma get_image_of_annotation (st : State) (x : loc) :
  (py_in (ann st) x (annotations (self st)) = false →
   get_image st (VObj (RAnnotation x)) = Ok None)
  ∧ (py_in (ann st) x (annotations (self st)) = true →
     Ann.image_id (ann st x) ∉ image_ids st →
     get_image st (VObj (RAnnotation x)) = Raise StopIteration)
  ∧ (py_in (ann st) x (annotations (self st)) = true →
     Ann.image_id (ann st x) ∈ image_ids st →
     ∃ l, get_image st (VObj (RAnnotation x)) = Ok (Some l)
          ∧ l ∈ images (self st)
          ∧ Image.id (img st l) = Ann.image_id (ann st x)).
Proof.
  unfold get_image. repeat apply conj; intros Hin; rewrite Hin; simpl; [done| |].
  - intros Hout. rewrite py_next_none; [done|].
    intros l Hl. apply bool_decide_eq_false. intros Hid. apply Hout.
    apply list_elem_of_fmap. eauto.
  - intros (l & Hid & Hl)%list_elem_of_fmap.
    destruct (found_next (λ l, bool_decide (Image.id (img st l) = Ann.image_id (ann st x)))
                (images (self st))) as (l' & -> & Hl' & Hp).
    { exists l. by rewrite bool_decide_eq_true. }
    exists l'. by apply bool_decide_eq_true in Hp.
Qed.

Lemma get_category_of_annotation (st : State) (x : loc) (cs : list loc) :
  categories_present st = Some cs →
  (is_Categorized (ann st x) || is_Panoptic (ann st x) = false →
   get_category st (VObj (RAnnotation x)) = Raise TypeError)
  ∧ (is_Categorized (ann st x) || is_Panoptic (ann st x) = true →
     py_in (ann st) x (annotations (self st)) = false →
     get_category st (VObj (RAnnotation x)) = Ok None)
  ∧ (is_Categorized (ann st x) || is_Panoptic (ann st x) = true →
     py_in (ann st) x (annotations (self st)) = true →
     (∀ i, i ∈ annotation_category_ids (ann st x) → i ∉ category_ids st) →
     get_category st (VObj (RAnnotation x)) = Raise StopIteration)
  ∧ (is_Categorized (ann st x) || is_Panoptic (ann st x) = true →
     py_in (ann st) x (annotations (self st)) = true →
     (∃ i, i ∈ annotation_category_ids (ann st x) ∧ i ∈ category_ids st) →
     ∃ l, get_category st (VObj (RAnnotation x)) = Ok (Some l)
          ∧ l ∈ cs
          ∧ Cat.id (cat st l) ∈ annotation_category_ids (ann st x)).
Proof.
  intros Hp. unfold get_category, category_ids. rewrite Hp. simpl.
  repeat apply conj; intros Hk; rewrite Hk; [done| | |]; intros Hin; rewrite Hin; simpl;
    [done| |].
  - intros Hout. rewrite py_next_none; [done|].
    intros l Hl. apply bool_decide_eq_false. intros Hid. apply (Hout _ Hid).
    apply list_elem_of_fmap. eauto.
  - intros (i & Hi & (l & -> & Hl)%list_elem_of_fmap).
    destruct (found_next (λ l, int_in (Cat.id (cat st l)) (annotation_category_ids (ann st x)))
                cs) as (l' & -> & Hl' & Hq).
    { exists l. split; [done|]. by apply bool_decide_eq_true. }
    exists l'. by apply bool_decide_eq_true in Hq.
Qed.

(** X6.  A lookup through a reference.  [get_license(image)] returns
    [None] when the image is not in the dataset, raises [StopIteration] when
    it is and no license has the id its [license] field holds, and returns a
    license with that id otherwise; [get_image(annotation)] does the same
    with the annotation's [image_id], and [get_category(annotation)], in a
    dataset that has categories, with the category ids of the annotation
    (it raises [TypeError] for an annotation that has none). *)
Theorem lookup_through_reference (st : State) :
  (∀ x,
     (py_in (img st) x (images (self st)) = false →
      get_license st (VObj (RImage x)) = Ok None)
     ∧ (py_in (img st) x (images (self st)) = true →
        Image.license (img st x) ∉ license_ids st →
        get_license st (VObj (RImage x)) = Raise StopIteration)
     ∧ (py_in (img st) x (images (self st)) = true →
        Image.license (img st x) ∈ license_ids st →
        ∃ l, get_license st (VObj (RImage x)) = Ok (Some l)
             ∧ l ∈ licenses (self st)
             ∧ License.id (lic st l) = Image.license (img st x)))
  ∧ (∀ x,
       (py_in (ann st) x (annotations (self st)) = false →
        get_image st (VObj (RAnnotation x)) = Ok None)
       ∧ (py_in (ann st) x (annotations (self st)) = true →
          Ann.image_id (ann st x) ∉ image_ids st →
          get_image st (VObj (RAnnotation x)) = Raise StopIteration)
       ∧ (py_in (ann st) x (annotations (self st)) = true →
          Ann.image_id (ann st x) ∈ image_ids st →
          ∃ l, get_image st (VObj (RAnnotation x)) = Ok (Some l)
               ∧ l ∈ images (self st)
               ∧ Image.id (img st l) = Ann.image_id (ann st x)))
  ∧ (∀ x cs, categories_present st = Some cs →
       (is_Categorized (ann st x) || is_Panoptic (ann st x) = false →
        get_category st (VObj (RAnnotation x)) = Raise TypeError)
       ∧ (is_Categorized (ann st x) || is_Panoptic (ann st x) = true →
          py_in (ann st) x (annotations (self st)) = false →
          get_category st (VObj (RAnnotation x)) = Ok None)
       ∧ (is_Categorized (ann st x) || is_Panoptic (ann st x) = true →
          py_in (ann st) x (annotations (self st)) = true →
          (∀ i, i ∈ annotation_category_ids (ann st x) → i ∉ category_ids st) →
          get_category st (VObj (RAnnotation x)) = Raise StopIteration)
       ∧ (is_Categorized (ann st x) || is_Panoptic (ann st x) = true →
          py_in (ann st) x (annotations (self st)) = true →
          (∃ i, i ∈ annotation_category_ids (ann st x) ∧ i ∈ category_ids st) →
          ∃ l, get_category st (VObj (RAnnotation x)) = Ok (Some l)
               ∧ l ∈ cs
               ∧ Cat.id (cat st l) ∈ annotation_category_ids (ann st x))).
Proof.
  split; [|split].
  - apply get_license_of_image.
  - apply get_image_of_annotation.
  - apply get_category_of_annotation.
Qed.

(** ** Queries by name in a dataset with dangling references *)

Lemma rfilter_raise {A} (p : A → result bool) (l : list A) (e : exn) :
  (∃ x, x ∈ l ∧ p x = Raise e) →
  (∀ x, x ∈ l → p x = Raise e ∨ ∃ b, p x = Ok b) →
  rfilter p l = Raise e.
Proof.
  induction l as [|a l IH]; intros (x & Hx & Hpx) Hall; [by inversion Hx|]. simpl.
  destruct (Hall a) as [Ha|[b Hb]]; [left | by rewrite Ha |]. rewrite Hb. cbn [rbind].
  apply elem_of_cons in Hx as [->|Hx]; [congruence|].
  rewrite IH; [done | by eauto |]. intros y Hy. apply Hall. by right.
Qed.

Lemma rfilter_pure {A} (p : A → result bool) (q : A → bool) (l : list A) :
  (∀ x, x ∈ l → p x = Ok (q x)) → rfilter p l = Ok (List.filter q l).
Proof.
  induction l as [|a l IH]; intros H; [done|]. simpl.
  rewrite (H a) by left. cbn [rbind]. rewrite IH; [done|]. intros x Hx. apply H. by right.
Qed.

Lemma get_image_by_id (st : State) (i : Z) :
  (i ∉ image_ids st → get_image st (VInt i) = Ok None)
  ∧ (i ∈ image_ids st →
     ∃ l, get_image st (VInt i) = Ok (Some l) ∧ l ∈ images (self st)
          ∧ Image.id (img st l) = i).
Proof.
  split; intros Hi.
  - unfold get_image. by rewrite int_in_false.
  - destruct (get_image_held st i Hi) as (l & ? & ? & ?). eauto.
Qed.

Lemma get_annotations_by_file_name_raises (st : State) (s : string) :
  (∃ a, a ∈ annotations (self st) ∧ Ann.image_id (ann st a) ∉ image_ids st) →
  get_annotations st (VStr s) = Raise AttributeError.
Proof.
  intros (a & Ha & Hout). unfold get_annotations. apply rfilter_raise.
  - exists a. split; [done|].
    by rewrite (proj1 (get_image_by_id st _) Hout).
  - intros x _. destruct (decide (Ann.image_id (ann st x) ∈ image_ids st)) as [Hin|Hno].
    + right. destruct (proj2 (get_image_by_id st _) Hin) as (l & -> & _). simpl. eauto.
    + left. by rewrite (proj1 (get_image_by_id st _) Hno).
Qed.

Lemma get_images_by_license_name_cases (st : State) (s : string) :
  s ∉ license_names st →
  get_images st (VStr s)
  = match images (self st) with [] => Ok [] | _ :: _ => Raise AttributeError end.
Proof.
  intros Hs. unfold get_images.
  destruct (images (self st)) as [|i is_]; [done|].
  apply rfilter_raise.
  - exists i. split; [left|]. unfold get_license. by rewrite str_in_false.
  - intros x _. left. unfold get_license. by rewrite str_in_false.
Qed.

Lemma get_annotations_by_category_id_raises (st : State) (i : Z) (cs : list loc) :
  categories_present st = Some cs →
  annotations_categorized_or_panoptic st = true →
  (∃ a, a ∈ annotations (self st) ∧ is_Categorized (ann st a) = false) →
  get_annotations_by_category st (VInt i) = Raise AttributeError.
Proof.
  intros Hp Hall (a & Ha & Hno). unfold get_annotations_by_category.
  rewrite Hp, Hall. cbn [negb]. apply rfilter_raise.
  - exists a. split; [done|]. unfold is_Categorized in Hno.
    by destruct (Ann.category_id (ann st a)).
  - intros x _. destruct (Ann.category_id (ann st x)); simpl; eauto.
Qed.

(** X7.  Three queries raise [AttributeError] on a dataset with a
    dangling reference, whatever is asked for: [get_annotations(file_name)]
    when some annotation refers to an image the dataset does not have (the
    name is read off the [None] that [get_image] returned);
    [get_images(license_name)] for a name no license has, unless the
    dataset has no image, when it returns the empty list; and, in a dataset
    with categories whose annotations all have categories or segments,
    [get_annotations_by_category(category_id)] when some annotation is
    panoptic (it has no [category_id]). *)
Theorem queries_raise_on_dangling_references (st : State) :
  (∀ s, (∃ a, a ∈ annotations (self st) ∧ Ann.image_id (ann st a) ∉ image_ids st) →
        get_annotations st (VStr s) = Raise AttributeError)
  ∧ (∀ s, s ∉ license_names st →
          get_images st (VStr s)
          = match images (self st) with [] => Ok [] | _ :: _ => Raise AttributeError end)
  ∧ (∀ i cs, categories_present st = Some cs →
             annotations_categorized_or_panoptic st = true →
             (∃ a, a ∈ annotations (self st) ∧ is_Categorized (ann st a) = false) →
             get_annotations_by_category st (VInt i) = Raise AttributeError).
Proof.
  split; [|split].
  - intros s. apply get_annotations_by_file_name_raises.
  - intros s. apply get_images_by_license_name_cases.
  - intros i cs. apply get_annotations_by_category_id_raises.
Qed.

(** ** Appending and extending *)

Lemma id_at_same_heap (c : collection) (st st' : State) (e : loc) :
  heap st' = heap st → id_at c st' e = id_at c st e.
Proof. intros H. destruct c; simpl; unfold lic, cat, img, ann; by rewrite H. Qed.

Lemma committed_ids_snoc (c : collection) (st st' : State) (l : loc) :
  heap st' = heap st → members c st' = members c st ++ [l] →
  committed_ids c st'
  = committed_ids c st ++ match id_at c st l with Some i => [i] | None => [] end.
Proof.
  intros Hh Hm. rewrite !committed_ids_members, Hm, omap_snoc.
  rewrite (id_at_same_heap c st st' l Hh). f_equal.
  apply omap_ext_in. intros e _. by apply id_at_same_heap.
Qed.

Lemma append_step (c : collection) (st : State) (l : loc) :
  (∀ i, id_at c st l = Some i → i ∉ committed_ids c st) →
  ∃ st', append c (object_of c l) st = (Ok tt, st')
         ∧ heap st' = heap st
         ∧ members c st' = members c st ++ [l]
         ∧ ∀ c', c' ≠ c → members c' st' = members c' st.
Proof.
  intros Hfresh. destruct c; simpl in *.
  - unfold append_license, st_bind, read, modify, trim_cached_license_ids. simpl.
    rewrite int_in_false by (by apply Hfresh). eexists. split; [reflexivity|].
    repeat split. by intros [].
  - unfold append_category. unfold st_bind at 1, read at 1. unfold st_bind at 1.
    assert (Hw : ∃ st1, when (negb (bool_decide (is_Some (categories_present st))))
                          (modify (set_categories (Some []))) st = (Ok tt, st1)
                        ∧ heap st1 = heap st
                        ∧ default [] (categories (self st1)) = default [] (categories (self st))
                        ∧ category_ids st1 = category_ids st
                        ∧ licenses (self st1) = licenses (self st)
                        ∧ images (self st1) = images (self st)
                        ∧ annotations (self st1) = annotations (self st)).
    { unfold categories_present, category_ids, categories_present.
      destruct (categories (self st)) as [[|c cs]|] eqn:Hc; simpl;
        eexists; (split; [reflexivity|]); simpl; rewrite ?Hc; done. }
    destruct Hw as (st1 & -> & Hh & Hd & Hids & H1 & H2 & H3).
    unfold st_bind, read, modify, trim_cached_category_ids. simpl.
    unfold cat. rewrite Hh, Hids. fold (cat st l).
    rewrite int_in_false by (by apply Hfresh). eexists. split; [reflexivity|]. simpl.
    rewrite Hd. repeat split; [done|]. by intros [].
  - unfold append_image, st_bind, read, modify, trim_cached_image_ids. simpl.
    rewrite int_in_false by (by apply Hfresh). eexists. split; [reflexivity|].
    repeat split. by intros [].
  - unfold append_annotation, st_bind, read, modify, trim_cached_annotation_ids, st_ret. simpl.
    destruct (Ann.id (ann st l)) as [i|] eqn:Hid.
    + rewrite int_in_false by (by apply Hfresh). eexists. split; [reflexivity|].
      repeat split. by intros [].
    + eexists. split; [reflexivity|]. repeat split. by intros [].
Qed.

Lemma int_in_true (x : Z) (xs : list Z) : x ∈ xs → int_in x xs = true.
Proof. intros. unfold int_in. by apply bool_decide_eq_true. Qed.

Lemma append_clash (c : collection) (st : State) (l : loc) (i : Z) :
  id_at c st l = Some i → i ∈ committed_ids c st →
  append c (object_of c l) st = (Raise ValueError, st).
Proof.
  intros Hid Hin. destruct c; simpl in *.
  - injection Hid as <-. unfold append_license, st_bind, read. simpl. by rewrite int_in_true.
  - injection Hid as <-. unfold append_category, st_bind, read. simpl.
    unfold category_ids in Hin. destruct (categories_present st) as [cs|] eqn:Hp;
      [|by inversion Hin]. simpl.
    unfold category_ids. rewrite Hp. by rewrite int_in_true.
  - injection Hid as <-. unfold append_image, st_bind, read. simpl. by rewrite int_in_true.
  - unfold append_annotation, st_bind, read. simpl. rewrite Hid. by rewrite int_in_true.
Qed.

Lemma find_snoc {A} (p : A → bool) (ls : list A) (l : A) :
  (∀ x, x ∈ ls → p x = false) → p l = true → List.find p (ls ++ [l]) = Some l.
Proof.
  intros Hno Hl. induction ls as [|a ls IH]; simpl; [by rewrite Hl|].
  rewrite (Hno a) by left. apply IH. intros x Hx. apply Hno. by right.
Qed.

Lemma lookup_id_last (c : collection) (st : State) (ls : list loc) (l : loc) (i : Z) :
  members c st = ls ++ [l] → id_at c st l = Some i →
  (∀ e, e ∈ ls → id_at c st e ≠ Some i) →
  lookup_id c st i = Ok (Some l).
Proof.
  intros Hm Hid Hno.
  assert (Hin : i ∈ committed_ids c st).
  { rewrite committed_ids_members. apply list_elem_of_omap. exists l.
    split; [|done]. rewrite Hm. apply elem_of_app. right. left. }
  destruct c; simpl in *.
  - injection Hid as Hid. unfold get_license, py_next. rewrite int_in_true by done. simpl.
    rewrite Hm, (find_snoc _ ls l); [done| |by apply bool_decide_eq_true].
    intros e He. apply bool_decide_eq_false. intros Heq. apply (Hno e He). by rewrite Heq.
  - injection Hid as Hid. unfold get_category, py_next. rewrite int_in_true by done.
    unfold category_ids in Hin. destruct (categories_present st) as [cs|] eqn:Hp;
      [|by inversion Hin].
    pose proof (categories_present_members st cs Hp) as Hc. simpl in Hc.
    rewrite Hc in Hm. subst cs. simpl.
    rewrite (find_snoc _ ls l); [done| |by apply bool_decide_eq_true].
    intros e He. apply bool_decide_eq_false. intros Heq. apply (Hno e He). by rewrite Heq.
  - injection Hid as Hid. unfold get_image, py_next. rewrite int_in_true by done. simpl.
    rewrite Hm, (find_snoc _ ls l); [done| |by apply bool_decide_eq_true].
    intros e He. apply bool_decide_eq_false. intros Heq. apply (Hno e He). by rewrite Heq.
  - unfold get_annotation, py_next. rewrite int_in_true by done.
    rewrite Hm, (find_snoc _ ls l); [done| |by apply bool_decide_eq_true].
    intros e He. apply bool_decide_eq_false. by apply Hno.
Qed.

Lemma append_lookup (c : collection) (st : State) (l : loc) :
  (∀ i, id_at c st l = Some i → i ∉ committed_ids c st) →
  ∃ st', append c (object_of c l) st = (Ok tt, st')
         ∧ heap st' = heap st
         ∧ members c st' = members c st ++ [l]
         ∧ (∀ c', c' ≠ c → members c' st' = members c' st)
         ∧ ∀ i, id_at c st l = Some i → lookup_id c st' i = Ok (Some l).
Proof.
  intros Hfresh. destruct (append_step c st l Hfresh) as (st' & Hrun & Hh & Hm & Hothers).
  exists st'. repeat split; try done. intros i Hid.
  apply (lookup_id_last c st' (members c st) l i Hm).
  - by rewrite (id_at_same_heap c st st' l Hh).
  - intros e He. rewrite (id_at_same_heap c st st' e Hh).
    apply (not_committed_free c i st); [by apply Hfresh | done].
Qed.

(** X8.  Appending and looking up.  A record whose id no record of the
    collection has is appended at the end of the collection, nothing else
    of the dataset changes but the reserved ids, and the lookup by that id
    then returns the record itself.  (An annotation without an id is always
    appended.) *)
Theorem append_then_lookup (c : collection) (st : State) (l : loc) :
  (∀ i, id_at c st l = Some i → i ∉ committed_ids c st) →
  ∃ st', append c (object_of c l) st = (Ok tt, st')
         ∧ heap st' = heap st
         ∧ members c st' = members c st ++ [l]
         ∧ (∀ c', c' ≠ c → members c' st' = members c' st)
         ∧ ∀ i, id_at c st l = Some i → lookup_id c st' i = Ok (Some l).
Proof. apply append_lookup. Qed.

Lemma append_then_lookup_witness :
  (∀ i, id_at Licenses small_dataset 2%nat = Some i → i ∉ committed_ids Licenses small_dataset)
  ∧ ∃ st', append_license (VObj (RLicense 2%nat)) small_dataset = (Ok tt, st')
           ∧ heap st' = heap small_dataset
           ∧ licenses (self st') = [0%nat; 1%nat; 2%nat]
           ∧ get_license st' (VInt 7) = Ok (Some 2%nat).
Proof.
  assert (H : ∀ i, id_at Licenses small_dataset 2%nat = Some i →
                   i ∉ committed_ids Licenses small_dataset)
    by (intros i [= <-]; decide_closed).
  split; [exact H|].
  destruct (append_then_lookup Licenses small_dataset 2%nat H)
    as (st' & Hrun & Hh & Hm & _ & Hget).
  exists st'. split; [exact Hrun|]. split; [exact Hh|]. split; [exact Hm|].
  exact (Hget 7 eq_refl).
Defined.

Lemma for_each_app {A} (xs ys : list A) (body : A → M unit) (st : State) :
  for_each (xs ++ ys) body st
  = match for_each xs body st with
    | (Ok _, s) => for_each ys body s
    | (Raise e, s) => (Raise e, s)
    end.
Proof.
  revert st. induction xs as [|x xs IH]; intros st; simpl; [done|].
  unfold st_bind. destruct (body x st) as [[[]|e] s]; [apply IH | done].
Qed.

Lemma extend_list (c : collection) (vs : list value) :
  extend c (VList vs) = for_each vs (append c).
Proof. by destruct c. Qed.

Lemma for_each_append_fresh (c : collection) (ok : list loc) (st : State) :
  NoDup (omap (id_at c st) ok) →
  (∀ i, i ∈ omap (id_at c st) ok → i ∉ committed_ids c st) →
  ∃ st', for_each (object_of c <$> ok) (append c) st = (Ok tt, st')
         ∧ heap st' = heap st
         ∧ members c st' = members c st ++ ok
         ∧ ∀ c', c' ≠ c → members c' st' = members c' st.
Proof.
  revert st. induction ok as [|l ok IH]; intros st Hnd Hfresh.
  { exists st. simpl. by rewrite app_nil_r. }
  assert (Hl : ∀ i, id_at c st l = Some i → i ∉ committed_ids c st).
  { intros i Hi. apply Hfresh. csimpl. rewrite Hi. left. }
  destruct (append_step c st l Hl) as (s1 & Hrun & Hh & Hm & Hothers).
  assert (Hids : omap (id_at c s1) ok = omap (id_at c st) ok).
  { apply omap_ext_in. intros e _. by apply id_at_same_heap. }
  destruct (IH s1) as (st' & Hloop & Hh' & Hm' & Hothers').
  - rewrite Hids. csimpl in Hnd. destruct (id_at c st l); [by apply NoDup_cons in Hnd as [_ ?] | done].
  - intros i Hi. rewrite Hids in Hi. rewrite (committed_ids_snoc c st s1 l Hh Hm).
    intros [Hin|Hin]%elem_of_app.
    + apply (Hfresh i); [|done]. csimpl. destruct (id_at c st l); [by right | done].
    + csimpl in Hnd. destruct (id_at c st l) as [j|]; [|by inversion Hin].
      apply list_elem_of_singleton in Hin as ->. by apply NoDup_cons in Hnd as [? _].
  - exists st'. csimpl. unfold st_bind at 1. rewrite Hrun. split; [done|].
    split; [congruence|]. split.
    + by rewrite Hm', Hm, <- app_assoc.
    + intros c' Hc. by rewrite Hothers', Hothers.
Qed.

Lemma extend_cases (c : collection) (st : State) (ok : list loc) :
  NoDup (omap (id_at c st) ok) →
  (∀ i, i ∈ omap (id_at c st) ok → i ∉ committed_ids c st) →
  (∃ st', extend c (VList (object_of c <$> ok)) st = (Ok tt, st')
          ∧ heap st' = heap st
          ∧ members c st' = members c st ++ ok
          ∧ ∀ c', c' ≠ c → members c' st' = members c' st)
  ∧ (∀ bad rest i,
       id_at c st bad = Some i →
       i ∈ committed_ids c st ++ omap (id_at c st) ok →
       ∃ st', extend c (VList (object_of c <$> ok ++ bad :: rest)) st
              = (Raise ValueError, st')
              ∧ heap st' = heap st
              ∧ members c st' = members c st ++ ok
              ∧ ∀ c', c' ≠ c → members c' st' = members c' st).
Proof.
  intros Hnd Hfresh.
  destruct (for_each_append_fresh c ok st Hnd Hfresh) as (st' & Hloop & Hh & Hm & Hothers).
  split.
  - exists st'. by rewrite extend_list.
  - intros bad rest i Hid Hin. exists st'. rewrite extend_list, fmap_app, for_each_app, Hloop.
    csimpl. unfold st_bind. rewrite (append_clash c st' bad i); [done| |].
    + by rewrite (id_at_same_heap c st st' bad Hh).
    + rewrite committed_ids_members in Hin. rewrite committed_ids_members, Hm, omap_app.
      rewrite (omap_ext_in (id_at c st') (id_at c st) ok),
        (omap_ext_in (id_at c st') (id_at c st) (members c st)); [done| |];
        intros e _; by apply id_at_same_heap.
Qed.

(** X9.  [extend_<collection>] appends one record after the other and
    stops at the first whose id is taken.  Records whose ids are pairwise
    distinct and not in the collection are all appended, in order; when the
    next record has an id of the collection or of a record appended before
    it, the call raises [ValueError] and the records before it stay
    appended. *)
Theorem extend_appends_until_clash (c : collection) (st : State) (ok : list loc) :
  NoDup (omap (id_at c st) ok) →
  (∀ i, i ∈ omap (id_at c st) ok → i ∉ committed_ids c st) →
  (∃ st', extend c (VList (object_of c <$> ok)) st = (Ok tt, st')
          ∧ heap st' = heap st
          ∧ members c st' = members c st ++ ok
          ∧ ∀ c', c' ≠ c → members c' st' = members c' st)
  ∧ (∀ bad rest i,
       id_at c st bad = Some i →
       i ∈ committed_ids c st ++ omap (id_at c st) ok →
       ∃ st', extend c (VList (object_of c <$> ok ++ bad :: rest)) st
              = (Raise ValueError, st')
              ∧ heap st' = heap st
              ∧ members c st' = members c st ++ ok
              ∧ ∀ c', c' ≠ c → members c' st' = members c' st).
Proof. apply extend_cases. Qed.

Lemma extend_appends_until_clash_witness :
  NoDup (omap (id_at Images small_dataset) [2%nat])
  ∧ (∀ i, i ∈ omap (id_at Images small_dataset) [2%nat] →
          i ∉ committed_ids Images small_dataset)
  ∧ (∃ st', extend_images (VList [VObj (RImage 2%nat)]) small_dataset = (Ok tt, st')
            ∧ images (self st') = [0%nat; 1%nat; 2%nat])
  ∧ (∃ st', extend_images (VList [VObj (RImage 2%nat); VObj (RImage 2%nat)]) small_dataset
            = (Raise ValueError, st')
            ∧ images (self st') = [0%nat; 1%nat; 2%nat]).
Proof.
  assert (H1 : NoDup (omap (id_at Images small_dataset) [2%nat])) by decide_closed.
  assert (H2 : ∀ i, i ∈ omap (id_at Images small_dataset) [2%nat] →
                    i ∉ committed_ids Images small_dataset)
    by (apply Forall_forall; decide_closed).
  split; [exact H1|]. split; [exact H2|].
  destruct (extend_appends_until_clash Images small_dataset [2%nat] H1 H2)
    as [(st' & Hrun & _ & Hm & _) Hclash].
  split.
  - exists st'. split; [exact Hrun | exact Hm].
  - destruct (Hclash 2%nat [] 9) as (st'' & Hrun' & _ & Hm' & _); [reflexivity | decide_closed |].
    exists st''. split; [exact Hrun' | exact Hm'].
Defined.

(** X10.  What the four [append_<record>] methods refuse.  A record whose
    id a record of the collection has: [ValueError], and the dataset is as
    it was.  An argument that is not of the collection's class or protocol:
    [TypeError], and the dataset is as it was, except that
    [append_category] has by then replaced a [categories] that was [None]
    by the empty list. *)
Theorem append_rejects (c : collection) (st : State) :
  (∀ l i, id_at c st l = Some i → i ∈ committed_ids c st →
          append c (object_of c l) st = (Raise ValueError, st))
  ∧ (∀ v, (∀ l, v ≠ object_of c l) →
          append c v st
          = (Raise TypeError,
             match c, categories_present st with
             | Categories, None => set_categories (Some []) st
             | _, _ => st
             end)).
Proof.
  split; [intros l i; apply append_clash|].
  intros v Hv. destruct c; simpl.
  - destruct v as [| | | | |[x|x|x|x]]; try done. by destruct (Hv x).
  - unfold append_category, st_bind, read.
    destruct (categories_present st); simpl;
      (destruct v as [| | | | |[x|x|x|x]]; try done); by destruct (Hv x).
  - destruct v as [| | | | |[x|x|x|x]]; try done. by destruct (Hv x).
  - destruct v as [| | | | |[x|x|x|x]]; try done. by destruct (Hv x).
Qed.

(** ** Removing a record and what refers to it *)

Lemma filter_filter_and {A} (p q : A → bool) (l : list A) :
  List.filter q (List.filter p l) = List.filter (λ x, p x && q x) l.
Proof.
  induction l as [|a l IH]; simpl; [done|].
  destruct (p a); simpl; [destruct (q a)|]; by rewrite IH.
Qed.

Lemma filter_pointwise {A} (p q : A → bool) (l : list A) :
  (∀ x, p x = q x) → List.filter p l = List.filter q l.
Proof. intros H. induction l as [|a l IH]; simpl; [done|]. by rewrite H, IH. Qed.

(** Removing, one after the other, the annotations that a test on the
    field values selects takes out exactly those. *)
Lemma remove_selected_annotations (q : Annotation → bool) (L N : list loc) (st : State) :
  annotations (self st) = N ++ L →
  (∀ n, n ∈ N → q (ann st n) = false) →
  remove_annotaitons (List.filter (λ a, q (ann st a)) L) st
  = (Ok tt, set_annotations (N ++ List.filter (λ a, negb (q (ann st a))) L) st).
Proof.
  unfold remove_annotaitons. revert N st.
  induction L as [|a L IH]; intros N st Hann HN.
  - simpl. rewrite <- Hann. by rewrite set_annotations_same.
  - simpl. destruct (q (ann st a)) eqn:Hq; simpl.
    + unfold st_bind at 1. unfold remove_annotation, st_bind, read.
      rewrite (py_in_equal (ann st) a a)
        by (by rewrite ?Hann, ?elem_of_app, ?elem_of_cons; auto).
      simpl. unfold modify. rewrite Hann.
      rewrite (py_remove_first_equal (ann st) a a N L); [|intros y Hy Heq|done].
      2:{ specialize (HN y Hy). rewrite Heq in HN. congruence. }
      exact (IH N (set_annotations (N ++ L) st) eq_refl HN).
    + rewrite (IH (N ++ [a]) st).
      * by rewrite <- app_assoc.
      * by rewrite Hann, <- app_assoc.
      * intros n [Hn| ->%list_elem_of_singleton]%elem_of_app; auto.
Qed.

Lemma remove_image_steps (st : State) (image e : loc) (N L : list loc) :
  images (self st) = N ++ e :: L →
  img st e = img st image →
  (∀ n, n ∈ N → img st n ≠ img st image) →
  remove_image image true st
  = (Ok tt,
     set_annotations
       (List.filter
          (λ a, negb (bool_decide (Ann.image_id (ann st a) = Image.id (img st image))))
          (annotations (self st)))
       (set_images (N ++ L) st))
  ∧ remove_image image false st = (Ok tt, set_images (N ++ L) st).
Proof.
  intros Himg He HN. unfold remove_image, st_bind, read.
  rewrite (py_in_equal (img st) image e)
    by (by rewrite ?Himg, ?elem_of_app, ?elem_of_cons; auto).
  simpl. unfold modify, query. rewrite Himg, (py_remove_first_equal (img st) image e N L)
    by done.
  split; [|done].
  exact (remove_selected_annotations
           (λ a, bool_decide (Ann.image_id a = Image.id (img st image)))
           (annotations (self st)) [] (set_images (N ++ L) st) eq_refl
           (λ n Hn, False_ind _ (not_elem_of_nil n Hn))).
Qed.

Lemma py_in_first {A} `{EqDecision A} (h : loc → A) (x : loc) (xs : list loc) :
  py_in h x xs = true →
  ∃ N e L, xs = N ++ e :: L ∧ h e = h x ∧ ∀ n, n ∈ N → h n ≠ h x.
Proof.
  unfold py_in. induction xs as [|a xs IH]; simpl; [done|].
  destruct (same h x a) eqn:Hs; simpl.
  - intros _. exists [], a, xs. split; [done|]. split; [|by intros n Hn; inversion Hn].
    unfold same in Hs. apply orb_true_iff in Hs as [->%bool_decide_eq_true|Hs]; [done|].
    by apply bool_decide_eq_true in Hs.
  - intros (N & e & L & -> & He & HN)%IH. exists (a :: N), e, L. split; [done|].
    split; [done|]. intros n [Hna|Hn]%elem_of_cons; [|by apply HN].
    subst n. intros Heq. by rewrite (same_true h x a Heq) in Hs.
Qed.

Lemma remove_image_result (st : State) (image : loc) :
  py_in (img st) image (images (self st)) = true →
  remove_image image true st
  = (Ok tt,
     set_annotations
       (List.filter
          (λ a, negb (bool_decide (Ann.image_id (ann st a) = Image.id (img st image))))
          (annotations (self st)))
       (set_images (py_remove (img st) image (images (self st))) st))
  ∧ remove_image image false st
    = (Ok tt, set_images (py_remove (img st) image (images (self st))) st).
Proof.
  intros (N & e & L & Himg & He & HN)%py_in_first.
  assert (Hr : py_remove (img st) image (images (self st)) = N ++ L)
    by (rewrite Himg; by apply py_remove_first_equal).
  rewrite Hr. by apply (remove_image_steps st image e N L).
Qed.

(** X11.  [remove_image] of an image the dataset has (an image with the
    same field values counts) takes the first such image out and, with
    [remove_annotations], exactly the annotations whose [image_id] is the
    id of the image; the other annotations stay, in their order, and
    nothing else changes. *)
Theorem remove_image_cascade (st : State) (image : loc) :
  py_in (img st) image (images (self st)) = true →
  remove_image image true st
  = (Ok tt,
     set_annotations
       (List.filter
          (λ a, negb (bool_decide (Ann.image_id (ann st a) = Image.id (img st image))))
          (annotations (self st)))
       (set_images (py_remove (img st) image (images (self st))) st))
  ∧ remove_image image false st
    = (Ok tt, set_images (py_remove (img st) image (images (self st))) st).
Proof. apply remove_image_result. Qed.

Lemma remove_image_cascade_witness :
  py_in (img small_dataset) 0%nat (images (self small_dataset)) = true
  ∧ images (self (exec (remove_image 0%nat true) small_dataset)) = [1%nat]
  ∧ annotations (self (exec (remove_image 0%nat true) small_dataset)) = [1%nat]
  ∧ annotations (self (exec (remove_image 0%nat false) small_dataset)) = [0%nat; 1%nat].
Proof.
  split; [reflexivity|].
  destruct (remove_image_cascade small_dataset 0%nat eq_refl) as [H1 H2].
  unfold exec. rewrite H1, H2. repeat split.
Defined.

Lemma int_in_cons (x y : Z) (ys : list Z) :
  int_in x (y :: ys) = bool_decide (x = y) || int_in x ys.
Proof.
  unfold int_in. destruct (decide (x = y)) as [->|Hne].
  - rewrite (bool_decide_eq_true_2 (y = y)) by done. simpl. apply bool_decide_eq_true. left.
  - rewrite (bool_decide_eq_false_2 (x = y)) by done. simpl.
    apply bool_decide_ext. rewrite elem_of_cons. tauto.
Qed.

Lemma remove_selected_images (q : Image.t → bool) (ra : bool) (L N : list loc) (st : State) :
  images (self st) = N ++ L →
  (∀ n, n ∈ N → q (img st n) = false) →
  remove_images (List.filter (λ i, q (img st i)) L) ra st
  = (Ok tt,
     let st1 := set_images (N ++ List.filter (λ i, negb (q (img st i))) L) st in
     if ra then
       set_annotations (annotations_left st (List.filter (λ i, q (img st i)) L)) st1
     else st1).
Proof.
  unfold remove_images. revert N st.
  induction L as [|x L IH]; intros N st Himg HN.
  - simpl. rewrite <- Himg. rewrite set_images_same. destruct ra; [|done].
    unfold annotations_left. simpl.
    rewrite filter_all by done.
    by rewrite set_annotations_same.
  - simpl. destruct (q (img st x)) eqn:Hq; simpl.
    + unfold st_bind at 1.
      destruct (remove_image_steps st x x N L Himg eq_refl) as [Ht Hf].
      { intros n Hn Heq. specialize (HN n Hn). rewrite Heq in HN. congruence. }
      destruct ra.
      * rewrite Ht.
        rewrite (IH N (set_annotations _ (set_images (N ++ L) st)) eq_refl HN).
        f_equal. cbn zeta. unfold annotations_left. simpl.
        change (ann (set_annotations _ _)) with (ann st).
        change (img (set_annotations _ _)) with (img st).
        rewrite filter_filter_and.
        rewrite (filter_pointwise _
          (λ a, negb (int_in (Ann.image_id (ann st a))
                        (Image.id (img st x)
                         :: ((λ i, Image.id (img st i)) <$> List.filter (λ i, q (img st i)) L))))).
        { done. }
        intros a. rewrite int_in_cons. by destruct (bool_decide _), (int_in _ _).
      * rewrite Hf. exact (IH N (set_images (N ++ L) st) eq_refl HN).
    + rewrite (IH (N ++ [x]) st).
      * by rewrite <- app_assoc.
      * by rewrite Himg, <- app_assoc.
      * intros n [Hn| ->%list_elem_of_singleton]%elem_of_app; auto.
Qed.

Lemma remove_license_result (st : State) (license : loc) (ra : bool) :
  py_in (lic st) license (licenses (self st)) = true →
  let under := List.filter
                 (λ i, bool_decide (Image.license (img st i) = License.id (lic st license)))
                 (images (self st)) in
  let others := List.filter
                  (λ i, negb (bool_decide (Image.license (img st i)
                                           = License.id (lic st license))))
                  (images (self st)) in
  let st1 := set_licenses (py_remove (lic st) license (licenses (self st))) st in
  remove_license license false ra st = (Ok tt, st1)
  ∧ remove_license license true false st = (Ok tt, set_images others st1)
  ∧ remove_license license true true st
    = (Ok tt, set_annotations (annotations_left st under) (set_images others st1)).
Proof.
  intros Hin. cbn zeta. unfold remove_license, st_bind, read. rewrite Hin. simpl.
  unfold modify, query. simpl. split; [done|].
  pose proof (remove_selected_images
                (λ i, bool_decide (Image.license i = License.id (lic st license)))) as H.
  split.
  - exact (H false (images (self st)) []
             (set_licenses (py_remove (lic st) license (licenses (self st))) st) eq_refl
             (λ n Hn, False_ind _ (not_elem_of_nil n Hn))).
  - exact (H true (images (self st)) []
             (set_licenses (py_remove (lic st) license (licenses (self st))) st) eq_refl
             (λ n Hn, False_ind _ (not_elem_of_nil n Hn))).
Qed.

(** X12.  [remove_license] of a license the dataset has takes the first
    license with the same field values out; with [remove_images] it takes
    out every image whose [license] is the id of the license and keeps the
    others in their order; and with [remove_annotations] as well, every
    annotation whose [image_id] is the id of one of those images. *)
Theorem remove_license_cascade (st : State) (license : loc) (ra : bool) :
  py_in (lic st) license (licenses (self st)) = true →
  let under := List.filter
                 (λ i, bool_decide (Image.license (img st i) = License.id (lic st license)))
                 (images (self st)) in
  let others := List.filter
                  (λ i, negb (bool_decide (Image.license (img st i)
                                           = License.id (lic st license))))
                  (images (self st)) in
  let st1 := set_licenses (py_remove (lic st) license (licenses (self st))) st in
  remove_license license false ra st = (Ok tt, st1)
  ∧ remove_license license true false st = (Ok tt, set_images others st1)
  ∧ remove_license license true true st
    = (Ok tt, set_annotations (annotations_left st under) (set_images others st1)).
Proof. apply remove_license_result. Qed.

Lemma remove_license_cascade_witness :
  py_in (lic small_dataset) 0%nat (licenses (self small_dataset)) = true
  ∧ licenses (self (exec (remove_license 0%nat true true) small_dataset)) = [1%nat]
  ∧ images (self (exec (remove_license 0%nat true true) small_dataset)) = [1%nat]
  ∧ annotations (self (exec (remove_license 0%nat true true) small_dataset)) = [1%nat]
  ∧ annotations (self (exec (remove_license 0%nat true false) small_dataset))
    = [0%nat; 1%nat].
Proof.
  split; [reflexivity|].
  destruct (remove_license_cascade small_dataset 0%nat true eq_refl) as (_ & H2 & H3).
  unfold exec. rewrite H2, H3. repeat split.
Defined.

Lemma remove_category_result (st : State) (category : loc) (cs : list loc) :
  categories_present st = Some cs →
  py_in (cat st) category cs = true →
  let rest := py_remove (cat st) category cs in
  let st1 := set_categories (Some rest) st in
  remove_category category false st = (Ok tt, st1)
  ∧ (rest = [] ∨ annotations_categorized_or_panoptic st = false →
     remove_category category true st = (Ok tt, st1))
  ∧ (rest ≠ [] → annotations_categorized_or_panoptic st = true →
     remove_category category true st
     = (Ok tt,
        set_annotations
          (List.filter
             (λ a, negb (int_in (Cat.id (cat st category)) (annotation_category_ids (ann st a))))
             (annotations (self st)))
          st1)).
Proof.
  intros Hp Hin. cbn zeta. unfold remove_category, st_bind, read. rewrite Hp, Hin. simpl.
  unfold modify, query. split; [done|].
  set (rest := py_remove (cat st) category cs).
  set (st1 := set_categories (Some rest) st).
  assert (Hpresent : categories_present st1 = match rest with [] => None | _ => Some rest end).
  { unfold categories_present. simpl. by destruct rest. }
  split.
  - intros Hcase. unfold get_annotations_by_category. rewrite Hpresent.
    destruct Hcase as [->|Hno]; [done|].
    change (annotations_categorized_or_panoptic st1)
      with (annotations_categorized_or_panoptic st).
    rewrite Hno. by destruct rest.
  - intros Hrest Hall. unfold get_annotations_by_category. rewrite Hpresent.
    change (annotations_categorized_or_panoptic st1)
      with (annotations_categorized_or_panoptic st).
    rewrite Hall. destruct rest as [|r rest'] eqn:Hr; [done|]. cbn [negb].
    exact (remove_selected_annotations
             (λ a, int_in (Cat.id (cat st category)) (annotation_category_ids a))
             (annotations (self st)) [] st1 eq_refl
             (λ n Hn, False_ind _ (not_elem_of_nil n Hn))).
Qed.

(** X13.  [remove_category] of a category the dataset has takes the first
    category with the same field values out.  With [remove_annotations] it
    then takes out the annotations that have the id of the category as
    [category_id] or in a segment, but only when a category is left and
    every annotation has a category or segments: the annotations are looked
    up after the category has gone, and the lookup returns the empty list
    for a dataset without categories; so the annotations of the last
    category stay. *)
Theorem remove_category_cascade (st : State) (category : loc) (cs : list loc) :
  categories_present st = Some cs →
  py_in (cat st) category cs = true →
  let rest := py_remove (cat st) category cs in
  let st1 := set_categories (Some rest) st in
  remove_category category false st = (Ok tt, st1)
  ∧ (rest = [] ∨ annotations_categorized_or_panoptic st = false →
     remove_category category true st = (Ok tt, st1))
  ∧ (rest ≠ [] → annotations_categorized_or_panoptic st = true →
     remove_category category true st
     = (Ok tt,
        set_annotations
          (List.filter
             (λ a, negb (int_in (Cat.id (cat st category)) (annotation_category_ids (ann st a))))
             (annotations (self st)))
          st1)).
Proof. apply remove_category_result. Qed.

(** ** Splitting in general *)

Lemma rmap_raise {A B} (f : A → result B) (l : list A) (e : exn) :
  (∃ x, x ∈ l ∧ f x = Raise e) →
  (∀ x, x ∈ l → f x = Raise e ∨ ∃ y, f x = Ok y) →
  rmap f l = Raise e.
Proof.
  induction l as [|a l IH]; intros (x & Hx & Hfx) Hall; [by inversion Hx|]. simpl.
  destruct (Hall a) as [Ha|[b Hb]]; [left | by rewrite Ha |]. rewrite Hb. cbn [rbind].
  apply elem_of_cons in Hx as [->|Hx]; [congruence|].
  rewrite IH; [done | by eauto |]. intros y Hy. apply Hall. by right.
Qed.

Lemma copies_of_images_extends (s s' : State) (sub : list loc) :
  extends s s' → copies_of_images s sub → copies_of_images s' sub.
Proof.
  intros He (Hh & Hsub). pose proof Hh as (_ & _ & Hi & _).
  unfold refs_ok in Hi. rewrite Forall_forall in Hi.
  assert (Hself : self s' = self s) by apply He.
  split; [by eapply extends_heap_ok|].
  eapply Forall_impl; [exact Hsub|]. simpl. intros c (Hc & l & Hl & Heq). split.
  - destruct He as (_ & _ & I & _). apply prefix_length in I. lia.
  - exists l. rewrite Hself. split; [done|].
    by rewrite !(extends_img s s') by auto.
Qed.

Lemma copies_of_images_license (s s' : State) (sub : list loc) (c : loc) :
  extends s s' → copies_of_images s sub → c ∈ sub →
  (Image.license (img s' c) ∈ license_ids s' ↔ Image.license (img s c) ∈ license_ids s).
Proof.
  intros He (Hh & Hsub) Hc. rewrite Forall_forall in Hsub. destruct (Hsub c Hc) as [Hlt _].
  by rewrite (extends_license_ids s s'), (extends_img s s').
Qed.

Lemma st_bind_Ok_raise {A B} (m : M A) (k : A → M B) (s s' : State) (e : exn) :
  m s = (Raise e, s') → st_bind m k s = (Raise e, s').
Proof. intros H. unfold st_bind. by rewrite H. Qed.

Section SplitInGeneral.
Variable set_iter : list Z → list Z.
Variable shuffle : Z → list loc → list loc.
Hypothesis set_iter_sound : ∀ xs x, x ∈ set_iter xs → x ∈ xs.
Hypothesis shuffle_permutes : ∀ seed ls, shuffle seed ls ≡ₚ ls.

Lemma get_licenses_cases (s : State) (sub : list loc) :
  copies_of_images s sub →
  ((∀ c, c ∈ sub → Image.license (img s c) ∈ license_ids s) →
   ∃ ls, (let* found_licenses := get_licenses set_iter s (image_values sub) in
          objects found_licenses) = Ok ls)
  ∧ ((∃ c, c ∈ sub ∧ Image.license (img s c) ∉ license_ids s) →
     get_licenses set_iter s (image_values sub) = Raise StopIteration).
Proof.
  intros (Hh & Hsub). rewrite Forall_forall in Hsub.
  assert (Hin : ∀ c, c ∈ sub → py_in (img s) c (images (self s)) = true).
  { intros c Hc. destruct (Hsub c Hc) as (_ & l & Hl & Heq).
    by apply (py_in_equal (img s) c l). }
  unfold get_licenses. rewrite all_as_image_values. split.
  - intros Hlic.
    destruct (rmap_Ok_all
                (λ image, let* license := get_license s image in
                          attr license (λ l, License.id (lic s l)))
                (λ id, id ∈ license_ids s) (image_values sub)) as (ids & -> & Hids).
    { intros x (c & -> & Hc)%list_elem_of_fmap.
      destruct (proj2 (proj2 (get_license_of_image s c)) (Hin c Hc) (Hlic c Hc))
        as (y & -> & Hy & _).
      simpl. eexists. split; [done|]. apply list_elem_of_fmap. by exists y. }
    cbn [rbind].
    destruct (rmap_Ok_all (λ id, get_license s (VInt id)) is_Some (set_iter ids))
      as (found_licenses & -> & Hfound).
    { intros id Hid%set_iter_sound. rewrite Forall_forall in Hids.
      destruct (get_license_held s id (Hids id Hid)) as (l & _ & _ & ->). eauto. }
    cbn [rbind]. unfold objects.
    destruct (rmap_Ok_all (λ x : option loc,
                 match x with Some l => Ok l | None => Raise IllTyped end)
                (λ _, True) found_licenses) as (ls & -> & _); [|by eauto].
    intros x Hx. rewrite Forall_forall in Hfound. destruct (Hfound x Hx) as [l ->]. eauto.
  - intros (c & Hc & Hout).
    rewrite (rmap_raise _ _ StopIteration); [done| |].
    + exists (VObj (RImage c)).
      split; [by apply (list_elem_of_fmap_2 (λ l, VObj (RImage l)))|].
      by rewrite (proj1 (proj2 (get_license_of_image s c)) (Hin c Hc) Hout).
    + intros x (c' & -> & Hc')%list_elem_of_fmap.
      destruct (decide (Image.license (img s c') ∈ license_ids s)) as [Hv|Hv].
      * right. destruct (proj2 (proj2 (get_license_of_image s c')) (Hin c' Hc') Hv)
          as (y & -> & _). simpl. eauto.
      * left. by rewrite (proj1 (proj2 (get_license_of_image s c')) (Hin c' Hc') Hv).
Qed.

Lemma split_part_cases (s : State) (sub : list loc) :
  copies_of_images s sub →
  ((∀ c, c ∈ sub → Image.license (img s c) ∈ license_ids s) →
   ∃ d s', split_part set_iter sub s = (Ok d, s') ∧ extends s s'
     ∧ images d = sub
     ∧ info d = info (self s)
     ∧ Forall (λ c, (c < length (h_annotations (heap s')))%nat) (annotations d)
     ∧ ann s' <$> annotations d
       = ann s <$> List.filter
                     (λ a, int_in (Ann.image_id (ann s a)) ((λ l, Image.id (img s l)) <$> sub))
                     (annotations (self s)))
  ∧ ((∃ c, c ∈ sub ∧ Image.license (img s c) ∉ license_ids s) →
     split_part set_iter sub s = (Raise StopIteration, s)).
Proof.
  intros Hready. pose proof Hready as (Hh & Hsub).
  destruct (get_licenses_cases s sub Hready) as [Hgood Hbad]. split.
  - intros Hlic. destruct (Hgood Hlic) as (ls & Hls).
    destruct (deepcopy_licenses_extends ls s) as (lcopies & s1 & Hc1 & He1).
    pose proof (extends_heap_ok _ _ He1 Hh) as Hh1.
    set (kept := List.filter
                   (λ a, int_in (Ann.image_id (ann s1 a)) ((λ l, Image.id (img s1 l)) <$> sub))
                   (annotations (self s1))).
    destruct (deepcopy_annotations_spec kept s1) as (acopies & s2 & Hc2 & He2 & Hv2).
    { destruct Hh1 as (_ & _ & _ & Ha). unfold refs_ok in Ha. rewrite Forall_forall in *.
      intros a [Ha' _]%elem_of_filter_list. by apply Ha. }
    destruct (get_categories_of_images_Ok s2 sub) as (cs & Hcs).
    destruct (deepcopy_categories_extends cs s2) as (ccopies & s3 & Hc3 & He3).
    exists (mkCOCO (info (self s)) lcopies (Some ccopies) sub acopies [] [] [] []), s3.
    split; [|split; [|split; [|split; [|split]]]].
    + unfold split_part.
      rewrite (st_bind_Ok _ _ s s (info (self s))) by done.
      rewrite (st_bind_Ok _ _ s s ls) by (unfold query; by rewrite Hls).
      rewrite (st_bind_Ok _ _ s s1 lcopies) by done.
      rewrite (st_bind_Ok _ _ s1 s1 kept)
        by (unfold query; by rewrite get_annotations_of_images).
      rewrite (st_bind_Ok _ _ s1 s2 acopies) by done.
      rewrite (st_bind_Ok _ _ s2 s2 cs) by (unfold query; by rewrite Hcs).
      rewrite (st_bind_Ok _ _ s2 s3 ccopies) by done.
      done.
    + by repeat (etransitivity; [eassumption|]).
    + done.
    + done.
    + simpl. apply Forall_forall. intros c Hc.
      apply list_elem_of_lookup_1 in Hc as [i Hc].
      destruct (Forall2_lookup_r _ _ _ _ _ Hv2 Hc) as (a & _ & Hlt & _).
      destruct He3 as (_ & _ & _ & _ & A). apply prefix_length in A. lia.
    + simpl.
      pose proof (proj1 He1) as Hself1.
      assert (Hold : ∀ a, a ∈ annotations (self s) → ann s1 a = ann s a).
      { intros a Ha. apply extends_ann; [done|].
        destruct Hh as (_ & _ & _ & Hall). unfold refs_ok in Hall.
        rewrite Forall_forall in Hall. by apply Hall. }
      assert (Hkept : kept = List.filter
                (λ a, int_in (Ann.image_id (ann s a)) ((λ l, Image.id (img s l)) <$> sub))
                (annotations (self s))).
      { subst kept. rewrite Hself1. apply filter_ext_in. intros a Ha.
        apply list_elem_of_In in Ha. rewrite (Hold a Ha).
        f_equal. apply list_fmap_ext. intros i l Hl. simpl. f_equal.
        rewrite Forall_forall in Hsub.
        destruct (Hsub l) as [Hlive _]; [by eapply list_elem_of_lookup_2|].
        by apply extends_img. }
      rewrite <- Hkept.
      apply Forall2_fmap_eq, Forall2_same_length_lookup.
      split; [by eapply Forall2_length|].
      intros i a c Ha Hc. destruct (Forall2_lookup_lr _ _ _ _ _ _ Hv2 Ha Hc) as [Hlt Hv].
      rewrite (extends_ann s2 s3) by done. rewrite Hv. apply Hold.
      apply list_elem_of_lookup_2 in Ha. subst kept.
      apply elem_of_filter_list in Ha as [Ha _]. by rewrite Hself1 in Ha.
  - intros Hex. unfold split_part, st_bind, read, query. by rewrite (Hbad Hex).
Qed.

Lemma split_point_le (n : nat) (percentage : Q) :
  (percentage <= 1)%Q → (split_point n percentage <= n)%nat.
Proof.
  intros Hp. unfold split_point.
  assert (H : (Qfloor (inject_Z (Z.of_nat n) * percentage) <= Z.of_nat n)%Z).
  { rewrite <- (Qfloor_Z (Z.of_nat n)) at 2. apply Qfloor_resp_le.
    rewrite Qmult_comm. rewrite <- (Qmult_1_l (inject_Z (Z.of_nat n))) at 2.
    apply Qmult_le_compat_r; [done|]. unfold Qle. simpl. lia. }
  lia.
Qed.

Lemma split_cases (st : State) (percentage : Q) (seed : Z) :
  heap_ok st → (0 <= percentage)%Q → (percentage <= 1)%Q →
  let n := length (images (self st)) in
  let point := split_point n percentage in
  ((∀ l, l ∈ images (self st) → Image.license (img st l) ∈ license_ids st) →
   ∃ d1 d2 st', split set_iter shuffle percentage seed st = (Ok (d1, d2), st')
     ∧ extends st st'
     ∧ info d1 = info (self st) ∧ info d2 = info (self st)
     ∧ length (images d1) = point ∧ length (images d2) = (n - point)%nat
     ∧ (img st' <$> images d1) ++ (img st' <$> images d2) ≡ₚ img st <$> images (self st)
     ∧ ann st' <$> annotations d1
       = List.filter (λ a, int_in (Ann.image_id a) (Image.id <$> (img st' <$> images d1)))
           (ann st <$> annotations (self st))
     ∧ ann st' <$> annotations d2
       = List.filter (λ a, int_in (Ann.image_id a) (Image.id <$> (img st' <$> images d2)))
           (ann st <$> annotations (self st)))
  ∧ ((∃ l, l ∈ images (self st) ∧ Image.license (img st l) ∉ license_ids st) →
     ∃ st', split set_iter shuffle percentage seed st = (Raise StopIteration, st')
            ∧ extends st st').
Proof.
  intros Hh Hp0 Hp1 n point.
  pose proof (split_point_le n percentage Hp1) as Hpoint. fold point in Hpoint.
  destruct (deepcopy_images_spec (images (self st)) st) as (copies & s0 & Hc0 & He0 & Hv0).
  { by destruct Hh as (_ & _ & ? & _). }
  set (shuffled := shuffle seed copies).
  assert (Hperm : shuffled ≡ₚ copies) by apply shuffle_permutes.
  assert (Hlen0 : length shuffled = n).
  { pose proof (Forall2_length _ _ _ Hv0) as Hl0.
    pose proof (Permutation_length Hperm) as Hl1.
    exact (eq_trans Hl1 (eq_sym Hl0)). }
  assert (Hself0 : self s0 = self st) by apply He0.
  assert (Horigin : ∀ c, c ∈ shuffled →
            (c < length (h_images (heap s0)))%nat
            ∧ ∃ l, l ∈ images (self st) ∧ img s0 c = img st l ∧ img s0 l = img st l).
  { intros c Hc. rewrite Hperm in Hc. apply list_elem_of_lookup_1 in Hc as [i Hc].
    destruct (Forall2_lookup_r _ _ _ _ _ Hv0 Hc) as (l & Hl & Hlt & Hv).
    split; [done|]. exists l. apply list_elem_of_lookup_2 in Hl. split; [done|].
    split; [done|]. apply extends_img; [exact He0|].
    destruct Hh as (_ & _ & Hi & _). unfold refs_ok in Hi.
    rewrite Forall_forall in Hi. by apply Hi. }
  assert (Hready : ∀ sub, (∀ c, c ∈ sub → c ∈ shuffled) → copies_of_images s0 sub).
  { intros sub Hsub. split; [by eapply extends_heap_ok|].
    apply Forall_forall. intros c Hc%Hsub.
    destruct (Horigin c Hc) as (Hlt & l & Hl & Hv & Hvl). split; [done|].
    exists l. rewrite Hself0. split; [done|]. congruence. }
  assert (Hin1 : ∀ c, c ∈ take point shuffled → c ∈ shuffled).
  { intros c (i & Hc & _)%elem_of_take. by eapply list_elem_of_lookup_2. }
  assert (Hin2 : ∀ c, c ∈ drop point shuffled → c ∈ shuffled).
  { intros c Hc. apply list_elem_of_lookup_1 in Hc as [i Hc]. rewrite lookup_drop in Hc.
    by eapply list_elem_of_lookup_2. }
  assert (Hlic0 : license_ids s0 = license_ids st) by (by apply extends_license_ids).
  assert (Hrun : split set_iter shuffle percentage seed st
                 = st_bind (split_part set_iter (take point shuffled)) (λ first,
                   st_bind (split_part set_iter (drop point shuffled)) (λ second,
                   st_ret (first, second))) s0).
  { unfold split.
    apply Qle_bool_iff in Hp0, Hp1. rewrite Hp0, Hp1. cbn [andb].
    rewrite (st_bind_Ok _ _ st st (images (self st))) by done.
    by rewrite (st_bind_Ok _ _ st s0 copies) by done. }
  rewrite Hrun.
  destruct (split_part_cases s0 (take point shuffled) (Hready _ Hin1)) as [Hgood1 Hbad1].
  split.
  - intros Hlic.
    assert (Hvalid0 : ∀ c, c ∈ shuffled → Image.license (img s0 c) ∈ license_ids s0).
    { intros c Hc. destruct (Horigin c Hc) as (_ & l & Hl & -> & _).
      rewrite Hlic0. by apply Hlic. }
    destruct Hgood1 as (d1 & s1 & Hp1' & He1 & Hi1 & Hinfo1 & Hl1 & Ha1); [by auto|].
    destruct (split_part_cases s1 (drop point shuffled)) as [Hgood2 _].
    { apply (copies_of_images_extends s0 s1); [done|]. by apply Hready. }
    destruct Hgood2 as (d2 & s2 & Hp2' & He2 & Hi2 & Hinfo2 & Hl2 & Ha2).
    { intros c Hc.
      apply (copies_of_images_license s0 s1 (drop point shuffled) c); auto. }
    exists d1, d2, s2.
    assert (Hlive0 : ∀ c, c ∈ shuffled → (c < length (h_images (heap s0)))%nat).
    { intros c Hc. by destruct (Horigin c Hc). }
    assert (He02 : extends s0 s2) by (by etransitivity).
    assert (Himg2 : ∀ c, c ∈ shuffled → img s2 c = img s0 c).
    { intros c Hc. apply extends_img; [done|]. by apply Hlive0. }
    assert (Hann0 : ∀ a, a ∈ annotations (self st) → ann s0 a = ann st a).
    { intros a Ha. apply extends_ann; [done|].
      destruct Hh as (_ & _ & _ & Hall). unfold refs_ok in Hall.
      rewrite Forall_forall in Hall. by apply Hall. }
    assert (Hpart : ∀ s sub d, extends s0 s → (∀ c, c ∈ sub → c ∈ shuffled) →
              images d = sub →
              ann s2 <$> annotations d
              = ann s <$> List.filter
                  (λ a, int_in (Ann.image_id (ann s a)) ((λ l, Image.id (img s l)) <$> sub))
                  (annotations (self s)) →
              ann s2 <$> annotations d
              = List.filter
                  (λ a, int_in (Ann.image_id a) (Image.id <$> (img s2 <$> images d)))
                  (ann st <$> annotations (self st))).
    { intros s sub d Hes Hsub Hd Hanns. rewrite Hanns.
      assert (Hself : self s = self st) by (rewrite (proj1 Hes); apply He0).
      rewrite Hself.
      rewrite (fmap_filter_values (ann s)
                 (λ a, int_in (Ann.image_id a) ((λ l, Image.id (img s l)) <$> sub))).
      rewrite (list_fmap_ext (ann s) (ann st) (annotations (self st))).
      2: { intros i a Ha. apply list_elem_of_lookup_2 in Ha.
           rewrite <- (Hann0 a Ha). apply extends_ann; [done|].
           destruct Hh as (_ & _ & _ & Hall). unfold refs_ok in Hall.
           rewrite Forall_forall in Hall. specialize (Hall a Ha).
           destruct He0 as (_ & _ & _ & _ & A). apply prefix_length in A. lia. }
      assert (Hids : (λ l, Image.id (img s l)) <$> sub = Image.id <$> (img s2 <$> images d)).
      { rewrite Hd, <- list_fmap_compose. apply list_fmap_ext. intros i c Hc. simpl.
        apply list_elem_of_lookup_2, Hsub in Hc.
        rewrite (Himg2 c Hc). f_equal. apply extends_img; [done|]. by apply Hlive0. }
      by rewrite Hids. }
    split; [|split; [|split; [|split; [|split; [|split; [|split; [|split]]]]]]].
    + rewrite (st_bind_Ok _ _ s0 s1 d1) by done.
      by rewrite (st_bind_Ok _ _ s1 s2 d2) by done.
    + by repeat (etransitivity; [eassumption|]).
    + by rewrite Hinfo1, Hself0.
    + rewrite Hinfo2. destruct He1 as (-> & _). by rewrite Hself0.
    + rewrite Hi1, length_take. lia.
    + rewrite Hi2, length_drop. lia.
    + rewrite Hi1, Hi2, <- fmap_app, take_drop.
      rewrite (list_fmap_ext (img s2) (img s0) shuffled)
        by (intros i c Hc; apply Himg2; by eapply list_elem_of_lookup_2).
      rewrite Hperm. apply Permutation_refl'. apply Forall2_fmap_eq.
      eapply Forall2_impl; [exact Hv0|]. simpl. by intros l c [_ ?].
    + apply (Hpart s0 (take point shuffled)); [reflexivity | done | done |].
      rewrite <- Ha1. apply list_fmap_ext. intros i c Hc. apply extends_ann; [done|].
      rewrite Forall_forall in Hl1. apply Hl1. by eapply list_elem_of_lookup_2.
    + by apply (Hpart s1 (drop point shuffled)).
  - intros (l & Hl & Hout).
    assert (Hc : ∃ c, c ∈ shuffled ∧ Image.license (img s0 c) ∉ license_ids s0).
    { apply list_elem_of_lookup_1 in Hl as [i Hi].
      destruct (Forall2_lookup_l _ _ _ _ _ Hv0 Hi) as (c & Hc & _ & Hv).
      exists c. split; [rewrite Hperm; by eapply list_elem_of_lookup_2|].
      by rewrite Hv, Hlic0. }
    destruct Hc as (c & Hc & Hbad).
    destruct (decide (Exists (λ c', Image.license (img s0 c') ∉ license_ids s0)
                        (take point shuffled))) as [Hex|Hno];
      rewrite Exists_exists in *.
    + exists s0. rewrite (st_bind_Ok_raise _ _ s0 s0 StopIteration) by auto. done.
    + destruct Hgood1 as (d1 & s1 & Hp1' & He1 & _).
      { intros c' Hc'. destruct (decide (Image.license (img s0 c') ∈ license_ids s0));
          [done|]. exfalso. apply Hno. eauto. }
      exists s1. rewrite (st_bind_Ok _ _ s0 s1 d1) by done.
      destruct (split_part_cases s1 (drop point shuffled)) as [_ Hbad2].
      { apply (copies_of_images_extends s0 s1); [done|]. by apply Hready. }
      rewrite (st_bind_Ok_raise _ _ s1 s1 StopIteration).
      * split; [done|]. by etransitivity.
      * apply Hbad2. exists c. split.
        -- rewrite <- (take_drop point shuffled) in Hc.
           apply elem_of_app in Hc as [Hc|Hc]; [|done]. exfalso. apply Hno. eauto.
        -- intros Hv. apply Hbad.
           apply (copies_of_images_license s0 s1 shuffled c); auto.
Qed.


(** X15.  When [split] raises.  A percentage below 0 or above 1:
    [ValueError], and nothing has happened.  A percentage between 0 and 1
    on a dataset one of whose images has a license that no license of the
    dataset has: [StopIteration], from the lookup of the licenses of a
    part; the dataset itself is as it was. *)
Theorem split_raises (st : State) (percentage : Q) (seed : Z) :
  ((percentage < 0)%Q ∨ (1 < percentage)%Q →
   split set_iter shuffle percentage seed st = (Raise ValueError, st))
  ∧ (heap_ok st → (0 <= percentage)%Q → (percentage <= 1)%Q →
     (∃ l, l ∈ images (self st) ∧ Image.license (img st l) ∉ license_ids st) →
     ∃ st', split set_iter shuffle percentage seed st = (Raise StopIteration, st')
            ∧ extends st st').
Proof.
  split.
  - intros Hout. unfold split.
    assert (Hno : Qle_bool percentage 1 && Qle_bool 0 percentage = false).
    { apply andb_false_iff. destruct Hout as [Hlt|Hlt].
      - right. apply not_true_is_false. intros H%Qle_bool_iff. by apply Qle_not_lt in H.
      - left. apply not_true_is_false. intros H%Qle_bool_iff. by apply Qle_not_lt in H. }
    by rewrite Hno.
  - intros Hh Hp0 Hp1. apply (split_cases st percentage seed Hh Hp0 Hp1).
Qed.
End SplitInGeneral.


Lemma split_raises_witness :
  (∀ (xs : list Z) x, x ∈ remove_dups xs → x ∈ xs)
  ∧ (∀ (seed : Z) (ls : list loc), reverse ls ≡ₚ ls)
  ∧ split remove_dups (λ _ ls, reverse ls) (3 # 2) 101 unlicensed_dataset
    = (Raise ValueError, unlicensed_dataset)
  ∧ ∃ st', split remove_dups (λ _ ls, reverse ls) (1 # 2) 101 unlicensed_dataset
           = (Raise StopIteration, st').
Proof.
  assert (Hs : ∀ (xs : list Z) x, x ∈ remove_dups xs → x ∈ xs)
    by (intros xs x H; apply elem_of_remove_dups, H).
  assert (Hp : ∀ (seed : Z) (ls : list loc), reverse ls ≡ₚ ls)
    by (intros _ ls; apply reverse_Permutation).
  split; [exact Hs|]. split; [exact Hp|].
  split.
  - apply (split_raises remove_dups (λ _ ls, reverse ls) Hs Hp unlicensed_dataset (3 # 2) 101).
    by right.
  - destruct (proj2 (split_raises remove_dups (λ _ ls, reverse ls) Hs Hp
                       unlicensed_dataset (1 # 2) 101)) as (st' & Hrun & _).
    + unfold heap_ok, refs_ok; simpl; repeat split; repeat constructor.
    + done.
    + done.
    + exists 0%nat. split; [left | decide_closed].
    + by exists st'.
Defined.

(** ** What [trim_dataset] leaves *)

Lemma trim_dataset_used (st : State) :
  let st' := exec trim_dataset st in
  trim_dataset st = (Ok tt, st')
  ∧ heap st' = heap st
  ∧ (∀ i, i ∈ images (self st') →
       (∃ a, a ∈ annotations (self st') ∧ Ann.image_id (ann st' a) = Image.id (img st' i))
       ∧ Image.license (img st' i) ∈ license_ids st')
  ∧ (∀ l, l ∈ licenses (self st') →
       ∃ i, i ∈ images (self st') ∧ Image.license (img st' i) = License.id (lic st' l))
  ∧ (∀ a, a ∈ annotations (self st') → Ann.image_id (ann st' a) ∈ image_ids st)
  ∧ (∀ cs, categories_present st = Some cs → annotations_categorized st' = true →
       ∀ c, c ∈ default [] (categories (self st')) →
         ∃ a, a ∈ annotations (self st')
              ∧ Ann.category_id (ann st' a) = Some (Cat.id (cat st' c))).
Proof.
  cbn zeta. destruct (trim_dataset_keeps st) as (Hrun & Hh & Ha & Hi & Hl & Hc).
  set (st' := exec trim_dataset st) in *.
  assert (Hlic' : lic st' = lic st) by (unfold lic; by rewrite Hh).
  assert (Himg' : img st' = img st) by (unfold img; by rewrite Hh).
  assert (Hann' : ann st' = ann st) by (unfold ann; by rewrite Hh).
  assert (Hcat' : cat st' = cat st) by (unfold cat; by rewrite Hh).
  split; [done|]. split; [done|]. rewrite Hlic', Himg', Hann', Hcat'.
  split; [|split; [|split]].
  - intros i Hin. rewrite Hi in Hin.
    apply elem_of_filter_list in Hin as [Hin [Hused Hlicensed]%andb_true_iff].
    apply int_in_iff in Hused, Hlicensed. split.
    + apply list_elem_of_fmap in Hused as (a & Hid & Hkept). exists a.
      rewrite Ha. done.
    + apply list_elem_of_fmap in Hlicensed as (l & Hid & Hl0).
      unfold license_ids. rewrite Hlic', Hl. apply list_elem_of_fmap. exists l.
      split; [done|]. apply elem_of_filter_list. split; [done|].
      apply int_in_iff, list_elem_of_fmap. exists i. split; [done|].
      apply elem_of_filter_list. split; [done|]. apply andb_true_iff.
      split; apply int_in_iff; [exact Hused|]. rewrite Hid.
      by apply (list_elem_of_fmap_2 (λ l, License.id (lic st l))).
  - intros l Hin. rewrite Hl in Hin.
    apply elem_of_filter_list in Hin as [_ Hused]. apply int_in_iff in Hused.
    apply list_elem_of_fmap in Hused as (i & Hid & Hkept). exists i. by rewrite Hi.
  - intros a Hin. rewrite Ha in Hin.
    apply elem_of_filter_list in Hin as [_ Hin]. by apply int_in_iff.
  - intros cs Hp Hall c Hin. rewrite Hc, Hp in Hin.
    unfold annotations_categorized in Hall. rewrite Hann', Ha in Hall. rewrite Hall in Hin.
    simpl in Hin. apply elem_of_filter_list in Hin as [_ Hused]. apply int_in_iff in Hused.
    apply list_elem_of_omap in Hused as (a & Hkept & Hid). exists a. by rewrite Ha.
Qed.

(** X16.  After [trim_dataset], every image has an annotation of the
    dataset and a license of the dataset; every license is the license of
    an image of the dataset; every annotation refers to an image that the
    dataset had before; and, when the dataset had categories and the
    annotations that are left all have a [category_id], every category is
    the category of an annotation that is left.  The records themselves are
    not touched. *)
Theorem trim_dataset_leaves_used_records (st : State) :
  let st' := exec trim_dataset st in
  trim_dataset st = (Ok tt, st')
  ∧ heap st' = heap st
  ∧ (∀ i, i ∈ images (self st') →
       (∃ a, a ∈ annotations (self st') ∧ Ann.image_id (ann st' a) = Image.id (img st' i))
       ∧ Image.license (img st' i) ∈ license_ids st')
  ∧ (∀ l, l ∈ licenses (self st') →
       ∃ i, i ∈ images (self st') ∧ Image.license (img st' i) = License.id (lic st' l))
  ∧ (∀ a, a ∈ annotations (self st') → Ann.image_id (ann st' a) ∈ image_ids st)
  ∧ (∀ cs, categories_present st = Some cs → annotations_categorized st' = true →
       ∀ c, c ∈ default [] (categories (self st')) →
         ∃ a, a ∈ annotations (self st')
              ∧ Ann.category_id (ann st' a) = Some (Cat.id (cat st' c))).
Proof. apply trim_dataset_used. Qed.

(** ** Plural reindexing: the ids that are assigned *)

#[global] Instance reindexes_preorder (c : collection) : PreOrder (reindexes c).
Proof.
  split.
  - intros s. by repeat split.
  - intros s1 s2 s3 (Hm & Ho & Hs) (Hm' & Ho' & Hs'). split; [|split].
    + intros c'. destruct (Hm c') as [E1 E2], (Hm' c') as [E3 E4]. split; congruence.
    + intros c' e Hc. by rewrite Ho', Ho.
    + intros e. by rewrite Hs', Hs.
Qed.

Lemma ids_frame_reindexes (c : collection) (s s' : State) :
  ids_frame s s' → reindexes c s s'.
Proof.
  intros Hf. split; [|split].
  - intros c'. by destruct (Hf c') as (-> & -> & _).
  - intros c' e _. by destruct (Hf c') as (_ & _ & ->).
  - intros e. by destruct (Hf c) as (_ & _ & ->).
Qed.

Lemma sets_id_reindexes (c : collection) (l : loc) (v : Z) (s s' : State) :
  sets_id c l v s s' → reindexes c s s'.
Proof.
  intros Hs. split; [|split].
  - intros c'. by destruct (Hs c') as (-> & -> & _).
  - intros c' e Hc. destruct (Hs c') as (_ & _ & ->). rewrite decide_False; [done|].
    by intros (? & _).
  - intros e. destruct (Hs c) as (_ & _ & ->). case_decide as Hd; [|done].
    destruct Hd as (_ & -> & _ & Hsome). split; [done | eauto].
Qed.

Lemma next_id_Ok (c : collection) (st : State) :
  committed_ids c st ≠ [] →
  ∃ v st1, next_id c st = (Ok v, st1) ∧ ids_frame st st1
           ∧ ∀ e, e ∈ members c st → id_at c st e ≠ Some v.
Proof.
  intros Hne.
  destruct (py_max_nonempty (committed_ids c st ++ reserved_ids c st)) as [m Hm].
  { intros [? _]%app_eq_nil. done. }
  destruct (next_id_step c st m Hm) as (st1 & Hcall & _ & _ & Hh & H1 & H2 & H3 & H4).
  exists (m + 1), st1. split; [done|]. split; [by apply ids_frame_same_heap|].
  intros e He Hid.
  assert (Hin : m + 1 ∈ committed_ids c st).
  { rewrite committed_ids_members. apply list_elem_of_omap. eauto. }
  pose proof (py_max_upper _ _ Hm (m + 1)) as Hle.
  rewrite elem_of_app in Hle. specialize (Hle (or_introl Hin)). lia.
Qed.

Section Assignment.
Context (c : collection) (reindex : loc → option Z → M unit) (displace : Z → M unit).

Hypothesis reindex_sets :
  ∀ l v s, ∃ s', reindex l (Some v) s = (Ok tt, s')
                 ∧ (s' = s ∧ members c s = [] ∨ sets_id c l v s s').

Hypothesis displace_eq :
  ∀ new_id st, new_id ∈ committed_ids c st →
    ∃ l, l ∈ members c st ∧ id_at c st l = Some new_id
         ∧ displace new_id st
           = match next_id c st with
             | (Ok v, st1) => reindex l (Some v) st1
             | (Raise e, st1) => (Raise e, st1)
             end.

Lemma displace_exact (new_id : Z) (st : State) :
  Inv st → new_id ∈ committed_ids c st →
  ∃ st', displace new_id st = (Ok tt, st')
         ∧ Inv st' ∧ reindexes c st st'
         ∧ (new_id ∉ committed_ids c st')
         ∧ ∀ e, id_at c st e ≠ Some new_id → id_at c st' e = id_at c st e.
Proof.
  intros HI Hin. destruct (displace_eq new_id st Hin) as (l & Hl & Hid & ->).
  destruct (next_id_Ok c st) as (v & st1 & -> & Hf & Hfresh).
  { intros Hnil. rewrite Hnil in Hin. by inversion Hin. }
  destruct (reindex_sets l v st1) as (st2 & -> & [[-> Hempty]|Hs]).
  { destruct (Hf c) as (Hm & _). rewrite Hm in Hempty. rewrite Hempty in Hl.
    by inversion Hl. }
  pose proof (sets_id_after_frame _ _ _ _ _ _ Hf Hs) as Hs'.
  exists st2. split; [done|]. split; [|split; [|split]].
  - eapply sets_id_Inv; [exact Hs' | | done]. intros e He _. by apply Hfresh.
  - by eapply sets_id_reindexes.
  - rewrite committed_ids_members. intros (e & He & Hide)%list_elem_of_omap.
    destruct (Hs' c) as (Hm & _ & Hi). rewrite Hm in He. rewrite Hi in Hide.
    destruct HI as [Hh Hu].
    pose proof (proj1 (unique_ids_members st) Hu c) as Hnd.
    case_decide as Hd.
    + injection Hide as ->. by apply (Hfresh l).
    + assert (e = l) as -> by (eapply NoDup_omap_inj; eauto).
      apply Hd. repeat split; [|by rewrite Hid; eauto].
      pose proof (proj1 (heap_ok_members st) Hh c) as Hall.
      rewrite Forall_forall in Hall. by apply Hall.
  - intros e He. destruct (Hs' c) as (_ & _ & ->). rewrite decide_False; [done|].
    intros (_ & -> & _). by apply He.
Qed.

Lemma assign_exact (x : loc) (v : Z) (st : State) :
  Inv st → x ∈ members c st → v ∉ committed_ids c st →
  ∃ st', reindex x (Some v) st = (Ok tt, st')
         ∧ Inv st' ∧ reindexes c st st'
         ∧ id_at c st' x = (λ _, v) <$> id_at c st x
         ∧ ∀ e, e ≠ x → id_at c st' e = id_at c st e.
Proof.
  intros HI Hx Hv. destruct (reindex_sets x v st) as (st' & -> & [[-> Hempty]|Hs]).
  { rewrite Hempty in Hx. by inversion Hx. }
  exists st'. split; [done|]. split; [|split; [|split]].
  - eapply sets_id_Inv; [exact Hs | | done]. intros e He _. by apply not_committed_free.
  - by eapply sets_id_reindexes.
  - destruct (Hs c) as (_ & _ & ->). destruct HI as [Hh _].
    pose proof (proj1 (heap_ok_members st) Hh c) as Hall. rewrite Forall_forall in Hall.
    destruct (id_at c st x) as [i|] eqn:Hid; simpl.
    + rewrite decide_True; [done|]. repeat split; [by apply Hall | eauto].
    + rewrite decide_False; [done|]. intros (_ & _ & _ & Hsome). by destruct Hsome.
  - intros e He. destruct (Hs c) as (_ & _ & ->). rewrite decide_False; [done|].
    by intros (_ & ? & _).
Qed.

Lemma take_id_exact (new_id : Z) (x : loc) (st : State) :
  Inv st → x ∈ members c st →
  ∃ st', take_id c reindex displace new_id x st = (Ok tt, st')
         ∧ Inv st' ∧ reindexes c st st'
         ∧ id_at c st' x = (λ _, new_id) <$> id_at c st x
         ∧ ∀ e, e ≠ x → id_at c st e ≠ Some new_id → id_at c st' e = id_at c st e.
Proof.
  intros HI Hx. unfold take_id, st_bind at 1, read. unfold st_bind at 1.
  destruct (int_in new_id (committed_ids c st)) eqn:Hin; simpl.
  - destruct (displace_exact new_id st HI (int_in_true_inv _ _ Hin))
      as (s1 & -> & HI1 & Hr1 & Hfree & Hkeep).
    destruct (assign_exact x new_id s1 HI1) as (s2 & -> & HI2 & Hr2 & Hx2 & Hkeep2);
      [by rewrite (proj1 (proj1 Hr1 c)) | done |].
    exists s2. split; [done|]. split; [done|]. split; [by etransitivity|]. split.
    + rewrite Hx2. destruct (proj2 (proj2 Hr1) x) as [H1 H2].
      destruct (id_at c st x) as [i|] eqn:Hi.
      * destruct H2 as [j ->]; [eauto | done].
      * destruct (id_at c s1 x) eqn:Hj; [|done]. destruct H1 as [? ?]; [eauto | done].
    + intros e He Hid. rewrite Hkeep2 by done. by apply Hkeep.
  - destruct (assign_exact x new_id st HI Hx (int_in_false_inv _ _ Hin))
      as (s2 & -> & HI2 & Hr2 & Hx2 & Hkeep2).
    exists s2. split; [done|]. split; [done|]. split; [done|]. split; [done|].
    intros e He _. by apply Hkeep2.
Qed.

Lemma NoDup_omap_apart {A B} (f : A → option B) (pre post : list A) (l x : A) (w : B) :
  NoDup (omap f (pre ++ x :: post)) → l ∈ pre → f l = Some w → f x ≠ Some w.
Proof.
  rewrite omap_app. intros Hnd Hl Hfl Hfx. csimpl in Hnd. rewrite Hfx in Hnd.
  apply NoDup_app in Hnd as (_ & Hdis & _). apply (Hdis w).
  - apply list_elem_of_omap. eauto.
  - left.
Qed.

Lemma assign_loop (ls pre : list loc) (vs vpre : list Z) (st : State) :
  Inv st → members c st = pre ++ ls → length vs = length ls → NoDup (vpre ++ vs) →
  Forall2 (λ l v, id_at c st l = None ∨ id_at c st l = Some v) pre vpre →
  ∃ st', for_each (py_zip vs ls) (λ '(v, l), take_id c reindex displace v l) st = (Ok tt, st')
         ∧ Inv st' ∧ reindexes c st st'
         ∧ Forall2 (λ l v, id_at c st' l = None ∨ id_at c st' l = Some v)
             (pre ++ ls) (vpre ++ vs).
Proof.
  revert pre vs vpre st.
  induction ls as [|x ls IH]; intros pre [|v vs] vpre st HI Hm Hlen Hnd Hdone;
    try discriminate Hlen.
  { exists st. rewrite !app_nil_r. split; [done|]. split; [done|]. split; [reflexivity|]. done. }
  destruct (take_id_exact v x st HI) as (s1 & Hstep & HI1 & Hr1 & Hx1 & Hkeep).
  { rewrite Hm, elem_of_app, elem_of_cons. auto. }
  destruct (IH (pre ++ [x]) vs (vpre ++ [v]) s1) as (st' & Hloop & HI' & Hr' & Hall).
  - done.
  - rewrite (proj1 (proj1 Hr1 c)), Hm, <- app_assoc. done.
  - simpl in Hlen. lia.
  - by rewrite <- app_assoc.
  - apply Forall2_app.
    + pose proof (proj1 (unique_ids_members st) (proj2 HI) c) as Hu. rewrite Hm in Hu.
      apply Forall2_same_length_lookup. split; [by eapply Forall2_length|].
      intros i l w Hl Hw. destruct (Forall2_lookup_lr _ _ _ _ _ _ Hdone Hl Hw) as [Hn|Hs].
      * left. destruct (id_at c s1 l) eqn:Hid; [|done].
        destruct (proj1 (proj2 (proj2 Hr1) l)) as [? Hsome]; [eauto|]. congruence.
      * right. rewrite Hkeep; [done| |].
        -- intros ->. apply (NoDup_omap_apart _ _ _ x x w Hu); [|done|done].
           by eapply list_elem_of_lookup_2.
        -- rewrite Hs. intros [= ->]. apply NoDup_app in Hnd as (_ & Hdis & _).
           apply (Hdis v); [by eapply list_elem_of_lookup_2 | left].
    + constructor; [|constructor]. rewrite Hx1. destruct (id_at c st x); simpl; auto.
  - exists st'. simpl. unfold st_bind at 1. rewrite Hstep. split; [done|]. split; [done|].
    split; [by etransitivity|]. by rewrite <- !app_assoc in Hall.
Qed.

Lemma make_room_loop (vs : list Z) (st : State) :
  Inv st →
  ∃ st', for_each vs (λ new_id,
           st_bind (read (committed_ids c)) (λ ids,
             when (int_in new_id ids) (displace new_id))) st = (Ok tt, st')
         ∧ Inv st' ∧ reindexes c st st'.
Proof.
  revert st. induction vs as [|v vs IH]; intros st HI.
  { exists st. split; [done|]. split; [done|]. reflexivity. }
  assert (Hstep : ∃ s1, st_bind (read (committed_ids c)) (λ ids,
                          when (int_in v ids) (displace v)) st = (Ok tt, s1)
                        ∧ Inv s1 ∧ reindexes c st s1).
  { unfold st_bind, read. destruct (int_in v (committed_ids c st)) eqn:Hin; simpl.
    - destruct (displace_exact v st HI (int_in_true_inv _ _ Hin))
        as (s1 & -> & HI1 & Hr1 & _). by exists s1.
    - exists st. split; [done|]. split; [done|]. reflexivity. }
  destruct Hstep as (s1 & Hstep & HI1 & Hr1).
  destruct (IH s1 HI1) as (st' & Hloop & HI' & Hr').
  exists st'. simpl. unfold st_bind at 1. rewrite Hstep. split; [done|]. split; [done|].
  by etransitivity.
Qed.
End Assignment.

Lemma ids_or_range_NoDup (new_ids : option (list Z)) (n : nat) :
  (∀ vs, new_ids = Some vs → NoDup vs) → NoDup (ids_or_range new_ids n).
Proof.
  intros H. destruct new_ids as [[|i is_]|]; simpl;
    [apply NoDup_py_range | by apply H | apply NoDup_py_range].
Qed.

Lemma reindex_images_exact (new_ids : option (list Z)) (st : State) :
  Inv st →
  NoDup (ids_or_range new_ids (length (images (self st)))) →
  length (ids_or_range new_ids (length (images (self st)))) = length (images (self st)) →
  ∃ st', reindex_images new_ids st = (Ok tt, st')
         ∧ Inv st' ∧ reindexes Images st st'
         ∧ Forall2 (λ l v, id_at Images st' l = None ∨ id_at Images st' l = Some v)
             (images (self st)) (ids_or_range new_ids (length (images (self st)))).
Proof.
  intros HI Hnd Hlen. unfold reindex_images, st_bind at 1, read at 1.
  rewrite bool_decide_eq_true_2 by done. cbn [negb].
  set (displace := λ new_id,
         st_bind (query (λ st, get_image st (VInt new_id))) (λ duplicated_image,
         st_bind get_new_image_id (λ fresh,
         match duplicated_image with
         | Some d => reindex_image d (Some fresh)
         | None => raise TypeError
         end))).
  assert (Hsets : ∀ l v s, ∃ s', reindex_image l (Some v) s = (Ok tt, s')
                    ∧ (s' = s ∧ members Images s = [] ∨ sets_id Images l v s s')).
  { intros l v s0. destruct (reindex_image_sets l v s0) as (s' & ? & ?). eauto. }
  assert (Hdisp : ∀ new_id s, new_id ∈ committed_ids Images s →
            ∃ l, l ∈ members Images s ∧ id_at Images s l = Some new_id
                 ∧ displace new_id s
                   = match next_id Images s with
                     | (Ok v, st1) => reindex_image l (Some v) st1
                     | (Raise e, st1) => (Raise e, st1)
                     end).
  { intros i s0 Hin. destruct (get_image_held s0 i Hin) as (l & Hl & Hid & Hget).
    exists l. split; [done|]. split; [by simpl; rewrite Hid|].
    unfold displace, st_bind, query. rewrite Hget. simpl.
    by destruct (get_new_image_id s0) as [[]]. }
  destruct (assign_loop Images reindex_image displace Hsets Hdisp
              (images (self st)) [] _ [] st HI eq_refl Hlen Hnd ltac:(constructor))
    as (st' & Hloop & HI' & Hr & Hall).
  exists st'. split; [exact Hloop|]. done.
Qed.

Lemma reindex_annotations_exact (new_ids : option (list Z)) (st : State) :
  Inv st →
  NoDup (ids_or_range new_ids (length (annotations (self st)))) →
  length (ids_or_range new_ids (length (annotations (self st))))
  = length (annotations (self st)) →
  ∃ st', reindex_annotations new_ids st = (Ok tt, st')
         ∧ Inv st' ∧ reindexes Annotations st st'
         ∧ Forall2 (λ l v, id_at Annotations st' l = None ∨ id_at Annotations st' l = Some v)
             (annotations (self st))
             (ids_or_range new_ids (length (annotations (self st)))).
Proof.
  intros HI Hnd Hlen. unfold reindex_annotations, st_bind at 1, read at 1.
  rewrite bool_decide_eq_true_2 by done. cbn [negb].
  set (displace := λ new_id,
         st_bind (query (λ st, get_annotation st (VInt new_id))) (λ duplicated_annotation,
         st_bind get_new_annotation_id (λ fresh,
         reindex_annotation duplicated_annotation (Some fresh)))).
  assert (Hsets : ∀ l v s, ∃ s', reindex_annotation l (Some v) s = (Ok tt, s')
                    ∧ (s' = s ∧ members Annotations s = [] ∨ sets_id Annotations l v s s')).
  { intros l v s0. destruct (reindex_annotation_sets l v s0) as (s' & ? & ?). eauto. }
  assert (Hdisp : ∀ new_id s, new_id ∈ committed_ids Annotations s →
            ∃ l, l ∈ members Annotations s ∧ id_at Annotations s l = Some new_id
                 ∧ displace new_id s
                   = match next_id Annotations s with
                     | (Ok v, st1) => reindex_annotation l (Some v) st1
                     | (Raise e, st1) => (Raise e, st1)
                     end).
  { intros i s0 Hin. destruct (get_annotation_held s0 i Hin) as (l & Hl & Hid & Hget).
    exists l. split; [done|]. split; [done|].
    unfold displace, st_bind, query. rewrite Hget. simpl.
    by destruct (get_new_annotation_id s0) as [[]]. }
  destruct (assign_loop Annotations reindex_annotation displace Hsets Hdisp
              (annotations (self st)) [] _ [] st HI eq_refl Hlen Hnd ltac:(constructor))
    as (st' & Hloop & HI' & Hr & Hall).
  exists st'. split; [exact Hloop|]. done.
Qed.

Lemma reindex_categories_exact (new_ids : option (list Z)) (st : State) :
  Inv st →
  NoDup (ids_or_range new_ids (length (members Categories st))) →
  length (ids_or_range new_ids (length (members Categories st)))
  = length (members Categories st) →
  ∃ st', reindex_categories new_ids st = (Ok tt, st')
         ∧ Inv st' ∧ reindexes Categories st st'
         ∧ Forall2 (λ l v, id_at Categories st' l = None ∨ id_at Categories st' l = Some v)
             (members Categories st)
             (ids_or_range new_ids (length (members Categories st))).
Proof.
  intros HI Hnd Hlen. unfold reindex_categories, st_bind at 1, read at 1.
  destruct (categories_present st) as [cs|] eqn:Hp.
  - rewrite (categories_present_members st cs Hp) in *.
    rewrite bool_decide_eq_true_2 by done. cbn [negb].
    set (displace := λ new_id,
           st_bind (query (λ st, get_category st (VInt new_id)))
             (λ duplicated_category,
           match duplicated_category with
           | Some d =>
               st_bind get_new_category_id (λ fresh, reindex_category d (Some fresh))
           | None => st_ret tt
           end)).
    assert (Hdisp : ∀ new_id s, new_id ∈ committed_ids Categories s →
              ∃ l, l ∈ members Categories s ∧ id_at Categories s l = Some new_id
                   ∧ displace new_id s
                     = match next_id Categories s with
                       | (Ok v, st1) => reindex_category l (Some v) st1
                       | (Raise e, st1) => (Raise e, st1)
                       end).
    { intros i s0 Hin. destruct (get_category_held s0 i Hin) as (l & Hl & Hid & Hget).
      exists l. split; [done|]. split; [by simpl; rewrite Hid|].
      unfold displace, st_bind, query. rewrite Hget. simpl.
      by destruct (get_new_category_id s0) as [[]]. }
    destruct (assign_loop Categories reindex_category displace reindex_category_sets Hdisp
                cs [] _ [] st HI (categories_present_members st cs Hp) Hlen Hnd
                ltac:(constructor))
      as (st' & Hloop & HI' & Hr & Hall).
    exists st'. split; [exact Hloop|]. done.
  - assert (Hm : members Categories st = []).
    { simpl. unfold categories_present in Hp. by destruct (categories (self st)) as [[|]|]. }
    rewrite Hm in *. exists st. split; [done|]. split; [done|]. split; [reflexivity|].
    simpl in *. destruct (ids_or_range new_ids 0); [constructor | discriminate Hlen].
Qed.

Lemma omap_total_Forall2 {A B} (f : A → option B) (ls : list A) (vs : list B) :
  (∀ l, is_Some (f l)) → omap f ls = vs → Forall2 (λ l v, f l = Some v) ls vs.
Proof.
  intros Hf. revert vs. induction ls as [|l ls IH]; intros vs; csimpl.
  - intros <-. constructor.
  - destruct (Hf l) as [w Hw]. rewrite Hw. csimpl. intros <-. constructor; [done|].
    by apply IH.
Qed.

Lemma reindex_licenses_exact (new_ids : option (list Z)) (st : State) :
  Inv st →
  NoDup (ids_or_range new_ids (length (licenses (self st)))) →
  length (ids_or_range new_ids (length (licenses (self st)))) = length (licenses (self st)) →
  ∃ st', reindex_licenses new_ids st = (Ok tt, st')
         ∧ Inv st' ∧ reindexes Licenses st st'
         ∧ Forall2 (λ l v, id_at Licenses st' l = None ∨ id_at Licenses st' l = Some v)
             (licenses (self st)) (ids_or_range new_ids (length (licenses (self st)))).
Proof.
  intros HI Hnd Hlen. unfold reindex_licenses, st_bind at 1, read at 1.
  set (ids := ids_or_range new_ids (length (licenses (self st)))) in *.
  rewrite bool_decide_eq_true_2 by done. cbn [negb].
  set (displace := λ new_id,
         st_bind (query (λ st0, get_license st0 (VInt new_id))) (λ duplicated_license,
         st_bind get_new_license_id (λ fresh,
         match duplicated_license with
         | Some d => reindex_license d (Some fresh)
         | None => raise TypeError
         end))).
  assert (Hsets : ∀ l v s, ∃ s', reindex_license l (Some v) s = (Ok tt, s')
                    ∧ (s' = s ∧ members Licenses s = [] ∨ sets_id Licenses l v s s')).
  { intros l v s0. destruct (reindex_license_sets l v s0) as (s' & ? & ?). eauto. }
  assert (Hdisp : ∀ new_id s, new_id ∈ committed_ids Licenses s →
            ∃ l, l ∈ members Licenses s ∧ id_at Licenses s l = Some new_id
                 ∧ displace new_id s
                   = match next_id Licenses s with
                     | (Ok v, st1) => reindex_license l (Some v) st1
                     | (Raise e, st1) => (Raise e, st1)
                     end).
  { intros i s0 Hin. destruct (get_license_held s0 i Hin) as (l & Hl & Hid & Hget).
    exists l. split; [done|]. split; [by simpl; rewrite Hid|].
    unfold displace, st_bind, query. rewrite Hget. simpl.
    by destruct (get_new_license_id s0) as [[]]. }
  destruct (make_room_loop Licenses reindex_license displace Hsets Hdisp ids st HI)
    as (s1 & Hroom & [Hh Hu] & Hr1).
  pose proof (proj1 (proj1 Hr1 Licenses)) as Hmem. simpl in Hmem.
  destruct (assign_license_ids ids (licenses (self st)) s1)
    as (st' & Hassign & Hshape & Ho & Hids).
  - done.
  - pose proof (proj1 (unique_ids_members s1) Hu Licenses) as Hn.
    change (members Licenses s1) with (licenses (self s1)) in Hn. rewrite Hmem in Hn.
    assert (Heq : omap (id_at Licenses s1) (licenses (self st))
                  = (λ l, License.id (lic s1 l)) <$> licenses (self st)).
    { clear. induction (licenses (self st)) as [|a l IH]; csimpl; [done|]. by rewrite IH. }
    rewrite Heq in Hn. by apply NoDup_fmap_1 in Hn.
  - pose proof (proj1 (heap_ok_members s1) Hh Licenses) as Hl.
    change (members Licenses s1) with (licenses (self s1)) in Hl. by rewrite Hmem in Hl.
  - exists st'. split; [|split; [|split]].
    + unfold st_bind at 1.
      change (for_each ids _ st) with
        (for_each ids (λ new_id,
           st_bind (read (committed_ids Licenses)) (λ ids0,
             when (int_in new_id ids0) (displace new_id))) st).
      by rewrite Hroom.
    + split.
      * apply heap_ok_members. intros c. destruct (Hshape c) as (-> & ->).
        by apply heap_ok_members.
      * apply unique_ids_members. intros c. destruct (Hshape c) as (-> & _).
        destruct (decide (c = Licenses)) as [->|Hc].
        -- change (members Licenses s1) with (licenses (self s1)). by rewrite Hmem, Hids.
        -- rewrite (omap_ext_in _ (id_at c s1)); [by apply unique_ids_members|].
           intros e _. apply Ho. by left.
    + etransitivity; [exact Hr1|]. split; [|split].
      * apply Hshape.
      * intros c e Hc. apply Ho. by left.
      * intros e. simpl. split; eauto.
    + eapply Forall2_impl; [apply omap_total_Forall2; [|exact Hids]|].
      * intros l. simpl. eauto.
      * simpl. auto.
Qed.

(** The id a record has after a plural reindexing: the new one, when it
    had an id. *)
Lemma reindex_plural_exact (c : collection) (new_ids : option (list Z)) (st : State) :
  Inv st →
  NoDup (ids_or_range new_ids (length (members c st))) →
  length (ids_or_range new_ids (length (members c st))) = length (members c st) →
  ∃ st', reindex_plural c new_ids st = (Ok tt, st')
         ∧ Inv st' ∧ reindexes c st st'
         ∧ Forall2 (λ l v, id_at c st' l = (λ _, v) <$> id_at c st l)
             (members c st) (ids_or_range new_ids (length (members c st))).
Proof.
  intros HI Hnd Hlen.
  assert (H : ∃ st', reindex_plural c new_ids st = (Ok tt, st')
                ∧ Inv st' ∧ reindexes c st st'
                ∧ Forall2 (λ l v, id_at c st' l = None ∨ id_at c st' l = Some v)
                    (members c st) (ids_or_range new_ids (length (members c st)))).
  { destruct c.
    - by apply reindex_licenses_exact.
    - by apply reindex_categories_exact.
    - by apply reindex_images_exact.
    - by apply reindex_annotations_exact. }
  destruct H as (st' & Hrun & HI' & Hr & Hall). exists st'.
  split; [done|]. split; [done|]. split; [done|].
  eapply Forall2_impl; [exact Hall|]. simpl. intros l v Hcase.
  destruct (proj2 (proj2 Hr) l) as [H1 H2].
  destruct (id_at c st l) as [i|] eqn:Hi; simpl.
  - destruct Hcase as [Hn|Hs]; [|done]. destruct H2 as [? ?]; [eauto | congruence].
  - destruct (id_at c st' l) eqn:Hj; [|done]. destruct H1 as [? ?]; [eauto | done].
Qed.

(** X17.  A plural reindexing with pairwise distinct ids, as many as the
    collection has records (or with no ids given: the ids are then 0, 1,
    ...), returns, keeps the ids of the dataset pairwise distinct, and
    gives the k-th record of the collection the k-th id (an annotation that
    has no id gets none); the collections and the ids of the other
    collections are as they were. *)
Theorem reindex_plural_assigns (c : collection) (new_ids : option (list Z)) (st : State) :
  heap_ok st → unique_ids st →
  NoDup (ids_or_range new_ids (length (members c st))) →
  length (ids_or_range new_ids (length (members c st))) = length (members c st) →
  ∃ st', reindex_plural c new_ids st = (Ok tt, st')
         ∧ heap_ok st' ∧ unique_ids st'
         ∧ reindexes c st st'
         ∧ Forall2 (λ l v, id_at c st' l = (λ _, v) <$> id_at c st l)
             (members c st) (ids_or_range new_ids (length (members c st))).
Proof.
  intros Hh Hu Hnd Hlen.
  destruct (reindex_plural_exact c new_ids st (conj Hh Hu) Hnd Hlen)
    as (st' & Hrun & [Hh' Hu'] & Hr & Hall).
  by exists st'.
Qed.

Lemma reindex_plural_assigns_witness :
  heap_ok small_dataset ∧ unique_ids small_dataset
  ∧ NoDup (ids_or_range (Some [1; 0]) (length (members Images small_dataset)))
  ∧ length (ids_or_range (Some [1; 0]) (length (members Images small_dataset)))
    = length (members Images small_dataset)
  ∧ ∃ st', reindex_images (Some [1; 0]) small_dataset = (Ok tt, st')
           ∧ unique_ids st'
           ∧ Forall2 (λ l v, id_at Images st' l = (λ _, v) <$> id_at Images small_dataset l)
               [0%nat; 1%nat] [1; 0].
Proof.
  assert (Hh : heap_ok small_dataset)
    by (unfold heap_ok, refs_ok; simpl; repeat split; repeat constructor).
  assert (Hu : unique_ids small_dataset) by (unfold unique_ids; decide_closed).
  assert (Hnd : NoDup (ids_or_range (Some [1; 0]) (length (members Images small_dataset))))
    by decide_closed.
  assert (Hlen : length (ids_or_range (Some [1; 0]) (length (members Images small_dataset)))
                 = length (members Images small_dataset)) by reflexivity.
  split; [exact Hh|]. split; [exact Hu|]. split; [exact Hnd|]. split; [exact Hlen|].
  destruct (reindex_plural_assigns Images (Some [1; 0]) small_dataset Hh Hu Hnd Hlen)
    as (st' & Hrun & _ & Hu' & _ & Hall).
  exists st'. split; [exact Hrun|]. split; [exact Hu' | exact Hall].
Defined.

Lemma clear_cached_ids_frame (st : State) :
  ∃ st', clear_cached_ids st = (Ok tt, st') ∧ ids_frame st st'
         ∧ ∀ c, reserved_ids c st' = [].
Proof.
  eexists. split; [reflexivity|]. split; [by intros [] | by intros []].
Qed.

Lemma reindex_dataset_exact (st : State) :
  Inv st →
  ∃ st', reindex_dataset st = (Ok tt, st')
         ∧ Inv st'
         ∧ (∀ c, members c st' = members c st)
         ∧ (∀ c, Forall2 (λ l v, id_at c st' l = (λ _, v) <$> id_at c st l)
                   (members c st) (py_range (length (members c st))))
         ∧ ∀ c, reserved_ids c st' = [].
Proof.
  intros HI.
  assert (Hstep : ∀ c s, Inv s →
            ∃ s', reindex_plural c None s = (Ok tt, s') ∧ Inv s' ∧ reindexes c s s'
                  ∧ Forall2 (λ l v, id_at c s' l = (λ _, v) <$> id_at c s l)
                      (members c s) (py_range (length (members c s)))).
  { intros c s HIs. apply (reindex_plural_exact c None s HIs).
    - apply NoDup_py_range.
    - apply length_py_range. }
  destruct (Hstep Annotations st HI) as (s1 & Hrun1 & HI1 & Hr1 & Hall1).
  destruct (Hstep Images s1 HI1) as (s2 & Hrun2 & HI2 & Hr2 & Hall2).
  destruct (Hstep Categories s2 HI2) as (s3 & Hrun3 & HI3 & Hr3 & Hall3).
  destruct (Hstep Licenses s3 HI3) as (s4 & Hrun4 & HI4 & Hr4 & Hall4).
  destruct (clear_cached_ids_frame s4) as (s5 & Hrun5 & Hf5 & Hres).
  exists s5. split; [|split; [|split; [|split]]].
  - unfold reindex_dataset.
    rewrite (st_bind_Ok _ _ st s1 tt) by exact Hrun1.
    rewrite (st_bind_Ok _ _ s1 s2 tt) by exact Hrun2.
    rewrite (st_bind_Ok _ _ s2 s3 tt) by exact Hrun3.
    rewrite (st_bind_Ok _ _ s3 s4 tt) by exact Hrun4.
    exact Hrun5.
  - by eapply ids_frame_Inv.
  - intros c. destruct (Hf5 c) as (-> & _).
    by rewrite (proj1 (proj1 Hr4 c)), (proj1 (proj1 Hr3 c)), (proj1 (proj1 Hr2 c)),
      (proj1 (proj1 Hr1 c)).
  - intros c.
    assert (Hm1 : members c s1 = members c st) by apply Hr1.
    assert (Hm2 : members c s2 = members c st) by (rewrite <- Hm1; apply Hr2).
    assert (Hm3 : members c s3 = members c st) by (rewrite <- Hm2; apply Hr3).
    assert (Hlast : ∀ e, id_at c s5 e = id_at c s4 e) by (intros e; apply Hf5).
    destruct c.
    + rewrite Hm3 in Hall4. eapply Forall2_impl; [exact Hall4|]. cbv beta.
      intros l v Hid. rewrite Hlast, Hid.
      by rewrite (proj1 (proj2 Hr3) Licenses l), (proj1 (proj2 Hr2) Licenses l),
        (proj1 (proj2 Hr1) Licenses l) by done.
    + rewrite Hm2 in Hall3. eapply Forall2_impl; [exact Hall3|]. cbv beta.
      intros l v Hid. rewrite Hlast, (proj1 (proj2 Hr4) Categories l) by done. rewrite Hid.
      by rewrite (proj1 (proj2 Hr2) Categories l), (proj1 (proj2 Hr1) Categories l) by done.
    + rewrite Hm1 in Hall2. eapply Forall2_impl; [exact Hall2|]. cbv beta.
      intros l v Hid.
      rewrite Hlast, (proj1 (proj2 Hr4) Images l), (proj1 (proj2 Hr3) Images l) by done.
      rewrite Hid. by rewrite (proj1 (proj2 Hr1) Images l) by done.
    + eapply Forall2_impl; [exact Hall1|]. cbv beta. intros l v Hid.
      rewrite Hlast, (proj1 (proj2 Hr4) Annotations l), (proj1 (proj2 Hr3) Annotations l),
        (proj1 (proj2 Hr2) Annotations l) by done.
      exact Hid.
  - exact Hres.
Qed.

(** X18.  [reindex_dataset] on a dataset whose ids are pairwise distinct
    within each collection returns and numbers every collection from 0: the
    k-th license, category, image and annotation gets the id k (an
    annotation that has no id gets none); the collections hold the records
    they held, and no id is reserved any more. *)
Theorem reindex_dataset_renumbers (st : State) :
  heap_ok st → unique_ids st →
  ∃ st', reindex_dataset st = (Ok tt, st')
         ∧ heap_ok st' ∧ unique_ids st'
         ∧ (∀ c, members c st' = members c st)
         ∧ (∀ c, Forall2 (λ l v, id_at c st' l = (λ _, v) <$> id_at c st l)
                   (members c st) (py_range (length (members c st))))
         ∧ ∀ c, reserved_ids c st' = [].
Proof.
  intros Hh Hu.
  destruct (reindex_dataset_exact st (conj Hh Hu)) as (st' & Hrun & [Hh' Hu'] & H).
  by exists st'.
Qed.

Lemma remove_category_cascade_witness :
  categories_present two_categories_dataset = Some [0%nat; 1%nat]
  ∧ py_in (cat two_categories_dataset) 0%nat [0%nat; 1%nat] = true
  ∧ annotations (self (exec (remove_category 0%nat true) two_categories_dataset)) = [1%nat]
  ∧ annotations
      (self (exec (remove_category 1%nat true)
               (exec (remove_category 0%nat true) two_categories_dataset)))
    = [1%nat].
Proof.
  split; [reflexivity|]. split; [reflexivity|].
  destruct (remove_category_cascade two_categories_dataset 0%nat [0%nat; 1%nat]
              eq_refl eq_refl) as (_ & _ & H3).
  destruct (remove_category_cascade (exec (remove_category 0%nat true) two_categories_dataset)
              1%nat [1%nat] eq_refl eq_refl) as (_ & H2 & _).
  split.
  - unfold exec. rewrite H3; [reflexivity | done | done].
  - unfold exec at 1. rewrite H2; [reflexivity|]. by left.
Defined.

Lemma reindex_dataset_renumbers_witness :
  heap_ok small_dataset ∧ unique_ids small_dataset
  ∧ ∃ st', reindex_dataset small_dataset = (Ok tt, st')
           ∧ unique_ids st'
           ∧ Forall2 (λ l v, id_at Images st' l = (λ _, v) <$> id_at Images small_dataset l)
               [0%nat; 1%nat] [0; 1]
           ∧ reserved_ids Images st' = [].
Proof.
  assert (Hh : heap_ok small_dataset)
    by (unfold heap_ok, refs_ok; simpl; repeat split; repeat constructor).
  assert (Hu : unique_ids small_dataset) by (unfold unique_ids; decide_closed).
  split; [exact Hh|]. split; [exact Hu|].
  destruct (reindex_dataset_renumbers small_dataset Hh Hu)
    as (st' & Hrun & _ & Hu' & _ & Hall & Hres).
  exists st'. split; [exact Hrun|]. split; [exact Hu'|].
  split; [exact (Hall Images) | exact (Hres Images)].
Defined.

(** ** Reindexing and the references between records *)

Lemma ann_update_annotation (x : loc) (f : Annotation → Annotation) (st : State) (a : loc) :
  ann (update_annotation x f st) a
  = if decide (x = a ∧ (x < length (h_annotations (heap st)))%nat)
    then f (ann st x) else ann st a.
Proof. unfold ann. simpl. apply list_lookup_total_insert. Qed.

Lemma img_update_image (x : loc) (f : Image.t → Image.t) (st : State) (a : loc) :
  img (update_image x f st) a
  = if decide (x = a ∧ (x < length (h_images (heap st)))%nat)
    then f (img st x) else img st a.
Proof. unfold img. simpl. apply list_lookup_total_insert. Qed.

Lemma foldl_update_annotation (f : Annotation → Annotation) (ls : list loc) (st : State) :
  (∀ x, f (f x) = f x) →
  self (foldl (λ s a, update_annotation a f s) st ls) = self st
  ∧ h_licenses (heap (foldl (λ s a, update_annotation a f s) st ls)) = h_licenses (heap st)
  ∧ h_images (heap (foldl (λ s a, update_annotation a f s) st ls)) = h_images (heap st)
  ∧ h_categories (heap (foldl (λ s a, update_annotation a f s) st ls))
    = h_categories (heap st)
  ∧ length (h_annotations (heap (foldl (λ s a, update_annotation a f s) st ls)))
    = length (h_annotations (heap st))
  ∧ ∀ a, ann (foldl (λ s a, update_annotation a f s) st ls) a
         = if decide (a ∈ ls ∧ (a < length (h_annotations (heap st)))%nat)
           then f (ann st a) else ann st a.
Proof.
  intros Hf. revert st. induction ls as [|x ls IH]; intros st; simpl.
  { by repeat split. }
  destruct (IH (update_annotation x f st)) as (H1 & H2 & H3 & H4 & H5 & H6).
  simpl in *. rewrite length_insert in H5, H6.
  repeat split; try done.
  intros a. rewrite H6, !ann_update_annotation.
  destruct (decide (x = a ∧ (x < length (h_annotations (heap st)))%nat)) as [[-> Hlt]|Hn].
  - rewrite (decide_True (P := a ∈ a :: ls ∧ _)) by (split; [left | done]).
    case_decide; [apply Hf | done].
  - destruct (decide (a ∈ ls ∧ (a < length (h_annotations (heap st)))%nat)) as [[Ha Hlt]|Hn'].
    + rewrite decide_True; [done|]. split; [by right | done].
    + rewrite decide_False; [done|]. intros [[->|Ha]%elem_of_cons Hlt].
      * by apply Hn.
      * by apply Hn'.
Qed.

Lemma foldl_update_image (f : Image.t → Image.t) (ls : list loc) (st : State) :
  (∀ x, f (f x) = f x) →
  self (foldl (λ s a, update_image a f s) st ls) = self st
  ∧ h_licenses (heap (foldl (λ s a, update_image a f s) st ls)) = h_licenses (heap st)
  ∧ h_annotations (heap (foldl (λ s a, update_image a f s) st ls)) = h_annotations (heap st)
  ∧ h_categories (heap (foldl (λ s a, update_image a f s) st ls))
    = h_categories (heap st)
  ∧ length (h_images (heap (foldl (λ s a, update_image a f s) st ls)))
    = length (h_images (heap st))
  ∧ ∀ a, img (foldl (λ s a, update_image a f s) st ls) a
         = if decide (a ∈ ls ∧ (a < length (h_images (heap st)))%nat)
           then f (img st a) else img st a.
Proof.
  intros Hf. revert st. induction ls as [|x ls IH]; intros st; simpl.
  { by repeat split. }
  destruct (IH (update_image x f st)) as (H1 & H2 & H3 & H4 & H5 & H6).
  simpl in *. rewrite length_insert in H5, H6.
  repeat split; try done.
  intros a. rewrite H6, !img_update_image.
  destruct (decide (x = a ∧ (x < length (h_images (heap st)))%nat)) as [[-> Hlt]|Hn].
  - rewrite (decide_True (P := a ∈ a :: ls ∧ _)) by (split; [left | done]).
    case_decide; [apply Hf | done].
  - destruct (decide (a ∈ ls ∧ (a < length (h_images (heap st)))%nat)) as [[Ha Hlt]|Hn'].
    + rewrite decide_True; [done|]. split; [by right | done].
    + rewrite decide_False; [done|]. intros [[->|Ha]%elem_of_cons Hlt].
      * by apply Hn.
      * by apply Hn'.
Qed.

Lemma members_same_self (s s' : State) :
  self s' = self s → ∀ c, members c s' = members c s.
Proof. intros H []; simpl; by rewrite H. Qed.

Lemma distinct_ids (c : collection) (st : State) (x y : loc) :
  unique_ids st → x ∈ members c st → y ∈ members c st → x ≠ y →
  ∀ i, id_at c st x = Some i → id_at c st y ≠ Some i.
Proof.
  intros Hu Hx Hy Hne i Hi Hj. apply Hne.
  eapply NoDup_omap_inj; [apply (proj1 (unique_ids_members st) Hu c) | done..].
Qed.

Lemma reindex_image_refers (st0 : State) (l : loc) (v : Z) (s s' : State) :
  Inv s → l ∈ images (self s) → reindex_image l (Some v) s = (Ok tt, s') →
  refers_as_in on_image Annotations Images st0 s →
  refers_as_in on_image Annotations Images st0 s'.
Proof.
  intros [Hh Hu] Hl Hrun [Hm Hlinks].
  unfold reindex_image, st_bind, st_ret, query in Hrun. simpl in Hrun.
  rewrite for_each_modify in Hrun. injection Hrun as <-.
  set (ls := List.filter (λ a, bool_decide (Ann.image_id (ann s a) = Image.id (img s l)))
               (annotations (self s))).
  destruct (foldl_update_annotation (Ann.set_image_id v) ls s) as (E1 & E2 & E3 & E4 & E5 & E6).
  { by intros []. }
  set (s1 := foldl (λ s a, update_annotation a (Ann.set_image_id v) s) s ls) in *.
  split.
  { intros c. rewrite <- Hm. apply members_same_self. simpl. exact E1. }
  intros a x Ha Hx Hon. specialize (Hlinks a x Ha Hx Hon).
  rewrite <- (Hm Annotations) in Ha. rewrite <- (Hm Images) in Hx. simpl in Ha, Hx.
  pose proof (proj1 (heap_ok_members s) Hh) as Hlive.
  pose proof (Hlive Annotations) as HliveA. pose proof (Hlive Images) as HliveI.
  rewrite Forall_forall in HliveA, HliveI. simpl in HliveA, HliveI.
  assert (Himg : ∀ y, img s1 y = img s y) by (intros y; unfold img; by rewrite E3).
  assert (Hann : ann (update_image l (Image.set_id v) s1) a = ann s1 a) by done.
  unfold on_image in *. rewrite Hann, img_update_image, E6, !Himg, E3.
  destruct (decide (x = l)) as [->|Hne].
  - rewrite (decide_True (P := l = l ∧ _)) by (split; [done | by apply HliveI]).
    rewrite decide_True.
    + by destruct (ann s a).
    + split; [|by apply HliveA]. apply elem_of_filter_list. split; [done|].
      by apply bool_decide_eq_true.
  - rewrite (decide_False (P := l = x ∧ _)) by (by intros [-> _]).
    rewrite decide_False; [done|]. intros [Hin _].
    apply elem_of_filter_list in Hin as [_ Heq]. apply bool_decide_eq_true in Heq.
    apply (distinct_ids Images s x l Hu Hx Hl Hne (Image.id (img s x))); [done|].
    simpl. congruence.
Qed.

Lemma next_id_same_records (c : collection) (st : State) :
  committed_ids c st ≠ [] →
  ∃ v st1, next_id c st = (Ok v, st1) ∧ heap st1 = heap st
           ∧ (∀ c', members c' st1 = members c' st) ∧ ids_frame st st1.
Proof.
  intros Hne.
  destruct (py_max_nonempty (committed_ids c st ++ reserved_ids c st)) as [m Hm].
  { intros [? _]%app_eq_nil. done. }
  destruct (next_id_step c st m Hm) as (st1 & Hcall & _ & _ & Hh & H1 & H2 & H3 & H4).
  exists (m + 1), st1. split; [done|]. split; [done|]. split.
  - intros []; simpl; congruence.
  - by apply ids_frame_same_heap.
Qed.

Section References.
Context (c : collection) (reindex : loc → option Z → M unit) (displace : Z → M unit).
Variable J : State → Prop.

Hypothesis reindex_sets :
  ∀ l v s, ∃ s', reindex l (Some v) s = (Ok tt, s')
                 ∧ (s' = s ∧ members c s = [] ∨ sets_id c l v s s').

Hypothesis displace_eq :
  ∀ new_id st, new_id ∈ committed_ids c st →
    ∃ l, l ∈ members c st ∧ id_at c st l = Some new_id
         ∧ displace new_id st
           = match next_id c st with
             | (Ok v, st1) => reindex l (Some v) st1
             | (Raise e, st1) => (Raise e, st1)
             end.

Hypothesis J_same_records :
  ∀ s s', heap s' = heap s → (∀ c', members c' s' = members c' s) → J s → J s'.

Hypothesis reindex_keeps :
  ∀ l v s s', Inv s → l ∈ members c s → reindex l (Some v) s = (Ok tt, s') → J s → J s'.

Lemma displace_keeps (new_id : Z) (st st' : State) :
  Inv st → new_id ∈ committed_ids c st → displace new_id st = (Ok tt, st') → J st → J st'.
Proof.
  intros HI Hin Hrun HJ. destruct (displace_eq new_id st Hin) as (l & Hl & Hid & Heq).
  rewrite Heq in Hrun.
  destruct (next_id_same_records c st) as (v & st1 & Hcall & Hh & Hm & Hf).
  { intros Hnil. rewrite Hnil in Hin. by inversion Hin. }
  rewrite Hcall in Hrun. eapply reindex_keeps; [| |exact Hrun|].
  - by eapply ids_frame_Inv.
  - by rewrite Hm.
  - by eapply J_same_records.
Qed.

Lemma take_id_keeps (new_id : Z) (x : loc) (st st' : State) :
  Inv st → x ∈ members c st →
  take_id c reindex displace new_id x st = (Ok tt, st') → J st → J st'.
Proof.
  intros HI Hx Hrun HJ. unfold take_id, st_bind at 1, read in Hrun.
  unfold st_bind at 1 in Hrun.
  destruct (int_in new_id (committed_ids c st)) eqn:Hin; simpl in Hrun.
  - destruct (displace_exact c reindex displace reindex_sets displace_eq new_id st HI
                (int_in_true_inv _ _ Hin)) as (s1 & Hd & HI1 & Hr1 & _).
    rewrite Hd in Hrun. eapply reindex_keeps; [exact HI1 | | exact Hrun |].
    + by rewrite (proj1 (proj1 Hr1 c)).
    + eapply displace_keeps; [exact HI | | exact Hd | exact HJ].
      by apply int_in_true_inv.
  - by eapply reindex_keeps.
Qed.

Lemma assign_loop_keeps (ls : list loc) (vs : list Z) (st st' : State) :
  Inv st → (∀ x, x ∈ ls → x ∈ members c st) →
  for_each (py_zip vs ls) (λ '(v, l), take_id c reindex displace v l) st = (Ok tt, st') →
  J st → J st'.
Proof.
  revert vs st. induction ls as [|x ls IH]; intros [|v vs] st HI Hls Hrun HJ;
    simpl in Hrun; try (by injection Hrun as <-).
  unfold st_bind at 1 in Hrun.
  destruct (take_id_exact c reindex displace reindex_sets displace_eq v x st HI)
    as (s1 & Hstep & HI1 & Hr1 & _).
  { apply Hls. left. }
  rewrite Hstep in Hrun. apply (IH vs s1); [done | | done |].
  - intros y Hy. rewrite (proj1 (proj1 Hr1 c)). apply Hls. by right.
  - eapply take_id_keeps; [exact HI | | exact Hstep | exact HJ]. apply Hls. left.
Qed.

Lemma make_room_keeps (vs : list Z) (st st' : State) :
  Inv st →
  for_each vs (λ new_id,
    st_bind (read (committed_ids c)) (λ ids,
      when (int_in new_id ids) (displace new_id))) st = (Ok tt, st') →
  J st → J st'.
Proof.
  revert st. induction vs as [|v vs IH]; intros st HI Hrun HJ; simpl in Hrun.
  { by injection Hrun as <-. }
  unfold st_bind at 1, read in Hrun. unfold st_bind at 1 in Hrun.
  destruct (int_in v (committed_ids c st)) eqn:Hin; simpl in Hrun.
  - destruct (displace_exact c reindex displace reindex_sets displace_eq v st HI
                (int_in_true_inv _ _ Hin)) as (s1 & Hd & HI1 & _).
    rewrite Hd in Hrun. apply (IH s1); [done | done |].
    eapply displace_keeps; [exact HI | | exact Hd | exact HJ]. by apply int_in_true_inv.
  - by apply (IH st).
Qed.
(** The displaced record gets an id above the one it gives up. *)
Lemma displace_above (new_id : Z) (st : State) :
  Inv st → new_id ∈ committed_ids c st →
  ∃ st', displace new_id st = (Ok tt, st')
         ∧ Inv st' ∧ (∀ c', members c' st' = members c' st)
         ∧ ∀ i, i ∈ committed_ids c st' → i ≠ new_id ∧ (i ∈ committed_ids c st ∨ new_id < i).
Proof.
  intros HI Hin.
  destruct (displace_exact c reindex displace reindex_sets displace_eq new_id st HI Hin)
    as (st' & Hrun & HI' & Hr & Hfree & Hkeep).
  exists st'. split; [done|]. split; [done|]. split; [intros c'; apply (proj1 Hr c')|].
  intros i Hi. split; [by intros ->|].
  destruct (displace_eq new_id st Hin) as (l & Hl & Hid & Heq). rewrite Heq in Hrun.
  destruct (py_max_nonempty (committed_ids c st ++ reserved_ids c st)) as [m Hm].
  { intros [Hnil _]%app_eq_nil. rewrite Hnil in Hin. by inversion Hin. }
  destruct (next_id_step c st m Hm) as (st1 & Hcall & _ & _ & Hh & H1 & H2 & H3 & H4).
  rewrite Hcall in Hrun.
  destruct (reindex_sets l (m + 1) st1) as (s2 & Hre & Hs). rewrite Hre in Hrun.
  injection Hrun as ->.
  assert (Hm1 : ∀ c', members c' st1 = members c' st) by (intros []; simpl; congruence).
  destruct Hs as [[-> Hempty]|Hs].
  { rewrite Hm1 in Hempty. rewrite Hempty in Hl. by inversion Hl. }
  rewrite committed_ids_members in Hi. apply list_elem_of_omap in Hi as (e & He & Hide).
  destruct (Hs c) as (Hmem & _ & Hi'). rewrite Hi' in Hide. case_decide as Hd.
  - injection Hide as <-. right.
    pose proof (py_max_upper _ _ Hm new_id) as Hle. rewrite elem_of_app in Hle.
    specialize (Hle (or_introl Hin)). lia.
  - left. rewrite (id_at_same_heap c st st1 e Hh) in Hide.
    rewrite committed_ids_members. apply list_elem_of_omap. exists e.
    split; [|done]. by rewrite <- Hm1, <- Hmem.
Qed.

(** Making room for increasing ids leaves none of them in use. *)
Lemma make_room_clears (vs done_ : list Z) (st : State) :
  Inv st → StronglySorted Z.lt (done_ ++ vs) →
  (∀ d, d ∈ done_ → d ∉ committed_ids c st) →
  ∃ st', for_each vs (λ new_id,
           st_bind (read (committed_ids c)) (λ ids,
             when (int_in new_id ids) (displace new_id))) st = (Ok tt, st')
         ∧ Inv st' ∧ (∀ c', members c' st' = members c' st)
         ∧ ∀ d, d ∈ done_ ++ vs → d ∉ committed_ids c st'.
Proof.
  revert done_ st. induction vs as [|v vs IH]; intros done_ st HI Hsort Hdone.
  { exists st. rewrite app_nil_r. split; [done|]. split; [done|]. split; [done|]. exact Hdone. }
  assert (Hstep : ∃ s1, st_bind (read (committed_ids c)) (λ ids,
                          when (int_in v ids) (displace v)) st = (Ok tt, s1)
                        ∧ Inv s1 ∧ (∀ c', members c' s1 = members c' st)
                        ∧ ∀ d, d ∈ done_ ++ [v] → d ∉ committed_ids c s1).
  { unfold st_bind, read. destruct (int_in v (committed_ids c st)) eqn:Hin; simpl.
    - destruct (displace_above v st HI (int_in_true_inv _ _ Hin))
        as (s1 & -> & HI1 & Hm1 & Hids).
      exists s1. split; [done|]. split; [done|]. split; [done|].
      intros d Hd Hc. destruct (Hids d Hc) as [Hne [Hold|Hlt]].
      + apply elem_of_app in Hd as [Hd|Hd%list_elem_of_singleton]; [|done].
        by apply (Hdone d).
      + apply elem_of_app in Hd as [Hd|Hd%list_elem_of_singleton]; [|done].
        apply (StronglySorted_app_1_elem_of _ _ _ d v) in Hsort; [lia | done | left].
    - exists st. split; [done|]. split; [done|]. split; [done|].
      intros d [Hd|Hd%list_elem_of_singleton]%elem_of_app; [by apply Hdone|].
      subst d. by apply int_in_false_inv. }
  destruct Hstep as (s1 & Hstep & HI1 & Hm1 & Hclear).
  destruct (IH (done_ ++ [v]) s1 HI1) as (st' & Hloop & HI' & Hm' & Hclear').
  { by rewrite <- app_assoc. }
  { done. }
  exists st'. simpl. unfold st_bind at 1. rewrite Hstep. split; [done|]. split; [done|].
  split; [intros c'; by rewrite Hm', Hm1|]. by rewrite <- app_assoc in Hclear'.
Qed.

(** Giving ids that are not in use, one record after the other. *)
Lemma assign_free_loop (ls : list loc) (vs : list Z) (st : State) :
  Inv st → (∀ x, x ∈ ls → x ∈ members c st) → NoDup vs →
  (∀ v, v ∈ vs → v ∉ committed_ids c st) → J st →
  ∃ st', for_each (py_zip vs ls) (λ '(v, l), reindex l (Some v)) st = (Ok tt, st')
         ∧ Inv st' ∧ J st'.
Proof.
  revert vs st. induction ls as [|x ls IH]; intros [|v vs] st HI Hls Hnd Hfree HJ;
    try (by exists st).
  apply NoDup_cons in Hnd as [Hv Hnd].
  destruct (assign_exact c reindex reindex_sets x v st HI) as (s1 & Hstep & HI1 & Hr1 & Hx & Hkeep).
  { apply Hls. left. }
  { apply Hfree. left. }
  destruct (IH vs s1 HI1) as (st' & Hloop & HI' & HJ').
  - intros y Hy. rewrite (proj1 (proj1 Hr1 c)). apply Hls. by right.
  - done.
  - intros w Hw Hc. rewrite committed_ids_members in Hc.
    apply list_elem_of_omap in Hc as (e & He & Hide).
    destruct (decide (e = x)) as [->|Hne].
    + rewrite Hx in Hide. destruct (id_at c st x); [|done]. injection Hide as <-. done.
    + rewrite Hkeep in Hide by done. apply (Hfree w); [by right|].
      rewrite committed_ids_members. apply list_elem_of_omap. exists e.
      split; [|done]. by rewrite <- (proj1 (proj1 Hr1 c)).
  - eapply reindex_keeps; [exact HI | | exact Hstep | exact HJ]. apply Hls. left.
  - exists st'. simpl. unfold st_bind at 1. rewrite Hstep. done.
Qed.
End References.

Lemma refers_as_in_same_records (link : State → loc → loc → Prop)
    (child parent : collection) (s0 s s' : State) :
  (∀ a x, link s a x → link s' a x) →
  (∀ c', members c' s' = members c' s) →
  refers_as_in link child parent s0 s → refers_as_in link child parent s0 s'.
Proof.
  intros Hl Hm [Hm0 Hk]. split.
  - intros c'. by rewrite Hm.
  - intros a x Ha Hx Hon. by apply Hl, Hk.
Qed.

Lemma lic_update_license (x : loc) (f : License.t → License.t) (st : State) (a : loc) :
  lic (update_license x f st) a
  = if decide (x = a ∧ (x < length (h_licenses (heap st)))%nat)
    then f (lic st x) else lic st a.
Proof. unfold lic. simpl. apply list_lookup_total_insert. Qed.

Lemma reindex_license_refers (st0 : State) (l : loc) (v : Z) (s s' : State) :
  Inv s → l ∈ licenses (self s) → reindex_license l (Some v) s = (Ok tt, s') →
  refers_as_in under_license Images Licenses st0 s →
  refers_as_in under_license Images Licenses st0 s'.
Proof.
  intros [Hh Hu] Hl Hrun [Hm Hlinks].
  unfold reindex_license, st_bind, st_ret, query in Hrun. simpl in Hrun.
  rewrite for_each_modify in Hrun. injection Hrun as <-.
  set (ls := List.filter
               (λ image, bool_decide (Image.license (img s image) = License.id (lic s l)))
               (images (self s))).
  destruct (foldl_update_image (Image.set_license v) ls s) as (E1 & E2 & E3 & E4 & E5 & E6).
  { by intros []. }
  set (s1 := foldl (λ s a, update_image a (Image.set_license v) s) s ls) in *.
  split.
  { intros c. rewrite <- Hm. apply members_same_self. simpl. exact E1. }
  intros i x Hi Hx Hon. specialize (Hlinks i x Hi Hx Hon).
  rewrite <- (Hm Images) in Hi. rewrite <- (Hm Licenses) in Hx. simpl in Hi, Hx.
  pose proof (proj1 (heap_ok_members s) Hh) as Hlive.
  pose proof (Hlive Licenses) as HliveL. pose proof (Hlive Images) as HliveI.
  rewrite Forall_forall in HliveL, HliveI. simpl in HliveL, HliveI.
  assert (Hlic : ∀ y, lic s1 y = lic s y) by (intros y; unfold lic; by rewrite E2).
  assert (Himg : img (update_license l (License.set_id v) s1) i = img s1 i) by done.
  unfold under_license in *. rewrite Himg, lic_update_license, E6, !Hlic, E2.
  destruct (decide (x = l)) as [->|Hne].
  - rewrite (decide_True (P := l = l ∧ _)) by (split; [done | by apply HliveL]).
    rewrite decide_True.
    + by destruct (img s i).
    + split; [|by apply HliveI]. apply elem_of_filter_list. split; [done|].
      by apply bool_decide_eq_true.
  - rewrite (decide_False (P := l = x ∧ _)) by (by intros [-> _]).
    rewrite decide_False; [done|]. intros [Hin _].
    apply elem_of_filter_list in Hin as [_ Heq]. apply bool_decide_eq_true in Heq.
    apply (distinct_ids Licenses s x l Hu Hx Hl Hne (License.id (lic s x))); [done|].
    simpl. congruence.
Qed.

Lemma increasing_NoDup (vs : list Z) : StronglySorted Z.lt vs → NoDup vs.
Proof.
  induction 1 as [|v vs Hs IH Hall]; constructor; [|done].
  intros Hin. rewrite Forall_forall in Hall. specialize (Hall v Hin). lia.
Qed.

Lemma foldl_annotations (step : loc → State → State) (g : Annotation → Annotation)
    (hc : list Category) (ls : list loc) (st : State) :
  (∀ x, g (g x) = g x) →
  (∀ a s, h_categories (heap s) = hc →
     self (step a s) = self s
     ∧ h_licenses (heap (step a s)) = h_licenses (heap s)
     ∧ h_images (heap (step a s)) = h_images (heap s)
     ∧ h_categories (heap (step a s)) = h_categories (heap s)
     ∧ length (h_annotations (heap (step a s))) = length (h_annotations (heap s))
     ∧ ∀ b, ann (step a s) b
            = if decide (a = b ∧ (a < length (h_annotations (heap s)))%nat)
              then g (ann s a) else ann s b) →
  h_categories (heap st) = hc →
  self (foldl (λ s a, step a s) st ls) = self st
  ∧ h_licenses (heap (foldl (λ s a, step a s) st ls)) = h_licenses (heap st)
  ∧ h_images (heap (foldl (λ s a, step a s) st ls)) = h_images (heap st)
  ∧ h_categories (heap (foldl (λ s a, step a s) st ls)) = h_categories (heap st)
  ∧ length (h_annotations (heap (foldl (λ s a, step a s) st ls)))
    = length (h_annotations (heap st))
  ∧ ∀ a, ann (foldl (λ s a, step a s) st ls) a
         = if decide (a ∈ ls ∧ (a < length (h_annotations (heap st)))%nat)
           then g (ann st a) else ann st a.
Proof.
  intros Hg Hstep. revert st. induction ls as [|x ls IH]; intros st Hc; simpl.
  { by repeat split. }
  destruct (Hstep x st Hc) as (S1 & S2 & S3 & S4 & S5 & S6).
  destruct (IH (step x st)) as (H1 & H2 & H3 & H4 & H5 & H6); [congruence|].
  split; [congruence|]. split; [congruence|]. split; [congruence|].
  split; [congruence|]. split; [congruence|].
  intros a. rewrite H6, S5, !S6.
  destruct (decide (x = a)) as [->|Hne].
  - destruct (decide (a < length (h_annotations (heap st)))%nat) as [Hlt|Hge].
    + rewrite !(decide_True (P := a = a ∧ _)) by done.
      rewrite (decide_True (P := a ∈ a :: ls ∧ _)) by (split; [left | done]).
      destruct (decide (a ∈ ls ∧ _)); [apply Hg | done].
    + rewrite !(decide_False (P := a = a ∧ _)) by (by intros [_ ?]).
      rewrite (decide_False (P := a ∈ ls ∧ _)) by (by intros [_ ?]).
      rewrite (decide_False (P := a ∈ a :: ls ∧ _)) by (by intros [_ ?]). done.
  - rewrite !(decide_False (P := x = a ∧ _)) by (by intros [? _]).
    destruct (decide (a ∈ ls ∧ (a < length (h_annotations (heap st)))%nat)) as [[Ha Hlt]|Hn'].
    + rewrite decide_True; [done|]. split; [by right | done].
    + rewrite decide_False; [done|]. intros [[->|Ha]%elem_of_cons Hlt]; [done|].
      by apply Hn'.
Qed.

Lemma recategorize_twice (old_id new_id : Z) (a : Annotation) :
  recategorize old_id new_id (recategorize old_id new_id a) = recategorize old_id new_id a.
Proof.
  unfold recategorize. destruct a; simpl; try done.
  f_equal. rewrite <- list_fmap_compose. apply list_fmap_ext. intros _ s _. simpl.
  destruct (bool_decide (SegmentInfo.category_id s = old_id)) eqn:H1; simpl.
  - by destruct (bool_decide (new_id = old_id)).
  - by rewrite H1.
Qed.

Lemma recategorize_class (old_id new_id : Z) (a : Annotation) :
  is_Categorized (recategorize old_id new_id a) = is_Categorized a
  ∧ is_Panoptic (recategorize old_id new_id a) = is_Panoptic a.
Proof. by destruct a. Qed.

(** The category ids of an annotation of the category: the old id has
    become the new id, the other ids are the same. *)
Lemma recategorize_ids (old_id new_id : Z) (a : Annotation) :
  is_Categorized a || is_Panoptic a = true →
  old_id ∈ annotation_category_ids a →
  annotation_category_ids (recategorize old_id new_id a)
  = (λ i, if bool_decide (i = old_id) then new_id else i) <$> annotation_category_ids a.
Proof.
  intros Hclass Hin. destruct a; simpl in *; try done;
    try (apply list_elem_of_singleton in Hin as <-; by rewrite bool_decide_eq_true_2).
  unfold annotation_category_ids. simpl. rewrite <- !list_fmap_compose.
  apply list_fmap_ext. intros _ s _. simpl. by case_bool_decide.
Qed.

Lemma cat_update_category (x : loc) (f : Category → Category) (st : State) (a : loc) :
  cat (update_category x f st) a
  = if decide (x = a ∧ (x < length (h_categories (heap st)))%nat)
    then f (cat st x) else cat st a.
Proof. unfold cat. simpl. apply list_lookup_total_insert. Qed.

Lemma members_categories_present (st : State) (l : loc) :
  l ∈ members Categories st → categories_present st = Some (members Categories st).
Proof.
  simpl. unfold categories_present.
  destruct (categories (self st)) as [[|]|]; simpl; [by inversion 1 | done | by inversion 1].
Qed.

(** What [reindex_category] does in a dataset whose annotations all have a
    category or segments. *)
Lemma reindex_category_state (l : loc) (v : Z) (s : State) :
  l ∈ members Categories s → annotations_categorized_or_panoptic s = true →
  ∃ s1, reindex_category l (Some v) s = (Ok tt, update_category l (Cat.set_id v) s1)
        ∧ self s1 = self s
        ∧ h_licenses (heap s1) = h_licenses (heap s)
        ∧ h_images (heap s1) = h_images (heap s)
        ∧ h_categories (heap s1) = h_categories (heap s)
        ∧ length (h_annotations (heap s1)) = length (h_annotations (heap s))
        ∧ ∀ a, ann s1 a
               = if decide (a ∈ List.filter
                                  (λ a, int_in (Cat.id (cat s l))
                                          (annotation_category_ids (ann s a)))
                                  (annotations (self s))
                            ∧ (a < length (h_annotations (heap s)))%nat)
                 then recategorize (Cat.id (cat s l)) v (ann s a) else ann s a.
Proof.
  intros Hl Hcop. unfold reindex_category, st_bind at 1, read at 1.
  rewrite (members_categories_present s l Hl). unfold st_bind, st_ret, query.
  unfold get_annotations_by_category. rewrite (members_categories_present s l Hl), Hcop.
  simpl. rewrite for_each_modify. eexists. split; [reflexivity|].
  apply (foldl_annotations _ (recategorize (Cat.id (cat s l)) v) (h_categories (heap s)));
    [apply recategorize_twice | | done].
  intros a s0 Hc.
  assert (Hcat : Cat.id (cat s0 l) = Cat.id (cat s l)) by (unfold cat; by rewrite Hc).
  destruct (is_Categorized (ann s0 a)) eqn:H1; [|destruct (is_Panoptic (ann s0 a)) eqn:H2].
  - repeat split; simpl; try done; [apply length_insert|].
    intros b. rewrite ann_update_annotation. unfold recategorize. by rewrite H1.
  - repeat split; simpl; try done; [apply length_insert|].
    intros b. rewrite ann_update_annotation. unfold recategorize. by rewrite H1, H2, Hcat.
  - repeat split; try done. intros b. unfold recategorize. rewrite H1, H2.
    by case_decide as Hd; [destruct Hd as [-> _]|].
Qed.

Lemma reindex_category_refers (st0 : State) (l : loc) (v : Z) (s s' : State) :
  Inv s → l ∈ members Categories s → reindex_category l (Some v) s = (Ok tt, s') →
  categories_as_in st0 s → categories_as_in st0 s'.
Proof.
  intros [Hh Hu] Hl Hrun [[Hm Hlinks] Hcop].
  destruct (reindex_category_state l v s Hl Hcop) as (s1 & Heq & E1 & E2 & E3 & E4 & E5 & E6).
  rewrite Heq in Hrun. injection Hrun as <-.
  pose proof (proj1 (heap_ok_members s) Hh) as Hlive.
  pose proof (Hlive Annotations) as HliveA. pose proof (Hlive Categories) as HliveC.
  rewrite Forall_forall in HliveA, HliveC. simpl in HliveA, HliveC.
  assert (Hann : ∀ a, ann (update_category l (Cat.set_id v) s1) a = ann s1 a) by done.
  assert (Hcat : ∀ y, cat s1 y = cat s y) by (intros y; unfold cat; by rewrite E4).
  assert (Hclass : ∀ a, a ∈ annotations (self s) →
                     is_Categorized (ann s a) || is_Panoptic (ann s a) = true).
  { intros a Ha. unfold annotations_categorized_or_panoptic in Hcop.
    rewrite forallb_forall in Hcop. apply Hcop. by apply list_elem_of_In. }
  split; [split|].
  - intros c. rewrite <- Hm. apply members_same_self. simpl. exact E1.
  - intros a x Ha Hx Hon. specialize (Hlinks a x Ha Hx Hon).
    rewrite <- (Hm Annotations) in Ha. rewrite <- (Hm Categories) in Hx. simpl in Ha.
    unfold in_category in *. rewrite Hann, cat_update_category, E6, !Hcat, E4.
    destruct (decide (x = l)) as [->|Hne].
    + rewrite (decide_True (P := l = l ∧ _)) by (split; [done | by apply HliveC]).
      rewrite Cat_id_set_id. rewrite decide_True.
      * rewrite recategorize_ids by (by try apply Hclass).
        apply list_elem_of_fmap. exists (Cat.id (cat s l)).
        by rewrite bool_decide_eq_true_2.
      * split; [|by apply HliveA]. apply elem_of_filter_list. split; [done|].
        by apply int_in_true.
    + rewrite (decide_False (P := l = x ∧ _)) by (by intros [-> _]).
      assert (Hdiff : Cat.id (cat s x) ≠ Cat.id (cat s l)).
      { intros Heq'. apply (distinct_ids Categories s x l Hu Hx Hl Hne (Cat.id (cat s x)));
          [done | simpl; congruence]. }
      case_decide as Hd; [|done]. destruct Hd as [Hin _].
      apply elem_of_filter_list in Hin as [_ Hin]. apply int_in_true_inv in Hin.
      rewrite recategorize_ids by (by try apply Hclass).
      apply list_elem_of_fmap. exists (Cat.id (cat s x)).
      by rewrite bool_decide_eq_false_2.
  - unfold annotations_categorized_or_panoptic in *. simpl. rewrite E1, <- Hcop.
    apply forallb_pointwise. intros a. rewrite Hann, E6.
    case_decide; [|done].
    by destruct (recategorize_class (Cat.id (cat s l)) v (ann s a)) as [-> ->].
Qed.

(** In a dataset with an annotation that has neither a category nor
    segments, [reindex_category] changes no annotation. *)
Lemma reindex_category_leaves (st0 : State) (l : loc) (v : Z) (s s' : State) :
  annotations_categorized_or_panoptic st0 = false →
  reindex_category l (Some v) s = (Ok tt, s') →
  annotations_as_in st0 s → annotations_as_in st0 s'.
Proof.
  intros Hcop Hrun [Hm Ha].
  assert (Hcop' : annotations_categorized_or_panoptic s = false).
  { rewrite <- Hcop. unfold annotations_categorized_or_panoptic.
    pose proof (Hm Annotations) as HmA. simpl in HmA. rewrite HmA.
    apply forallb_pointwise. intros a. unfold ann. by rewrite Ha. }
  unfold reindex_category, st_bind at 1, read at 1 in Hrun.
  destruct (categories_present s) as [cs|] eqn:Hp.
  - unfold st_bind, st_ret, query in Hrun. unfold get_annotations_by_category in Hrun.
    rewrite Hp, Hcop' in Hrun. simpl in Hrun. injection Hrun as <-. split; [|done].
    intros c. by rewrite <- Hm.
  - by injection Hrun as <-.
Qed.

(** A property of the state that every singular reindexing keeps, on a
    dataset with pairwise distinct ids, is kept by the plural one. *)
Lemma reindex_plural_keeps (c : collection) (new_ids : option (list Z)) (J : State → Prop)
    (st st' : State) :
  (∀ s s', heap s' = heap s → (∀ c', members c' s' = members c' s) → J s → J s') →
  (∀ l v s s', Inv s → l ∈ members c s →
               reindex_one c l (Some v) s = (Ok tt, s') → J s → J s') →
  Inv st →
  NoDup (ids_or_range new_ids (length (members c st))) →
  length (ids_or_range new_ids (length (members c st))) = length (members c st) →
  (c = Licenses → StronglySorted Z.lt (ids_or_range new_ids (length (members c st)))) →
  reindex_plural c new_ids st = (Ok tt, st') → J st → J st'.
Proof.
  intros HJframe HJkeeps HI Hnd Hlen Hsort Hrun HJ0. destruct c; simpl in *.
  - unfold reindex_licenses, st_bind at 1, read at 1 in Hrun.
    rewrite bool_decide_eq_true_2 in Hrun by done. cbn [negb] in Hrun.
    set (ids := ids_or_range new_ids (length (licenses (self st)))) in *.
    set (displace := λ new_id,
           st_bind (query (λ st0, get_license st0 (VInt new_id))) (λ duplicated_license,
           st_bind get_new_license_id (λ fresh,
           match duplicated_license with
           | Some d => reindex_license d (Some fresh)
           | None => raise TypeError
           end))).
    assert (Hsets : ∀ l v s, ∃ s', reindex_license l (Some v) s = (Ok tt, s')
                      ∧ (s' = s ∧ members Licenses s = [] ∨ sets_id Licenses l v s s')).
    { intros l v s0. destruct (reindex_license_sets l v s0) as (s' & ? & ?). eauto. }
    assert (Hdisp : ∀ new_id s, new_id ∈ committed_ids Licenses s →
              ∃ l, l ∈ members Licenses s ∧ id_at Licenses s l = Some new_id
                   ∧ displace new_id s
                     = match next_id Licenses s with
                       | (Ok v, st1) => reindex_license l (Some v) st1
                       | (Raise e, st1) => (Raise e, st1)
                       end).
    { intros i s0 Hin. destruct (get_license_held s0 i Hin) as (l & Hl & Hid & Hget).
      exists l. split; [done|]. split; [by simpl; rewrite Hid|].
      unfold displace, st_bind, query. rewrite Hget. simpl.
      by destruct (get_new_license_id s0) as [[]]. }
    destruct (make_room_clears Licenses reindex_license displace Hsets Hdisp ids [] st HI)
      as (s1 & Hroom & HI1 & Hm1 & Hclear); [by apply Hsort | by intros d Hd; inversion Hd |].
    pose proof (make_room_keeps Licenses reindex_license displace J Hsets Hdisp HJframe
                  HJkeeps ids st s1 HI Hroom HJ0) as HJ1.
    unfold st_bind at 1 in Hrun.
    change (for_each ids _ st) with
      (for_each ids (λ new_id,
         st_bind (read (committed_ids Licenses)) (λ ids0,
           when (int_in new_id ids0) (displace new_id))) st) in Hrun.
    rewrite Hroom in Hrun.
    destruct (assign_free_loop Licenses reindex_license J Hsets HJkeeps
                (licenses (self st)) ids s1 HI1) as (s2 & Hloop & _ & HJ2);
      [by intros x Hx; rewrite Hm1 | done | done | done |].
    rewrite Hloop in Hrun. by injection Hrun as <-.
  - unfold reindex_categories, st_bind at 1, read at 1 in Hrun.
    destruct (categories_present st) as [cs|] eqn:Hp; [|by injection Hrun as <-].
    pose proof (categories_present_members st cs Hp) as Hcs. simpl in Hcs.
    rewrite Hcs in *.
    rewrite bool_decide_eq_true_2 in Hrun by done. cbn [negb] in Hrun.
    set (displace := λ new_id,
           st_bind (query (λ st, get_category st (VInt new_id)))
             (λ duplicated_category,
           match duplicated_category with
           | Some d =>
               st_bind get_new_category_id (λ fresh, reindex_category d (Some fresh))
           | None => st_ret tt
           end)).
    assert (Hdisp : ∀ new_id s, new_id ∈ committed_ids Categories s →
              ∃ l, l ∈ members Categories s ∧ id_at Categories s l = Some new_id
                   ∧ displace new_id s
                     = match next_id Categories s with
                       | (Ok v, st1) => reindex_category l (Some v) st1
                       | (Raise e, st1) => (Raise e, st1)
                       end).
    { intros i s0 Hin. destruct (get_category_held s0 i Hin) as (l & Hl & Hid & Hget).
      exists l. split; [done|]. split; [by simpl; rewrite Hid|].
      unfold displace, st_bind, query. rewrite Hget. simpl.
      by destruct (get_new_category_id s0) as [[]]. }
    apply (assign_loop_keeps Categories reindex_category displace J
             reindex_category_sets Hdisp HJframe HJkeeps)
      with (ls := cs) (vs := ids_or_range new_ids (length cs)) (st := st);
      [done | | exact Hrun | done].
    intros x Hx. simpl. by rewrite Hcs.
  - unfold reindex_images, st_bind at 1, read at 1 in Hrun.
    rewrite bool_decide_eq_true_2 in Hrun by done. cbn [negb] in Hrun.
    set (displace := λ new_id,
           st_bind (query (λ st, get_image st (VInt new_id))) (λ duplicated_image,
           st_bind get_new_image_id (λ fresh,
           match duplicated_image with
           | Some d => reindex_image d (Some fresh)
           | None => raise TypeError
           end))).
    assert (Hsets : ∀ l v s, ∃ s', reindex_image l (Some v) s = (Ok tt, s')
                      ∧ (s' = s ∧ members Images s = [] ∨ sets_id Images l v s s')).
    { intros l v s0. destruct (reindex_image_sets l v s0) as (s' & ? & ?). eauto. }
    assert (Hdisp : ∀ new_id s, new_id ∈ committed_ids Images s →
              ∃ l, l ∈ members Images s ∧ id_at Images s l = Some new_id
                   ∧ displace new_id s
                     = match next_id Images s with
                       | (Ok v, st1) => reindex_image l (Some v) st1
                       | (Raise e, st1) => (Raise e, st1)
                       end).
    { intros i s0 Hin. destruct (get_image_held s0 i Hin) as (l & Hl & Hid & Hget).
      exists l. split; [done|]. split; [by simpl; rewrite Hid|].
      unfold displace, st_bind, query. rewrite Hget. simpl.
      by destruct (get_new_image_id s0) as [[]]. }
    by apply (assign_loop_keeps Images reindex_image displace J Hsets Hdisp HJframe HJkeeps)
      with (ls := images (self st))
           (vs := ids_or_range new_ids (length (images (self st)))) (st := st).
  - unfold reindex_annotations, st_bind at 1, read at 1 in Hrun.
    rewrite bool_decide_eq_true_2 in Hrun by done. cbn [negb] in Hrun.
    set (displace := λ new_id,
           st_bind (query (λ st, get_annotation st (VInt new_id)))
             (λ duplicated_annotation,
           st_bind get_new_annotation_id (λ fresh,
           reindex_annotation duplicated_annotation (Some fresh)))).
    assert (Hsets : ∀ l v s, ∃ s', reindex_annotation l (Some v) s = (Ok tt, s')
                      ∧ (s' = s ∧ members Annotations s = []
                         ∨ sets_id Annotations l v s s')).
    { intros l v s0. destruct (reindex_annotation_sets l v s0) as (s' & ? & ?). eauto. }
    assert (Hdisp : ∀ new_id s, new_id ∈ committed_ids Annotations s →
              ∃ l, l ∈ members Annotations s ∧ id_at Annotations s l = Some new_id
                   ∧ displace new_id s
                     = match next_id Annotations s with
                       | (Ok v, st1) => reindex_annotation l (Some v) st1
                       | (Raise e, st1) => (Raise e, st1)
                       end).
    { intros i s0 Hin. destruct (get_annotation_held s0 i Hin) as (l & Hl & Hid & Hget).
      exists l. split; [done|]. split; [done|].
      unfold displace, st_bind, query. rewrite Hget. simpl.
      by destruct (get_new_annotation_id s0) as [[]]. }
    by apply (assign_loop_keeps Annotations reindex_annotation displace J Hsets Hdisp
                HJframe HJkeeps)
      with (ls := annotations (self st))
           (vs := ids_or_range new_ids (length (annotations (self st)))) (st := st).
Qed.

Lemma reindex_images_refers (new_ids : option (list Z)) (st : State) :
  Inv st →
  NoDup (ids_or_range new_ids (length (images (self st)))) →
  length (ids_or_range new_ids (length (images (self st)))) = length (images (self st)) →
  ∃ st', reindex_images new_ids st = (Ok tt, st')
         ∧ ∀ a x, a ∈ annotations (self st) → x ∈ images (self st) →
                  on_image st a x → on_image st' a x.
Proof.
  intros HI Hnd Hlen.
  destruct (reindex_images_exact new_ids st HI Hnd Hlen) as (st' & Hrun & _).
  exists st'. split; [exact Hrun|].
  enough (HJ : refers_as_in on_image Annotations Images st st') by apply HJ.
  apply (reindex_plural_keeps Images new_ids (refers_as_in on_image Annotations Images st)
           st st'); try done.
  - intros s s' Hh Hm. apply refers_as_in_same_records; [|done].
    intros a x. unfold on_image, ann, img. by rewrite Hh.
  - intros l v s s' HIs Hl. by apply reindex_image_refers.
Qed.

Lemma reindex_licenses_refers (new_ids : option (list Z)) (st : State) :
  Inv st →
  StronglySorted Z.lt (ids_or_range new_ids (length (licenses (self st)))) →
  length (ids_or_range new_ids (length (licenses (self st)))) = length (licenses (self st)) →
  ∃ st', reindex_licenses new_ids st = (Ok tt, st')
         ∧ Inv st'
         ∧ ∀ i l, i ∈ images (self st) → l ∈ licenses (self st) →
                  under_license st i l → under_license st' i l.
Proof.
  intros HI Hsort Hlen. pose proof (increasing_NoDup _ Hsort) as Hnd.
  destruct (reindex_licenses_exact new_ids st HI Hnd Hlen) as (st' & Hrun & HI' & _).
  exists st'. split; [exact Hrun|]. split; [exact HI'|].
  enough (HJ : refers_as_in under_license Images Licenses st st') by apply HJ.
  apply (reindex_plural_keeps Licenses new_ids
           (refers_as_in under_license Images Licenses st) st st'); try done.
  - intros s s' Hh Hm. apply refers_as_in_same_records; [|done].
    intros a x. unfold under_license, lic, img. by rewrite Hh.
  - intros l v s s' HIs Hl. by apply reindex_license_refers.
Qed.

Lemma reindex_categories_refers (new_ids : option (list Z)) (st : State) :
  Inv st →
  NoDup (ids_or_range new_ids (length (members Categories st))) →
  length (ids_or_range new_ids (length (members Categories st)))
  = length (members Categories st) →
  ∃ st', reindex_categories new_ids st = (Ok tt, st')
         ∧ (annotations_categorized_or_panoptic st = true → categories_as_in st st')
         ∧ (annotations_categorized_or_panoptic st = false → annotations_as_in st st').
Proof.
  intros HI Hnd Hlen.
  destruct (reindex_categories_exact new_ids st HI Hnd Hlen) as (st' & Hrun & _).
  exists st'. split; [exact Hrun|]. split; intros Hcop.
  - apply (reindex_plural_keeps Categories new_ids (categories_as_in st) st st'); try done.
    + intros s s' Hh Hm [Hr Hc]. split.
      * revert Hr. apply refers_as_in_same_records; [|done].
        intros a x. unfold in_category, ann, cat. by rewrite Hh.
      * rewrite <- Hc. unfold annotations_categorized_or_panoptic.
        pose proof (Hm Annotations) as HmA. simpl in HmA. rewrite HmA.
        apply forallb_pointwise. intros a. unfold ann. by rewrite Hh.
    + intros l v s s' HIs Hl. by apply reindex_category_refers.
  - apply (reindex_plural_keeps Categories new_ids (annotations_as_in st) st st'); try done.
    + intros s s' Hh Hm [Hm0 Ha]. split; [intros c; by rewrite Hm|]. by rewrite Hh.
    + intros l v s s' _ _. by apply reindex_category_leaves.
Qed.

(** ** What a reindexing leaves alone *)

#[global] Instance same_references_preorder (k : collection) : PreOrder (same_references k).
Proof.
  split.
  - intros s. by destruct k.
  - intros s1 s2 s3 H12 H23. destruct k; simpl in *; try done.
    + destruct H12 as [A1 B1], H23 as [A2 B2]. split; intros; congruence.
    + split; [intros a|intros x].
      * destruct (proj1 H12 a) as (E1 & E2 & E3), (proj1 H23 a) as (F1 & F2 & F3).
        repeat split; congruence.
      * rewrite (proj2 H23), (proj2 H12). done.
    + destruct H12 as [A1 B1], H23 as [A2 B2]. split; intros; congruence.
Qed.

#[global] Instance other_references_preorder (c : collection) : PreOrder (other_references c).
Proof.
  split.
  - intros s. split; [done|]. intros k _. reflexivity.
  - intros s1 s2 s3 [M1 H12] [M2 H23]. split; [intros c'; by rewrite M2|].
    intros k Hk. etransitivity; [by apply H12 | by apply H23].
Qed.

Lemma same_references_same_heap (k : collection) (s s' : State) :
  heap s' = heap s → same_references k s s'.
Proof. intros H. destruct k; simpl; unfold ann, img, lic, cat; by rewrite ?H. Qed.

Lemma other_references_same_heap (c : collection) (s s' : State) :
  heap s' = heap s → (∀ c', members c' s' = members c' s) → other_references c s s'.
Proof. intros Hh Hm. split; [done|]. intros k _. by apply same_references_same_heap. Qed.

Lemma next_id_other_references (c c' : collection) : always (other_references c) (next_id c').
Proof.
  intros st. apply other_references_same_heap.
  - destruct c'; unfold exec; simpl;
      unfold get_new_license_id, get_new_category_id, get_new_image_id,
        get_new_annotation_id, get_new_id;
      by destruct (generate_new_id _ _) as [[? ?]|].
  - intros k. destruct c'; unfold exec; simpl;
      unfold get_new_license_id, get_new_category_id, get_new_image_id,
        get_new_annotation_id, get_new_id;
      destruct (generate_new_id _ _) as [[? ?]|]; by destruct k.
Qed.

Lemma update_annotation_other (c : collection) (a : loc) (f : Annotation → Annotation)
    (s : State) :
  (c ≠ Images → ∀ x, Ann.image_id (f x) = Ann.image_id x) →
  (c ≠ Categories → ∀ x, annotation_category_ids (f x) = annotation_category_ids x
                         ∧ is_Categorized (f x) = is_Categorized x
                         ∧ is_Panoptic (f x) = is_Panoptic x) →
  other_references c s (update_annotation a f s).
Proof.
  intros Hi Hc. split; [by intros []|]. intros k Hk. destruct k; simpl; try done.
  - split; [|done]. intros b. rewrite ann_update_annotation.
    case_decide as Hd; [|done]. destruct Hd as [-> _]. by apply Hc.
  - split; [|done]. intros b. rewrite ann_update_annotation.
    case_decide as Hd; [|done]. destruct Hd as [-> _]. by apply Hi.
Qed.

Lemma update_image_other (c : collection) (x : loc) (f : Image.t → Image.t) (s : State) :
  (c ≠ Images → ∀ i, Image.id (f i) = Image.id i) →
  (c ≠ Licenses → ∀ i, Image.license (f i) = Image.license i) →
  other_references c s (update_image x f s).
Proof.
  intros Hi Hl. split; [by intros []|]. intros k Hk. destruct k; simpl; try done.
  - split; [|done]. intros b. rewrite img_update_image.
    case_decide as Hd; [|done]. destruct Hd as [-> _]. by apply Hl.
  - split; [done|]. intros b. rewrite img_update_image.
    case_decide as Hd; [|done]. destruct Hd as [-> _]. by apply Hi.
Qed.

Lemma update_license_other (l : loc) (f : License.t → License.t) (s : State) :
  other_references Licenses s (update_license l f s).
Proof. split; [by intros []|]. intros k Hk. by destruct k. Qed.

Lemma update_category_other (l : loc) (f : Category → Category) (s : State) :
  other_references Categories s (update_category l f s).
Proof. split; [by intros []|]. intros k Hk. by destruct k. Qed.

Ltac always_steps :=
  repeat first
    [ apply always_ret; tc_solve
    | apply always_raise; tc_solve
    | apply always_read; tc_solve
    | apply always_query; tc_solve
    | apply always_bind; [tc_solve | | intros ?]
    | apply always_when; [tc_solve|]
    | apply always_for_each; [tc_solve | intros ?] ].

Lemma reindex_annotation_other (l : loc) (new_id : option Z) :
  always (other_references Annotations) (reindex_annotation l new_id).
Proof.
  unfold reindex_annotation. apply always_bind; [tc_solve | |intros v].
  - destruct new_id; [apply always_ret; tc_solve|].
    apply (next_id_other_references Annotations Annotations).
  - apply always_modify. intros s. destruct (is_Indexed (ann s l)); [|reflexivity].
    apply update_annotation_other; intros _ an; by destruct an.
Qed.

Lemma reindex_image_other (l : loc) (new_id : option Z) :
  always (other_references Images) (reindex_image l new_id).
Proof.
  unfold reindex_image. apply always_bind; [tc_solve | |intros v].
  - destruct new_id; [apply always_ret; tc_solve|].
    apply (next_id_other_references Images Images).
  - always_steps.
    + apply always_modify. intros s.
      apply update_annotation_other; [done | intros _ an; by destruct an].
    + apply always_modify. intros s. by apply update_image_other.
Qed.

Lemma reindex_license_other (l : loc) (new_id : option Z) :
  always (other_references Licenses) (reindex_license l new_id).
Proof.
  unfold reindex_license. apply always_bind; [tc_solve | |intros v].
  - destruct new_id; [apply always_ret; tc_solve|].
    apply (next_id_other_references Licenses Licenses).
  - always_steps.
    + apply always_modify. intros s. by apply update_image_other.
    + apply always_modify. intros s. apply update_license_other.
Qed.

Lemma reindex_category_other (l : loc) (new_id : option Z) :
  always (other_references Categories) (reindex_category l new_id).
Proof.
  unfold reindex_category. apply always_bind; [tc_solve | apply always_read; tc_solve |].
  intros [cs|]; [|apply always_ret; tc_solve].
  apply always_bind; [tc_solve | |intros v].
  - destruct new_id; [apply always_ret; tc_solve|].
    apply (next_id_other_references Categories Categories).
  - always_steps.
    + apply always_modify. intros s.
      destruct (is_Categorized (ann s _)); [|destruct (is_Panoptic (ann s _))].
      * apply update_annotation_other; [intros _ an; by destruct an | done].
      * apply update_annotation_other; [intros _ an; by destruct an | done].
      * reflexivity.
    + apply always_modify. intros s. apply update_category_other.
Qed.

Lemma reindex_plural_other (c : collection) (new_ids : option (list Z)) :
  always (other_references c) (reindex_plural c new_ids).
Proof.
  destruct c; simpl.
  - unfold reindex_licenses. apply always_bind; [tc_solve | apply always_read; tc_solve |].
    intros ls. destruct (negb _); [apply always_raise; tc_solve|].
    apply always_bind; [tc_solve | |intros _].
    + apply always_for_each; [tc_solve|]. intros v.
      apply always_bind; [tc_solve | apply always_read; tc_solve |]. intros ids.
      apply always_when; [tc_solve|].
      apply always_bind; [tc_solve | apply always_query; tc_solve |]. intros d.
      apply always_bind; [tc_solve | apply (next_id_other_references Licenses Licenses) |].
      intros fresh. destruct d; [apply reindex_license_other | apply always_raise; tc_solve].
    + apply always_for_each; [tc_solve|]. intros [v l]. apply reindex_license_other.
  - unfold reindex_categories. apply always_bind; [tc_solve | apply always_read; tc_solve |].
    intros [cs|]; [|apply always_ret; tc_solve].
    destruct (negb _); [apply always_raise; tc_solve|].
    apply always_for_each; [tc_solve|]. intros [v l].
    apply always_bind; [tc_solve | apply always_read; tc_solve |]. intros ids.
    apply always_bind; [tc_solve | |intros _; apply reindex_category_other].
    apply always_when; [tc_solve|].
    apply always_bind; [tc_solve | apply always_query; tc_solve |]. intros [d|].
    + apply always_bind;
        [tc_solve | apply (next_id_other_references Categories Categories) |].
      intros fresh. apply reindex_category_other.
    + apply always_ret; tc_solve.
  - unfold reindex_images. apply always_bind; [tc_solve | apply always_read; tc_solve |].
    intros ls. destruct (negb _); [apply always_raise; tc_solve|].
    apply always_for_each; [tc_solve|]. intros [v l].
    apply always_bind; [tc_solve | apply always_read; tc_solve |]. intros ids.
    apply always_bind; [tc_solve | |intros _; apply reindex_image_other].
    apply always_when; [tc_solve|].
    apply always_bind; [tc_solve | apply always_query; tc_solve |]. intros d.
    apply always_bind; [tc_solve | apply (next_id_other_references Images Images) |].
    intros fresh. destruct d; [apply reindex_image_other | apply always_raise; tc_solve].
  - unfold reindex_annotations. apply always_bind; [tc_solve | apply always_read; tc_solve |].
    intros ls. destruct (negb _); [apply always_raise; tc_solve|].
    apply always_for_each; [tc_solve|]. intros [v l].
    apply always_bind; [tc_solve | apply always_read; tc_solve |]. intros ids.
    apply always_bind; [tc_solve | |intros _; apply reindex_annotation_other].
    apply always_when; [tc_solve|].
    apply always_bind; [tc_solve | apply always_query; tc_solve |]. intros d.
    apply always_bind;
      [tc_solve | apply (next_id_other_references Annotations Annotations) |].
    intros fresh. apply reindex_annotation_other.
Qed.

(** ** Plural reindexing keeps the references *)

Lemma same_classes (s s' : State) :
  (∀ c, members c s' = members c s) → same_references Categories s s' →
  annotations_categorized_or_panoptic s' = annotations_categorized_or_panoptic s.
Proof.
  intros Hm [Ha _]. unfold annotations_categorized_or_panoptic.
  pose proof (Hm Annotations) as HmA. simpl in HmA. rewrite HmA.
  apply forallb_pointwise. intros a. by destruct (Ha a) as (_ & -> & ->).
Qed.

Lemma same_references_on_image (s s' : State) (a x : loc) :
  same_references Images s s' → on_image s a x → on_image s' a x.
Proof. intros [Ha Hx]. unfold on_image. by rewrite Ha, Hx. Qed.

Lemma same_references_under_license (s s' : State) (i l : loc) :
  same_references Licenses s s' → under_license s i l → under_license s' i l.
Proof. intros [Hi Hl]. unfold under_license. by rewrite Hi, Hl. Qed.

Lemma same_references_in_category (s s' : State) (a x : loc) :
  same_references Categories s s' → in_category s a x → in_category s' a x.
Proof.
  intros [Ha Hx]. unfold in_category. rewrite Hx. by destruct (Ha a) as (-> & _).
Qed.

Lemma same_references_untouched (s s' : State) :
  same_references Categories s s' → category_ids_untouched s s'.
Proof. intros [Ha _] a. by destruct (Ha a) as (-> & _). Qed.

#[global] Instance references_kept_preorder : PreOrder references_kept.
Proof.
  split.
  - intros s. by repeat split.
  - intros s1 s2 s3 (M1 & C1 & I1 & L1 & K1) (M2 & C2 & I2 & L2 & K2).
    split; [intros c; by rewrite M2|]. split; [congruence|].
    pose proof (M1 Annotations) as MA. pose proof (M1 Images) as MI.
    pose proof (M1 Licenses) as ML. simpl in MA, MI, ML.
    split; [|split].
    + intros a x Ha Hx Hon. apply I2; [by rewrite MA | by rewrite MI | by apply I1].
    + intros i l Hi Hl Hon. apply L2; [by rewrite MI | by rewrite ML | by apply L1].
    + intros Hc a x Ha Hx Hon.
      apply K2; [congruence | by rewrite MA | by rewrite M1 | by apply K1].
Qed.

#[global] Instance category_ids_untouched_preorder : PreOrder category_ids_untouched.
Proof.
  split; [by intros s a|]. intros s1 s2 s3 H12 H23 a. by rewrite H23, H12.
Qed.

Lemma increasing_py_range (n : nat) : StronglySorted Z.lt (py_range n).
Proof.
  unfold py_range. generalize 0%nat. induction n as [|n IH]; intros k; simpl.
  - constructor.
  - constructor; [apply IH|]. apply Forall_fmap, Forall_forall.
    intros j Hj%elem_of_seq. simpl. lia.
Qed.

Lemma reindex_plural_refers (c : collection) (new_ids : option (list Z)) (st : State) :
  Inv st →
  NoDup (ids_or_range new_ids (length (members c st))) →
  length (ids_or_range new_ids (length (members c st))) = length (members c st) →
  (c = Licenses → StronglySorted Z.lt (ids_or_range new_ids (length (members c st)))) →
  ∃ st', reindex_plural c new_ids st = (Ok tt, st')
         ∧ Inv st'
         ∧ references_kept st st'
         ∧ (c ≠ Categories ∨ annotations_categorized_or_panoptic st = false →
            category_ids_untouched st st').
Proof.
  intros HI Hnd Hlen Hsort.
  destruct (reindex_plural_exact c new_ids st HI Hnd Hlen) as (st' & Hrun & HI' & Hr & _).
  exists st'. split; [exact Hrun|]. split; [exact HI'|].
  pose proof (reindex_plural_other c new_ids st) as [Hm Ho]. unfold exec in Hm, Ho.
  rewrite Hrun in Hm, Ho. simpl in Hm, Ho.
  destruct c.
  - destruct (reindex_licenses_refers new_ids st HI (Hsort eq_refl) Hlen)
      as (st2 & Hrun2 & _ & Hl).
    simpl in Hrun. rewrite Hrun in Hrun2. injection Hrun2 as <-.
    split; [|intros _; by apply same_references_untouched, Ho].
    split; [done|]. split; [by apply same_classes, Ho|]. split; [|split; [done|]].
    + intros a x _ _. by apply same_references_on_image, Ho.
    + intros _ a x _ _. by apply same_references_in_category, Ho.
  - destruct (reindex_categories_refers new_ids st HI Hnd Hlen) as (st2 & Hrun2 & Ht & Hf).
    simpl in Hrun. rewrite Hrun in Hrun2. injection Hrun2 as <-.
    assert (Hcop : annotations_categorized_or_panoptic st'
                   = annotations_categorized_or_panoptic st).
    { destruct (annotations_categorized_or_panoptic st) eqn:Hc.
      - apply (Ht eq_refl).
      - destruct (Hf eq_refl) as [_ Ha]. rewrite <- Hc.
        unfold annotations_categorized_or_panoptic.
        pose proof (Hm Annotations) as HmA. simpl in HmA. rewrite HmA.
        apply forallb_pointwise. intros a. unfold ann. by rewrite Ha. }
    split.
    + split; [done|]. split; [done|]. split; [|split].
      * intros a x _ _. by apply same_references_on_image, Ho.
      * intros i l _ _. by apply same_references_under_license, Ho.
      * intros Hc. apply (Ht Hc).
    + intros [?|Hc]; [done|]. destruct (Hf Hc) as [_ Ha]. intros a. unfold ann.
      by rewrite Ha.
  - destruct (reindex_images_refers new_ids st HI Hnd Hlen) as (st2 & Hrun2 & Hl).
    simpl in Hrun. rewrite Hrun in Hrun2. injection Hrun2 as <-.
    split; [|intros _; by apply same_references_untouched, Ho].
    split; [done|]. split; [by apply same_classes, Ho|]. split; [done|]. split.
    + intros i l _ _. by apply same_references_under_license, Ho.
    + intros _ a x _ _. by apply same_references_in_category, Ho.
  - split; [|intros _; by apply same_references_untouched, Ho].
    split; [done|]. split; [by apply same_classes, Ho|]. split; [|split].
    + intros a x _ _. by apply same_references_on_image, Ho.
    + intros i l _ _. by apply same_references_under_license, Ho.
    + intros _ a x _ _. by apply same_references_in_category, Ho.
Qed.

Lemma reindex_dataset_refers (st : State) :
  Inv st →
  ∃ st', reindex_dataset st = (Ok tt, st')
         ∧ Inv st'
         ∧ references_kept st st'
         ∧ (annotations_categorized_or_panoptic st = false → category_ids_untouched st st').
Proof.
  intros HI.
  assert (Hstep : ∀ c s, Inv s →
            ∃ s', reindex_plural c None s = (Ok tt, s') ∧ Inv s' ∧ references_kept s s'
                  ∧ (c ≠ Categories ∨ annotations_categorized_or_panoptic s = false →
                     category_ids_untouched s s')).
  { intros c s HIs. apply (reindex_plural_refers c None s HIs).
    - apply NoDup_py_range.
    - apply length_py_range.
    - intros _. apply increasing_py_range. }
  destruct (Hstep Annotations st HI) as (s1 & Hrun1 & HI1 & Hk1 & Hu1).
  destruct (Hstep Images s1 HI1) as (s2 & Hrun2 & HI2 & Hk2 & Hu2).
  destruct (Hstep Categories s2 HI2) as (s3 & Hrun3 & HI3 & Hk3 & Hu3).
  destruct (Hstep Licenses s3 HI3) as (s4 & Hrun4 & HI4 & Hk4 & Hu4).
  destruct (clear_cached_ids_frame s4) as (s5 & Hrun5 & Hf5 & Hres).
  assert (Hlast : heap s5 = heap s4 ∧ ∀ c, members c s5 = members c s4).
  { unfold clear_cached_ids, modify in Hrun5. injection Hrun5 as <-.
    split; [done | by intros []]. }
  destruct Hlast as [Hh5 Hm5].
  assert (Hk5 : references_kept s4 s5).
  { split; [done|]. split; [by apply same_classes, same_references_same_heap|].
    split; [|split].
    - intros a x _ _. by apply same_references_on_image, same_references_same_heap.
    - intros i l _ _. by apply same_references_under_license, same_references_same_heap.
    - intros _ a x _ _. by apply same_references_in_category, same_references_same_heap. }
  exists s5. split; [|split; [|split]].
  - unfold reindex_dataset.
    rewrite (st_bind_Ok _ _ st s1 tt) by exact Hrun1.
    rewrite (st_bind_Ok _ _ s1 s2 tt) by exact Hrun2.
    rewrite (st_bind_Ok _ _ s2 s3 tt) by exact Hrun3.
    rewrite (st_bind_Ok _ _ s3 s4 tt) by exact Hrun4.
    exact Hrun5.
  - by eapply ids_frame_Inv.
  - transitivity s1; [done|]. transitivity s2; [done|]. transitivity s3; [done|].
    by transitivity s4.
  - intros Hc.
    assert (Hc2 : annotations_categorized_or_panoptic s2 = false).
    { rewrite (proj1 (proj2 Hk2)), (proj1 (proj2 Hk1)). done. }
    transitivity s1; [apply Hu1; by left|]. transitivity s2; [apply Hu2; by left|].
    transitivity s3; [apply Hu3; by right|]. transitivity s4; [apply Hu4; by left|].
    intros a. unfold ann. by rewrite Hh5.
Qed.

(** ** Trimming, then reindexing *)

Lemma list_filter_sublist {A} (p : A → bool) (xs : list A) : List.filter p xs `sublist_of` xs.
Proof.
  induction xs as [|x xs IH]; simpl; [done|].
  destruct (p x); [by apply sublist_skip | by apply sublist_cons].
Qed.

Lemma trim_dataset_shrinks (st : State) : shrinks st (exec trim_dataset st).
Proof.
  destruct (trim_dataset_keeps st) as (_ & Hh & Ha & Hi & Hl & Hc). cbv zeta in *.
  intros c. split; [|split].
  - destruct c; cbn [members].
    + rewrite Hl. apply list_filter_sublist.
    + rewrite Hc. destruct (categories_present st) as [cs|] eqn:Hp; [|done].
      destruct (forallb _ _); [|done]. cbn [default].
      pose proof (categories_present_members st cs Hp) as Hm. simpl in Hm. rewrite Hm.
      apply list_filter_sublist.
    + rewrite Hi. apply list_filter_sublist.
    + rewrite Ha. apply list_filter_sublist.
  - destruct c; cbn [heap_size]; by rewrite Hh.
  - intros e. by apply id_at_same_heap.
Qed.

Lemma clean_dataset_result (st : State) :
  Inv st →
  ∃ st', clean_dataset st = (Ok tt, st')
         ∧ Inv st'
         ∧ (∀ c, members c st' = members c (exec trim_dataset st))
         ∧ (∀ c, Forall2 (λ l v, id_at c st' l = (λ _, v) <$> id_at c st l)
                   (members c st') (py_range (length (members c st'))))
         ∧ (∀ c, reserved_ids c st' = [])
         ∧ (∀ i, i ∈ images (self st') →
              (∃ a, a ∈ annotations (self st') ∧ on_image st' a i)
              ∧ ∃ l, l ∈ licenses (self st') ∧ under_license st' i l)
         ∧ (∀ l, l ∈ licenses (self st') →
              ∃ i, i ∈ images (self st') ∧ under_license st' i l).
Proof.
  intros HI.
  destruct (trim_dataset_used st) as (Hrun1 & Hh1 & Himg & Hlic & _). cbv zeta in *.
  set (s1 := exec trim_dataset st) in *.
  assert (HI1 : Inv s1) by (eapply shrinks_Inv; [apply trim_dataset_shrinks | done]).
  destruct (reindex_dataset_exact s1 HI1) as (st' & Hrun & HI' & Hm & Hids & Hres).
  destruct (reindex_dataset_refers s1 HI1) as (st2 & Hrun2 & _ & Hk & _).
  rewrite Hrun in Hrun2. injection Hrun2 as <-.
  destruct Hk as (_ & _ & Hon & Hunder & _).
  pose proof (Hm Images) as HmI. pose proof (Hm Annotations) as HmA.
  pose proof (Hm Licenses) as HmL. simpl in HmI, HmA, HmL.
  exists st'. split; [|split; [done|split; [done|split; [|split; [done|split]]]]].
  - unfold clean_dataset. by rewrite (st_bind_Ok _ _ st s1 tt).
  - intros c. rewrite Hm. eapply Forall2_impl; [apply Hids|]. cbv beta.
    intros l v ->. by rewrite (id_at_same_heap c st s1 l Hh1).
  - intros i Hi. rewrite HmI in Hi. destruct (Himg i Hi) as [(a & Ha & Hai) Hl]. split.
    + exists a. split; [by rewrite HmA|]. by apply Hon.
    + apply list_elem_of_fmap in Hl as (l & Hid & Hl). exists l.
      split; [by rewrite HmL|]. by apply Hunder.
  - intros l Hl. rewrite HmL in Hl. destruct (Hlic l Hl) as (i & Hi & Hil).
    exists i. split; [by rewrite HmI|]. by apply Hunder.
Qed.

(** X19.  A plural reindexing keeps the references between the records.
    On a dataset whose ids are pairwise distinct, with pairwise distinct
    new ids, as many as the collection has records (for
    [reindex_licenses], which makes room for all the ids before it assigns
    the first, with increasing new ids), the call returns and: every
    annotation of an image is an annotation of that image, every image has
    the license it had, and, when every annotation has a category or
    segments, every annotation has the categories it had, under their new
    ids.  When some annotation has neither, [reindex_categories] gives the
    categories their new ids and leaves the category ids in the annotations
    as they were. *)
Theorem reindex_plural_keeps_references (c : collection) (new_ids : option (list Z))
    (st : State) :
  heap_ok st → unique_ids st →
  NoDup (ids_or_range new_ids (length (members c st))) →
  length (ids_or_range new_ids (length (members c st))) = length (members c st) →
  (c = Licenses → StronglySorted Z.lt (ids_or_range new_ids (length (members c st)))) →
  ∃ st', reindex_plural c new_ids st = (Ok tt, st')
         ∧ references_kept st st'
         ∧ (c ≠ Categories ∨ annotations_categorized_or_panoptic st = false →
            category_ids_untouched st st').
Proof.
  intros Hh Hu Hnd Hlen Hsort.
  destruct (reindex_plural_refers c new_ids st (conj Hh Hu) Hnd Hlen Hsort)
    as (st' & Hrun & _ & Hk & Hc).
  by exists st'.
Qed.

Lemma two_categories_dataset_Inv : Inv two_categories_dataset.
Proof.
  split.
  - unfold heap_ok, refs_ok; simpl; repeat split; repeat constructor.
  - unfold unique_ids. decide_closed.
Qed.

Lemma reindex_plural_keeps_references_witness :
  heap_ok two_categories_dataset ∧ unique_ids two_categories_dataset
  ∧ ∃ st', reindex_plural Images (Some [7]) two_categories_dataset = (Ok tt, st')
           ∧ Image.id (img st' 0%nat) = 7
           ∧ on_image st' 0%nat 0%nat ∧ on_image st' 1%nat 0%nat.
Proof.
  destruct two_categories_dataset_Inv as [Hh Hu].
  split; [exact Hh|]. split; [exact Hu|].
  destruct (reindex_plural_keeps_references Images (Some [7]) two_categories_dataset Hh Hu)
    as (st' & Hrun & (_ & _ & Hon & _) & _).
  - simpl. apply NoDup_singleton.
  - reflexivity.
  - discriminate.
  - exists st'. split; [exact Hrun|].
    split; [pose proof Hrun as Hst; vm_compute in Hst; by injection Hst as <-|].
    split; apply Hon; try reflexivity; decide_closed.
Defined.

(** X20.  [reindex_dataset] keeps the references between the records.  On a
    dataset whose ids are pairwise distinct it returns, and every
    annotation of an image is an annotation of that image, every image has
    the license it had, and, when every annotation has a category or
    segments, every annotation has the categories it had.  When some
    annotation has neither (a caption, say), the annotations keep the
    category ids they had, while the categories are numbered anew. *)
Theorem reindex_dataset_keeps_references (st : State) :
  heap_ok st → unique_ids st →
  ∃ st', reindex_dataset st = (Ok tt, st')
         ∧ references_kept st st'
         ∧ (annotations_categorized_or_panoptic st = false → category_ids_untouched st st').
Proof.
  intros Hh Hu.
  destruct (reindex_dataset_refers st (conj Hh Hu)) as (st' & Hrun & _ & Hk & Hc).
  by exists st'.
Qed.

Lemma reindex_dataset_keeps_references_witness :
  heap_ok two_categories_dataset ∧ unique_ids two_categories_dataset
  ∧ ∃ st', reindex_dataset two_categories_dataset = (Ok tt, st')
           ∧ on_image st' 1%nat 0%nat ∧ under_license st' 0%nat 0%nat
           ∧ in_category st' 1%nat 1%nat.
Proof.
  destruct two_categories_dataset_Inv as [Hh Hu].
  split; [exact Hh|]. split; [exact Hu|].
  destruct (reindex_dataset_keeps_references two_categories_dataset Hh Hu)
    as (st' & Hrun & (_ & _ & Hon & Hunder & Hin) & _).
  exists st'. split; [exact Hrun|]. split; [|split].
  - apply Hon; try reflexivity; decide_closed.
  - apply Hunder; try reflexivity; decide_closed.
  - apply Hin; try reflexivity; try decide_closed. unfold in_category. decide_closed.
Defined.

(** X21.  [clean_dataset] on a dataset whose ids are pairwise distinct
    returns; it leaves the records that [trim_dataset] leaves, numbered from
    0 in every collection, with no id reserved; and in the dataset it
    leaves, every image has an annotation and a license of the dataset, and
    every license is the license of an image of the dataset. *)
Theorem clean_dataset_trims_and_renumbers (st : State) :
  heap_ok st → unique_ids st →
  ∃ st', clean_dataset st = (Ok tt, st')
         ∧ heap_ok st' ∧ unique_ids st'
         ∧ (∀ c, members c st' = members c (exec trim_dataset st))
         ∧ (∀ c, Forall2 (λ l v, id_at c st' l = (λ _, v) <$> id_at c st l)
                   (members c st') (py_range (length (members c st'))))
         ∧ (∀ c, reserved_ids c st' = [])
         ∧ (∀ i, i ∈ images (self st') →
              (∃ a, a ∈ annotations (self st') ∧ on_image st' a i)
              ∧ ∃ l, l ∈ licenses (self st') ∧ under_license st' i l)
         ∧ (∀ l, l ∈ licenses (self st') →
              ∃ i, i ∈ images (self st') ∧ under_license st' i l).
Proof.
  intros Hh Hu.
  destruct (clean_dataset_result st (conj Hh Hu)) as (st' & Hrun & [Hh' Hu'] & H).
  by exists st'.
Qed.

Lemma clean_dataset_trims_and_renumbers_witness :
  heap_ok ten_images_dataset ∧ unique_ids ten_images_dataset
  ∧ ∃ st', clean_dataset ten_images_dataset = (Ok tt, st')
           ∧ images (self st') = [0%nat; 3%nat; 7%nat]
           ∧ image_ids st' = [0; 1; 2]
           ∧ ∀ i, i ∈ images (self st') → ∃ a, a ∈ annotations (self st') ∧ on_image st' a i.
Proof.
  assert (Hh : heap_ok ten_images_dataset) by apply ten_images_dataset_ready.
  assert (Hu : unique_ids ten_images_dataset) by (unfold unique_ids; decide_closed).
  split; [exact Hh|]. split; [exact Hu|].
  destruct (clean_dataset_trims_and_renumbers ten_images_dataset Hh Hu)
    as (st' & Hrun & _ & _ & Hm & _ & _ & Himg & _).
  exists st'. split; [exact Hrun|]. split; [|split].
  - change (members Images st' = [0%nat; 3%nat; 7%nat]). rewrite (Hm Images).
    vm_compute. reflexivity.
  - pose proof Hrun as Hst. vm_compute in Hst. injection Hst as <-. vm_compute. reflexivity.
  - intros i Hi. by destruct (Himg i Hi) as [Ha _].
Defined.

(** ** New license ids that are distinct and not increasing *)

(** What [reindex_license] does to the ids of the licenses and to the
    [license] of the images of the dataset. *)
Lemma reindex_license_effect (l : loc) (v : Z) (s : State) :
  (l < length (h_licenses (heap s)))%nat →
  ∃ s', reindex_license l (Some v) s = (Ok tt, s')
        ∧ self s' = self s
        ∧ length (h_licenses (heap s')) = length (h_licenses (heap s))
        ∧ length (h_images (heap s')) = length (h_images (heap s))
        ∧ (∀ x, License.id (lic s' x) = if decide (x = l) then v else License.id (lic s x))
        ∧ ∀ i, i ∈ images (self s) → (i < length (h_images (heap s)))%nat →
               Image.license (img s' i)
               = if bool_decide (Image.license (img s i) = License.id (lic s l))
                 then v else Image.license (img s i).
Proof.
  intros Hl. unfold reindex_license, st_bind, st_ret, query. simpl.
  rewrite for_each_modify. eexists. split; [reflexivity|].
  set (ls := List.filter
               (λ image, bool_decide (Image.license (img s image) = License.id (lic s l)))
               (images (self s))).
  destruct (foldl_update_image (Image.set_license v) ls s) as (E1 & E2 & E3 & E4 & E5 & E6).
  { by intros []. }
  set (s1 := foldl (λ s a, update_image a (Image.set_license v) s) s ls) in *.
  assert (Hlic : ∀ y, lic s1 y = lic s y) by (intros y; unfold lic; by rewrite E2).
  split; [done|]. split; [by simpl; rewrite length_insert, E2|]. split; [done|]. split.
  - intros x. rewrite lic_update_license, E2, !Hlic.
    destruct (decide (x = l)) as [->|Hne].
    + by rewrite decide_True.
    + rewrite decide_False; [done|]. by intros [-> _].
  - intros i Hi Hlt.
    assert (Himg : img (update_license l (License.set_id v) s1) i = img s1 i) by done.
    rewrite Himg, E6. case_bool_decide as Hb.
    + rewrite decide_True; [done|]. split; [|done]. apply elem_of_filter_list.
      split; [done|]. by apply bool_decide_eq_true.
    + rewrite decide_False; [done|]. intros [Hin _].
      apply elem_of_filter_list in Hin as [_ Hin]. by apply bool_decide_eq_true in Hin.
Qed.

Lemma reindex_licenses_merges (st : State) (l1 l2 : loc) :
  heap_ok st →
  licenses (self st) = [l1; l2] → l1 ≠ l2 →
  License.id (lic st l1) ≠ License.id (lic st l2) →
  _cached_license_ids (self st) = [] →
  ∃ st', reindex_licenses
           (Some [Z.max (License.id (lic st l1)) (License.id (lic st l2)) + 1;
                  License.id (lic st l2)]) st = (Ok tt, st')
         ∧ License.id (lic st' l1)
           = Z.max (License.id (lic st l1)) (License.id (lic st l2)) + 1
         ∧ License.id (lic st' l2) = License.id (lic st l2)
         ∧ ∀ i, i ∈ images (self st) →
                Image.license (img st i) = License.id (lic st l1)
                ∨ Image.license (img st i) = License.id (lic st l2) →
                Image.license (img st' i) = License.id (lic st l2).
Proof.
  intros Hh Hls Hne Hab Hcache.
  set (a := License.id (lic st l1)) in *. set (b := License.id (lic st l2)) in *.
  set (m := Z.max a b).
  pose proof (proj1 (heap_ok_members st) Hh) as Hlive.
  pose proof (Hlive Licenses) as HliveL. pose proof (Hlive Images) as HliveI.
  rewrite Forall_forall in HliveL, HliveI. simpl in HliveL, HliveI.
  assert (Hl1 : (l1 < length (h_licenses (heap st)))%nat).
  { apply HliveL. rewrite Hls. left. }
  assert (Hl2 : (l2 < length (h_licenses (heap st)))%nat).
  { apply HliveL. rewrite Hls. right. left. }
  assert (Hids : license_ids st = [a; b]) by (unfold license_ids; by rewrite Hls).
  (* the room for the second id *)
  destruct (next_id_step Licenses st m) as (s0 & Hnew & _ & _ & Hh0 & Hm0 & _ & Hi0 & _).
  { simpl. by rewrite Hids, Hcache. }
  simpl in Hnew.
  assert (Hl2' : (l2 < length (h_licenses (heap s0)))%nat) by (by rewrite Hh0).
  destruct (reindex_license_effect l2 (m + 1) s0 Hl2')
    as (s1 & Hrun1 & S1 & LL1 & LI1 & Hid1 & Him1).
  assert (Hl1' : (l1 < length (h_licenses (heap s1)))%nat) by (by rewrite LL1, Hh0).
  destruct (reindex_license_effect l1 (m + 1) s1 Hl1')
    as (s2 & Hrun2 & S2 & LL2 & LI2 & Hid2 & Him2).
  assert (Hl2'' : (l2 < length (h_licenses (heap s2)))%nat) by (by rewrite LL2, LL1, Hh0).
  destruct (reindex_license_effect l2 b s2 Hl2'')
    as (s3 & Hrun3 & S3 & LL3 & LI3 & Hid3 & Him3).
  assert (Hget : get_license st (VInt b) = Ok (Some l2)).
  { unfold get_license, int_in. rewrite Hids, bool_decide_eq_true_2 by (right; left).
    simpl. rewrite Hls. unfold py_next. simpl. fold a. fold b.
    by rewrite bool_decide_eq_false_2, bool_decide_eq_true_2. }
  exists s3. split; [|split; [|split]].
  - unfold reindex_licenses, st_bind at 1, read at 1. rewrite Hls. simpl.
    rewrite (st_bind_Ok _ _ st s1 tt).
    { rewrite (st_bind_Ok _ _ s1 s2 tt) by exact Hrun2.
      by rewrite (st_bind_Ok _ _ s2 s3 tt) by exact Hrun3. }
    rewrite (st_bind_Ok _ _ st st tt).
    2: { unfold st_bind, read. rewrite Hids. unfold int_in at 1.
         rewrite bool_decide_eq_false_2; [done|].
         intros [?|[?|H]%elem_of_cons]%elem_of_cons; [lia | lia | by inversion H]. }
    rewrite (st_bind_Ok _ _ st s1 tt); [done|].
    unfold st_bind at 1, read. rewrite Hids. unfold int_in at 1.
    rewrite bool_decide_eq_true_2 by (right; left). simpl.
    unfold st_bind at 1, query.
    change (if negb (int_in b (license_ids st)) then Ok None else _)
      with (get_license st (VInt b)).
    rewrite Hget. unfold st_bind at 1. rewrite Hnew. exact Hrun1.
  - rewrite Hid3, decide_False by done. rewrite Hid2. by rewrite decide_True.
  - rewrite Hid3. by rewrite decide_True.
  - intros i Hi Hcase.
    assert (Hlt : (i < length (h_images (heap st)))%nat) by (by apply HliveI).
    assert (Hi1 : i ∈ images (self s0)) by (by rewrite Hi0).
    assert (E0 : img s0 i = img st i) by (unfold img; by rewrite Hh0).
    assert (L0 : ∀ x, lic s0 x = lic st x) by (intros x; unfold lic; by rewrite Hh0).
    assert (I1 : License.id (lic s1 l1) = a ∧ License.id (lic s1 l2) = m + 1).
    { rewrite !Hid1, !L0. rewrite decide_False by done. by rewrite decide_True. }
    destruct I1 as [I11 I12].
    assert (I2 : License.id (lic s2 l2) = m + 1).
    { rewrite Hid2. by rewrite decide_False. }
    assert (A1 : Image.license (img s1 i)
                 = if bool_decide (Image.license (img st i) = b)
                   then m + 1 else Image.license (img st i)).
    { rewrite Him1; [|done | by rewrite Hh0]. by rewrite E0, L0. }
    assert (A2 : Image.license (img s2 i)
                 = if bool_decide (Image.license (img s1 i) = a)
                   then m + 1 else Image.license (img s1 i)).
    { rewrite Him2; [|by rewrite S1 | by rewrite LI1, Hh0]. by rewrite I11. }
    assert (A3 : Image.license (img s3 i)
                 = if bool_decide (Image.license (img s2 i) = m + 1)
                   then b else Image.license (img s2 i)).
    { rewrite Him3; [|by rewrite S2, S1 | by rewrite LI2, LI1, Hh0]. by rewrite I2. }
    rewrite A3, A2, A1. destruct Hcase as [->| ->].
    + rewrite (bool_decide_eq_false_2 (a = b)) by done.
      rewrite (bool_decide_eq_true_2 (a = a)) by done.
      by rewrite bool_decide_eq_true_2.
    + rewrite (bool_decide_eq_true_2 (b = b)) by done.
      rewrite (bool_decide_eq_false_2 (m + 1 = a)) by lia.
      by rewrite bool_decide_eq_true_2.
Qed.

(** X22.  For [reindex_licenses], new ids that are pairwise distinct are
    not enough.  In a dataset with two licenses and no reserved license id,
    give the first license the next free id and let the second keep its id:
    the call returns, the licenses have the ids that were asked for, and
    every image of the first license has become an image of the second.
    (Room is made for all the new ids first; the second license is moved to
    the next free id, which the first license then takes as well, and the
    images of both are handed on together.) *)
Theorem reindex_licenses_distinct_ids_merge (st : State) (l1 l2 : loc) :
  heap_ok st →
  licenses (self st) = [l1; l2] → l1 ≠ l2 →
  License.id (lic st l1) ≠ License.id (lic st l2) →
  _cached_license_ids (self st) = [] →
  ∃ st', reindex_licenses
           (Some [Z.max (License.id (lic st l1)) (License.id (lic st l2)) + 1;
                  License.id (lic st l2)]) st = (Ok tt, st')
         ∧ License.id (lic st' l1)
           = Z.max (License.id (lic st l1)) (License.id (lic st l2)) + 1
         ∧ License.id (lic st' l2) = License.id (lic st l2)
         ∧ ∀ i, i ∈ images (self st) →
                Image.license (img st i) = License.id (lic st l1)
                ∨ Image.license (img st i) = License.id (lic st l2) →
                Image.license (img st' i) = License.id (lic st l2).
Proof. apply reindex_licenses_merges. Qed.

Lemma reindex_licenses_distinct_ids_merge_witness :
  heap_ok small_dataset
  ∧ under_license small_dataset 0%nat 0%nat
  ∧ ∃ st', reindex_licenses (Some [2; 1]) small_dataset = (Ok tt, st')
           ∧ License.id (lic st' 0%nat) = 2
           ∧ under_license st' 0%nat 1%nat.
Proof.
  assert (Hh : heap_ok small_dataset)
    by (unfold heap_ok, refs_ok; simpl; repeat split; repeat constructor).
  split; [exact Hh|]. split; [reflexivity|].
  destruct (reindex_licenses_distinct_ids_merge small_dataset 0%nat 1%nat Hh)
    as (st' & Hrun & H1 & H2 & Himg); [reflexivity | done | done | reflexivity |].
  exists st'. split; [exact Hrun|]. split; [exact H1|].
  unfold under_license. rewrite H2. apply Himg; [decide_closed | by left].
Defined.

(** ** Combining *)

Lemma deepcopy_coco_extends (d : COCO) (st : State) :
  ∃ d' st', deepcopy_coco d st = (Ok d', st') ∧ extends st st'
            ∧ length (licenses d') = length (licenses d).
Proof.
  unfold deepcopy_coco.
  assert (Hlen : ∀ {A} `{Inhabited A} ls memo (h : list A),
            length (deepcopy_from memo h ls).2 = length ls).
  { intros A ? ls. induction ls as [|l ls IH]; intros memo h; simpl; [done|].
    destruct (memo_lookup memo l).
    - specialize (IH memo h). destruct (deepcopy_from memo h ls). simpl in *. by f_equal.
    - specialize (IH ((l, length h) :: memo) (h ++ [h !!! l])).
      destruct (deepcopy_from _ _ ls). simpl in *. by f_equal. }
  assert (H1 : ∃ ls s1, deepcopy_licenses (licenses d) st = (Ok ls, s1) ∧ extends st s1
                        ∧ length ls = length (licenses d)).
  { unfold deepcopy_licenses.
    pose proof (deepcopy_from_prefix (licenses d) [] (h_licenses (heap st))) as Hp.
    pose proof (Hlen _ _ (licenses d) [] (h_licenses (heap st))) as Hl.
    destruct (deepcopy_from [] (h_licenses (heap st)) (licenses d)) as [h' copies].
    eexists _, _. split; [reflexivity|]. split; [by repeat split | done]. }
  destruct H1 as (ls & s1 & Hrun1 & He1 & Hl1).
  rewrite (st_bind_Ok _ _ st s1 ls) by exact Hrun1.
  assert (H2 : ∃ cs s2, match categories d with
                        | Some cs => st_bind (deepcopy_categories cs) (λ copies, st_ret (Some copies))
                        | None => st_ret None
                        end s1 = (Ok cs, s2) ∧ extends s1 s2).
  { destruct (categories d) as [cs|].
    - destruct (deepcopy_categories_extends cs s1) as (copies & s2 & Hrun & He).
      exists (Some copies), s2. by rewrite (st_bind_Ok _ _ s1 s2 copies).
    - exists None, s1. split; [done|]. by repeat split. }
  destruct H2 as (cs & s2 & Hrun2 & He2).
  rewrite (st_bind_Ok _ _ s1 s2 cs) by exact Hrun2.
  assert (H3 : ∃ is_ s3, deepcopy_images (images d) s2 = (Ok is_, s3) ∧ extends s2 s3).
  { unfold deepcopy_images.
    pose proof (deepcopy_from_prefix (images d) [] (h_images (heap s2))) as Hp.
    destruct (deepcopy_from [] (h_images (heap s2)) (images d)) as [h' copies].
    eexists _, _. split; [reflexivity|]. by repeat split. }
  destruct H3 as (is_ & s3 & Hrun3 & He3).
  rewrite (st_bind_Ok _ _ s2 s3 is_) by exact Hrun3.
  assert (H4 : ∃ as_ s4, deepcopy_annotations (annotations d) s3 = (Ok as_, s4)
                         ∧ extends s3 s4).
  { unfold deepcopy_annotations.
    pose proof (deepcopy_from_prefix (annotations d) [] (h_annotations (heap s3))) as Hp.
    destruct (deepcopy_from [] (h_annotations (heap s3)) (annotations d)) as [h' copies].
    eexists _, _. split; [reflexivity|]. by repeat split. }
  destruct H4 as (as_ & s4 & Hrun4 & He4).
  rewrite (st_bind_Ok _ _ s3 s4 as_) by exact Hrun4.
  eexists _, s4. split; [reflexivity|]. split; [|done].
  clear -He1 He2 He3 He4.
  destruct He1 as (E1 & A1 & B1 & C1 & D1), He2 as (E2 & A2 & B2 & C2 & D2),
    He3 as (E3 & A3 & B3 & C3 & D3), He4 as (E4 & A4 & B4 & C4 & D4).
  split; [congruence|]. repeat split; repeat (etransitivity; [eassumption|]); done.
Qed.

Lemma combine_without_licenses (d : COCO) (ignore_duplicates : bool) (st : State) :
  licenses d ≠ [] → licenses (self st) = [] → _cached_license_ids (self st) = [] →
  ∃ st', combine d ignore_duplicates st = (Raise ValueError, st') ∧ extends st st'.
Proof.
  intros Hd Hself Hcache.
  destruct (deepcopy_coco_extends d st) as (d' & s1 & Hcopy & He & Hlen).
  exists s1. split; [|done]. unfold combine.
  rewrite (st_bind_Ok _ _ st s1 d') by exact Hcopy.
  apply st_bind_Ok_raise. unfold combine_licenses. apply st_bind_Ok_raise.
  destruct (licenses d') as [|l ls] eqn:Hls.
  { destruct (licenses d); [done | discriminate Hlen]. }
  simpl. apply st_bind_Ok_raise.
  assert (Hs1 : self s1 = self st) by apply He.
  unfold st_bind, read, license_names. rewrite Hs1, Hself. simpl.
  rewrite andb_false_r.
  unfold get_new_license_id, get_new_id, license_ids. by rewrite Hs1, Hself, Hcache.
Qed.

(** *** A method that runs on a copy leaves the other objects alone *)










(** *** The deep copy of a dataset *)




(** *** The ids that are drawn for the copies *)






(** *** One stage of [combine] *)

Lemma set_self_self (s : State) : set_self (self s) s = s.
Proof. by destruct s. Qed.






(** *** The stages of [combine] when duplicates are ignored *)






(** *** From stage to stage *)






(** *** [combine] when duplicates are ignored *)




(** X24.  [combine] into a dataset without licenses.  When the other
    dataset has a license and the dataset has none, and no license id is
    reserved, [combine] raises [ValueError], with [ignore_duplicates] or
    without: the id for the first license is drawn from the dataset, whose
    ids have no maximum.  The dataset is as it was; the heap has grown by
    the copy. *)
Theorem combine_into_dataset_without_licenses (d : COCO) (ignore_duplicates : bool)
    (st : State) :
  licenses d ≠ [] → licenses (self st) = [] → _cached_license_ids (self st) = [] →
  ∃ st', combine d ignore_duplicates st = (Raise ValueError, st') ∧ extends st st'.
Proof. apply combine_without_licenses. Qed.

Lemma combine_into_dataset_without_licenses_witness :
  licenses (self caption_dataset) ≠ []
  ∧ ∃ st', combine (self caption_dataset) false empty_dataset = (Raise ValueError, st')
           ∧ self st' = self empty_dataset.
Proof.
  split; [done|].
  destruct (combine_into_dataset_without_licenses (self caption_dataset) false empty_dataset)
    as (st' & Hrun & He); [done | reflexivity | reflexivity |].
  exists st'. split; [exact Hrun | apply He].
Defined.
